(* ===== verification/_CoqProject ===== *)
-Q . S2P
Prelude.v
GoStd.v
Errors.v
Effects.v
Stellar.v
SdkDemo.v
Signatures.v
ReadChallenge.v
Verify.v
Interleaving.v
Schema.v
Store.v
StoreAdmin.v
Token.v
Challenge.v
Http.v
Account.v
ClientDomain.v
World.v
HttpApi.v
Binary64.v
RateLimit.v
GoText.v
Config.v
Router.v
Budget.v
Authd.v
System.v
Termination.v
Scenario.v
