(* ===== verification/Prelude.v ===== *)
(** * Anchorage: a verification development (root file)

    Anchorage (src/) is a server for SEP-10, Stellar Web Authentication: GET /auth
    hands out a challenge, a transaction the client cannot submit; POST /auth
    takes it back signed, spends its nonce, verifies the signatures against the
    signers of the account on the network, and answers with a JWT.  This library
    models the server of one commit, from the check of one signature to the
    process that serves requests at once, and proves what makes it correct.

    ** How the code is modelled

    A Go function that computes is a function to [result error A].  A function
    that reads the clock, runs a SQL statement, makes a request or writes a
    response is a program [prog S A] (Effects.v): a tree of the operations of
    the signature [S], continued with whatever the world answers.  [runs p tr a]
    says that [p] returned [a] after the operations and answers [tr], [steps]
    that it got so far; the world is not modelled in a program, so a theorem on
    all [tr] holds for every failure the world may answer with.  Goroutines are
    interleavings of programs (Interleaving.v), one operation at a time; a
    section under a mutex and a SQL statement are one operation each.
    Integers wrap at their width, a time is a number of nanoseconds in an int64
    and a string is a list of bytes.

    The Stellar SDK, golang-jwt, pgx, golang-migrate, chi, the JSON, TOML, form
    and URL decoders and the network are code the sources call.  Each is a
    class of the operations that are called; the laws a theorem relies on are a
    class beside it, one documented fact per field ([SDKLaws], [JWTLaws],
    [ChiLaws], ...).  Every law class has an instance (SdkDemo.v and the ends of
    the files), and the witness of a theorem applies it to a run of the model on
    those instances.  The Go standard library is modelled as far as it is used:
    GoStd.v and GoText.v follow its sources, Binary64.v is float64.

    ** Files and what they model

    - Prelude.v: results, guards, tactics, lemmas on lists and options.
    - GoStd.v, GoText.v, Binary64.v: integers, time, strconv, strings, base64;
      TrimSpace, ReplaceAll, SplitHostPort, ParseDuration; doubles with rounding.
    - Errors.v: internal/auth/errors.go, error values and errors.Is.
    - Effects.v, Interleaving.v, Budget.v: programs, runs, embeddings, pools of
      programs, and what a program has to earn before it spends.
    - Stellar.v, SdkDemo.v: the interface to the SDK, and a small SDK.
    - Signatures.v: internal/auth/signatures.go ([matchSigners]).
    - ReadChallenge.v: internal/auth/read.go ([ReadChallenge]).
    - Verify.v: internal/auth/verify.go ([VerifyClient], [verifySigners]).
    - Challenge.v: internal/auth/challenge.go ([NewIssuer], [Issue]).
    - Schema.v: internal/store/migrations and the SQL text of postgres.go: the
      tables as finite maps, one case of [exec] per statement.
    - Store.v: internal/store/postgres.go and the records of store.go: every
      call on the tables, as the statements it runs.
    - StoreAdmin.v: [Open], [Ping], [Migrate], [migrationURL] and the cleanup loop.
    - Token.v: internal/token/jwt.go.
    - Http.v, Account.v: internal/account/fetcher.go over HTTP responses.
    - ClientDomain.v: internal/clientdomain/resolver.go, its cache and the
      redirect loop of net/http under its policy.
    - World.v: the operations of the whole server, in which those of the parts
      embed.
    - HttpApi.v: internal/httpapi/respond.go, auth_handler.go, health_handler.go
      and the handler of toml_handler.go.
    - RateLimit.v: the token bucket of internal/httpapi/middleware.go.
    - Router.v: the middleware chain, [loadTOML] and internal/httpapi/router.go.
    - Config.v: internal/config/config.go.
    - Authd.v: cmd/authd/main.go.
    - System.v, Termination.v: the server as a whole, requests at once over one
      database, one resolver cache and one limiter.
    - Scenario.v: a login run through the whole server, and the witnesses of the
      theorems that need one.

    The components meet as they do in the code.  [postAuthHandler] calls
    [ReadChallenge], then the [ChallengeStore] it was given, then [VerifyClient]
    with the account fetcher it was given, then [Token.Issue]; [Challenge.Issue]
    takes the resolver as an argument.  Authd.v gives them the store, the
    fetcher and the resolver of the repository, [NewRouter] mounts the handlers
    behind the chain, and System.v runs the result.

    ** What is proved

    - The server: a nonce that is drawn once buys one token at most, in any
      interleaving and with any statement failing; a token is for the account
      and client domain some GET recorded the nonce for, unexpired, and every
      check was passed; no Horizon request is made without a challenge spent
      first; an address is served sixty requests and one a second, and nothing
      is done for the others; every request to a route ends, within the number
      of operations of its route's longest run (14 for /health, 24 for GET /auth,
      19 for POST /auth, 13 for the SEP-1 file); the /auth handlers work without
      writing and then answer exactly once, with the answer of the step that
      failed.
    - Verification: who must have signed when [VerifyClient] succeeds, that the
      client domain's key never suffices, that an outage is never reported as a
      missing account or a bad signature, exact weights in int32, independence
      of Go's map order, exactness of the pairing of signatures with signers.
    - Challenges: [ReadChallenge] decides a declarative specification, and which
      error it returns is decided by the first fault; what [Issue] returns it
      accepts, with the fields issued, but for a client domain that publishes
      the server's own key, which [Issue] does not check; how [Issue] fails, by
      the answers of the resolver and of the builder.
    - The store: consuming is at most once, refines a specification on one row,
      round-trips with recording, and is not changed by sweeps; sessions stay;
      rows of the migrated schema scan; the cleanup loop.
    - Tokens round-trip until they expire; which tokens [Parse] accepts, which
      it reports as expired and which as invalid, exactly.
    - Fetching: error classes of the fetcher, bounds on the requests and the
      cache of the resolver, however many requests resolve at once.
    - The process: a configuration that loads starts; the pool is closed and
      signals are released on every path; every error of [Load] is one of a list
      made from the public variables; a panic of a handler ends in a 500 and a
      log line.

    ** Bounds and fuel

    The redirect loop of net/http takes fuel ten, its own limit without a policy;
    the resolver's policy stops it at three requests ([client_Do_fuel]).  The
    cleanup loop takes the number of ticks it is watched for, so its theorem
    holds for every such number.  The text functions take the length of their
    input.  [FormatUint] takes enough for 64 bits ([ParseUint_FormatUint]).
    The bound of the limiter is up to the rounding of float64, 5 * 2^-46 a
    request for doubles, and holds in whatever order requests take the lock as
    long as no clock reading is nine minutes older than one the limiter has seen:
    a bucket is dropped after ten minutes and refills in one.  Of the map
    iteration orders of Go, every permutation is covered by a parameter.

    ** Not modelled

    - internal/log: one call that builds a slog logger.  What is logged is an
      operation where it is logged.
    - Contexts: cancellation and timeouts are answers of the operations they
      interrupt (a failed statement, a failed request, the end of a wait).
    - What net/http does around a handler, chi's matching of patterns with
      parameters (none is used), TCP, TLS and the drain of Shutdown, which is an
      operation.
    - The one expression of [Challenge.Issue] that could panic, an index into
      the operations of a built transaction, is an error value there.
    - Postgres beyond the statements the store runs: each touches one row by its
      key, or is a single DELETE, and is taken to be atomic.
    - Infinities and NaN: no operation of the limiter leaves the finite doubles.
    - Tests, documents and build files. *)

From Stdlib Require Export Ascii ZArith Lia.
From stdpp Require Export base tactics option gmap strings sorting numbers.
From stdpp Require Export list.

#[global] Set Default Goal Selector "!".

(** ** Results: the [(value, error)] pairs of Go

    A Go function that returns [(T, error)] returns a [result error T]: the
    source never reads the value when the error is not nil, nor the reverse. *)

Inductive result (E A : Type) : Type :=
| Ok (a : A)
| Err (e : E).
Arguments Ok {E A} _.
Arguments Err {E A} _.

Definition result_bind {E A B} (f : A → result E B) (r : result E A) : result E B :=
  match r with Ok a => f a | Err e => Err e end.

(** [if err != nil { return nil, g(err) }]: translate the error, keep the value. *)
Definition map_err {E F A} (g : E → F) (r : result E A) : result F A :=
  match r with Ok a => Ok a | Err e => Err (g e) end.

Definition is_ok {E A} (r : result E A) : bool :=
  match r with Ok _ => true | Err _ => false end.

(** A call that reports failure with [ok == false] or an error nobody inspects. *)
Definition or_err {E A} (e : E) (o : option A) : result E A :=
  match o with Some a => Ok a | None => Err e end.

Declare Scope go_scope.
Delimit Scope go_scope with go.
Open Scope go_scope.

Notation "'let?' x ':=' r 'in' k" := (result_bind (fun x => k) r)
  (at level 10, x pattern, r at level 100, k at level 200) : go_scope.

(** [if cond { return nil, err }] followed by the rest of the function. *)
Notation "'fail_if' c 'with' e ';;' k" := (if c then Err e else k)
  (at level 10, c at level 99, e at level 99, k at level 200) : go_scope.

(** ** Go strings and byte slices

    A Go string is a sequence of bytes; so is a [[]byte].  Both are [string]
    here, whose characters are bytes. *)

Definition bytes := string.

#[global] Instance result_eq_dec {E A} `{EqDecision E, EqDecision A} : EqDecision (result E A).
Proof. solve_decision. Defined.

(** [==] on strings. *)
Notation "s =s t" := (bool_decide (s =@{string} t)) (at level 35) : go_scope.
Notation "s <>s t" := (negb (bool_decide (s =@{string} t))) (at level 35) : go_scope.

(** [len(s)], as a Go [int]. *)
Definition len (s : string) : Z := Z.of_nat (String.length s).

(** ** Automation *)

Create HintDb anchorage.
Create Rewrite HintDb anchorage.

(** Case analysis on the guards and calls of a function body, in a hypothesis
    that says what the body returned; the impossible branches disappear. *)
Ltac inv_body H :=
  repeat (simpl in H; first
    [ discriminate H
    | match type of H with
      | Ok _ = Ok _ => injection H as H
      | Err _ = Err _ => injection H as H
      | result_bind _ ?r = _ => let E := fresh "Hcall" in destruct r eqn:E
      | (if ?c then _ else _) = _ => let E := fresh "Hguard" in destruct c eqn:E
      | match ?x with _ => _ end = _ => let E := fresh "Hcase" in destruct x eqn:E
      | context [match ?x with _ => _ end] => let E := fresh "Hcase" in destruct x eqn:E
      end ]).

(** Boolean guards to propositions. *)
Ltac reflect_guards :=
  repeat match goal with
    | H : _ && _ = true |- _ => apply andb_true_iff in H as [? ?]
    | H : _ || _ = false |- _ => apply orb_false_iff in H as [? ?]
    | H : negb _ = true |- _ => apply negb_true_iff in H
    | H : negb _ = false |- _ => apply negb_false_iff in H
    | H : bool_decide _ = true |- _ => apply bool_decide_eq_true in H
    | H : bool_decide _ = false |- _ => apply bool_decide_eq_false in H
    | H : (_ <? _)%Z = true |- _ => apply Z.ltb_lt in H
    | H : (_ <? _)%Z = false |- _ => apply Z.ltb_ge in H
    | H : (_ <=? _)%Z = true |- _ => apply Z.leb_le in H
    | H : (_ <=? _)%Z = false |- _ => apply Z.leb_gt in H
    | H : (_ =? _)%Z = true |- _ => apply Z.eqb_eq in H
    | H : (_ =? _)%Z = false |- _ => apply Z.eqb_neq in H
    end.

(** Rewrites the guards of the goal with the facts of the context. *)
Ltac step_guard :=
  match goal with
  | H : ?c = ?b |- context [if ?c then _ else _] => rewrite H
  | H : ?r = Ok _ |- context [result_bind _ ?r] => rewrite H; simpl
  | H : ?r = Err _ |- context [result_bind _ ?r] => rewrite H; simpl
  | H : ?P |- context [bool_decide ?P] => rewrite (bool_decide_eq_true_2 P H); simpl
  | H : ¬ ?P |- context [bool_decide ?P] => rewrite (bool_decide_eq_false_2 P H); simpl
  end.

(** ** Lemmas on results *)

Lemma bind_ok {E A B} (f : A → result E B) r b :
  result_bind f r = Ok b ↔ ∃ a, r = Ok a ∧ f a = Ok b.
Proof. destruct r; simpl; naive_solver. Qed.

Lemma bind_err {E A B} (f : A → result E B) r e :
  result_bind f r = Err e ↔ r = Err e ∨ ∃ a, r = Ok a ∧ f a = Err e.
Proof. destruct r; simpl; naive_solver. Qed.

Lemma map_err_ok {E F A} (g : E → F) (r : result E A) a :
  map_err g r = Ok a ↔ r = Ok a.
Proof. destruct r; simpl; naive_solver. Qed.

Lemma map_err_err {E F A} (g : E → F) (r : result E A) e :
  map_err g r = Err e ↔ ∃ e', r = Err e' ∧ e = g e'.
Proof. destruct r; simpl; naive_solver. Qed.

Lemma or_err_ok {E A} (e : E) (o : option A) a : or_err e o = Ok a ↔ o = Some a.
Proof. destruct o; simpl; naive_solver. Qed.

Lemma fail_if_ok {E A} (c : bool) (e : E) (k : result E A) a :
  (if c then Err e else k) = Ok a ↔ c = false ∧ k = Ok a.
Proof. destruct c; naive_solver. Qed.

Lemma or_err_err {E A} (e : E) (o : option A) e' : or_err e o = Err e' ↔ o = None ∧ e' = e.
Proof. destruct o; simpl; naive_solver. Qed.

Lemma fail_if_err {E A} (c : bool) (e : E) (k : result E A) e' :
  (if c then Err e else k) = Err e' ↔ (c = true ∧ e' = e) ∨ (c = false ∧ k = Err e').
Proof. destruct c; naive_solver. Qed.

(** The calls and guards of a function body that returned, one at a time. *)
Ltac body_ok H :=
  repeat first
    [ apply bind_ok in H as (? & ? & H)
    | apply fail_if_ok in H as [? H] ].

#[export] Hint Rewrite @bind_ok @map_err_ok @or_err_ok @fail_if_ok : anchorage.

(** ** Lemmas on strings *)

Lemma len_nonneg s : (0 ≤ len s)%Z.
Proof. unfold len. lia. Qed.

Lemma len_zero s : len s = 0%Z ↔ s = ""%string.
Proof. unfold len. destruct s; simpl; split; intros; first [done | lia]. Qed.

Lemma string_app_length s t : String.length (s +:+ t) = String.length s + String.length t.
Proof. induction s as [|c s IH]; simpl; [done | by f_equal]. Qed.

Lemma string_app_cons c s t : String c s +:+ t = String c (s +:+ t).
Proof. done. Qed.

Lemma string_app_nil_l t : "" +:+ t = t.
Proof. done. Qed.

Lemma string_app_nil_r t : t +:+ "" = t.
Proof. induction t as [|c t IH]; [done|]. by rewrite string_app_cons, IH. Qed.

Lemma string_app_assoc s t u : (s +:+ t) +:+ u = s +:+ (t +:+ u).
Proof.
  induction s as [|c s IH]; [done|]. by rewrite !string_app_cons, IH.
Qed.

Lemma string_app_inj_r s1 s2 t : s1 +:+ t = s2 +:+ t → s1 = s2.
Proof.
  revert s2. induction s1 as [|c s1 IH]; intros [|c' s2] H; [done | | |].
  1,2: apply (f_equal String.length) in H; rewrite !string_app_length in H; simpl in H; lia.
  rewrite !string_app_cons in H. injection H as -> H. f_equal. by apply IH.
Qed.

(** ** Lemmas on lists *)

Lemma filter_all {A} (P : A → Prop) `{∀ x, Decision (P x)} l : Forall P l → filter P l = l.
Proof.
  induction 1 as [|x l Hx Hl IH]; [done|]. by rewrite filter_cons_True, IH.
Qed.

Lemma filter_full {A} (P : A → Prop) `{∀ x, Decision (P x)} l :
  length (filter P l) = length l → filter P l = l.
Proof.
  intros Hl. apply filter_all, Forall_forall. intros x Hx.
  destruct (decide (P x)); [done|].
  pose proof (length_filter_lt P l x Hx n). lia.
Qed.
