(* ===== verification/GoStd.v ===== *)
(** * The Go standard library, as far as the sources use it

    Machine integers with their wrap-around, [time], [strconv], [strings],
    [sort] and [encoding/base64].  Each function follows the published behaviour
    of the Go function of that name. *)

From S2P Require Import Prelude.

(** ** Machine integers *)

(** [int32(z)] and [int64(z)]: two's complement truncation. *)
Definition int32 (z : Z) : Z := ((z + 2^31) mod 2^32 - 2^31)%Z.
Definition int64 (z : Z) : Z := ((z + 2^63) mod 2^64 - 2^63)%Z.
Definition uint64_max : Z := (2^64 - 1)%Z.
Definition int64_max : Z := (2^63 - 1)%Z.
Definition int64_min : Z := (- 2^63)%Z.

(** ** Package [time]

    A [time.Time] is the number of nanoseconds since the Unix epoch; a
    [time.Duration] is an [int64] number of nanoseconds. *)

Definition Second : Z := 1000000000.
Definition Minute : Z := (60 * Second)%Z.
Definition Hour : Z := (60 * Minute)%Z.

(** [t.Unix()]: whole seconds, rounded down. *)
Definition Unix (t : Z) : Z := (t / Second)%Z.
(** [time.Unix(sec, 0)]. *)
Definition fromUnix (sec : Z) : Z := (sec * Second)%Z.
(** [t.Sub(u)] saturates at the ends of [Duration]. *)
Definition Sub (t u : Z) : Z := Z.max int64_min (Z.min int64_max (t - u))%Z.
(** [t.Add(d)], [t.Before(u)]. *)
Definition Add (t d : Z) : Z := (t + d)%Z.
Definition Before (t u : Z) : bool := (t <? u)%Z.

(** ** Package [strconv] *)

Definition digit_val (c : ascii) : option Z :=
  let n := Z.of_nat (Ascii.nat_of_ascii c) in
  if ((48 <=? n) && (n <=? 57))%Z then Some (n - 48)%Z else None.

Definition digit_char (d : Z) : ascii := Ascii.ascii_of_nat (Z.to_nat (d + 48)).

(** The loop of [strconv.ParseUint(s, 10, 64)]: a character that is not a
    decimal digit is a syntax error, a value past [maxUint64] a range error. *)
Definition parse_cutoff : Z := (uint64_max / 10 + 1)%Z.

Fixpoint ParseUint_loop (n : Z) (s : string) : option Z :=
  match s with
  | EmptyString => Some n
  | String c s' =>
      match digit_val c with
      | None => None
      | Some d =>
          if (parse_cutoff <=? n)%Z then None
          else if (uint64_max <? n * 10 + d)%Z then None
          else ParseUint_loop (n * 10 + d)%Z s'
      end
  end.

Definition ParseUint (s : string) : option Z :=
  match s with EmptyString => None | _ => ParseUint_loop 0 s end.

(** [strconv.FormatUint(n, 10)]: digits are produced from the least
    significant; twenty of them cover every [uint64]. *)
Fixpoint FormatUint_loop (fuel : nat) (n : Z) (acc : string) : string :=
  match fuel with
  | O => acc
  | S fuel =>
      let acc := String (digit_char (n mod 10)) acc in
      if (n <? 10)%Z then acc else FormatUint_loop fuel (n / 10) acc
  end.

Definition FormatUint (n : Z) : string := FormatUint_loop 20 n "".

(** [strconv.ParseBool]. *)
Definition ParseBool (s : string) : option bool :=
  if bool_decide (s ∈ ["1"; "t"; "T"; "true"; "TRUE"; "True"]) then Some true
  else if bool_decide (s ∈ ["0"; "f"; "F"; "false"; "FALSE"; "False"]) then Some false
  else None.

(** ** Package [sort]: [sort.Strings], bytewise order *)

Definition SortStrings (l : list string) : list string := merge_sort String.le l.

(** ** Package [encoding/base64]: [StdEncoding.DecodeString] *)

(** The value of a character of the standard alphabet. *)
Definition base64_val (c : ascii) : option Z :=
  let n := Z.of_nat (Ascii.nat_of_ascii c) in
  if ((65 <=? n) && (n <=? 90))%Z then Some (n - 65)%Z            (* A-Z *)
  else if ((97 <=? n) && (n <=? 122))%Z then Some (n - 71)%Z      (* a-z *)
  else if ((48 <=? n) && (n <=? 57))%Z then Some (n + 4)%Z        (* 0-9 *)
  else if (n =? 43)%Z then Some 62%Z                              (* + *)
  else if (n =? 47)%Z then Some 63%Z                              (* / *)
  else None.

Definition is_pad (c : ascii) : bool := bool_decide (Ascii.nat_of_ascii c = 61).
(** The decoder skips carriage returns and line feeds wherever they stand. *)
Definition is_newline (c : ascii) : bool :=
  bool_decide (Ascii.nat_of_ascii c = 10) || bool_decide (Ascii.nat_of_ascii c = 13).

Definition byte_of (z : Z) : ascii := Ascii.ascii_of_nat (Z.to_nat (z mod 256)).

(** One four-character quantum after another; padding only at the very end. *)
Fixpoint base64_quanta (l : list ascii) : option (list ascii) :=
  match l with
  | [] => Some []
  | a :: b :: c :: d :: rest =>
      match base64_val a, base64_val b with
      | Some x, Some y =>
          let b0 := byte_of (x * 4 + y / 16) in
          match base64_val c, base64_val d with
          | Some z, Some w =>
              let b1 := byte_of (y * 16 + z / 4) in
              let b2 := byte_of (z * 64 + w) in
              (λ out, b0 :: b1 :: b2 :: out) <$> base64_quanta rest
          | Some z, None =>
              if is_pad d && bool_decide (rest = [])
              then Some [b0; byte_of (y * 16 + z / 4)] else None
          | None, _ =>
              if is_pad c && is_pad d && bool_decide (rest = [])
              then Some [b0] else None
          end
      | _, _ => None
      end
  | _ => None
  end.

Definition DecodeString (s : string) : option string :=
  String.string_of_list_ascii <$>
    base64_quanta (filter (λ c, is_newline c = false) (String.list_ascii_of_string s)).

(** ** Package [strings] *)

(** [strings.Split(s, ",")] for a one-byte separator. *)
Fixpoint Split_go (sep : ascii) (cur : string) (s : string) : list string :=
  match s with
  | EmptyString => [cur]
  | String c s' =>
      if bool_decide (c = sep) then cur :: Split_go sep "" s'
      else Split_go sep (cur +:+ String c "") s'
  end.
Definition Split (s : string) (sep : ascii) : list string := Split_go sep "" s.

(** ** Lemmas: machine integers *)

Lemma int32_id z : (- 2^31 ≤ z < 2^31)%Z → int32 z = z.
Proof. intros. unfold int32. rewrite Z.mod_small; lia. Qed.

Lemma int64_id z : (- 2^63 ≤ z < 2^63)%Z → int64 z = z.
Proof. intros. unfold int64. rewrite Z.mod_small; lia. Qed.

Lemma int32_range z : (- 2^31 ≤ int32 z < 2^31)%Z.
Proof. unfold int32. pose proof (Z.mod_pos_bound (z + 2^31) (2^32)). lia. Qed.

Lemma int32_add_l a b : int32 (int32 a + b) = int32 (a + b).
Proof.
  unfold int32.
  replace ((a + 2^31) mod 2^32 - 2^31 + b + 2^31)%Z with ((a + 2^31) mod 2^32 + b)%Z by lia.
  rewrite Zplus_mod_idemp_l. do 2 f_equal. lia.
Qed.

(** ** Lemmas: [strconv] round trip *)

Lemma digit_val_char d : (0 ≤ d < 10)%Z → digit_val (digit_char d) = Some d.
Proof.
  intros. unfold digit_val, digit_char.
  rewrite Ascii.nat_ascii_embedding by lia.
  rewrite Z2Nat.id by lia.
  destruct ((48 <=? d + 48) && (d + 48 <=? 57))%Z eqn:E; [f_equal; lia | lia].
Qed.

(** One digit read by the loop, when the value so far and after are in range. *)
Lemma ParseUint_loop_digit m d s :
  (0 ≤ m)%Z → (0 ≤ d < 10)%Z → (m * 10 + d ≤ uint64_max)%Z →
  ParseUint_loop m (String (digit_char d) s) = ParseUint_loop (m * 10 + d) s.
Proof.
  intros. cbn [ParseUint_loop]. rewrite digit_val_char by done.
  destruct (Z.leb_spec parse_cutoff m).
  { exfalso. change parse_cutoff with 1844674407370955162%Z in *.
    change uint64_max with 18446744073709551615%Z in *. lia. }
  by destruct (Z.ltb_spec uint64_max (m * 10 + d)); [lia|].
Qed.

(** Reading the digits of [n] after a prefix of value [m] gives [m * 10^k + n]. *)
Lemma ParseUint_FormatUint_loop fuel n acc :
  (0 ≤ n < 10 ^ Z.of_nat (S fuel))%Z →
  ∃ k : nat, ∀ m, (0 ≤ m)%Z → (m * 10 ^ Z.of_nat k + n ≤ uint64_max)%Z →
    ParseUint_loop m (FormatUint_loop (S fuel) n acc)
      = ParseUint_loop (m * 10 ^ Z.of_nat k + n) acc.
Proof.
  revert n acc. induction fuel as [|fuel IH]; intros n acc Hn.
  - exists 1. intros m Hm Hmax. change (10 ^ Z.of_nat 1)%Z with 10%Z in *.
    cbn [FormatUint_loop]. destruct (Z.ltb_spec n 10); [|lia].
    rewrite Z.mod_small by lia. apply ParseUint_loop_digit; lia.
  - cbn [FormatUint_loop]. fold FormatUint_loop. destruct (Z.ltb_spec n 10).
    { exists 1. intros m Hm Hmax. change (10 ^ Z.of_nat 1)%Z with 10%Z in *.
      rewrite Z.mod_small by lia. apply ParseUint_loop_digit; lia. }
    pose proof (Z.div_mod n 10). pose proof (Z.mod_pos_bound n 10).
    destruct (IH (n / 10)%Z (String (digit_char (n mod 10)) acc)) as [k Hk].
    { rewrite Nat2Z.inj_succ, Z.pow_succ_r in Hn by lia. lia. }
    exists (S k). intros m Hm Hmax.
    rewrite Nat2Z.inj_succ, Z.pow_succ_r in * by lia.
    cbn [FormatUint_loop] in Hk. rewrite Hk by nia.
    rewrite ParseUint_loop_digit by nia. f_equal. nia.
Qed.

(** [ParseUint(FormatUint(n))] is [n], for every [uint64]. *)
Lemma ParseUint_FormatUint n :
  (0 ≤ n ≤ uint64_max)%Z → ParseUint (FormatUint n) = Some n.
Proof.
  intros Hn. unfold FormatUint.
  destruct (ParseUint_FormatUint_loop 19 n "") as [k Hk]; [unfold uint64_max in *; lia|].
  specialize (Hk 0%Z). rewrite Z.mul_0_l, Z.add_0_l in Hk.
  assert (FormatUint_loop 20 n "" ≠ "") as Hne.
  { cbn [FormatUint_loop]. generalize (digit_char (n mod 10)). intros c.
    assert (∀ f m acc, acc ≠ ""%string → FormatUint_loop f m acc ≠ ""%string) as Hgo.
    { induction f as [|f IHf]; intros m acc Ha; cbn [FormatUint_loop]; [done|].
      case_match; [done|]. by apply IHf. }
    case_match; [done|]. by apply (Hgo 19). }
  unfold ParseUint. destruct (FormatUint_loop 20 n ""); [done|].
  rewrite Hk by lia. done.
Qed.

Lemma FormatUint_inj n m :
  (0 ≤ n ≤ uint64_max)%Z → (0 ≤ m ≤ uint64_max)%Z → FormatUint n = FormatUint m → n = m.
Proof.
  intros Hn Hm H. apply (f_equal ParseUint) in H.
  rewrite !ParseUint_FormatUint in H by done. by injection H.
Qed.

Lemma digit_val_range c d : digit_val c = Some d → (0 ≤ d < 10)%Z.
Proof. unfold digit_val. case_match eqn:E; [|done]. intros [= <-]. lia. Qed.

(** What [ParseUint] accepts is a [uint64]. *)
Lemma ParseUint_range s n : ParseUint s = Some n → (0 ≤ n ≤ uint64_max)%Z.
Proof.
  assert (∀ s m, (0 ≤ m ≤ uint64_max)%Z → ParseUint_loop m s = Some n →
    (0 ≤ n ≤ uint64_max)%Z) as Hgo.
  { induction s0 as [|c s0 IH]; intros m Hm H; cbn [ParseUint_loop] in H; [congruence|].
    destruct (digit_val c) as [d|] eqn:Hd; [|done]. apply digit_val_range in Hd.
    destruct (Z.leb_spec parse_cutoff m); [done|].
    destruct (Z.ltb_spec uint64_max (m * 10 + d)); [done|]. eapply IH; [|done]. lia. }
  destruct s; [done|]. intros H. eapply Hgo; [|done]. done.
Qed.

(** ** Lemmas: [sort.Strings] *)

Lemma SortStrings_Permutation l : SortStrings l ≡ₚ l.
Proof. apply merge_sort_Permutation. Qed.

(** Sorting forgets the order its input came in. *)
Lemma SortStrings_unique l1 l2 : l1 ≡ₚ l2 → SortStrings l1 = SortStrings l2.
Proof.
  intros Hp. unfold SortStrings.
  apply (StronglySorted_unique String.le).
  1,2: by apply StronglySorted_merge_sort; apply _.
  apply (Permutation_trans (merge_sort_Permutation String.le l1)), (Permutation_trans Hp).
  apply Permutation_sym, merge_sort_Permutation.
Qed.

#[export] Instance SortStrings_Proper : Proper ((≡ₚ) ==> (=)) SortStrings.
Proof. intros l1 l2. apply SortStrings_unique. Qed.

(** ** Lemmas: base64 *)

Lemma base64_val_not_newline c v : base64_val c = Some v → is_newline c = false.
Proof.
  unfold base64_val, is_newline. intros H.
  destruct (bool_decide_reflect (Ascii.nat_of_ascii c = 10)) as [E|];
    [rewrite E in H; done|].
  by destruct (bool_decide_reflect (Ascii.nat_of_ascii c = 13)) as [E|];
    [rewrite E in H|].
Qed.

(** The decoder yields three bytes per quantum and fewer only under padding. *)
Lemma base64_quanta_length l out :
  base64_quanta l = Some out → (4 * length out ≤ 3 * length l)%nat.
Proof.
  revert out. induction l as [l IH] using (induction_ltof1 _ (@length ascii)); intros out H.
  destruct l as [|a [|b [|c [|d rest]]]]; simpl in H; try done.
  { by injection H as <-. }
  destruct (base64_val a), (base64_val b); try done.
  destruct (base64_val c), (base64_val d).
  - apply fmap_Some in H as (o & Ho & ->).
    apply IH in Ho; [simpl; lia | unfold ltof; simpl; lia].
  - case_match; [|done]. injection H as <-. simpl. lia.
  - case_match; [|done]. injection H as <-. simpl. lia.
  - case_match; [|done]. injection H as <-. simpl. lia.
Qed.

(** Full-size output happens exactly when every character is of the alphabet. *)
Lemma base64_quanta_full l out :
  base64_quanta l = Some out → (4 * length out = 3 * length l)%nat →
  Forall (λ c, is_Some (base64_val c)) l.
Proof.
  revert out. induction l as [l IH] using (induction_ltof1 _ (@length ascii)); intros out H Hl.
  destruct l as [|a [|b [|c [|d rest]]]]; simpl in H; try done.
  destruct (base64_val a) eqn:Ha, (base64_val b) eqn:Hb; try done.
  destruct (base64_val c) eqn:Hc, (base64_val d) eqn:Hd.
  - apply fmap_Some in H as (o & Ho & ->).
    apply IH in Ho; [|unfold ltof; simpl; lia|simpl in Hl; lia].
    repeat (constructor; [by eexists|]). done.
  - case_match; [|done]. injection H as <-. simpl in Hl. lia.
  - case_match; [|done]. injection H as <-. simpl in Hl. lia.
  - case_match; [|done]. injection H as <-. simpl in Hl. lia.
Qed.

Lemma base64_quanta_total l :
  (length l mod 4 = 0)%nat → Forall (λ c, is_Some (base64_val c)) l →
  ∃ out, base64_quanta l = Some out ∧ (4 * length out = 3 * length l)%nat.
Proof.
  induction l as [l IH] using (induction_ltof1 _ (@length ascii)); intros Hl HF.
  destruct l as [|a [|b [|c [|d rest]]]]; cbn [length] in Hl; try done.
  { by exists []. }
  rewrite !Forall_cons in HF. destruct HF as ([? Ha] & [? Hb] & [? Hc] & [? Hd] & HF).
  destruct (IH rest) as (out & Hout & Hlen).
  - unfold ltof. simpl. lia.
  - pose proof (Nat.Div0.mod_add (length rest) 1 4) as Hm.
    by replace (length rest + 1 * 4)%nat with (S (S (S (S (length rest))))) in Hm by lia;
      rewrite Hl in Hm.
  - done.
  - simpl. rewrite Ha, Hb, Hc, Hd, Hout. simpl. eexists. split; [done|]. simpl. lia.
Qed.

Lemma string_list_length s : length (String.list_ascii_of_string s) = String.length s.
Proof. induction s; simpl; auto. Qed.

Lemma list_string_length l : String.length (String.string_of_list_ascii l) = length l.
Proof. induction l; simpl; auto. Qed.

(** A string of [4k] bytes decodes to [3k] bytes exactly when all of it is in
    the base64 alphabet: no padding, no line break. *)
Lemma DecodeString_full s k :
  String.length s = (4 * k)%nat →
  (∃ raw, DecodeString s = Some raw ∧ String.length raw = (3 * k)%nat) ↔
  Forall (λ c, is_Some (base64_val c)) (String.list_ascii_of_string s).
Proof.
  intros Hs. unfold DecodeString. set (l := String.list_ascii_of_string s).
  assert (length l = (4 * k)%nat) as Hlen by (by unfold l; rewrite string_list_length).
  split.
  - intros (raw & Hd & Hraw). apply fmap_Some in Hd as (out & Hout & ->).
    rewrite list_string_length in Hraw.
    pose proof (base64_quanta_length _ _ Hout) as Hle.
    pose proof (length_filter (λ c, is_newline c = false) l) as Hf.
    assert (length (filter (λ c, is_newline c = false) l) = length l) as Heq by lia.
    assert (filter (λ c, is_newline c = false) l = l) as Hid.
    { by apply filter_full. }
    rewrite Hid in Hout. eapply base64_quanta_full; [done|]. lia.
  - intros HF.
    assert (filter (λ c, is_newline c = false) l = l) as ->.
    { apply filter_all. eapply Forall_impl; [done|].
      intros c [v Hv]. by eapply base64_val_not_newline. }
    destruct (base64_quanta_total l) as (out & Hout & Ho); [|done|].
    { rewrite Hlen, Nat.mul_comm. apply Nat.Div0.mod_mul. }
    rewrite Hout. eexists. split; [done|]. rewrite list_string_length. lia.
Qed.
