(* ===== verification/Errors.v ===== *)
(** * Error values (internal/auth/errors.go, internal/token/jwt.go)

    The sentinels of the auth and token packages, error values as Go builds
    them with [errors.New] and [fmt.Errorf], and [errors.Is] on them. *)

From S2P Require Import Prelude.

(** ** Sentinels: the package-level [errors.New] variables *)

Inductive sentinel : Type :=
(* internal/auth/errors.go: the request was bad *)
| ErrInvalidAccount
| ErrMemoWithMuxed
| ErrUnknownHomeDomain
| ErrClientDomainRequired
| ErrClientDomainRejected
(* verification failed *)
| ErrChallengeMalformed
| ErrChallengeUnknown
| ErrChallengeConsumed
| ErrChallengeExpired
| ErrSignatureUnrecognized
| ErrThresholdNotMet
| ErrClientDomainUnverified
(* a dependency failed *)
| ErrAccountLookupFailed
(* not a failure *)
| ErrAccountNotFound
(* internal/token/jwt.go *)
| ErrTokenInvalid
| ErrTokenExpired.

#[global] Instance sentinel_eq_dec : EqDecision sentinel.
Proof. solve_decision. Defined.

(** The text each sentinel was created with. *)
Definition sentinel_text (s : sentinel) : string :=
  match s with
  | ErrInvalidAccount => "account is not a valid Stellar address"
  | ErrMemoWithMuxed => "memo is not valid with a muxed account"
  | ErrUnknownHomeDomain => "home domain is not served by this server"
  | ErrClientDomainRequired => "client domain is required"
  | ErrClientDomainRejected => "client domain was rejected"
  | ErrChallengeMalformed => "challenge is malformed"
  | ErrChallengeUnknown => "challenge is not recognised"
  | ErrChallengeConsumed => "challenge has already been used"
  | ErrChallengeExpired => "challenge has expired"
  | ErrSignatureUnrecognized => "challenge signatures are not recognised"
  | ErrThresholdNotMet => "signature weight does not meet the account threshold"
  | ErrClientDomainUnverified => "client domain signature is missing"
  | ErrAccountLookupFailed => "account lookup failed"
  | ErrAccountNotFound => "account does not exist on the network"
  | ErrTokenInvalid => "token is invalid"
  | ErrTokenExpired => "token has expired"
  end.

(** ** Error values *)

Inductive error : Type :=
(** A package-level variable; two of them are equal when they are the same one. *)
| Sentinel (s : sentinel)
(** An error of other origin, by its text: [errors.New], [fmt.Errorf] without
    [%w], or an error a library returned. *)
| New (text : string)
(** [fmt.Errorf(format, ...)]: the operands of [%w], which it wraps, apart from
    the other operands, which it only prints. *)
| Errorf (format : string) (args : list arg) (wrapped : list error)
(** [*url.Error] of net/http, around the cause it reports. *)
| URLError (op : string) (cause : option error)

with arg : Type :=
| Str (s : string)
| Num (z : Z)
| ErrText (e : error).

(** [errors.Is(err, s)]: the variable occurs in the tree of wrapped errors. *)
Fixpoint Is (e : error) (s : sentinel) : bool :=
  match e with
  | Sentinel s' => bool_decide (s' = s)
  | New _ => false
  | Errorf _ _ wrapped =>
      (fix any (l : list error) : bool :=
         match l with [] => false | e :: l => Is e s || any l end) wrapped
  | URLError _ (Some e) => Is e s
  | URLError _ None => false
  end.

(** [fmt.Errorf("%w: ...", s, ...)], the commonest shape in the sources. *)
Definition wrap (s : sentinel) (format : string) (args : list arg) : error :=
  Errorf format args [Sentinel s].

(** An error none of whose parts is a variable of this program. *)
Definition foreign (e : error) : Prop := ∀ s, Is e s = false.

(** An error of one class and no other. *)
Definition only_class (s : sentinel) (e : error) : Prop := ∀ s', Is e s' = bool_decide (s = s').

(** ** Lemmas *)

Lemma Is_Errorf f args ws s : Is (Errorf f args ws) s = existsb (λ e, Is e s) ws.
Proof. induction ws as [|e ws IH]; [done|]. simpl in *. by rewrite IH. Qed.

Lemma Is_wrap s f args s' : Is (wrap s f args) s' = bool_decide (s = s').
Proof. unfold wrap. rewrite Is_Errorf. simpl. by rewrite orb_false_r. Qed.

Lemma Is_wrap_self s f args : Is (wrap s f args) s = true.
Proof. rewrite Is_wrap. by apply bool_decide_eq_true_2. Qed.

Lemma foreign_New t : foreign (New t).
Proof. done. Qed.

Lemma foreign_Errorf f args ws : Forall foreign ws → foreign (Errorf f args ws).
Proof.
  intros Hws s. rewrite Is_Errorf. induction Hws as [|e ws He _ IH]; [done|].
  simpl. by rewrite He, IH.
Qed.

Lemma only_class_wrap s f args : only_class s (wrap s f args).
Proof. intros s'. apply Is_wrap. Qed.

Lemma only_class_with s f args e : foreign e → only_class s (Errorf f args [Sentinel s; e]).
Proof. intros He s'. rewrite Is_Errorf. simpl. by rewrite He, !orb_false_r. Qed.

#[export] Hint Rewrite Is_wrap Is_wrap_self : anchorage.
#[export] Hint Resolve foreign_New foreign_Errorf : anchorage.
