(* ===== verification/Effects.v ===== *)
(** * Programs that interact with the world

    A function of the sources that reads the clock, runs a SQL statement,
    makes an HTTP request or locks a mutex is a [prog]: a finite tree whose
    nodes are the operations it performs, each continued with the value the
    world answered.  The signature of the operations is a parameter, so a
    package is modelled over the operations it uses alone. *)

From S2P Require Import Prelude.

(** ** Signatures and programs *)

Record sig : Type := Sig { op : Type; res : op → Type }.

Inductive prog (S : sig) (A : Type) : Type :=
| Ret (a : A)
| Vis (o : op S) (k : res S o → prog S A).
Arguments Ret {S A} _.
Arguments Vis {S A} _ _.

Fixpoint pbind {S A B} (f : A → prog S B) (p : prog S A) : prog S B :=
  match p with
  | Ret a => f a
  | Vis o k => Vis o (λ x, pbind f (k x))
  end.

Definition perform {S} (o : op S) : prog S (res S o) := Vis o Ret.

(** [v, err := call(); if err != nil { return err }]. *)
Definition pbind_result {S E A B} (f : A → prog S (result E B)) (p : prog S (result E A)) :
  prog S (result E B) :=
  pbind (λ r, match r with Ok a => f a | Err e => Ret (Err e) end) p.

Notation "'do' x '<-' p ';;' k" := (pbind (fun x => k) p)
  (at level 10, x pattern, p at level 99, k at level 200) : go_scope.
Notation "'do?' x '<-' p ';;' k" := (pbind_result (fun x => k) p)
  (at level 10, x pattern, p at level 99, k at level 200) : go_scope.

(** ** Runs: what a program did and returned *)

(** One operation and its answer. *)
Record event (S : sig) : Type := Ev { ev_op : op S; ev_res : res S ev_op }.
Arguments Ev {S} _ _.
Arguments ev_op {S} _.
Arguments ev_res {S} _.

(** [runs p tr a]: with the world answering as in [tr], [p] returns [a]. *)
Fixpoint runs {S A} (p : prog S A) (tr : list (event S)) (a : A) : Prop :=
  match p with
  | Ret a' => tr = [] ∧ a = a'
  | Vis o k => ∃ x tr', tr = Ev o x :: tr' ∧ runs (k x) tr' a
  end.

(** [steps p tr q]: after performing [tr], what is left of [p] is [q]. *)
Inductive steps {S A} : prog S A → list (event S) → prog S A → Prop :=
| steps_refl p : steps p [] p
| steps_snoc p tr o k x : steps p tr (Vis o k) → steps p (tr ++ [Ev o x]) (k x).

(** ** Programs up to the operations they perform

    Two programs that perform the same operations and return the same values
    are equivalent; functions under [Vis] are compared pointwise, so this is
    coarser than equality. *)

Fixpoint prog_equiv {S A} (p q : prog S A) : Prop :=
  match p, q with
  | Ret a, Ret b => a = b
  | Vis o1 k1, Vis o2 k2 =>
      ∃ e : o1 = o2, ∀ x, prog_equiv (k1 x) (k2 (eq_rect o1 (res S) x o2 e))
  | _, _ => False
  end.

#[export] Instance prog_Equiv {S A} : Equiv (prog S A) := prog_equiv.

(** ** Running against a deterministic world *)

Fixpoint interp {S A W} (h : W → ∀ o : op S, res S o * W) (p : prog S A) (w : W) : A * W :=
  match p with
  | Ret a => (a, w)
  | Vis o k => let '(x, w') := h w o in interp h (k x) w'
  end.

(** ** Lemmas: equivalence of programs *)

#[export] Instance prog_equivalence {S A} : Equivalence (≡@{prog S A}).
Proof.
  split.
  - intros p. induction p as [a|o k IH]; [done|]. exists eq_refl. intros x. apply IH.
  - intros p. induction p as [a|o k IH]; intros [b|o' k'] H; try done.
    destruct H as [-> H]. exists eq_refl. intros x. apply IH, (H x).
  - intros p. induction p as [a|o k IH]; intros [b|o' k'] [c|o'' k''] H1 H2; try done.
    { by unfold equiv, prog_Equiv in *; simpl in *; subst. }
    destruct H1 as [-> H1], H2 as [-> H2]. exists eq_refl. intros x.
    eapply IH; [apply H1 | apply H2].
Qed.

#[export] Instance pbind_Proper {S A B} :
  Proper (pointwise_relation A (≡) ==> (≡) ==> (≡)) (@pbind S A B).
Proof.
  intros f g Hfg p. induction p as [a|o k IH]; intros [b|o' k'] H; try done.
  { unfold equiv, prog_Equiv in H; simpl in H; subst. apply Hfg. }
  destruct H as [-> H]. exists eq_refl. intros x. apply IH, (H x).
Qed.

(** The monad laws, up to equivalence. *)
Lemma pbind_ret_l {S A B} (f : A → prog S B) a : pbind f (Ret a) = f a.
Proof. done. Qed.

Lemma pbind_ret_r {S A} (p : prog S A) : pbind Ret p ≡ p.
Proof. induction p as [a|o k IH]; [done|]. exists eq_refl. intros x. apply IH. Qed.

Lemma pbind_assoc {S A B C} (f : A → prog S B) (g : B → prog S C) p :
  pbind g (pbind f p) ≡ pbind (λ a, pbind g (f a)) p.
Proof. induction p as [a|o k IH]; [done|]. exists eq_refl. intros x. apply IH. Qed.

(** ** Lemmas: runs *)

Lemma runs_ret {S A} (a b : A) (tr : list (event S)) :
  runs (Ret a) tr b ↔ tr = [] ∧ b = a.
Proof. done. Qed.

Lemma runs_vis {S A} (o : op S) (k : res S o → prog S A) tr b :
  runs (Vis o k) tr b ↔ ∃ x tr', tr = Ev o x :: tr' ∧ runs (k x) tr' b.
Proof. done. Qed.

Lemma runs_perform {S} (o : op S) tr x :
  runs (perform o) tr x ↔ tr = [Ev o x].
Proof.
  simpl. split.
  - intros (y & tr' & -> & -> & ->). done.
  - intros ->. by exists x, [].
Qed.

(** A sequence runs its parts one after the other. *)
Lemma runs_bind {S A B} (f : A → prog S B) (p : prog S A) tr b :
  runs (pbind f p) tr b ↔
  ∃ tr1 tr2 a, tr = tr1 ++ tr2 ∧ runs p tr1 a ∧ runs (f a) tr2 b.
Proof.
  revert tr. induction p as [a|o k IH]; intros tr; simpl.
  - split; [intros; by exists [], tr, a | by intros (? & ? & ? & -> & (-> & ->) & ?)].
  - split.
    + intros (x & tr' & -> & H). apply IH in H as (tr1 & tr2 & a & -> & H1 & H2).
      exists (Ev o x :: tr1), tr2, a. split; [done|]. eauto.
    + intros (tr1 & tr2 & a & -> & (x & tr' & -> & H1) & H2).
      exists x, (tr' ++ tr2). split; [done|]. apply IH. eauto 10.
Qed.

Lemma runs_bind_result {S E A B} (f : A → prog S (result E B)) p tr r :
  runs (pbind_result f p) tr r ↔
    (∃ e, runs p tr (Err e) ∧ r = Err e) ∨
    (∃ tr1 tr2 a, tr = tr1 ++ tr2 ∧ runs p tr1 (Ok a) ∧ runs (f a) tr2 r).
Proof.
  unfold pbind_result. rewrite runs_bind. split.
  - intros (tr1 & tr2 & [a|e] & -> & H1 & H2); [right; eauto 10|].
    destruct H2 as [-> ->]. left. rewrite app_nil_r. eauto.
  - intros [(e & H & ->)|(tr1 & tr2 & a & -> & H1 & H2)].
    + exists tr, [], (Err e). by rewrite app_nil_r.
    + eauto 10.
Qed.

(** Equivalent programs have the same runs. *)
#[export] Instance runs_Proper {S A} :
  Proper ((≡) ==> (=) ==> (=) ==> iff) (@runs S A).
Proof.
  intros p q Hpq tr ? <- a ? <-. revert q Hpq tr.
  induction p as [b|o k IH]; intros [c|o' k'] H tr; try done.
  { by unfold equiv, prog_Equiv in H; simpl in H; subst. }
  destruct H as [-> H]. simpl. split; intros (x & tr' & -> & Hr);
    exists x, tr'; (split; [done|]); by apply (IH x _ (H x)).
Qed.

(** A program always has a run: it terminates whatever the world answers. *)
Lemma interp_runs {S A W} (h : W → ∀ o : op S, res S o * W) (p : prog S A) w :
  ∃ tr, runs p tr (interp h p w).1.
Proof.
  revert w. induction p as [a|o k IH]; intros w; simpl; [by exists []|].
  destruct (h w o) as [x w']. destruct (IH x w') as [tr Htr]. eauto.
Qed.

Lemma interp_bind {S A B W} (h : W → ∀ o : op S, res S o * W) (f : A → prog S B) p w :
  interp h (pbind f p) w = let '(a, w') := interp h p w in interp h (f a) w'.
Proof.
  revert w. induction p as [a|o k IH]; intros w; simpl; [done|].
  destruct (h w o). apply IH.
Qed.

Lemma Ev_inj {S} `{!EqDecision (op S)} (o : op S) x y : Ev o x = Ev o y → x = y.
Proof.
  intros H. apply (f_equal (λ ev, existT (P := res S) (ev_op ev) (ev_res ev))) in H.
  simpl in H. apply Eqdep_dec.inj_pair2_eq_dec in H; [done|].
  intros a b. apply (decide (a = b)).
Qed.

(** What is left after the first answer. *)
Lemma runs_cons_inv {S A} `{!EqDecision (op S)} (o : op S) (k : res S o → prog S A) x tr a :
  runs (Vis o k) (Ev o x :: tr) a → runs (k x) tr a.
Proof.
  intros (y & tr' & H & Hr). apply (f_equal (λ l, (head l, tail l))) in H as H'.
  simpl in H'. assert (Ev o x = Ev o y) as ->%Ev_inj by congruence.
  by assert (tr = tr') as -> by congruence.
Qed.

(** The operations a program performs against a deterministic world. *)
Fixpoint run_trace {S A W} (h : W → ∀ o : op S, res S o * W) (p : prog S A) (w : W) :
  list (event S) * A :=
  match p with
  | Ret a => ([], a)
  | Vis o k =>
      let '(x, w') := h w o in
      let '(tr, a) := run_trace h (k x) w' in (Ev o x :: tr, a)
  end.

Lemma run_trace_runs {S A W} (h : W → ∀ o : op S, res S o * W) (p : prog S A) w :
  runs p (run_trace h p w).1 (run_trace h p w).2.
Proof.
  revert w. induction p as [a|o k IH]; intros w; simpl; [done|].
  destruct (h w o) as [x w']. specialize (IH x w'). destruct (run_trace h (k x) w'). eauto.
Qed.

Lemma run_trace_eq {S A W} (h : W → ∀ o : op S, res S o * W) (p : prog S A) w tr a :
  run_trace h p w = (tr, a) → runs p tr a.
Proof. intros H. pose proof (run_trace_runs h p w) as Hr. by rewrite H in Hr. Qed.

Lemma steps_cons {S A} (o : op S) (k : res S o → prog S A) x tr q :
  steps (k x) tr q → steps (Vis o k) (Ev o x :: tr) q.
Proof.
  intros H. remember (k x) as p eqn:Hp.
  induction H as [p|p tr o' k' x' H IH]; [subst p; apply (steps_snoc _ [] o k x), steps_refl|].
  exact (steps_snoc _ (_ :: _) _ _ _ (IH Hp)).
Qed.

Lemma runs_steps {S A} (p : prog S A) tr a : runs p tr a → steps p tr (Ret a).
Proof.
  revert tr. induction p as [b|o k IH]; intros tr; simpl.
  - intros [-> ->]. constructor.
  - intros (x & tr' & -> & H). by apply steps_cons, IH.
Qed.

(** ** Lemmas: partial runs *)

Lemma steps_runs {S A} (p q : prog S A) tr tr' a :
  steps p tr q → runs q tr' a → runs p (tr ++ tr') a.
Proof.
  intros H. revert tr'. induction H as [|p tr o k x H IH]; intros tr' Hr; [done|].
  rewrite <-app_assoc. apply IH. simpl. eauto.
Qed.

Lemma steps_ret {S A} (p : prog S A) tr a : steps p tr (Ret a) → runs p tr a.
Proof. intros H. rewrite <-(app_nil_r tr). by eapply steps_runs. Qed.

(** ** Embedding the operations of a component in those of its caller

    [embed_op] names a component's operation among the caller's, [embed_res]
    reads the caller's answer as the component's. *)

Class Embed (S T : sig) := {
  embed_op : op S → op T;
  embed_res : ∀ o, res T (embed_op o) → res S o;
}.

Fixpoint embed {S T A} `{!Embed S T} (p : prog S A) : prog T A :=
  match p with
  | Ret a => Ret a
  | Vis o k => Vis (embed_op o) (λ x, embed (k (embed_res o x)))
  end.

(** What an operation of the caller was to the component. *)
Definition embedded {S T} `{!Embed S T} (evT : event T) (evS : event S) : Prop :=
  ∃ x, evT = Ev (embed_op (ev_op evS)) x ∧ ev_res evS = embed_res (ev_op evS) x.

Lemma runs_embed {S T A} `{!Embed S T} (p : prog S A) tr a :
  runs (embed p) tr a ↔ ∃ tr', runs p tr' a ∧ Forall2 embedded tr tr'.
Proof.
  revert tr. induction p as [b|o k IH]; intros tr; simpl.
  - split; [intros [-> ->]; exists []; eauto|].
    intros (tr' & [-> ->] & H). by inversion H.
  - split.
    + intros (x & tr1 & -> & H). apply IH in H as (tr' & H & HF).
      exists (Ev o (embed_res o x) :: tr'). split; [eauto|].
      constructor; [|done]. by exists x.
    + intros (tr' & (x & tr1 & -> & H) & HF).
      apply Forall2_cons_inv_r in HF as (ev & tr2 & (y & -> & Hx) & HF & ->).
      simpl in *. subst x.
      exists y, tr2. split; [done|]. apply IH. by exists tr1.
Qed.

(** ** Which operations a program performs, and how often *)

Fixpoint all_ops {S A} (P : op S → Prop) (p : prog S A) : Prop :=
  match p with
  | Ret _ => True
  | Vis o k => P o ∧ ∀ x, all_ops P (k x)
  end.

(** At most [n] operations of a kind, whatever the answers. *)
Fixpoint max_ops {S A} (P : op S → bool) (n : nat) (p : prog S A) : Prop :=
  match p with
  | Ret _ => True
  | Vis o k =>
      if P o then match n with O => False | Datatypes.S n => ∀ x, max_ops P n (k x) end
      else ∀ x, max_ops P n (k x)
  end.

Lemma steps_all_ops {S A} (P : op S → Prop) (p q : prog S A) tr :
  steps p tr q → all_ops P p → Forall (λ ev, P (ev_op ev)) tr ∧ all_ops P q.
Proof.
  induction 1 as [p|p tr o k x H IH]; intros Hp; [done|].
  destruct (IH Hp) as [Htr [Ho Hk]]. split; [|apply Hk].
  apply Forall_app. split; [done|]. by constructor.
Qed.

Lemma runs_all_ops {S A} (P : op S → Prop) (p : prog S A) tr a :
  runs p tr a → all_ops P p → Forall (λ ev, P (ev_op ev)) tr.
Proof.
  revert tr. induction p as [b|o k IH]; intros tr; simpl.
  - by intros [-> _].
  - intros (x & tr' & -> & Hr) [Ho Hk]. constructor; [done|]. by eapply IH.
Qed.

Lemma all_ops_bind {S A B} (P : op S → Prop) (f : A → prog S B) p :
  all_ops P p → (∀ a, all_ops P (f a)) → all_ops P (pbind f p).
Proof. induction p as [a|o k IH]; simpl; intros Hp Hf; [done|]. naive_solver. Qed.

(** The continuation only sees values the first part can return. *)
Lemma all_ops_bind_runs {S A B} (P : op S → Prop) (f : A → prog S B) p :
  all_ops P p → (∀ tr a, runs p tr a → all_ops P (f a)) → all_ops P (pbind f p).
Proof.
  induction p as [a|o k IH]; simpl; intros Hp Hf; [by apply (Hf []) |].
  destruct Hp as [Ho Hk]. split; [done|]. intros x. apply IH; [done|].
  intros tr a Hr. apply (Hf (Ev o x :: tr)). eauto.
Qed.

Lemma all_ops_bind_result {S E A B} (P : op S → Prop) (f : A → prog S (result E B)) p :
  all_ops P p → (∀ a, all_ops P (f a)) → all_ops P (pbind_result f p).
Proof. intros Hp Hf. apply all_ops_bind; [done|]. by intros []. Qed.

Lemma all_ops_impl {S A} (P Q : op S → Prop) (p : prog S A) :
  (∀ o, P o → Q o) → all_ops P p → all_ops Q p.
Proof. intros HPQ. induction p; simpl; naive_solver. Qed.

Lemma steps_max_ops {S A} (P : op S → bool) n (p q : prog S A) tr :
  steps p tr q → max_ops P n p →
  ∃ m, max_ops P m q ∧ (length (filter (λ ev, P (ev_op ev) = true) tr) + m = n)%nat.
Proof.
  induction 1 as [p|p tr o k x H IH]; intros Hp; [by exists n|].
  destruct (IH Hp) as (m & Hm & Hlen). simpl in Hm.
  rewrite filter_app, length_app.
  destruct (P o) eqn:HPo.
  - destruct m as [|m]; [done|]. exists m. split; [apply Hm|].
    rewrite filter_cons_True by done. rewrite filter_nil. simpl. lia.
  - exists m. split; [apply Hm|].
    rewrite filter_cons_False by (simpl; by rewrite HPo). rewrite filter_nil. simpl. lia.
Qed.

Lemma max_ops_mono {S A} (P : op S → bool) n m (p : prog S A) :
  (n ≤ m)%nat → max_ops P n p → max_ops P m p.
Proof.
  revert n m. induction p as [a|o k IH]; intros n m Hle Hp; simpl in *; [done|].
  destruct (P o); [|eauto]. destruct n as [|n]; [done|]. destruct m as [|m]; [lia|].
  intros x. eapply IH; [|apply Hp]. lia.
Qed.

Lemma max_ops_bind {S A B} (P : op S → bool) n m (f : A → prog S B) p :
  max_ops P n p → (∀ a, max_ops P m (f a)) → max_ops P (n + m) (pbind f p).
Proof.
  intros Hp Hf. revert n Hp. induction p as [a|o k IH]; intros n Hp; simpl in *.
  - eapply max_ops_mono; [|apply Hf]. lia.
  - destruct (P o); [|eauto]. destruct n as [|n]; [done|]. simpl. eauto.
Qed.

Lemma max_ops_bind_result {S E A B} (P : op S → bool) n m (f : A → prog S (result E B)) p :
  max_ops P n p → (∀ a, max_ops P m (f a)) → max_ops P (n + m) (pbind_result f p).
Proof. intros Hp Hf. apply max_ops_bind; [done|]. by intros []. Qed.

Lemma runs_max_ops {S A} (P : op S → bool) n (p : prog S A) tr a :
  runs p tr a → max_ops P n p → (length (filter (λ ev, P (ev_op ev) = true) tr) ≤ n)%nat.
Proof.
  revert n tr. induction p as [b|o k IH]; intros n tr; simpl.
  - intros [-> _] _. simpl. lia.
  - intros (x & tr' & -> & Hr) Hp. rewrite filter_cons. simpl. destruct (P o) eqn:HP.
    + destruct n as [|n]; [done|]. rewrite decide_True by done. simpl.
      specialize (IH x n tr' Hr (Hp x)). lia.
    + rewrite decide_False by congruence. by eapply IH.
Qed.

(** Until an event of [E], only operations of [P]; if it never comes, an answer of [Q]. *)
Fixpoint guarded {S A} (E : event S → bool) (P : op S → Prop) (Q : A → Prop) (p : prog S A) : Prop :=
  match p with
  | Ret a => Q a
  | Vis o k => P o ∧ ∀ x, if E (Ev o x) then True else guarded E P Q (k x)
  end.

Lemma steps_guarded {S A} (E : event S → bool) (P : op S → Prop) (Q : A → Prop) (p q : prog S A) tr :
  steps p tr q → guarded E P Q p →
  (∃ ev, ev ∈ tr ∧ E ev = true ∧ P (ev_op ev)) ∨ Forall (λ ev, P (ev_op ev)) tr ∧ guarded E P Q q.
Proof.
  induction 1 as [p|p tr o k x H IH]; intros Hp; [by right|].
  destruct (IH Hp) as [(ev & Hin & Hev)|[Htr [Ho Hk]]].
  { left. exists ev. split; [|done]. apply elem_of_app. by left. }
  specialize (Hk x). destruct (E (Ev o x)) eqn:HE.
  - left. exists (Ev o x). split; [|done]. apply elem_of_app. right. by apply list_elem_of_singleton.
  - right. split; [|done]. apply Forall_app. split; [done|]. by constructor.
Qed.

Lemma guarded_bind {S A B} (E : event S → bool) (P : op S → Prop) (Q : A → Prop) (R : B → Prop)
    (f : A → prog S B) p :
  guarded E P Q p → (∀ a, Q a → guarded E P R (f a)) → guarded E P R (pbind f p).
Proof.
  intros Hp Hf. induction p as [a|o k IH]; simpl in *; [by apply Hf|].
  destruct Hp as [Ho Hk]. split; [done|]. intros x. specialize (Hk x). destruct (E (Ev o x)); [done|].
  by apply IH.
Qed.

Lemma guarded_perform {S A} (E : event S → bool) (P : op S → Prop) (Q : A → Prop) (o : op S)
    (f : res S o → prog S A) :
  P o → (∀ x, E (Ev o x) = true ∨ guarded E P Q (f x)) → guarded E P Q (pbind f (perform o)).
Proof. intros Ho Hf. split; [done|]. intros x. by destruct (Hf x) as [->|?]; [|destruct (E _)]. Qed.
