(* ===== verification/Stellar.v ===== *)
(** * The Stellar Go SDK, as the sources use it

    The packages strkey, keypair, xdr and txnbuild of
    github.com/stellar/go-stellar-sdk are not part of this repository.  The
    class [SDK] lists the operations the sources call; the class [SDKLaws]
    states the documented behaviour the theorems rely on, one law per field.
    SdkDemo.v gives a concrete instance that satisfies the laws. *)

From S2P Require Import Prelude GoStd Errors.

(** ** Data of package txnbuild: public structs and variants *)

(** [txnbuild.SimpleAccount]. *)
Record SimpleAccount : Type := MkSimpleAccount { AccountID : string; Sequence : Z }.

(** [txnbuild.ManageData]: an empty [SourceAccount] means "none given". *)
Record ManageData : Type :=
  MkManageData { SourceAccount : string; Name : string; Value : bytes }.

(** The [txnbuild.Operation] interface: the sources only tell [*ManageData]
    from everything else. *)
Inductive Operation : Type :=
| OpManageData (d : ManageData)
| OpOther (kind : string).

(** The [txnbuild.Memo] interface; [MemoID] is a [uint64]. *)
Inductive Memo : Type :=
| MemoID (id : Z)
| MemoText (s : string)
| MemoHash (b : bytes)
| MemoReturn (b : bytes).

(** [txnbuild.TimeBounds], in Unix seconds ([int64]). *)
Record TimeBounds : Type := MkTimeBounds { MinTime : Z; MaxTime : Z }.

(** [xdr.DecoratedSignature]. *)
Record DecoratedSignature : Type := MkSig { sig_Hint : bytes; sig_Signature : bytes }.

#[global] Instance SimpleAccount_eq_dec : EqDecision SimpleAccount.
Proof. solve_decision. Defined.
#[global] Instance ManageData_eq_dec : EqDecision ManageData.
Proof. solve_decision. Defined.
#[global] Instance Operation_eq_dec : EqDecision Operation.
Proof. solve_decision. Defined.
#[global] Instance Memo_eq_dec : EqDecision Memo.
Proof. solve_decision. Defined.
#[global] Instance TimeBounds_eq_dec : EqDecision TimeBounds.
Proof. solve_decision. Defined.
#[global] Instance DecoratedSignature_eq_dec : EqDecision DecoratedSignature.
Proof. solve_decision. Defined.

(** ** The operations *)

(** [txnbuild.GenericTransaction], told apart by its [Transaction] method. *)
Inductive GenericTransaction (T : Type) : Type :=
| SimpleTx (t : T)
| FeeBumpTx.
Arguments SimpleTx {T} _.
Arguments FeeBumpTx {T}.

(** [txnbuild.TransactionParams], the fields the sources set. *)
Record TransactionParams : Type := MkParams {
  p_SourceAccount : SimpleAccount;
  p_IncrementSequenceNum : bool;
  p_Operations : list Operation;
  p_BaseFee : Z;
  p_TimeBounds : TimeBounds;
  p_Memo : option Memo }.

(** The arguments of [txnbuild.BuildChallengeTx]. *)
Record ChallengeArgs : Type := MkChallengeArgs {
  ca_serverSignerSecret : string;
  ca_clientAccountID : string;
  ca_webAuthDomain : string;
  ca_homeDomain : string;
  ca_network : string;
  ca_timebound : Z;
  ca_memo : option Z }.

Class SDK : Type := {
  (* txnbuild.Transaction and its methods *)
  Transaction : Type;
  tx_SourceAccount : Transaction → SimpleAccount;
  tx_Timebounds : Transaction → TimeBounds;
  tx_Operations : Transaction → list Operation;
  tx_Memo : Transaction → option Memo;
  tx_BaseFee : Transaction → Z;
  tx_Signatures : Transaction → list DecoratedSignature;
  tx_Hash : Transaction → string → result string bytes;
  tx_HashHex : Transaction → string → result string string;
  tx_Base64 : Transaction → result string string;
  TransactionFromXDR : string → result string (GenericTransaction Transaction);
  NewTransaction : TransactionParams → result string Transaction;
  TimeoutInfinite : Z;
  (* keypair *)
  KP : Type;
  ParseAddress : string → result string KP;
  kp_Hint : KP → bytes;
  kp_Verify : KP → bytes → bytes → bool;
  Full : Type;
  ParseFull : string → result string Full;
  full_Address : Full → string;
  tx_Sign : Transaction → string → Full → result string Transaction;
  (* strkey *)
  IsValidEd25519PublicKey : string → bool;
  IsValidMuxedAccountEd25519PublicKey : string → bool;
  (* xdr *)
  MuxedAccount : Type;
  AddressToMuxedAccount : string → result string MuxedAccount;
  muxed_AccountAddress : MuxedAccount → string;
}.

(** The transaction body: everything a signature covers, as far as the
    accessors show it. *)
Definition same_body `{SDK} (t u : Transaction) : Prop :=
  tx_SourceAccount t = tx_SourceAccount u ∧ tx_Timebounds t = tx_Timebounds u ∧
  tx_Operations t = tx_Operations u ∧ tx_Memo t = tx_Memo u ∧ tx_BaseFee t = tx_BaseFee u.

(** A signature of [tx] that the key of [signer] made: its hint is the key's
    and it verifies against the transaction hash. *)
Definition signed_with `{SDK} (h : bytes) (signer : string) (s : DecoratedSignature) : Prop :=
  ∃ kp, ParseAddress signer = Ok kp ∧
    sig_Hint s = kp_Hint kp ∧ kp_Verify kp h (sig_Signature s) = true.

(** What [BuildChallengeTx] returns, for a nonce it drew and a clock it read
    (txnbuild's documentation of the function): sequence number 0, the
    timebounds [now, now + timebound], the nonce operation sourced at the
    client, the web_auth_domain operation sourced at the server, the ID memo
    when there is one, and the server's signature. *)
Definition challenge_tx `{SDK} (args : ChallengeArgs) (server nonce : string) (now : Z)
    (tx : Transaction) : Prop :=
  tx_SourceAccount tx = MkSimpleAccount server 0 ∧
  tx_Timebounds tx = MkTimeBounds (Unix now) (Unix (now + ca_timebound args)) ∧
  tx_Operations tx =
    [OpManageData (MkManageData (ca_clientAccountID args) (ca_homeDomain args +:+ " auth") nonce);
     OpManageData (MkManageData server "web_auth_domain" (ca_webAuthDomain args))] ∧
  tx_Memo tx = MemoID <$> ca_memo args ∧
  ∃ h s, tx_Hash tx (ca_network args) = Ok h ∧ tx_Signatures tx = [s] ∧
    signed_with h server s.

(** ** The laws *)

Class SDKLaws `(SDK) : Prop := {
  (* strkey: the version bytes of G... and M... addresses differ *)
  ed25519_not_muxed a :
    IsValidEd25519PublicKey a = true → IsValidMuxedAccountEd25519PublicKey a = false;
  ed25519_not_empty : IsValidEd25519PublicKey "" = false;
  muxed_not_empty : IsValidMuxedAccountEd25519PublicKey "" = false;
  (* keypair.ParseAddress accepts every G... address *)
  ParseAddress_ed25519 a :
    IsValidEd25519PublicKey a = true → is_ok (ParseAddress a) = true;
  (* xdr.AddressToMuxedAccount accepts M... addresses; the account inside one
     is a G... address *)
  AddressToMuxedAccount_muxed a :
    IsValidMuxedAccountEd25519PublicKey a = true → is_ok (AddressToMuxedAccount a) = true;
  muxed_AccountAddress_valid m : IsValidEd25519PublicKey (muxed_AccountAddress m) = true;
  (* a seed's address is a G... address *)
  full_Address_valid k : IsValidEd25519PublicKey (full_Address k) = true;
  (* encoding and decoding a transaction gives it back *)
  TransactionFromXDR_Base64 t x :
    tx_Base64 t = Ok x → TransactionFromXDR x = Ok (SimpleTx t);
  (* a built transaction has the parameters it was built from, unsigned *)
  NewTransaction_spec p t :
    NewTransaction p = Ok t → p_IncrementSequenceNum p = false →
    tx_SourceAccount t = p_SourceAccount p ∧ tx_Timebounds t = p_TimeBounds p ∧
    tx_Operations t = p_Operations p ∧ tx_Memo t = p_Memo p ∧ tx_Signatures t = [];
  (* signing keeps the body and adds one signature over the hash *)
  tx_Sign_spec t net k t' :
    tx_Sign t net k = Ok t' →
    same_body t' t ∧
    ∃ h s, tx_Hash t' net = Ok h ∧ tx_Signatures t' = tx_Signatures t ++ [s] ∧
      signed_with h (full_Address k) s;
  (* TimeoutInfinite is the zero value, no expiry *)
  TimeoutInfinite_zero : TimeoutInfinite = 0%Z;
}.
