(* ===== verification/SdkDemo.v ===== *)
(** * A concrete SDK

    A small executable instance of the class [SDK] that satisfies [SDKLaws]:
    addresses are a letter and a name, a signature names its key and the hash
    it covers, a transaction's XDR is a length-prefixed list of its fields.
    The witnesses of the theorems run the model on it.  It stands for no code
    of the repository. *)

From S2P Require Import Prelude GoStd Errors Stellar.

(** ** Length-prefixed lists of strings *)

Module Net.

Fixpoint unary (n : nat) (rest : string) : string :=
  match n with O => String "0"%char rest | S n => String "1"%char (unary n rest) end.

Fixpoint get_len (s : string) : option (nat * string) :=
  match s with
  | String c s' =>
      if bool_decide (c = "1"%char) then (λ '(n, r), (S n, r)) <$> get_len s'
      else if bool_decide (c = "0"%char) then Some (O, s') else None
  | EmptyString => None
  end.

Fixpoint split_at (n : nat) (s : string) : option (string * string) :=
  match n, s with
  | O, _ => Some (EmptyString, s)
  | S n, String c s' => (λ '(a, b), (String c a, b)) <$> split_at n s'
  | S _, EmptyString => None
  end.

Fixpoint put (l : list string) : string :=
  match l with
  | [] => EmptyString
  | s :: l => unary (String.length s) (s +:+ put l)
  end.

Fixpoint get (fuel : nat) (s : string) : option (list string) :=
  match fuel, s with
  | _, EmptyString => Some []
  | O, _ => None
  | S fuel, _ =>
      '(n, r) ← get_len s; '(a, b) ← split_at n r; l ← get fuel b; Some (a :: l)
  end.

Definition unput (s : string) : option (list string) := get (String.length s) s.

Lemma get_len_unary n r : get_len (unary n r) = Some (n, r).
Proof. induction n as [|n IH]; simpl; [done|]. by rewrite IH. Qed.

Lemma split_at_app s t : split_at (String.length s) (s +:+ t) = Some (s, t).
Proof.
  induction s as [|c s IH]; [by destruct t|]. rewrite string_app_cons. simpl. by rewrite IH.
Qed.

Lemma unary_length n r : String.length (unary n r) = (S n + String.length r)%nat.
Proof. induction n as [|n IH]; simpl; [done|]. rewrite IH. lia. Qed.

Lemma get_put l fuel : (String.length (put l) ≤ fuel)%nat → get fuel (put l) = Some l.
Proof.
  revert fuel. induction l as [|s l IH]; intros fuel Hf; [by destruct fuel|].
  simpl in Hf. rewrite unary_length, string_app_length in Hf.
  destruct fuel as [|fuel]; [lia|]. cbn [put].
  assert (∃ c r, unary (String.length s) (s +:+ put l) = String c r) as (c & r & Hc)
    by (destruct (String.length s); simpl; eauto).
  cbn [get]. rewrite Hc at 1. rewrite get_len_unary. simpl.
  rewrite split_at_app. simpl. rewrite IH by lia. done.
Qed.

Lemma unput_put l : unput (put l) = Some l.
Proof. by apply get_put. Qed.

(** Integers. *)
Fixpoint pos_bits (p : positive) : string :=
  match p with
  | xH => EmptyString
  | xO p => String "0"%char (pos_bits p)
  | xI p => String "1"%char (pos_bits p)
  end.

Fixpoint bits_pos (s : string) : positive :=
  match s with
  | EmptyString => xH
  | String c s => if bool_decide (c = "1"%char) then xI (bits_pos s) else xO (bits_pos s)
  end.

Definition z_text (z : Z) : string :=
  match z with
  | Z0 => "z"
  | Zpos p => String "+"%char (pos_bits p)
  | Zneg p => String "-"%char (pos_bits p)
  end.

Definition text_z (s : string) : Z :=
  match s with
  | String c s => if bool_decide (c = "+"%char) then Zpos (bits_pos s)
      else if bool_decide (c = "-"%char) then Zneg (bits_pos s) else Z0
  | EmptyString => Z0
  end.

Lemma bits_pos_bits p : bits_pos (pos_bits p) = p.
Proof. induction p; simpl; congruence. Qed.

Lemma text_z_text z : text_z (z_text z) = z.
Proof. destruct z; simpl; by rewrite ?bits_pos_bits. Qed.

End Net.

(** ** Transactions *)

Module Demo.
Import Net.

Record tx : Type := MkTx {
  d_source : SimpleAccount; d_bounds : TimeBounds; d_ops : list Operation;
  d_memo : option Memo; d_fee : Z; d_sigs : list DecoratedSignature }.

#[global] Instance tx_eq_dec : EqDecision tx.
Proof. solve_decision. Defined.

Definition op_text (o : Operation) : string :=
  match o with
  | OpManageData d => put ["m"; SourceAccount d; Name d; Value d]
  | OpOther k => put ["o"; k]
  end.

Definition text_op (s : string) : option Operation :=
  match unput s with
  | Some [_; a; b; c] => Some (OpManageData (MkManageData a b c))
  | Some [_; k] => Some (OpOther k)
  | _ => None
  end.

Definition memo_text (m : option Memo) : string :=
  match m with
  | None => put []
  | Some (MemoID i) => put ["i"; z_text i]
  | Some (MemoText s) => put ["t"; s]
  | Some (MemoHash s) => put ["h"; s]
  | Some (MemoReturn s) => put ["r"; s]
  end.

Definition text_memo (s : string) : option Memo :=
  match unput s with
  | Some [k; v] =>
      if bool_decide (k = "i") then Some (MemoID (text_z v))
      else if bool_decide (k = "t") then Some (MemoText v)
      else if bool_decide (k = "h") then Some (MemoHash v)
      else Some (MemoReturn v)
  | _ => None
  end.

Definition sig_text (s : DecoratedSignature) : string := put [sig_Hint s; sig_Signature s].

Definition text_sig (s : string) : option DecoratedSignature :=
  match unput s with Some [a; b] => Some (MkSig a b) | _ => None end.

Definition body_fields (t : tx) : list string :=
  [AccountID (d_source t); z_text (Sequence (d_source t));
   z_text (MinTime (d_bounds t)); z_text (MaxTime (d_bounds t));
   put (op_text <$> d_ops t); memo_text (d_memo t); z_text (d_fee t)].

Definition tx_text (t : tx) : string := put (body_fields t ++ [put (sig_text <$> d_sigs t)]).

Definition text_tx (s : string) : option tx :=
  match unput s with
  | Some [id; seq; lo; hi; ops; memo; fee; sigs] =>
      ops ← unput ops; ops ← mapM text_op ops;
      sigs ← unput sigs; sigs ← mapM text_sig sigs;
      Some (MkTx (MkSimpleAccount id (text_z seq)) (MkTimeBounds (text_z lo) (text_z hi))
              ops (text_memo memo) (text_z fee) sigs)
  | _ => None
  end.

Definition hash (t : tx) (net : string) : string := put (net :: body_fields t).
Definition signature (address h : string) : DecoratedSignature :=
  MkSig address (put [address; h]).

Definition is_address (letter : ascii) (a : string) : bool :=
  match a with String c (String _ _) => bool_decide (c = letter) | _ => false end.

#[global] Instance demo_sdk : SDK := {|
  Transaction := tx;
  tx_SourceAccount := d_source;
  tx_Timebounds := d_bounds;
  tx_Operations := d_ops;
  tx_Memo := d_memo;
  tx_BaseFee := d_fee;
  tx_Signatures := d_sigs;
  tx_Hash t net := Ok (hash t net);
  tx_HashHex t net := Ok (hash t net);
  tx_Base64 t := Ok (tx_text t);
  TransactionFromXDR x :=
    match text_tx x with
    | Some t => Ok (SimpleTx t)
    | None => if x =s "feebump" then Ok FeeBumpTx else Err "unable to unmarshal"
    end;
  NewTransaction p :=
    match p_Operations p with
    | [] => Err "transaction has no operations"
    | ops => Ok (MkTx (p_SourceAccount p) (p_TimeBounds p) ops (p_Memo p) (p_BaseFee p) [])
    end;
  TimeoutInfinite := 0;
  KP := string;
  ParseAddress a := if is_address "G"%char a then Ok a else Err "invalid address";
  kp_Hint a := a;
  kp_Verify a h s := s =s put [a; h];
  Full := string;
  ParseFull s :=
    match s with
    | String c (String d r) =>
        if bool_decide (c = "S"%char) then Ok (String d r) else Err "invalid seed"
    | _ => Err "invalid seed"
    end;
  full_Address k := match k with EmptyString => "G0" | _ => String "G"%char k end;
  tx_Sign t net k :=
    let a := match k with EmptyString => "G0" | _ => String "G"%char k end in
    Ok (MkTx (d_source t) (d_bounds t) (d_ops t) (d_memo t) (d_fee t)
          (d_sigs t ++ [signature a (hash t net)]));
  IsValidEd25519PublicKey := is_address "G"%char;
  IsValidMuxedAccountEd25519PublicKey := is_address "M"%char;
  MuxedAccount := string;
  AddressToMuxedAccount a :=
    match a with
    | String c (String d r) =>
        if bool_decide (c = "G"%char) || bool_decide (c = "M"%char)
        then Ok (String d r) else Err "invalid address"
    | _ => Err "invalid address"
    end;
  muxed_AccountAddress m := match m with EmptyString => "G0" | _ => String "G"%char m end;
|}.

(** ** Encoding and decoding *)

Lemma text_op_text o : text_op (op_text o) = Some o.
Proof. unfold text_op, op_text. destruct o as [[]|]; by rewrite unput_put. Qed.

Lemma text_memo_text m : text_memo (memo_text m) = m.
Proof.
  unfold text_memo, memo_text. destruct m as [[]|]; rewrite unput_put; simpl; try done.
  by rewrite text_z_text.
Qed.

Lemma text_sig_text s : text_sig (sig_text s) = Some s.
Proof. unfold text_sig, sig_text. destruct s. by rewrite unput_put. Qed.

Lemma mapM_fmap {A} (f : A → string) (g : string → option A) l :
  (∀ x, g (f x) = Some x) → mapM g (f <$> l) = Some l.
Proof. intros Hfg. induction l as [|x l IH]; [done|]. cbn. by rewrite Hfg, IH. Qed.

Lemma text_tx_text t : text_tx (tx_text t) = Some t.
Proof.
  unfold text_tx, tx_text, body_fields. rewrite unput_put.
  cbn [app]. rewrite !unput_put. cbn [mbind option_bind].
  rewrite (mapM_fmap _ _ _ text_op_text). cbn [mbind option_bind].
  rewrite (mapM_fmap _ _ _ text_sig_text). cbn [mbind option_bind].
  rewrite text_memo_text, !text_z_text. by destruct t as [[] [] ? ? ? ?].
Qed.

#[global] Instance demo_laws : SDKLaws demo_sdk.
Proof.
  split.
  - intros [|c [|d r]]; simpl; try done. intros ->%bool_decide_eq_true. done.
  - done.
  - done.
  - intros a Ha. simpl in *. by rewrite Ha.
  - intros [|c [|d r]]; simpl; try done. intros ->%bool_decide_eq_true. done.
  - intros [|c r]; done.
  - intros [|c r]; done.
  - intros t x [= <-]. simpl. by rewrite text_tx_text.
  - intros [s i ops f tb m] t. simpl. destruct ops; [done|]. by intros [= <-] _.
  - intros t net k t' [= <-]. split; [done|]. exists (hash t net). eexists.
    split; [done|]. split; [done|]. simpl.
    exists (full_Address k). destruct k as [|c r]; simpl.
    + split_and!; [done..|]. by apply bool_decide_eq_true_2.
    + split_and!; [done..|]. by apply bool_decide_eq_true_2.
  - done.
Qed.

(** A signature of the demo verifies for one address alone. *)
Lemma demo_exclusive h s a b : signed_with h a s → signed_with h b s → a = b.
Proof.
  intros (ka & Ha & _ & Hva) (kb & Hb & _ & Hvb).
  change (sig_Signature s =s put [ka; h] = true) in Hva.
  change (sig_Signature s =s put [kb; h] = true) in Hvb.
  simpl in Ha, Hb. repeat case_match; simplify_eq. reflect_guards.
  rewrite Hva in Hvb. apply (f_equal unput) in Hvb. rewrite !unput_put in Hvb.
  by injection Hvb.
Qed.

End Demo.

(** ** A sample exchange

    A server, a client, a wallet's domain and a challenge between them. *)

Module Sample.
Import Demo.

Definition server : string := "Gserver".
Definition client : string := "Galice".
Definition wallet : string := "Gwallet".
Definition net : string := "Test SDF Network ; September 2015".
Definition home : string := "example.com".
Definition web : string := "auth.example.com".
Definition domain : string := "wallet.example.org".
Definition nonce : string := String.string_of_list_ascii (replicate 64 "A"%char).

(** The challenge body; with [bound] it names the wallet's domain. *)
Definition body (bound : bool) (memo : option Memo) : tx :=
  MkTx (MkSimpleAccount server 0) (MkTimeBounds 1000 1300)
    (OpManageData (MkManageData client (home +:+ " auth") nonce) ::
     OpManageData (MkManageData server "web_auth_domain" web) ::
     (if bound then [OpManageData (MkManageData wallet "client_domain" domain)] else []))
    memo 100 [].

(** The body signed by the given addresses. *)
Definition signed (t : tx) (signers : list string) : tx :=
  MkTx (d_source t) (d_bounds t) (d_ops t) (d_memo t) (d_fee t)
    ((λ a, signature a (hash t net)) <$> signers).

Definition plain : tx := signed (body false None) [server; client].
Definition with_domain : tx := signed (body true None) [server; client; wallet].

End Sample.
