(* ===== verification/Signatures.v ===== *)
(** * Pairing signatures with signers (internal/auth/signatures.go) *)

From S2P Require Import Prelude GoStd Errors Stellar SdkDemo.

Section matchSigners.
Context `{SDK}.

(** The inner loop over [signatures]: the first unused one, from index [i] on,
    whose hint is the key's and which verifies. *)
Fixpoint find_signature (kp : KP) (txHash : bytes) (used : gset nat) (i : nat)
    (signatures : list DecoratedSignature) : option nat :=
  match signatures with
  | [] => None
  | sig :: rest =>
      if bool_decide (i ∈ used) then find_signature kp txHash used (S i) rest
      else if sig_Hint sig <>s kp_Hint kp then find_signature kp txHash used (S i) rest
      else if kp_Verify kp txHash (sig_Signature sig) then Some i
      else find_signature kp txHash used (S i) rest
  end.

(** The outer loop over [signers], with the maps [used] and [seen] and the
    result slice [found]. *)
Fixpoint match_loop (txHash : bytes) (signatures : list DecoratedSignature)
    (signers : list string) (used : gset nat) (seen : gset string) (found : list string) :
    result error (list string) :=
  match signers with
  | [] => Ok found
  | signer :: rest =>
      match ParseAddress signer with
      | Err _ => Err (wrap ErrSignatureUnrecognized "%w: signer %q is not an address" [Str signer])
      | Ok kp =>
          match find_signature kp txHash used 0 signatures with
          | None => match_loop txHash signatures rest used seen found
          | Some i =>
              if bool_decide (signer ∈ seen)
              then match_loop txHash signatures rest ({[i]} ∪ used) seen found
              else match_loop txHash signatures rest ({[i]} ∪ used) ({[signer]} ∪ seen)
                     (found ++ [signer])
          end
      end
  end.

Definition matchSigners (tx : Transaction) (networkPassphrase : string) (signers : list string) :
    result error (list string) :=
  match tx_Hash tx networkPassphrase with
  | Err e => Err (Errorf "hashing challenge: %w" [] [New e])
  | Ok txHash => match_loop txHash (tx_Signatures tx) signers ∅ ∅ []
  end.

(** [signer] made the [i]-th signature. *)
Definition made (txHash : bytes) (signatures : list DecoratedSignature) (signer : string) (i : nat) :
    Prop :=
  ∃ s, signatures !! i = Some s ∧ signed_with txHash signer s.

(** No signature verifies for two different signers. *)
Definition exclusive (txHash : bytes) (signatures : list DecoratedSignature) : Prop :=
  ∀ i s1 s2, made txHash signatures s1 i → made txHash signatures s2 i → s1 = s2.

(** ** The inner loop *)

Lemma find_signature_some kp h used i sigs j :
  find_signature kp h used i sigs = Some j →
  (i ≤ j)%nat ∧ j ∉ used ∧ ∃ s, sigs !! (j - i)%nat = Some s ∧
    sig_Hint s = kp_Hint kp ∧ kp_Verify kp h (sig_Signature s) = true.
Proof.
  revert i. induction sigs as [|s sigs IH]; intros i Hf; simpl in Hf; [done|].
  assert (find_signature kp h used (S i) sigs = Some j →
    (i ≤ j)%nat ∧ j ∉ used ∧ ∃ s', (s :: sigs) !! (j - i)%nat = Some s' ∧
      sig_Hint s' = kp_Hint kp ∧ kp_Verify kp h (sig_Signature s') = true) as Hnext.
  { intros Hn. apply IH in Hn as (? & ? & s' & ? & ?). split; [lia|]. split; [done|].
    exists s'. split; [|done]. by replace (j - i)%nat with (S (j - S i))%nat by lia. }
  case_match; [by auto|]. case_match; [by auto|]. case_match; [|by auto].
  simplify_eq. reflect_guards. split; [lia|]. split; [done|].
  exists s. rewrite Nat.sub_diag. done.
Qed.

Lemma find_signature_none kp h used i sigs :
  find_signature kp h used i sigs = None →
  ∀ j s, sigs !! j = Some s → (i + j)%nat ∉ used →
    sig_Hint s = kp_Hint kp → kp_Verify kp h (sig_Signature s) = false.
Proof.
  revert i. induction sigs as [|s sigs IH]; intros i Hf j s' Hj Hu Hh; [done|].
  simpl in Hf. destruct j as [|j]; simpl in Hj.
  - injection Hj as ->. rewrite Nat.add_0_r in Hu.
    rewrite (bool_decide_eq_false_2 _ Hu), (bool_decide_eq_true_2 _ Hh) in Hf. simpl in Hf.
    by destruct (kp_Verify kp h (sig_Signature s')).
  - replace (i + S j)%nat with (S i + j)%nat in Hu by lia.
    eapply (IH (S i)); [|done..]. by repeat case_match.
Qed.

(** ** The outer loop *)

(** What the loop maintains: the signers found so far, each with a signature
    of its own. *)
Definition matched (h : bytes) (sigs : list DecoratedSignature)
    (found : list string) (idx : list nat) : Prop :=
  Forall2 (made h sigs) found idx ∧ NoDup idx ∧ NoDup found.

Lemma found_made h sigs kp signer used i :
  ParseAddress signer = Ok kp → find_signature kp h used 0 sigs = Some i →
  i ∉ used ∧ made h sigs signer i.
Proof.
  intros Hp Hf. apply find_signature_some in Hf as (_ & Hu & s & Hs & Hh & Hv).
  rewrite Nat.sub_0_r in Hs. split; [done|]. exists s. split; [done|]. by exists kp.
Qed.

Lemma match_loop_sound h sigs signers used seen found idx out :
  match_loop h sigs signers used seen found = Ok out →
  matched h sigs found idx → (∀ s, s ∈ seen ↔ s ∈ found) → (∀ i, i ∈ idx → i ∈ used) →
  ∃ idx' l, matched h sigs out idx' ∧ out = found ++ l ∧ l `sublist_of` signers.
Proof.
  revert used seen found idx. induction signers as [|signer rest IH];
    intros used seen found idx Hm Hinv Hseen Hused; simpl in Hm.
  { injection Hm as <-. exists idx, []. by rewrite app_nil_r. }
  destruct (ParseAddress signer) as [kp|] eqn:Hp; [|done].
  destruct (find_signature kp h used 0 sigs) as [i|] eqn:Hf.
  - destruct (found_made _ _ _ _ _ _ Hp Hf) as [Hi Hmade].
    destruct (bool_decide_reflect (signer ∈ seen)) as [Hin|Hnin].
    + destruct (IH _ _ _ idx Hm Hinv Hseen) as (idx' & l & ? & -> & ?); [set_solver|].
      exists idx', l. split_and!; [done..|]. by apply sublist_cons.
    + destruct Hinv as (HF & Hnd & Hnf).
      destruct (IH _ _ _ (idx ++ [i]) Hm) as (idx' & l & ? & -> & ?).
      * split_and!.
        -- apply Forall2_app; [done|]. by repeat constructor.
        -- apply NoDup_app. split_and!; [done| |apply NoDup_singleton]. set_solver.
        -- apply NoDup_app. split_and!; [done| |apply NoDup_singleton]. set_solver.
      * set_solver.
      * set_solver.
      * exists idx', (signer :: l). split_and!; [done|by rewrite <-app_assoc|].
        by apply sublist_skip.
  - destruct (IH _ _ _ idx Hm Hinv Hseen Hused) as (idx' & l & ? & -> & ?).
    exists idx', l. split_and!; [done..|]. by apply sublist_cons.
Qed.

Lemma match_loop_found h sigs signers used seen found out s :
  match_loop h sigs signers used seen found = Ok out → s ∈ found → s ∈ out.
Proof.
  revert used seen found. induction signers as [|signer rest IH];
    intros used seen found Hm Hs; simpl in Hm; [by injection Hm as <-|].
  destruct (ParseAddress signer); [|done]. repeat case_match; eapply IH; try done.
  set_solver.
Qed.

Lemma match_loop_complete h sigs signers used seen found out s i :
  match_loop h sigs signers used seen found = Ok out →
  exclusive h sigs → (∀ s, s ∈ seen ↔ s ∈ found) →
  (∀ j, j ∈ used → ∃ s, s ∈ found ∧ made h sigs s j) →
  s ∈ signers → made h sigs s i → s ∈ out.
Proof.
  intros Hm Hex. revert used seen found Hm. induction signers as [|signer rest IH];
    intros used seen found Hm Hseen Hused Hs Hmade; [set_solver|]; simpl in Hm.
  destruct (ParseAddress signer) as [kp|] eqn:Hp; [|done].
  destruct (find_signature kp h used 0 sigs) as [j|] eqn:Hf.
  - destruct (found_made _ _ _ _ _ _ Hp Hf) as [Hj Hsj].
    destruct (bool_decide_reflect (signer ∈ seen)) as [Hin|Hnin].
    + apply elem_of_cons in Hs as [->|Hs].
      * eapply match_loop_found; [done|]. set_solver.
      * eapply IH; try done. set_solver.
    + apply elem_of_cons in Hs as [->|Hs].
      * eapply match_loop_found; [done|]. set_solver.
      * eapply IH; try done; set_solver.
  - apply elem_of_cons in Hs as [->|Hs]; [|by eapply IH].
    eapply match_loop_found; [done|].
    destruct Hmade as (sig & Hsig & kp' & Hp' & Hh & Hv).
    assert (kp' = kp) as -> by congruence.
    destruct (decide (i ∈ used)) as [Hi|Hi].
    + destruct (Hused i Hi) as (s' & Hs' & Hm').
      rewrite (Hex i signer s'); [done| |done].
      exists sig. split; [done|]. by exists kp.
    + pose proof (find_signature_none _ _ _ _ _ Hf i sig Hsig Hi Hh). congruence.
Qed.

Lemma match_loop_ok h sigs signers used seen found :
  Forall (λ s, is_ok (ParseAddress s) = true) signers →
  is_ok (match_loop h sigs signers used seen found) = true.
Proof.
  intros HF. revert used seen found. induction HF as [|s rest Hs _ IH];
    intros used seen found; [done|]. simpl.
  destruct (ParseAddress s); [|done]. repeat case_match; apply IH.
Qed.

Lemma match_loop_err h sigs signers used seen found e :
  match_loop h sigs signers used seen found = Err e →
  ∃ s, s ∈ signers ∧ is_ok (ParseAddress s) = false ∧
    e = wrap ErrSignatureUnrecognized "%w: signer %q is not an address" [Str s].
Proof.
  revert used seen found. induction signers as [|s rest IH]; intros used seen found Hm;
    simpl in Hm; [done|].
  destruct (ParseAddress s) eqn:Hp.
  - assert (∃ s0, s0 ∈ rest ∧ is_ok (ParseAddress s0) = false ∧
      e = wrap ErrSignatureUnrecognized "%w: signer %q is not an address" [Str s0])
      as (s0 & ? & ?) by (repeat case_match; by eapply IH).
    exists s0. split; [set_solver|done].
  - injection Hm as <-. exists s. split; [set_solver|]. by rewrite Hp.
Qed.

(** ** [matchSigners] *)

Lemma matchSigners_ok_inv tx net signers found :
  matchSigners tx net signers = Ok found →
  ∃ h idx, tx_Hash tx net = Ok h ∧ matched h (tx_Signatures tx) found idx ∧
    found `sublist_of` signers.
Proof.
  unfold matchSigners. destruct (tx_Hash tx net) as [h|]; [|done]. intros Hm.
  eapply (match_loop_sound _ _ _ _ _ _ []) in Hm as (idx & l & ? & -> & ?).
  - by exists h, idx.
  - by split_and!; constructor.
  - set_solver.
  - set_solver.
Qed.

Lemma matchSigners_mem tx net signers found h s :
  matchSigners tx net signers = Ok found → tx_Hash tx net = Ok h →
  exclusive h (tx_Signatures tx) →
  s ∈ found ↔ s ∈ signers ∧ ∃ i, made h (tx_Signatures tx) s i.
Proof.
  intros Hm Hh Hex. split.
  - intros Hs. apply matchSigners_ok_inv in Hm as (h' & idx & Hh' & (HF & _) & Hsub).
    assert (h' = h) as -> by congruence. split; [by eapply sublist_subseteq|].
    apply list_elem_of_lookup in Hs as [k Hk].
    eapply Forall2_lookup_l in HF as (i & _ & Hi); [|done]. by exists i.
  - intros [Hs [i Hi]]. unfold matchSigners in Hm. rewrite Hh in Hm.
    eapply match_loop_complete; try done; set_solver.
Qed.

Lemma matched_length h sigs found idx :
  matched h sigs found idx → (length found ≤ length sigs)%nat.
Proof.
  intros (HF & Hnd & _). rewrite (Forall2_length _ _ _ HF).
  rewrite <-(length_seq (length sigs) 0). apply submseteq_length, NoDup_submseteq; [done|].
  intros i Hi. apply list_elem_of_lookup in Hi as [k Hk].
  eapply Forall2_lookup_r in HF as (s & _ & sig & Hsig & _); [|done].
  apply lookup_lt_Some in Hsig. apply elem_of_seq. lia.
Qed.

(** When as many signers are found as there are signatures, each signature
    belongs to one of them. *)
Lemma matched_all h sigs found idx :
  matched h sigs found idx → length found = length sigs →
  ∀ i, (i < length sigs)%nat → ∃ s, s ∈ found ∧ made h sigs s i.
Proof.
  intros (HF & Hnd & _) Hl i Hi.
  assert (idx ≡ₚ seq 0 (length sigs)) as Hperm.
  { apply submseteq_length_Permutation.
    - apply NoDup_submseteq; [done|]. intros j Hj.
      apply list_elem_of_lookup in Hj as [k Hk].
      eapply Forall2_lookup_r in HF as (s & _ & sig & Hsig & _); [|done].
      apply lookup_lt_Some in Hsig. apply elem_of_seq. lia.
    - rewrite length_seq. rewrite <-Hl. by rewrite (Forall2_length _ _ _ HF). }
  assert (i ∈ idx) as Hin by (rewrite Hperm; apply elem_of_seq; lia).
  apply list_elem_of_lookup in Hin as [k Hk].
  eapply Forall2_lookup_r in HF as (s & Hs & Hm); [|done].
  exists s. split; [|done]. by eapply list_elem_of_lookup_2.
Qed.
End matchSigners.

(** ** Properties *)

(** Every signer found has a signature of its own: the signers are paired with
    pairwise different signatures that their keys made, no signer is reported
    twice, and they come in the order they were supplied.  (claim C25) *)
Theorem matchSigners_one_signature_each `{SDK} tx net signers found :
  matchSigners tx net signers = Ok found →
  ∃ h idx, tx_Hash tx net = Ok h ∧
    Forall2 (made h (tx_Signatures tx)) found idx ∧ NoDup idx ∧ NoDup found ∧
    found `sublist_of` signers.
Proof.
  intros (h & idx & Hh & (HF & Hi & Hf) & Hs)%matchSigners_ok_inv. by exists h, idx.
Qed.

Lemma matchSigners_one_signature_each_witness :
  let t : Transaction := Sample.with_domain in
  ∃ found h idx, matchSigners t Sample.net [Sample.server; "Gbob"; Sample.client] = Ok found ∧
    found = [Sample.server; Sample.client] ∧
    tx_Hash t Sample.net = Ok h ∧
    Forall2 (made h (tx_Signatures t)) found idx ∧ NoDup idx ∧ NoDup found ∧
    found `sublist_of` [Sample.server; "Gbob"; Sample.client].
Proof.
  intros t. exists [Sample.server; Sample.client].
  assert (matchSigners t Sample.net [Sample.server; "Gbob"; Sample.client]
    = Ok [Sample.server; Sample.client]) as Hm by (vm_compute; reflexivity).
  destruct (matchSigners_one_signature_each _ _ _ _ Hm) as (h & idx & ?).
  exists h, idx. auto.
Defined.

(** When no signature verifies for two different signers, the signers found
    are exactly those of the supplied ones whose key made some signature: the
    greedy pairing misses nobody.  (claim C26) *)
Theorem matchSigners_finds_exactly `{SDK} tx net signers found h s :
  matchSigners tx net signers = Ok found → tx_Hash tx net = Ok h →
  exclusive h (tx_Signatures tx) →
  s ∈ found ↔ s ∈ signers ∧ ∃ i, made h (tx_Signatures tx) s i.
Proof. apply matchSigners_mem. Qed.

Lemma demo_signatures_exclusive h (t : Demo.tx) : exclusive h (tx_Signatures t).
Proof.
  intros i a b (s & Hs & Ha) (s' & Hs' & Hb). assert (s' = s) as -> by congruence.
  by eapply Demo.demo_exclusive.
Qed.

Lemma matchSigners_finds_exactly_witness :
  let t : Transaction := Sample.with_domain in
  ∃ h, tx_Hash t Sample.net = Ok h ∧
    (Sample.client ∈ [Sample.server; Sample.client] ↔
     Sample.client ∈ ["Gbob"; Sample.server; Sample.client] ∧
     ∃ i, made h (tx_Signatures t) Sample.client i).
Proof.
  intros t. exists (Demo.hash Sample.with_domain Sample.net). split; [reflexivity|].
  apply (matchSigners_finds_exactly t Sample.net ["Gbob"; Sample.server; Sample.client]).
  - vm_compute. reflexivity.
  - reflexivity.
  - apply demo_signatures_exclusive.
Defined.
