(* ===== verification/ReadChallenge.v ===== *)
(** * Reading a challenge back (internal/auth/read.go)

    [ReadChallenge] with its checks in the order of the source, and the
    declarative well-formedness predicate it decides. *)

From S2P Require Import Prelude GoStd Errors Stellar SdkDemo Signatures.

(** ** Constants *)

Definition clockGracePeriod : Z := (5 * Minute)%Z.
Definition nonceEncodedLen : Z := 64.
Definition nonceRawLen : Z := 48.
Definition opWebAuthDomain : string := "web_auth_domain".
Definition opClientDomain : string := "client_domain".

Section ReadChallenge.
Context `{H : SDK}.

(** [type Challenge struct]. *)
Record Challenge : Type := MkChallenge {
  Tx : Transaction;
  ClientAccountID : string;
  HomeDomain : string;
  ch_Memo : option Z;
  Nonce : string;
  ClientDomain : string;
  ClientDomainKey : string }.

(** The loop over [homeDomains]: the first one whose key is [name]; [""] when
    none is. *)
Fixpoint match_home_domain (name : string) (homeDomains : list string) : string :=
  match homeDomains with
  | [] => ""
  | homeDomain :: rest =>
      if name =s (homeDomain +:+ " auth") then homeDomain else match_home_domain name rest
  end.

(** The memo checks: none, or an ID memo on an account that is not muxed. *)
Definition read_memo (memo : option Memo) (isMuxed : bool) : result error (option Z) :=
  match memo with
  | None => Ok None
  | Some memo =>
      fail_if isMuxed
        with wrap ErrMemoWithMuxed "%w: challenge carries both a memo and a muxed account" [];;
      match memo with
      | MemoID id => Ok (Some id)
      | _ => Err (wrap ErrChallengeMalformed "%w: only ID memos are permitted" [])
      end
  end.

(** The nonce checks: 64 characters of base64 that decode to 48 bytes. *)
Definition read_nonce (value : bytes) : result error string :=
  let nonce := value in
  fail_if negb (len nonce =? nonceEncodedLen)%Z
    with wrap ErrChallengeMalformed "%w: nonce must be %d base64 characters"
           [Num nonceEncodedLen];;
  let? raw := or_err (wrap ErrChallengeMalformed "%w: nonce is not valid base64" [])
                (DecodeString nonce) in
  fail_if negb (len raw =? nonceRawLen)%Z
    with wrap ErrChallengeMalformed "%w: nonce must decode to %d bytes" [Num nonceRawLen];;
  Ok nonce.

(** The loop over [ops[1:]], with the flags [sawWebAuthDomain] and
    [sawClientDomain] and the two fields it sets. *)
Fixpoint read_ops (serverAccountID webAuthDomain : string) (ops : list Operation)
    (sawWebAuthDomain sawClientDomain : bool) (domain key : string) :
    result error (string * string) :=
  match ops with
  | [] => Ok (domain, key)
  | OpOther _ :: _ =>
      Err (wrap ErrChallengeMalformed "%w: every operation must be manage_data" [])
  | OpManageData data :: rest =>
      fail_if SourceAccount data =s ""
        with wrap ErrChallengeMalformed "%w: operation %q must have a source account" [Str (Name data)];;
      if Name data =s opWebAuthDomain then
        fail_if sawWebAuthDomain
          with wrap ErrChallengeMalformed
                 "%w: challenge carries more than one web_auth_domain operation" [];;
        fail_if SourceAccount data <>s serverAccountID
          with wrap ErrChallengeMalformed
                 "%w: web_auth_domain operation must be sourced at the server" [];;
        fail_if Value data <>s webAuthDomain
          with wrap ErrChallengeMalformed
                 "%w: web_auth_domain operation names a different server" [];;
        read_ops serverAccountID webAuthDomain rest true sawClientDomain domain key
      else if Name data =s opClientDomain then
        fail_if sawClientDomain
          with wrap ErrChallengeMalformed
                 "%w: challenge carries more than one client_domain operation" [];;
        fail_if negb (IsValidEd25519PublicKey (SourceAccount data))
          with wrap ErrChallengeMalformed
                 "%w: client_domain operation must be sourced at a G... signing key" [];;
        fail_if SourceAccount data =s serverAccountID
          with wrap ErrChallengeMalformed
                 "%w: client_domain operation must not be sourced at the server" [];;
        fail_if (len (Value data) =? 0)%Z
          with wrap ErrChallengeMalformed "%w: client_domain operation must name a domain" [];;
        read_ops serverAccountID webAuthDomain rest sawWebAuthDomain true
          (Value data) (SourceAccount data)
      else
        fail_if SourceAccount data <>s serverAccountID
          with wrap ErrChallengeMalformed "%w: unrecognised operation %q" [Str (Name data)];;
        read_ops serverAccountID webAuthDomain rest sawWebAuthDomain sawClientDomain domain key
  end.

(** [ReadChallenge], at the instant [now] that [time.Now()] returns. *)
Definition ReadChallenge (challengeXDR serverAccountID networkPassphrase webAuthDomain : string)
    (homeDomains : list string) (now : Z) : result error Challenge :=
  let? generic := map_err (λ _, wrap ErrChallengeMalformed "%w: could not parse challenge XDR" [])
                    (TransactionFromXDR challengeXDR) in
  match generic with
  | FeeBumpTx =>
      Err (wrap ErrChallengeMalformed "%w: challenge must not be a fee bump transaction" [])
  | SimpleTx tx =>
  let source := tx_SourceAccount tx in
  fail_if negb (IsValidEd25519PublicKey (AccountID source))
    with wrap ErrChallengeMalformed "%w: transaction source must be a G... account" [];;
  fail_if AccountID source <>s serverAccountID
    with wrap ErrChallengeMalformed "%w: transaction source is not this server" [];;
  fail_if negb (Sequence source =? 0)%Z
    with wrap ErrChallengeMalformed "%w: transaction sequence number must be 0" [];;
  let bounds := tx_Timebounds tx in
  fail_if (MaxTime bounds =? TimeoutInfinite)%Z
    with wrap ErrChallengeMalformed "%w: challenge requires finite timebounds" [];;
  let now := Unix now in
  let grace := (clockGracePeriod / Second)%Z in
  fail_if ((int64 (now + grace) <? MinTime bounds) || (MaxTime bounds <? now))%Z
    with wrap ErrChallengeExpired "%w: challenge is outside its timebounds" [];;
  match tx_Operations tx with
  | [] =>
      Err (wrap ErrChallengeMalformed
             "%w: challenge requires at least one manage_data operation" [])
  | OpOther _ :: _ =>
      Err (wrap ErrChallengeMalformed "%w: first operation must be manage_data" [])
  | OpManageData first :: rest =>
  fail_if SourceAccount first =s ""
    with wrap ErrChallengeMalformed "%w: first operation must have a source account" [];;
  let homeDomain := match_home_domain (Name first) homeDomains in
  fail_if homeDomain =s ""
    with wrap ErrUnknownHomeDomain
           "%w: operation key %q matches no configured home domain" [Str (Name first)];;
  let isMuxed := IsValidMuxedAccountEd25519PublicKey (SourceAccount first) in
  fail_if negb isMuxed && negb (IsValidEd25519PublicKey (SourceAccount first))
    with wrap ErrChallengeMalformed
           "%w: first operation source must be a G... or M... account" [];;
  let? memo := read_memo (tx_Memo tx) isMuxed in
  let? nonce := read_nonce (Value first) in
  let? (clientDomain, clientDomainKey) :=
    read_ops serverAccountID webAuthDomain rest false false "" "" in
  let? serverFound := matchSigners tx networkPassphrase [serverAccountID] in
  fail_if bool_decide (length serverFound = 0%nat)
    with wrap ErrChallengeMalformed "%w: challenge is not signed by this server" [];;
  Ok (MkChallenge tx (SourceAccount first) homeDomain memo nonce clientDomain clientDomainKey)
  end
  end.

(** ** Well-formed challenges, declaratively *)

(** What one operation after the first must look like. *)
Definition op_ok (server web : string) (o : Operation) : Prop :=
  match o with
  | OpOther _ => False
  | OpManageData d =>
      SourceAccount d ≠ "" ∧
      if decide (Name d = opWebAuthDomain) then SourceAccount d = server ∧ Value d = web
      else if decide (Name d = opClientDomain)
      then IsValidEd25519PublicKey (SourceAccount d) = true ∧ SourceAccount d ≠ server ∧
           Value d ≠ ""
      else SourceAccount d = server
  end.

(** The manage_data operations of that name. *)
Definition named (n : string) (ops : list Operation) : list ManageData :=
  omap (λ o, match o with
             | OpManageData d => if decide (Name d = n) then Some d else None
             | OpOther _ => None end) ops.

(** The client domain and key the client_domain operation carries. *)
Definition client_binding (ops : list Operation) : string * string :=
  match named opClientDomain ops with
  | [] => ("", "")
  | d :: _ => (Value d, SourceAccount d)
  end.

Record WellFormed (server net web : string) (homes : list string) (now : Z) (c : Challenge) :
    Prop := {
  wf_source : tx_SourceAccount (Tx c) = MkSimpleAccount server 0;
  wf_server : IsValidEd25519PublicKey server = true;
  wf_finite : MaxTime (tx_Timebounds (Tx c)) ≠ TimeoutInfinite;
  wf_window : (MinTime (tx_Timebounds (Tx c)) ≤ int64 (Unix now + 300) ∧
               Unix now ≤ MaxTime (tx_Timebounds (Tx c)))%Z;
  wf_home : HomeDomain c ∈ homes ∧ HomeDomain c ≠ "";
  wf_client : ClientAccountID c ≠ "" ∧
    (IsValidMuxedAccountEd25519PublicKey (ClientAccountID c) = true ∨
     IsValidEd25519PublicKey (ClientAccountID c) = true);
  wf_memo : tx_Memo (Tx c) = MemoID <$> ch_Memo c ∧
    (is_Some (ch_Memo c) → IsValidMuxedAccountEd25519PublicKey (ClientAccountID c) = false);
  wf_nonce : String.length (Nonce c) = 64 ∧
    Forall (λ a, is_Some (base64_val a)) (String.list_ascii_of_string (Nonce c));
  wf_ops : ∃ rest, tx_Operations (Tx c) =
      OpManageData (MkManageData (ClientAccountID c) (HomeDomain c +:+ " auth") (Nonce c)) :: rest ∧
    Forall (op_ok server web) rest ∧
    (length (named opWebAuthDomain rest) ≤ 1)%nat ∧
    (length (named opClientDomain rest) ≤ 1)%nat ∧
    client_binding rest = (ClientDomain c, ClientDomainKey c);
  wf_signed : ∃ h i, tx_Hash (Tx c) net = Ok h ∧ made h (tx_Signatures (Tx c)) server i;
}.

(** ** What is wrong with a challenge, first fault first *)

(** The envelope is this server's: its source, its sequence number, its bounds. *)
Definition envelope_ok (server : string) (tx : Transaction) : Prop :=
  tx_SourceAccount tx = MkSimpleAccount server 0 ∧ IsValidEd25519PublicKey server = true ∧
  MaxTime (tx_Timebounds tx) ≠ TimeoutInfinite.

Definition in_window (now : Z) (tx : Transaction) : Prop :=
  (MinTime (tx_Timebounds tx) ≤ int64 (Unix now + 300) ∧ Unix now ≤ MaxTime (tx_Timebounds tx))%Z.

(** The operation is keyed by a home domain of the server. *)
Definition keyed (homes : list string) (d : ManageData) : Prop :=
  Exists (λ h, h ≠ "" ∧ Name d = h +:+ " auth") homes.

Definition id_memo (m : option Memo) : bool :=
  match m with None | Some (MemoID _) => true | _ => false end.

(** A nonce of 64 base64 characters, without padding. *)
Definition nonce_text (v : string) : Prop :=
  String.length v = 64 ∧ Forall (λ a, is_Some (base64_val a)) (String.list_ascii_of_string v).

(** The operations after the first. *)
Definition later_ok (server web : string) (ops : list Operation) : Prop :=
  Forall (op_ok server web) ops ∧ (length (named opWebAuthDomain ops) ≤ 1)%nat ∧
  (length (named opClientDomain ops) ≤ 1)%nat.

#[global] Instance envelope_ok_dec server tx : Decision (envelope_ok server tx).
Proof. unfold envelope_ok. apply _. Defined.
#[global] Instance in_window_dec now tx : Decision (in_window now tx).
Proof. unfold in_window. apply _. Defined.
#[global] Instance keyed_dec homes d : Decision (keyed homes d).
Proof. unfold keyed. apply _. Defined.
#[global] Instance op_ok_dec server web o : Decision (op_ok server web o).
Proof. unfold op_ok. destruct o; [|apply _]. repeat case_decide; apply _. Defined.
#[global] Instance nonce_text_dec v : Decision (nonce_text v).
Proof. unfold nonce_text. apply _. Defined.
#[global] Instance later_ok_dec server web ops : Decision (later_ok server web ops).
Proof. unfold later_ok. apply _. Defined.

(** The class of the first fault of a transaction, its signatures apart. *)
Definition reading_fault (server web : string) (homes : list string) (now : Z) (tx : Transaction) :
    option sentinel :=
  if decide (¬ envelope_ok server tx) then Some ErrChallengeMalformed
  else if decide (¬ in_window now tx) then Some ErrChallengeExpired
  else match tx_Operations tx with
  | [] | OpOther _ :: _ => Some ErrChallengeMalformed
  | OpManageData first :: rest =>
      let isMuxed := IsValidMuxedAccountEd25519PublicKey (SourceAccount first) in
      if decide (SourceAccount first = "") then Some ErrChallengeMalformed
      else if decide (¬ keyed homes first) then Some ErrUnknownHomeDomain
      else if negb isMuxed && negb (IsValidEd25519PublicKey (SourceAccount first))
      then Some ErrChallengeMalformed
      else if isMuxed && bool_decide (tx_Memo tx ≠ None) then Some ErrMemoWithMuxed
      else if decide (id_memo (tx_Memo tx) = true ∧ nonce_text (Value first) ∧ later_ok server web rest)
      then None
      else Some ErrChallengeMalformed
  end.

(** A result that is an error of class [s], and of no other. *)
Definition refused {A} (s : sentinel) (r : result error A) : Prop := ∃ f a, r = Err (wrap s f a).

(** ** The parts of the reader *)

Lemma match_home_domain_spec name homes hd :
  hd ≠ "" → match_home_domain name homes = hd ↔ hd ∈ homes ∧ name = hd +:+ " auth".
Proof.
  intros Hne. induction homes as [|h homes IH]; simpl; [set_solver|].
  destruct (bool_decide_reflect (name = h +:+ " auth")) as [->|Hn].
  - split; [intros ->; set_solver|]. intros [_ Heq]. by apply string_app_inj_r in Heq.
  - rewrite IH, elem_of_cons. naive_solver.
Qed.

Lemma read_memo_ok m isMuxed o :
  read_memo m isMuxed = Ok o ↔ m = MemoID <$> o ∧ (is_Some o → isMuxed = false).
Proof.
  unfold read_memo. destruct m as [m|]; [|split].
  - rewrite fail_if_ok. destruct m, o; simpl; split; intros; destruct_and?;
      naive_solver eauto.
  - intros [= <-]. split; [done|]. by intros [? ?].
  - by destruct o as [o|]; intros [? _].
Qed.

Lemma len_eq_nat s n : (len s =? Z.of_nat n)%Z = true ↔ String.length s = n.
Proof. unfold len. rewrite Z.eqb_eq. lia. Qed.

Lemma read_nonce_ok v n :
  read_nonce v = Ok n ↔
  n = v ∧ String.length v = 64 ∧
  Forall (λ a, is_Some (base64_val a)) (String.list_ascii_of_string v).
Proof.
  unfold read_nonce. rewrite fail_if_ok, negb_false_iff, bind_ok.
  change nonceEncodedLen with (Z.of_nat 64). rewrite len_eq_nat.
  setoid_rewrite or_err_ok. setoid_rewrite fail_if_ok. setoid_rewrite negb_false_iff.
  change nonceRawLen with (Z.of_nat 48). setoid_rewrite len_eq_nat.
  split.
  - intros (Hl & raw & Hraw & Hlr & [= ->]). split_and!; [done..|].
    apply (DecodeString_full n 16); [done|]. eauto.
  - intros (-> & Hl & HF). split; [done|].
    apply (DecodeString_full v 16) in HF as (raw & ? & ?); [|done]. eauto.
Qed.

Lemma len_nonempty s : (len s =? 0)%Z = false ↔ s ≠ "".
Proof. rewrite Z.eqb_neq. by rewrite len_zero. Qed.

(** One iteration of the loop over the later operations. *)
Lemma read_ops_cons server web d ops sawW sawC dom key r :
  read_ops server web (OpManageData d :: ops) sawW sawC dom key = Ok r ↔
  op_ok server web (OpManageData d) ∧
  if decide (Name d = opWebAuthDomain)
  then sawW = false ∧ read_ops server web ops true sawC dom key = Ok r
  else if decide (Name d = opClientDomain)
  then sawC = false ∧ read_ops server web ops sawW true (Value d) (SourceAccount d) = Ok r
  else read_ops server web ops sawW sawC dom key = Ok r.
Proof.
  cbn [read_ops op_ok]. rewrite fail_if_ok, bool_decide_eq_false.
  destruct (decide (Name d = opWebAuthDomain)) as [Hn|Hn].
  { rewrite (bool_decide_eq_true_2 _ Hn). rewrite !fail_if_ok, !negb_false_iff,
      !bool_decide_eq_true. naive_solver. }
  rewrite (bool_decide_eq_false_2 _ Hn).
  destruct (decide (Name d = opClientDomain)) as [Hc|Hc].
  - rewrite (bool_decide_eq_true_2 _ Hc). rewrite !fail_if_ok, !negb_false_iff,
      !bool_decide_eq_false, len_nonempty. naive_solver.
  - rewrite (bool_decide_eq_false_2 _ Hc). rewrite !fail_if_ok, !negb_false_iff,
      !bool_decide_eq_true. naive_solver.
Qed.

Lemma named_cons n d ops :
  named n (OpManageData d :: ops) = if decide (Name d = n) then d :: named n ops else named n ops.
Proof. unfold named. simpl. by case_decide. Qed.

Lemma read_ops_ok server web ops sawW sawC dom key r :
  read_ops server web ops sawW sawC dom key = Ok r ↔
  Forall (op_ok server web) ops ∧
  (length (named opWebAuthDomain ops) + Nat.b2n sawW ≤ 1)%nat ∧
  (length (named opClientDomain ops) + Nat.b2n sawC ≤ 1)%nat ∧
  r = match named opClientDomain ops with
      | [] => (dom, key) | d :: _ => (Value d, SourceAccount d) end.
Proof.
  revert sawW sawC dom key. induction ops as [|[d|k] ops IH]; intros sawW sawC dom key.
  - simpl. split.
    + intros [= <-]. destruct sawW, sawC; simpl; split_and!; try done; lia.
    + by intros (_ & _ & _ & ->).
  - rewrite read_ops_cons, Forall_cons, !named_cons.
    destruct (decide (Name d = opWebAuthDomain)) as [Hw|Hw].
    + rewrite decide_False by (rewrite Hw; done). rewrite IH. simpl.
      destruct sawW; simpl; split; intros; destruct_and?; try done; try lia;
        split_and!; try done; lia.
    + destruct (decide (Name d = opClientDomain)) as [Hc|Hc]; rewrite IH; [|naive_solver].
      split.
      * intros (Ho & -> & HF & Hl1 & Hl2 & ->). split_and!; try done.
        { cbn [length Nat.b2n] in *; lia. }
        destruct (named opClientDomain ops); [done|]. cbn [length Nat.b2n] in Hl2. lia.
      * intros ((Ho & HF) & Hl1 & Hl2 & ->). destruct sawC; cbn [length Nat.b2n] in *; [lia|].
        split_and!; try done; [lia|].
        destruct (named opClientDomain ops); [done|]. cbn [length] in *. lia.
  - simpl. rewrite Forall_cons. simpl. naive_solver.
Qed.

(** A lone signer is found exactly when one of the signatures is its own. *)
Lemma matchSigners_single tx net s :
  is_ok (ParseAddress s) = true →
  (∃ found, matchSigners tx net [s] = Ok found ∧ length found ≠ 0%nat) ↔
  ∃ h i, tx_Hash tx net = Ok h ∧ made h (tx_Signatures tx) s i.
Proof.
  intros Hp. split.
  - intros (found & Hm & Hl). apply matchSigners_ok_inv in Hm as (h & idx & Hh & (HF & _) & Hsub).
    destruct found as [|s' found]; [done|].
    assert (s' = s) as -> by (apply sublist_subseteq in Hsub; set_solver).
    inversion HF; subst. eauto.
  - intros (h & i & Hh & Hm). unfold matchSigners. rewrite Hh.
    destruct (match_loop h (tx_Signatures tx) [s] ∅ ∅ []) as [found|e] eqn:Hl.
    + exists found. split; [done|]. intros Hnil. destruct found; [|done].
      simpl in Hl. destruct (ParseAddress s) as [kp|] eqn:Hkp; [|done].
      destruct (find_signature kp h ∅ 0 (tx_Signatures tx)) eqn:Hf; [done|].
      destruct Hm as (sig & Hsig & kp' & Hkp' & Hhint & Hv).
      assert (kp' = kp) as -> by congruence.
      pose proof (find_signature_none _ _ _ _ _ Hf i sig Hsig (not_elem_of_empty _) Hhint).
      congruence.
    + apply match_loop_err in Hl as (s' & Hs' & Hp' & _).
      assert (s' = s) as -> by set_solver. congruence.
Qed.

(** ** The reader as a whole *)

(** Every check passed gives a conjunct; the record below puts them together. *)
Lemma ReadChallenge_checks xdr server net web homes now c :
  ReadChallenge xdr server net web homes now = Ok c ↔
  ∃ tx first rest found,
    TransactionFromXDR xdr = Ok (SimpleTx tx) ∧
    IsValidEd25519PublicKey (AccountID (tx_SourceAccount tx)) = true ∧
    AccountID (tx_SourceAccount tx) = server ∧ Sequence (tx_SourceAccount tx) = 0%Z ∧
    MaxTime (tx_Timebounds tx) ≠ TimeoutInfinite ∧
    (MinTime (tx_Timebounds tx) ≤ int64 (Unix now + 300))%Z ∧
    (Unix now ≤ MaxTime (tx_Timebounds tx))%Z ∧
    tx_Operations tx = OpManageData first :: rest ∧
    SourceAccount first ≠ "" ∧
    match_home_domain (Name first) homes ≠ "" ∧
    (IsValidMuxedAccountEd25519PublicKey (SourceAccount first) = true ∨
     IsValidEd25519PublicKey (SourceAccount first) = true) ∧
    read_memo (tx_Memo tx) (IsValidMuxedAccountEd25519PublicKey (SourceAccount first))
      = Ok (ch_Memo c) ∧
    read_nonce (Value first) = Ok (Nonce c) ∧
    read_ops server web rest false false "" "" = Ok (ClientDomain c, ClientDomainKey c) ∧
    matchSigners tx net [server] = Ok found ∧ length found ≠ 0%nat ∧
    Tx c = tx ∧ ClientAccountID c = SourceAccount first ∧
    HomeDomain c = match_home_domain (Name first) homes.
Proof.
  unfold ReadChallenge. rewrite bind_ok. setoid_rewrite map_err_ok.
  change (clockGracePeriod / Second)%Z with 300%Z. split.
  - intros ([tx|] & Hx & Hr); [|done].
    rewrite !fail_if_ok in Hr. destruct Hr as (Hv & Hs & Hseq & Hfin & Hwin & Hr).
    destruct (tx_Operations tx) as [|[first|] rest] eqn:Hops; try done.
    rewrite !fail_if_ok in Hr. destruct Hr as (Hsrc & Hhome & Hcl & Hr).
    apply bind_ok in Hr as (memo & Hmemo & Hr). apply bind_ok in Hr as (n & Hn & Hr).
    apply bind_ok in Hr as ([dom key] & Hro & Hr). apply bind_ok in Hr as (found & Hm & Hr).
    apply fail_if_ok in Hr as [Hf [= <-]]. reflect_guards.
    exists tx, first, rest, found. simpl. split_and!; try done.
    by apply andb_false_iff in Hcl; rewrite !negb_false_iff in Hcl.
  - intros (tx & first & rest & found & Hx & Hv & Hs & Hseq & Hfin & Hlo & Hhi & Hops & Hsrc &
      Hhome & Hcl & Hmemo & Hn & Hro & Hm & Hf & Htx & Hca & Hhd).
    exists (SimpleTx tx). split; [done|].
    rewrite !fail_if_ok, Hops, !fail_if_ok, Hmemo, Hn, Hro. simpl. rewrite Hm. simpl.
    rewrite fail_if_ok.
    split_and!; rewrite ?negb_false_iff, ?bool_decide_eq_true, ?bool_decide_eq_false,
      ?Z.eqb_eq, ?Z.eqb_neq, ?orb_false_iff, ?Z.ltb_ge; try done.
    + rewrite andb_false_iff, !negb_false_iff. done.
    + f_equal. destruct c. simpl in *. by subst.
Qed.

Lemma refused_guard {A} (c : bool) s f a (k : result error A) :
  (c = false → refused s k) → refused s (if c then Err (wrap s f a) else k).
Proof. intros Hk. destruct c; [by eexists _, _|by apply Hk]. Qed.

Lemma refused_bind {A B} s (r : result error A) (k : A → result error B) :
  refused s r ∨ (∃ x, r = Ok x ∧ refused s (k x)) → refused s (result_bind k r).
Proof. intros [(f & a & ->)|(x & -> & Hk)]; [by eexists _, _|done]. Qed.

Lemma keyed_match homes d : keyed homes d ↔ match_home_domain (Name d) homes ≠ "".
Proof.
  unfold keyed. rewrite Exists_exists. split.
  - intros (h & Hin & Hne & Hn) He.
    by rewrite (proj2 (match_home_domain_spec (Name d) homes h Hne) (conj Hin Hn)) in He.
  - intros Hne. exists (match_home_domain (Name d) homes).
    by destruct (proj1 (match_home_domain_spec (Name d) homes _ Hne) eq_refl).
Qed.

(** The three parts after the account either go through or are malformed. *)
Lemma read_memo_cases m :
  if id_memo m then ∃ o, read_memo m false = Ok o else refused ErrChallengeMalformed (read_memo m false).
Proof. destruct m as [[]|]; simpl; first [by eexists|by eexists _, _]. Qed.

Lemma read_nonce_cases v :
  if decide (nonce_text v) then read_nonce v = Ok v else refused ErrChallengeMalformed (read_nonce v).
Proof.
  destruct (decide (nonce_text v)) as [[Hl HF]|Hn]; [by apply read_nonce_ok|].
  destruct (read_nonce v) as [n|e] eqn:Hr.
  - apply read_nonce_ok in Hr as (_ & Hl & HF). by destruct Hn.
  - unfold read_nonce in Hr. apply fail_if_err in Hr as [[_ ->]|[_ Hr]]; [by eexists _, _|].
    apply bind_err in Hr as [[_ ->]%or_err_err|(raw & _ & Hr)]; [by eexists _, _|].
    apply fail_if_err in Hr as [[_ ->]|[_ Hr]]; [by eexists _, _|done].
Qed.

Lemma read_ops_err server web ops sw sc d k e :
  read_ops server web ops sw sc d k = Err e → ∃ f a, e = wrap ErrChallengeMalformed f a.
Proof.
  revert sw sc d k. induction ops as [|[data|] ops IH]; intros sw sc d k Hr; [done| |].
  - cbn [read_ops] in Hr.
    apply fail_if_err in Hr as [[_ ->]|[_ Hr]]; [by eexists _, _|].
    destruct (Name data =s opWebAuthDomain); [|destruct (Name data =s opClientDomain)];
      repeat (apply fail_if_err in Hr as [[_ ->]|[_ Hr]]; [by eexists _, _|]); by eapply IH.
  - injection Hr as <-. by eexists _, _.
Qed.

Lemma read_ops_cases server web ops :
  if decide (later_ok server web ops)
  then ∃ r, read_ops server web ops false false "" "" = Ok r
  else refused ErrChallengeMalformed (read_ops server web ops false false "" "").
Proof.
  destruct (decide (later_ok server web ops)) as [(HF & H1 & H2)|Hn].
  - eexists. apply read_ops_ok. rewrite !Nat.add_0_r. done.
  - destruct (read_ops _ _ _ _ _ _ _) as [r|e] eqn:Hr.
    + apply read_ops_ok in Hr as (HF & H1 & H2 & _). rewrite !Nat.add_0_r in *. by destruct Hn.
    + apply read_ops_err in Hr as (f & a & ->). by eexists _, _.
Qed.

(** The clock decides whether an envelope is read, not what is read in it. *)
Lemma ReadChallenge_det xdr server net web homes now now' c c' :
  ReadChallenge xdr server net web homes now = Ok c →
  ReadChallenge xdr server net web homes now' = Ok c' → c = c'.
Proof.
  intros (tx & first & rest & found & Hx & _ & _ & _ & _ & _ & _ & Hops & _ & _ & _ & Hm & Hn & Hro &
    _ & _ & Ht & Ha & Hh)%ReadChallenge_checks
    (tx' & first' & rest' & found' & Hx' & _ & _ & _ & _ & _ & _ & Hops' & _ & _ & _ & Hm' & Hn' & Hro' &
    _ & _ & Ht' & Ha' & Hh')%ReadChallenge_checks.
  assert (tx' = tx) as -> by congruence. rewrite Hops in Hops'. injection Hops' as <- <-.
  destruct c, c'; simpl in *. congruence.
Qed.

Context {L : SDKLaws H}.

Lemma ReadChallenge_ok xdr server net web homes now c :
  ReadChallenge xdr server net web homes now = Ok c ↔
  TransactionFromXDR xdr = Ok (SimpleTx (Tx c)) ∧ WellFormed server net web homes now c.
Proof.
  rewrite ReadChallenge_checks. split.
  - intros (tx & first & rest & found & Hx & Hv & Hs & Hseq & Hfin & Hlo & Hhi & Hops & Hsrc &
      Hhome & Hcl & Hmemo & Hn & Hro & Hm & Hf & Htx & Hca & Hhd).
    subst tx. split; [done|]. rewrite <-Hca in *. rewrite <-Hhd in Hhome.
    apply read_nonce_ok in Hn as (Hn & Hnl & Hnf). rewrite <-Hn in *.
    apply read_ops_ok in Hro as (HF & Hl1 & Hl2 & Hcb). simpl in Hl1, Hl2.
    symmetry in Hhd. apply match_home_domain_spec in Hhd as [Hin Hname]; [|done].
    split; try done.
    + destruct (tx_SourceAccount (Tx c)); simpl in *; congruence.
    + by rewrite <-Hs.
    + by apply read_memo_ok.
    + exists rest. rewrite Hops. destruct first; simpl in *; subst.
      split_and!; try done; lia.
    + eapply matchSigners_single; [|eauto]. apply ParseAddress_ed25519. by rewrite <-Hs.
  - intros [Hx [Hsrc Hv Hfin [Hlo Hhi] [Hin Hhome] [Hc1 Hc2] Hmemo [Hnl Hnf]
      (rest & Hops & HF & Hl1 & Hl2 & Hcb) Hsig]].
    apply matchSigners_single in Hsig as (found & Hm & Hf); [|by apply ParseAddress_ed25519].
    exists (Tx c), (MkManageData (ClientAccountID c) (HomeDomain c +:+ " auth") (Nonce c)), rest, found.
    assert (match_home_domain (HomeDomain c +:+ " auth") homes = HomeDomain c) as Hmatch
      by by apply match_home_domain_spec.
    rewrite Hsrc. simpl. rewrite Hmatch. split_and!; try done.
    + by apply read_memo_ok.
    + by apply read_nonce_ok.
    + apply read_ops_ok. rewrite !Nat.add_0_r. done.
Qed.
(** The guards on the envelope. *)
Lemma envelope_guards server tx :
  envelope_ok server tx ↔
  negb (IsValidEd25519PublicKey (AccountID (tx_SourceAccount tx))) = false ∧
  AccountID (tx_SourceAccount tx) <>s server = false ∧
  negb (Sequence (tx_SourceAccount tx) =? 0)%Z = false ∧
  (MaxTime (tx_Timebounds tx) =? TimeoutInfinite)%Z = false.
Proof.
  unfold envelope_ok. rewrite !negb_false_iff, bool_decide_eq_true, Z.eqb_eq, Z.eqb_neq.
  destruct (tx_SourceAccount tx) as [a q]. simpl. split.
  - by intros ([= -> ->] & ? & ?).
  - by intros (? & -> & -> & ?).
Qed.

Lemma window_guard now tx :
  in_window now tx ↔
  ((int64 (Unix now + clockGracePeriod / Second) <? MinTime (tx_Timebounds tx)) ||
   (MaxTime (tx_Timebounds tx) <? Unix now))%Z = false.
Proof.
  unfold in_window. change (clockGracePeriod / Second)%Z with 300%Z.
  by rewrite orb_false_iff, !Z.ltb_ge.
Qed.

(** What is left after the account is known to be valid. *)
Lemma later_parts server web net tx first rest isMuxed (finish : option Z → string → string * string →
    result error Challenge) :
  isMuxed && bool_decide (tx_Memo tx ≠ None) = false →
  let r := let? memo := read_memo (tx_Memo tx) isMuxed in
           let? nonce := read_nonce (Value first) in
           let? (clientDomain, clientDomainKey) := read_ops server web rest false false "" "" in
           let? serverFound := matchSigners tx net [server] in
           fail_if bool_decide (length serverFound = 0%nat)
             with wrap ErrChallengeMalformed "%w: challenge is not signed by this server" [];;
           finish memo nonce (clientDomain, clientDomainKey) in
  (∀ memo nonce dk, is_ok (finish memo nonce dk) = true) → IsValidEd25519PublicKey server = true →
  if decide (id_memo (tx_Memo tx) = true ∧ nonce_text (Value first) ∧ later_ok server web rest)
  then match tx_Hash tx net with
       | Err t => r = Err (Errorf "hashing challenge: %w" [] [New t])
       | Ok h => (∃ i, made h (tx_Signatures tx) server i) ∧ is_ok r = true ∨
                 (¬ ∃ i, made h (tx_Signatures tx) server i) ∧ refused ErrChallengeMalformed r
       end
  else refused ErrChallengeMalformed r.
Proof.
  intros Hmux r Hfinish Hserver.
  assert (Hrm : read_memo (tx_Memo tx) isMuxed = read_memo (tx_Memo tx) false).
  { destruct (tx_Memo tx); [|done]. apply andb_false_iff in Hmux as [-> |Hmux]; [done|].
    apply bool_decide_eq_false in Hmux. by destruct Hmux. }
  pose proof (read_memo_cases (tx_Memo tx)) as Hm. pose proof (read_nonce_cases (Value first)) as Hn.
  pose proof (read_ops_cases server web rest) as Ho. subst r. rewrite Hrm.
  destruct (id_memo (tx_Memo tx)).
  2: { rewrite decide_False by (by intros [? _]). by apply refused_bind; left. }
  destruct Hm as [memo ->]. cbn [result_bind].
  destruct (decide (nonce_text (Value first))) as [Hnt|Hnt].
  2: { rewrite decide_False by (by intros (_ & ? & _)). by apply refused_bind; left. }
  rewrite Hn. cbn [result_bind].
  destruct (decide (later_ok server web rest)) as [Hl|Hl].
  2: { rewrite decide_False by (by intros (_ & _ & ?)). by apply refused_bind; left. }
  rewrite decide_True by done. destruct Ho as [[cd key] ->]. cbn [result_bind].
  pose proof (matchSigners_single tx net server (ParseAddress_ed25519 _ Hserver)) as Hs.
  destruct (tx_Hash tx net) as [h|e] eqn:Hh.
  2: { unfold matchSigners. by rewrite Hh. }
  destruct (matchSigners tx net [server]) as [found|e] eqn:Hf.
  - cbn [result_bind]. destruct found as [|s found]; simpl.
    + right. split; [|by eexists _, _]. intros [i Hi].
      destruct (proj2 Hs) as (f & [= <-] & Hne); [by exists h, i|done].
    + left. split; [|by apply Hfinish].
      destruct (proj1 Hs) as (h' & i & [= <-] & Hi); [by eexists|]. by exists i.
  - exfalso. unfold matchSigners in Hf. rewrite Hh in Hf.
    apply match_loop_err in Hf as (s & ->%list_elem_of_singleton & Hp & _).
    by rewrite (ParseAddress_ed25519 _ Hserver) in Hp.
Qed.

Lemma ReadChallenge_faults xdr server net web homes now :
  let r := ReadChallenge xdr server net web homes now in
  match TransactionFromXDR xdr with
  | Err _ | Ok FeeBumpTx => refused ErrChallengeMalformed r
  | Ok (SimpleTx tx) =>
      match reading_fault server web homes now tx with
      | Some s => refused s r
      | None =>
          match tx_Hash tx net with
          | Err t => r = Err (Errorf "hashing challenge: %w" [] [New t])
          | Ok h => (∃ i, made h (tx_Signatures tx) server i) ∧ is_ok r = true ∨
                    (¬ ∃ i, made h (tx_Signatures tx) server i) ∧ refused ErrChallengeMalformed r
          end
      end
  end.
Proof.
  unfold ReadChallenge. destruct (TransactionFromXDR xdr) as [[tx|]|e]; cbn [map_err result_bind];
    [|by eexists _, _|by eexists _, _].
  unfold reading_fault. destruct (decide (envelope_ok server tx)) as [He|He].
  2: { rewrite decide_True by done. do 4 (apply refused_guard; intros ?). by destruct He; apply envelope_guards. }
  rewrite decide_False by tauto. pose proof He as (Hsrc & Hserver & _).
  apply envelope_guards in He as (-> & -> & -> & ->).
  destruct (decide (in_window now tx)) as [Hw|Hw].
  2: { rewrite decide_True by done. apply refused_guard. intros Hg. by destruct Hw; apply window_guard. }
  rewrite decide_False by tauto. apply window_guard in Hw as ->.
  destruct (tx_Operations tx) as [|[first|src] rest]; [by eexists _, _| |by eexists _, _].
  destruct (decide (SourceAccount first = "")) as [Hs|Hs].
  { rewrite bool_decide_eq_true_2 by done. by eexists _, _. }
  rewrite (bool_decide_eq_false_2 _ Hs).
  destruct (decide (keyed homes first)) as [Hk|Hk].
  2: { rewrite decide_True by done. apply refused_guard. intros Hg%bool_decide_eq_false.
       by destruct Hk; apply keyed_match. }
  rewrite decide_False by tauto. apply keyed_match in Hk. rewrite (bool_decide_eq_false_2 _ Hk).
  set (isMuxed := IsValidMuxedAccountEd25519PublicKey (SourceAccount first)).
  destruct (negb isMuxed && _); [by eexists _, _|].
  destruct (isMuxed && bool_decide (tx_Memo tx ≠ None)) eqn:Hmux.
  - apply refused_bind. left. reflect_guards. destruct (tx_Memo tx) as [m|]; [|done]. unfold read_memo.
    destruct isMuxed; [by eexists _, _|done].
  - pose proof (later_parts server web net tx first rest isMuxed
      (λ memo nonce dk, Ok (MkChallenge tx (SourceAccount first)
         (match_home_domain (Name first) homes) memo nonce dk.1 dk.2)) Hmux
      ltac:(done) Hserver) as Hlater. cbn [fst snd] in Hlater.
    destruct (decide (id_memo _ = true ∧ _)); exact Hlater.
Qed.
End ReadChallenge.

(** ** Properties *)

(** [ReadChallenge] accepts exactly the well-formed challenges: it returns a
    challenge precisely when the XDR decodes to that challenge's transaction
    and the transaction is sourced at this server with sequence number 0,
    carries finite timebounds that contain the current time (with the grace
    period below), starts with a manage_data operation keyed by a configured
    home domain and sourced at a G... or M... account with a 64-character
    base64 nonce, has only recognised later operations with at most one
    web_auth_domain and one client_domain, carries an ID memo at most and none
    on a muxed account, and bears a signature of the server.  (claim C22) *)
Theorem ReadChallenge_accepts_exactly {Sd : SDK} {L : SDKLaws Sd} xdr server net web homes now c :
  ReadChallenge xdr server net web homes now = Ok c ↔
  TransactionFromXDR xdr = Ok (SimpleTx (Tx c)) ∧ WellFormed server net web homes now c.
Proof. apply ReadChallenge_ok. Qed.

(** The demo reader, at the given second. *)
Abbreviation demo_read t sec :=
  (ReadChallenge (Demo.tx_text t) Sample.server Sample.net Sample.web [Sample.home]
    (fromUnix sec)).

Definition demo_challenge : Challenge :=
  MkChallenge (Sample.with_domain : Transaction) Sample.client Sample.home None Sample.nonce
    Sample.domain Sample.wallet.

Lemma ReadChallenge_accepts_exactly_witness :
  demo_read Sample.with_domain 1100 = Ok demo_challenge ∧
  WellFormed Sample.server Sample.net Sample.web [Sample.home] (fromUnix 1100) demo_challenge.
Proof.
  assert (demo_read Sample.with_domain 1100 = Ok demo_challenge) as Hr
    by (vm_compute; reflexivity).
  split; [exact Hr|]. by apply ReadChallenge_accepts_exactly in Hr as [_ ?].
Defined.

(** Every refusal has the class of the first fault, and only a challenge without
    one is read: an XDR that does not decode, a fee bump, or an envelope that is
    not this server's is malformed; one of this server outside its window is
    expired; then come a first operation that is missing, not a manage_data or
    without source (malformed), a key that names no home domain (unknown home
    domain), an account that is none (malformed), a memo on a muxed account
    (memo with muxed), and any other memo, nonce or later operation that is not
    well formed (malformed).  A challenge without these faults is read if the
    server signed it, malformed if not, and an error of no class when it cannot
    be hashed.  (claim C24) *)
Theorem ReadChallenge_error_class {Sd : SDK} {L : SDKLaws Sd} xdr server net web homes now :
  let r := ReadChallenge xdr server net web homes now in
  match TransactionFromXDR xdr with
  | Err _ | Ok FeeBumpTx => refused ErrChallengeMalformed r
  | Ok (SimpleTx tx) =>
      match reading_fault server web homes now tx with
      | Some s => refused s r
      | None =>
          match tx_Hash tx net with
          | Err t => r = Err (Errorf "hashing challenge: %w" [] [New t])
          | Ok h => (∃ i, made h (tx_Signatures tx) server i) ∧ is_ok r = true ∨
                    (¬ ∃ i, made h (tx_Signatures tx) server i) ∧ refused ErrChallengeMalformed r
          end
      end
  end.
Proof. apply ReadChallenge_faults. Qed.

(** The same envelope past its time, for a server of another home domain, and
    without a fault but also without the server's signature. *)
Lemma ReadChallenge_error_class_witness :
  refused ErrChallengeExpired (demo_read Sample.with_domain 9999) ∧
  refused ErrUnknownHomeDomain
    (ReadChallenge (Demo.tx_text Sample.with_domain) Sample.server Sample.net Sample.web
       ["elsewhere.example"] (fromUnix 1100)) ∧
  refused ErrChallengeMalformed
    (demo_read (Sample.signed (Sample.body true None) [Sample.client]) 1100).
Proof.
  assert (Hx : ∀ t : Transaction, TransactionFromXDR (Demo.tx_text t) = Ok (SimpleTx t)).
  { intros t. apply TransactionFromXDR_Base64. reflexivity. }
  split; [|split].
  - pose proof (ReadChallenge_error_class (Demo.tx_text Sample.with_domain) Sample.server Sample.net
      Sample.web [Sample.home] (fromUnix 9999)) as H. cbv zeta in H. rewrite Hx in H.
    assert (Hf : reading_fault Sample.server Sample.web [Sample.home] (fromUnix 9999)
      (Sample.with_domain : Transaction) = Some ErrChallengeExpired) by (vm_compute; reflexivity).
    rewrite Hf in H. exact H.
  - pose proof (ReadChallenge_error_class (Demo.tx_text Sample.with_domain) Sample.server Sample.net
      Sample.web ["elsewhere.example"] (fromUnix 1100)) as H. cbv zeta in H. rewrite Hx in H.
    assert (Hf : reading_fault Sample.server Sample.web ["elsewhere.example"] (fromUnix 1100)
      (Sample.with_domain : Transaction) = Some ErrUnknownHomeDomain) by (vm_compute; reflexivity).
    rewrite Hf in H. exact H.
  - pose proof (ReadChallenge_error_class (Demo.tx_text (Sample.signed (Sample.body true None) [Sample.client]))
      Sample.server Sample.net Sample.web [Sample.home] (fromUnix 1100)) as H. cbv zeta in H. rewrite Hx in H.
    assert (Hf : reading_fault Sample.server Sample.web [Sample.home] (fromUnix 1100)
      (Sample.signed (Sample.body true None) [Sample.client] : Transaction) = None) by (vm_compute; reflexivity).
    rewrite Hf in H. destruct (tx_Hash _ _) as [h|e] eqn:Hh; [|discriminate].
    destruct H as [[_ Hok]|[_ H]]; [|exact H]. vm_compute in Hok. discriminate.
Defined.

(** The time window, to the second: of two readings of the same envelope, one
    that succeeds and one at another time, the second succeeds exactly when its
    clock shows a second between MinTime less five minutes and MaxTime, both
    included.  (claim C23) *)
Theorem ReadChallenge_window {Sd : SDK} {L : SDKLaws Sd} xdr server net web homes now now' c :
  ReadChallenge xdr server net web homes now = Ok c →
  (0 ≤ Unix now' < 2 ^ 62)%Z →
  ReadChallenge xdr server net web homes now' = Ok c ↔
  (MinTime (tx_Timebounds (Tx c)) - 300 ≤ Unix now' ≤ MaxTime (tx_Timebounds (Tx c)))%Z.
Proof.
  intros Hr Hnow. rewrite ReadChallenge_ok in Hr |- *.
  destruct Hr as [Hx Hwf]. split.
  - intros [_ [_ _ _ Hw _ _ _ _ _ _]]. rewrite int64_id in Hw; lia.
  - intros Hw. split; [done|]. destruct Hwf. split; try done.
    rewrite int64_id; lia.
Qed.

Lemma ReadChallenge_window_witness :
  demo_read Sample.with_domain 1100 = Ok demo_challenge ∧
  demo_read Sample.with_domain 700 = Ok demo_challenge.
Proof.
  assert (0 ≤ Unix (fromUnix 700) < 2 ^ 62)%Z as Hnow by (vm_compute; done).
  assert (MinTime (tx_Timebounds (Tx demo_challenge)) - 300 ≤ Unix (fromUnix 700)
    ≤ MaxTime (tx_Timebounds (Tx demo_challenge)))%Z as Hw by (vm_compute; done).
  assert (demo_read Sample.with_domain 1100 = Ok demo_challenge) as Hr
    by (vm_compute; reflexivity).
  split; [exact Hr|].
  pose proof (ReadChallenge_window _ _ _ _ _ _ _ _ Hr Hnow) as [_ Hwin].
  exact (Hwin Hw).
Defined.
