(* ===== verification/Verify.v ===== *)
(** * Verifying the client's signatures (internal/auth/verify.go)

    [VerifyClient] and the functions it calls.  The account lookup is a
    program of the caller's choosing, as the AccountFetcher interface has it;
    the order in which Go ranges over the signer map is a parameter. *)

From S2P Require Import Prelude GoStd Errors Effects Stellar SdkDemo Signatures ReadChallenge.

Section Verify.
Context `{SDK}.

(** [type Account struct]; the weights and the threshold are [int32]. *)
Record Account : Type := MkAccount { Signers : gmap string Z; MedThreshold : Z }.

(** [signers[signer]]: the zero value when there is no such key. *)
Definition weight_of (signers : gmap string Z) (signer : string) : Z :=
  default 0%Z (signers !! signer).

(** The [int32] sum of the loop, wrapped at each addition. *)
Fixpoint weight_loop (found : list string) (signers : gmap string Z)
    (clientDomainKey : string) (weight : Z) : Z :=
  match found with
  | [] => weight
  | signer :: rest =>
      if clientDomainKey <>s "" && signer =s clientDomainKey
      then weight_loop rest signers clientDomainKey weight
      else weight_loop rest signers clientDomainKey (int32 (weight + weight_of signers signer))
  end.

Definition accountSignerWeight (found : list string) (signers : gmap string Z)
    (clientDomainKey : string) : Z :=
  weight_loop found signers clientDomainKey 0.

(** The closure [add], on the slice and the map it captures. *)
Definition add_signer (serverAccountID : string) (acc : list string * gset string)
    (signer : string) : list string * gset string :=
  let '(clientSigners, seen) := acc in
  if signer =s "" || signer =s serverAccountID || bool_decide (signer ∈ seen)
  then (clientSigners, seen)
  else if negb (IsValidEd25519PublicKey signer) then (clientSigners, seen)
  else (clientSigners ++ [signer], {[signer]} ∪ seen).

(** [for ... { add(signer) }] over the account's signers, then the client
    domain key. *)
Definition client_signers (serverAccountID clientDomainKey : string)
    (accountSigners : list string) : list string :=
  (add_signer serverAccountID
     (foldl (add_signer serverAccountID) ([], ∅) accountSigners) clientDomainKey).1.

Definition verifySigners (challenge : Challenge) (networkPassphrase : string)
    (accountSigners : list string) : result error (list string) :=
  let serverAccountID := AccountID (tx_SourceAccount (Tx challenge)) in
  let clientSigners :=
    client_signers serverAccountID (ClientDomainKey challenge) accountSigners in
  fail_if bool_decide (length clientSigners = 0%nat)
    with wrap ErrSignatureUnrecognized "%w: no verifiable signers for this account" [];;
  let? matched := matchSigners (Tx challenge) networkPassphrase
                    (serverAccountID :: clientSigners) in
  let serverFound := existsb (λ signer, signer =s serverAccountID) matched in
  let found := filter (λ signer, signer ≠ serverAccountID) matched in
  fail_if negb serverFound
    with wrap ErrSignatureUnrecognized "%w: challenge is not signed by this server" [];;
  let signerFound := existsb (λ signer, signer <>s ClientDomainKey challenge) found in
  fail_if negb signerFound
    with wrap ErrSignatureUnrecognized
           "%w: challenge carries no signature from a signer on the account" [];;
  fail_if negb (bool_decide (length matched = length (tx_Signatures (Tx challenge))))
    with wrap ErrSignatureUnrecognized "%w: challenge carries unrecognised signatures" [];;
  fail_if ClientDomainKey challenge <>s "" &&
          negb (existsb (λ signer, signer =s ClientDomainKey challenge) found)
    with wrap ErrClientDomainUnverified "%w: client domain %q did not sign the challenge"
           [Str (ClientDomain challenge)];;
  Ok found.

(** [baseAccountID]. *)
Definition baseAccountID (address : string) : result error string :=
  if IsValidEd25519PublicKey address then Ok address
  else match AddressToMuxedAccount address with
       | Err _ => Err (wrap ErrInvalidAccount "%w: %q" [Str address])
       | Ok muxed => Ok (muxed_AccountAddress muxed)
       end.

(** The rest of [VerifyClient], once the account lookup has answered.  [keys]
    is the order in which the range loop visits the signer map. *)
Definition verify_looked_up (challenge : Challenge) (networkPassphrase accountID : string)
    (account : result error Account) (keys : gmap string Z → list string) :
    result error (list string) :=
  match account with
  | Err err =>
      if Is err ErrAccountNotFound
      then verifySigners challenge networkPassphrase [accountID]
      else Err (Errorf "%w: %s" [ErrText err] [Sentinel ErrAccountLookupFailed])
  | Ok account =>
      let candidates := SortStrings (keys (Signers account)) in
      let? found := verifySigners challenge networkPassphrase candidates in
      let weight := accountSignerWeight found (Signers account) (ClientDomainKey challenge) in
      fail_if (weight <? MedThreshold account)%Z
        with wrap ErrThresholdNotMet "%w: matched weight %d against threshold %d"
               [Num weight; Num (MedThreshold account)];;
      Ok found
  end.

Definition VerifyClient {S} (keys : gmap string Z → list string) (challenge : Challenge)
    (networkPassphrase : string) (accounts : string → prog S (result error Account)) :
    prog S (result error (list string)) :=
  match baseAccountID (ClientAccountID challenge) with
  | Err err => Ret (Err err)
  | Ok accountID =>
      do account <- accounts accountID;;
      Ret (verify_looked_up challenge networkPassphrase accountID account keys)
  end.

(** A range over a map visits each key once, in an order of its own. *)
Definition ranges_over (keys : gmap string Z → list string) : Prop :=
  ∀ m, keys m ≡ₚ (map_to_list m).*1.

(** ** Candidates *)

(** Who may count as a client signer. *)
Definition eligible (server s : string) : Prop :=
  s ≠ "" ∧ s ≠ server ∧ IsValidEd25519PublicKey s = true.

Lemma add_signer_inv server l acc P :
  (∀ s, s ∈ acc.1 ↔ s ∈ acc.2) → NoDup acc.1 →
  (∀ s, s ∈ acc.1 ↔ eligible server s ∧ P s) →
  let acc' := add_signer server acc l in
  (∀ s, s ∈ acc'.1 ↔ s ∈ acc'.2) ∧ NoDup acc'.1 ∧
  (∀ s, s ∈ acc'.1 ↔ eligible server s ∧ (P s ∨ s = l)).
Proof.
  destruct acc as [cs seen]. simpl. intros Heq Hnd HP.
  assert (¬ eligible server l ∨ P l → ∀ s, s ∈ cs ↔ eligible server s ∧ (P s ∨ s = l)) as Hskip.
  { intros Hl s. rewrite HP. split; [tauto|]. intros [He [?| ->]]; tauto. }
  destruct (bool_decide_reflect (l = "")) as [->|]; simpl.
  { split_and!; [done..|]. apply Hskip. left. by intros [? _]. }
  destruct (bool_decide_reflect (l = server)) as [->|]; simpl.
  { split_and!; [done..|]. apply Hskip. left. by intros (_ & ? & _). }
  destruct (bool_decide_reflect (l ∈ seen)) as [Hin|Hnin]; simpl.
  { split_and!; [done..|]. apply Hskip. apply Heq, HP in Hin. tauto. }
  destruct (IsValidEd25519PublicKey l) eqn:Hv; simpl.
  - split_and!.
    + intros s. rewrite elem_of_app, list_elem_of_singleton, Heq. set_solver.
    + apply NoDup_app. split_and!; [done| |apply NoDup_singleton].
      intros s Hs ->%list_elem_of_singleton. by apply Hnin, Heq.
    + intros s. rewrite elem_of_app, list_elem_of_singleton, HP. unfold eligible.
      split; [|tauto]. intros [?| ->]; tauto.
  - split_and!; [done..|]. apply Hskip. left. intros (_ & _ & ?). congruence.
Qed.

Lemma client_signers_spec server key l :
  NoDup (client_signers server key l) ∧
  ∀ s, s ∈ client_signers server key l ↔ eligible server s ∧ (s ∈ l ∨ s = key).
Proof.
  unfold client_signers.
  assert (∀ acc P, (∀ s, s ∈ acc.1 ↔ s ∈ acc.2) → NoDup acc.1 →
    (∀ s, s ∈ acc.1 ↔ eligible server s ∧ P s) →
    let acc' := foldl (add_signer server) acc l in
    (∀ s, s ∈ acc'.1 ↔ s ∈ acc'.2) ∧ NoDup acc'.1 ∧
    (∀ s, s ∈ acc'.1 ↔ eligible server s ∧ (P s ∨ s ∈ l))) as Hfold.
  { induction l as [|a l IH]; intros acc P H1 H2 H3; simpl.
    - split_and!; [done..|]. intros s. rewrite H3, elem_of_nil. tauto.
    - destruct (add_signer_inv server a acc P H1 H2 H3) as (G1 & G2 & G3).
      destruct (IH _ (λ s, P s ∨ s = a) G1 G2 G3) as (K1 & K2 & K3).
      split_and!; [done..|]. intros s. rewrite K3, elem_of_cons. tauto. }
  destruct (Hfold ([], ∅) (λ _, False)) as (G1 & G2 & G3);
    [set_solver | constructor | set_solver |].
  destruct (add_signer_inv server key _ _ G1 G2 G3) as (K1 & K2 & K3).
  split; [done|]. intros s. rewrite K3. tauto.
Qed.

(** ** Weights *)

(** Whether a matched signer counts toward the account's threshold. *)
Definition counts (key signer : string) : bool := negb (key <>s "" && signer =s key).

(** The sum of the counted weights in [Z]. *)
Definition exact_weight (found : list string) (signers : gmap string Z) (key : string) : Z :=
  foldr (λ s acc, (if counts key s then weight_of signers s else 0) + acc)%Z 0%Z found.

Lemma weight_loop_exact found signers key w :
  weight_loop found signers key (int32 w) = int32 (w + exact_weight found signers key).
Proof.
  revert w. induction found as [|s found IH]; intros w; simpl; [by rewrite Z.add_0_r|].
  unfold counts. destruct (key <>s "" && s =s key); simpl; rewrite ?int32_add_l, IH; f_equal; lia.
Qed.

Lemma accountSignerWeight_wraps found signers key :
  accountSignerWeight found signers key = int32 (exact_weight found signers key).
Proof.
  unfold accountSignerWeight. change 0%Z with (int32 0) at 1. apply weight_loop_exact.
Qed.

Lemma exact_weight_bounds found signers key b :
  (0 ≤ b)%Z → (∀ s, 0 ≤ weight_of signers s ≤ b)%Z →
  (0 ≤ exact_weight found signers key ≤ b * Z.of_nat (length found))%Z.
Proof.
  intros Hb Hw. induction found as [|s found IH]; [simpl; lia|].
  simpl. specialize (Hw s). destruct (counts key s); nia.
Qed.

(** ** [verifySigners] *)

Lemma verifySigners_checks c net l found :
  let server := AccountID (tx_SourceAccount (Tx c)) in
  verifySigners c net l = Ok found ↔
  ∃ m, matchSigners (Tx c) net (server :: client_signers server (ClientDomainKey c) l) = Ok m ∧
    found = filter (λ s, s ≠ server) m ∧ server ∈ m ∧
    (∃ s, s ∈ found ∧ s ≠ ClientDomainKey c) ∧
    length m = length (tx_Signatures (Tx c)) ∧
    (ClientDomainKey c ≠ "" → ClientDomainKey c ∈ found) ∧
    client_signers server (ClientDomainKey c) l ≠ [].
Proof.
  intros server. unfold verifySigners. fold server. rewrite fail_if_ok, bind_ok.
  assert (∀ (P : string → bool) ls, existsb P ls = true ↔ ∃ s, s ∈ ls ∧ P s = true) as Hex.
  { intros P ls. rewrite existsb_exists. by setoid_rewrite list_elem_of_In. }
  split.
  - intros (Hne & m & Hm & Hr). rewrite !fail_if_ok in Hr.
    destruct Hr as (Hs & Hsf & Hlen & Hk & [= <-]). exists m. reflect_guards.
    apply Hex in Hs as (s & Hs & Hss). apply Hex in Hsf as (s' & Hs' & Hn).
    reflect_guards. subst s.
    split_and!; try done; [by eauto| |by intros Heq; rewrite Heq in Hne].
    intros Hkey. rewrite bool_decide_eq_false_2 in Hk by done. simpl in Hk.
    apply negb_false_iff, Hex in Hk as (s'' & Hs'' & Hss). reflect_guards. by subst s''.
  - intros (m & Hm & -> & Hs & (s' & Hs' & Hn) & Hlen & Hk & Hne).
    split; [by rewrite bool_decide_eq_false, length_zero_iff_nil|].
    exists m. rewrite !fail_if_ok. split_and!; try done.
    + apply negb_false_iff, Hex. exists server. by rewrite bool_decide_eq_true.
    + apply negb_false_iff, Hex. exists s'. by rewrite negb_true_iff, bool_decide_eq_false.
    + by rewrite negb_false_iff, bool_decide_eq_true.
    + destruct (bool_decide_reflect (ClientDomainKey c = "")) as [|Hkey]; [done|]. simpl.
      apply negb_false_iff, Hex. exists (ClientDomainKey c). rewrite bool_decide_eq_true. auto.
Qed.

(** What a successful check of the signatures establishes, whichever
    candidates it was given: the server and every signer found have a signature
    of their own, no signature is left over, the client domain's key is among
    them when the challenge names one, and somebody else among the candidates
    signed too. *)
Record signed_by (h : bytes) (c : Challenge) (candidates found : list string) : Prop := {
  sb_each : ∃ idx,
    matched h (tx_Signatures (Tx c)) (AccountID (tx_SourceAccount (Tx c)) :: found) idx;
  sb_count : length (tx_Signatures (Tx c)) = S (length found);
  sb_eligible : ∀ s, s ∈ found →
    eligible (AccountID (tx_SourceAccount (Tx c))) s ∧ (s ∈ candidates ∨ s = ClientDomainKey c);
  sb_account : ∃ s, s ∈ found ∧ s ∈ candidates ∧ s ≠ ClientDomainKey c;
  sb_domain : ClientDomainKey c ≠ "" → ClientDomainKey c ∈ found;
}.

Lemma verifySigners_sound c net l found :
  verifySigners c net l = Ok found →
  ∃ h, tx_Hash (Tx c) net = Ok h ∧ signed_by h c l found.
Proof.
  intros Hv. apply verifySigners_checks in Hv
    as (m & Hm & Hf & Hs & (s' & Hs' & Hn) & Hlen & Hk & _).
  set (server := AccountID (tx_SourceAccount (Tx c))) in *.
  apply matchSigners_ok_inv in Hm as (h & idx & Hh & Hmt & Hsub).
  destruct (client_signers_spec server (ClientDomainKey c) l) as [Hnd Hcs].
  assert (m = server :: found) as Hcons.
  { assert (server ∉ client_signers server (ClientDomainKey c) l) as Hns.
    { rewrite Hcs. by intros [(_ & ? & _) _]. }
    apply sublist_cons_r in Hsub as [Hsub|(m' & -> & Hsub)].
    - apply sublist_subseteq in Hsub. set_solver.
    - rewrite Hf, filter_cons_False by naive_solver. f_equal. symmetry.
      apply filter_all, Forall_forall. intros x Hx ->.
      apply sublist_subseteq in Hsub. set_solver. }
  subst m. clear Hf. exists h. split; [done|].
  assert (∀ s, s ∈ found → s ∈ client_signers server (ClientDomainKey c) l) as Hin.
  { apply sublist_cons_r in Hsub as [Hsub|(m' & [= <-] & Hsub)].
    - intros s Hs0. eapply sublist_subseteq; [done|]. set_solver.
    - intros s. by apply sublist_subseteq. }
  split.
  - by exists idx.
  - by rewrite <-Hlen.
  - intros s Hs0. apply Hin, Hcs in Hs0. done.
  - exists s'. split; [done|]. split; [|done]. apply Hin, Hcs in Hs'. tauto.
  - done.
Qed.

(** Conversely: with the server's signature, a signature of somebody among the
    candidates, the client domain's signature where one is named, nobody
    else's, and one signature each, the check succeeds. *)
Lemma verifySigners_complete c net l h idx signers :
  let server := AccountID (tx_SourceAccount (Tx c)) in
  SDKLaws H → IsValidEd25519PublicKey server = true →
  tx_Hash (Tx c) net = Ok h → exclusive h (tx_Signatures (Tx c)) →
  matched h (tx_Signatures (Tx c)) (server :: signers) idx →
  length (tx_Signatures (Tx c)) = S (length signers) →
  (∀ s, s ∈ signers → eligible server s ∧ (s ∈ l ∨ s = ClientDomainKey c)) →
  (∃ s, s ∈ signers ∧ s ≠ ClientDomainKey c) →
  (ClientDomainKey c ≠ "" → ClientDomainKey c ∈ signers) →
  ∃ found, verifySigners c net l = Ok found ∧ found ≡ₚ signers.
Proof.
  intros server L Hserver Hh Hex (HF & Hndi & Hnd) Hlen Hel (s' & Hs' & Hn) Hk.
  destruct (client_signers_spec server (ClientDomainKey c) l) as [Hndc Hcs].
  set (cs := client_signers server (ClientDomainKey c) l) in *.
  destruct (matchSigners (Tx c) net (server :: cs)) as [m|e] eqn:Hm.
  2:{ unfold matchSigners in Hm. rewrite Hh in Hm.
      apply match_loop_err in Hm as (s & Hs & Hp & _).
      assert (IsValidEd25519PublicKey s = true) as Hv.
      { apply elem_of_cons in Hs as [->|Hs]; [done|]. apply Hcs in Hs as [(_ & _ & ?) _]. done. }
      apply ParseAddress_ed25519 in Hv. congruence. }
  pose proof (matchSigners_ok_inv _ _ _ _ Hm) as (h' & idx' & Hh' & (HF' & Hndi' & Hnd') & Hsub).
  assert (h' = h) as -> by congruence.
  assert (∀ s, s ∈ server :: signers → ∃ i, made h (tx_Signatures (Tx c)) s i) as Hmade.
  { intros s Hs. apply list_elem_of_lookup in Hs as [k Hk'].
    eapply Forall2_lookup_l in HF as (i & _ & Hi); [|done]. eauto. }
  assert (m ≡ₚ server :: signers) as Hperm.
  { symmetry. apply submseteq_length_Permutation.
    - apply NoDup_submseteq; [done|]. intros s Hs.
      apply (matchSigners_mem _ _ _ _ _ _ Hm Hh Hex). split; [|by apply Hmade].
      apply elem_of_cons in Hs as [->|Hs]; [set_solver|].
      apply elem_of_cons. right. apply Hcs. by apply Hel.
    - cbn [length]. rewrite <-Hlen. apply (matched_length h _ m idx'). done. }
  assert (server ∉ signers) as Hns by (by apply NoDup_cons in Hnd as [? _]).
  assert (filter (λ s, s ≠ server) m ≡ₚ signers) as Hfp.
  { rewrite Hperm, filter_cons_False by naive_solver. rewrite filter_all; [done|].
    apply Forall_forall. by intros x Hx ->. }
  exists (filter (λ s, s ≠ server) m). split; [|done].
  apply verifySigners_checks. fold server. exists m. split_and!; try done.
  - rewrite Hperm. set_solver.
  - exists s'. by rewrite Hfp.
  - by rewrite Hperm, Hlen.
  - intros Hkey. rewrite Hfp. auto.
  - fold cs. destruct cs as [|x cs']; [|done]. exfalso.
    destruct (Hel s' Hs') as [Hel1 Hel2].
    assert (s' ∈ []) as Hnil by (apply Hcs; auto). by apply elem_of_nil in Hnil.
Qed.

(** ** [VerifyClient] *)

Lemma VerifyClient_runs {S} keys c net (accounts : string → prog S (result error Account)) tr r :
  runs (VerifyClient keys c net accounts) tr r ↔
  (∃ e, baseAccountID (ClientAccountID c) = Err e ∧ tr = [] ∧ r = Err e) ∨
  (∃ base account, baseAccountID (ClientAccountID c) = Ok base ∧
    runs (accounts base) tr account ∧ r = verify_looked_up c net base account keys).
Proof.
  unfold VerifyClient. destruct (baseAccountID (ClientAccountID c)) as [base|e].
  - rewrite runs_bind. simpl. split.
    + intros (tr1 & tr2 & acc & -> & Hr & -> & ->). rewrite app_nil_r. right. eauto.
    + intros [(? & ? & _)|(b & acc & [= <-] & Hr & ->)]; [done|].
      exists tr, [], acc. by rewrite app_nil_r.
  - simpl. split; [intros [-> ->]; eauto|]. intros [(? & [= <-] & -> & ->)|(? & ? & ? & _)]; done.
Qed.

(** The account the looked-up answer speaks for: on the network, its own
    signers; otherwise its master key. *)
Definition candidates_of (base : string) (account : result error Account) (s : string) : Prop :=
  match account with
  | Err e => Is e ErrAccountNotFound = true ∧ s = base
  | Ok a => is_Some (Signers a !! s)
  end.

Lemma verify_looked_up_sound c net base account keys found :
  ranges_over keys →
  verify_looked_up c net base account keys = Ok found →
  ∃ h cands, tx_Hash (Tx c) net = Ok h ∧ signed_by h c cands found ∧
    (∀ s, s ∈ cands → candidates_of base account s) ∧
    match account with
    | Ok a => (MedThreshold a ≤ accountSignerWeight found (Signers a) (ClientDomainKey c))%Z
    | Err _ => True
    end.
Proof.
  intros Hkeys. unfold verify_looked_up. destruct account as [a|e].
  - rewrite bind_ok. intros (found' & Hv & Hr). apply fail_if_ok in Hr as [Hw [= ->]].
    apply verifySigners_sound in Hv as (h & Hh & Hs). exists h, (SortStrings (keys (Signers a))).
    split_and!; try done.
    + intros s Hin. rewrite SortStrings_Permutation, (Hkeys (Signers a)) in Hin.
      apply list_elem_of_fmap in Hin as ([s' w] & -> & Hin).
      apply elem_of_map_to_list in Hin. simpl. by exists w.
    + by apply Z.ltb_ge.
  - destruct (Is e ErrAccountNotFound) eqn:He; [|done]. intros Hv.
    apply verifySigners_sound in Hv as (h & Hh & Hs). exists h, [base].
    split_and!; try done. intros s ->%list_elem_of_singleton. done.
Qed.
End Verify.

(** ** Properties *)

(** What a token stands for.  When [VerifyClient] succeeds, the challenge is
    signed by the server and by every signer it returns, each with a signature
    of its own and none left over; the client domain signed if the challenge
    names one; and at least one signer other than the client domain's key and
    the server speaks for the account: its master key when the network has no
    such account, otherwise a signer listed on the account, the signers'
    weights (the client domain's excluded) reaching the medium threshold.
    (claim C5) *)
Theorem VerifyClient_authority `{SDK} {S} keys c net
    (accounts : string → prog S (result error Account)) tr found :
  ranges_over keys →
  runs (VerifyClient keys c net accounts) tr (Ok found) →
  ∃ base account h cands,
    baseAccountID (ClientAccountID c) = Ok base ∧ runs (accounts base) tr account ∧
    tx_Hash (Tx c) net = Ok h ∧ signed_by h c cands found ∧
    match account with
    | Ok a =>
        (∃ s, s ∈ found ∧ s ≠ ClientDomainKey c ∧ is_Some (Signers a !! s)) ∧
        (MedThreshold a ≤ accountSignerWeight found (Signers a) (ClientDomainKey c))%Z
    | Err e => Is e ErrAccountNotFound = true ∧ base ∈ found ∧ base ≠ ClientDomainKey c
    end.
Proof.
  intros Hkeys [(? & _ & _ & ?)|(base & account & Hb & Hr & Hv)]%VerifyClient_runs; [done|].
  apply eq_sym, verify_looked_up_sound in Hv as (h & cands & Hh & Hs & Hc & Hw); [|done].
  exists base, account, h, cands. split_and!; try done.
  destruct (sb_account _ _ _ _ Hs) as (s & Hsf & Hsc & Hne). apply Hc in Hsc.
  destruct account; simpl in *; [eauto|]. by destruct Hsc as [? ->].
Qed.

(** The account of the demo: the client with weight 10, threshold 5. *)
Definition demo_account : Account := MkAccount {[Sample.client := 10%Z]} 5.
Definition demo_keys (m : gmap string Z) : list string := (map_to_list m).*1.
Definition no_ops : sig := Sig Empty_set (λ _, unit).

Lemma demo_keys_range : ranges_over demo_keys.
Proof. by intros m. Qed.

Lemma VerifyClient_authority_witness :
  let accounts (_ : string) : prog no_ops (result error Account) := Ret (Ok demo_account) in
  let found := [Sample.client; Sample.wallet] in
  runs (VerifyClient demo_keys demo_challenge Sample.net accounts) [] (Ok found) ∧
  (5 ≤ accountSignerWeight found {[Sample.client := 10%Z]} Sample.wallet)%Z.
Proof.
  intros accounts found.
  assert (runs (VerifyClient demo_keys demo_challenge Sample.net accounts) [] (Ok found)) as Hr
    by (vm_compute; split; reflexivity).
  split; [exact Hr|].
  destruct (VerifyClient_authority _ _ _ _ _ _ demo_keys_range Hr)
    as (b & a & h & cs & _ & [_ ->] & _ & _ & _ & Hw).
  exact Hw.
Defined.

(** The client domain alone never authenticates an account: when every
    signature on the challenge was made by the server or by the client domain's
    key, [VerifyClient] fails, whatever the account's signers, weights and
    threshold are (a zero threshold included) and even when the client
    domain's key is itself a signer.  (claim C6) *)
Theorem client_domain_never_suffices `{SDK} {S} keys c net
    (accounts : string → prog S (result error Account)) tr r h :
  tx_Hash (Tx c) net = Ok h →
  (∀ s i, made h (tx_Signatures (Tx c)) s i →
    s = AccountID (tx_SourceAccount (Tx c)) ∨ s = ClientDomainKey c) →
  runs (VerifyClient keys c net accounts) tr r → is_ok r = false.
Proof.
  intros Hh Hm Hr. destruct r as [found|]; [|done]. exfalso.
  apply VerifyClient_runs in Hr as [(? & _ & _ & ?)|(base & account & Hb & Hr & Hv)]; [done|].
  assert (∃ cands, signed_by h c cands found) as [cands [Hidx _ Hel (s & Hs & _ & Hne) _]].
  { symmetry in Hv. unfold verify_looked_up in Hv. destruct account as [a|e].
    - apply bind_ok in Hv as (f & Hv & [_ [= ->]]%fail_if_ok).
      apply verifySigners_sound in Hv as (h' & Hh' & Hs).
      assert (h' = h) as -> by congruence. eauto.
    - destruct (Is e ErrAccountNotFound); [|done].
      apply verifySigners_sound in Hv as (h' & Hh' & Hs).
      assert (h' = h) as -> by congruence. eauto. }
  destruct Hidx as (idx & HF & _). apply Forall2_cons_inv_l in HF as (i & idx' & _ & HF & _).
  apply list_elem_of_lookup in Hs as Hk. destruct Hk as [k Hk].
  eapply Forall2_lookup_l in HF as (j & _ & Hj); [|done].
  destruct (Hel s Hs) as [(_ & Hns & _) _]. by destruct (Hm _ _ Hj).
Qed.

(** The wallet signed, the client did not, and the threshold is zero. *)
Definition demo_hijack : Challenge :=
  MkChallenge (Sample.signed (Sample.body true None) [Sample.server; Sample.wallet] : Transaction)
    Sample.client Sample.home None Sample.nonce Sample.domain Sample.wallet.

Lemma demo_made h t s i :
  made h ((λ a, Demo.signature a h) <$> t) s i → t !! i = Some s.
Proof.
  intros (sig & Hsig & Hw).
  apply list_lookup_fmap_Some_1 in Hsig as (a & -> & Ha).
  assert (s = a) as ->; [|done].
  destruct Hw as (kp & Hp & Hhint & _). simpl in Hp, Hhint.
  destruct (Demo.is_address "G"%char s); [|done]. by injection Hp as ->.
Qed.

Lemma client_domain_never_suffices_witness :
  let signers : gmap string Z := {[Sample.wallet := 200%Z]} in
  let accounts (_ : string) : prog no_ops (result error Account) :=
    Ret (Ok (MkAccount signers 0)) in
  ∃ e, runs (VerifyClient demo_keys demo_hijack Sample.net accounts) [] (Err e) ∧
    is_ok (Err e : result error (list string)) = false.
Proof.
  intros signers accounts.
  assert (∃ e, runs (VerifyClient demo_keys demo_hijack Sample.net accounts) [] (Err e))
    as [e Hr] by (eexists; vm_compute; split; reflexivity).
  exists e. split; [exact Hr|].
  set (h := Demo.hash (Sample.body true None) Sample.net).
  assert (tx_Hash (Tx demo_hijack) Sample.net = Ok h) as Hh by reflexivity.
  assert (∀ s i, made h (tx_Signatures (Tx demo_hijack)) s i →
    s = AccountID (tx_SourceAccount (Tx demo_hijack)) ∨ s = ClientDomainKey demo_hijack) as Hm.
  { intros s i Hm. apply (demo_made h [Sample.server; Sample.wallet]) in Hm.
    destruct i as [|[|i]]; simpl in Hm; [left|right|done]; by injection Hm as <-. }
  exact (client_domain_never_suffices _ _ _ _ _ _ _ Hh Hm Hr).
Defined.

(** The order in which Go happens to range over the account's signers has no
    influence on the outcome.  (claim C28) *)
Theorem VerifyClient_order_independent `{SDK} {S} keys1 keys2 c net
    (accounts : string → prog S (result error Account)) :
  ranges_over keys1 → ranges_over keys2 →
  VerifyClient keys1 c net accounts ≡ VerifyClient keys2 c net accounts.
Proof.
  intros H1 H2. unfold VerifyClient. destruct (baseAccountID (ClientAccountID c)); [|done].
  apply pbind_Proper; [|done]. intros account.
  destruct account as [acct|err]; unfold verify_looked_up; [|done].
  by rewrite (SortStrings_unique (keys1 (Signers acct)) (keys2 (Signers acct)))
    by (by rewrite (H1 (Signers acct)), (H2 (Signers acct))).
Qed.

Lemma VerifyClient_order_independent_witness :
  let accounts (_ : string) : prog no_ops (result error Account) := Ret (Ok demo_account) in
  VerifyClient demo_keys demo_challenge Sample.net accounts
  ≡ VerifyClient (λ m, reverse (demo_keys m)) demo_challenge Sample.net accounts.
Proof.
  intros accounts. apply VerifyClient_order_independent; [exact demo_keys_range|].
  intros m. by rewrite reverse_Permutation.
Defined.

(** The weight sum cannot overflow on what Horizon reports: with at most 2^23
    signers found and weights between 0 and 255, the [int32] sum is the exact
    sum of the weights of the signers other than the client domain's key.
    (claim C29) *)
Theorem accountSignerWeight_exact found signers key :
  (∀ s, 0 ≤ weight_of signers s ≤ 255)%Z → (Z.of_nat (length found) ≤ 2 ^ 23)%Z →
  accountSignerWeight found signers key = exact_weight found signers key ∧
  (0 ≤ accountSignerWeight found signers key < 2 ^ 31)%Z.
Proof.
  intros Hw Hl. pose proof (exact_weight_bounds found signers key 255 ltac:(lia) Hw) as Hb.
  rewrite accountSignerWeight_wraps, int32_id; lia.
Qed.

Lemma accountSignerWeight_exact_witness :
  accountSignerWeight ["Ga"; "Gb"; "Gw"] {["Ga" := 3%Z; "Gw" := 255%Z]} "Gw" = 3%Z.
Proof.
  assert (∀ s, 0 ≤ weight_of {["Ga" := 3; "Gw" := 255]} s ≤ 255)%Z as Hw.
  { intros s. unfold weight_of. destruct ({["Ga" := 3; "Gw" := 255]}%Z !! s) as [w|] eqn:E;
      [|simpl; lia].
    rewrite lookup_insert_Some, lookup_singleton_Some in E. simpl. lia. }
  destruct (accountSignerWeight_exact ["Ga"; "Gb"; "Gw"] _ "Gw" Hw) as [He _];
    [simpl; lia|].
  rewrite He. vm_compute. reflexivity.
Defined.

(** An outage is not a verdict: when the lookup fails for any reason but a
    missing account, [VerifyClient] fails with [ErrAccountLookupFailed] and
    with no other class, whatever the error it was given carries.  (claim C27) *)
Theorem VerifyClient_outage `{SDK} {S} keys c net
    (accounts : string → prog S (result error Account)) tr base e :
  baseAccountID (ClientAccountID c) = Ok base →
  runs (accounts base) tr (Err e) → Is e ErrAccountNotFound = false →
  ∃ e', runs (VerifyClient keys c net accounts) tr (Err e') ∧
    ∀ s, Is e' s = bool_decide (s = ErrAccountLookupFailed).
Proof.
  intros Hb Hr He. exists (Errorf "%w: %s" [ErrText e] [Sentinel ErrAccountLookupFailed]).
  split.
  - apply VerifyClient_runs. right. exists base, (Err e). split_and!; try done.
    simpl. by rewrite He.
  - intros s. rewrite Is_Errorf. simpl. rewrite orb_false_r. by apply bool_decide_ext.
Qed.

Lemma VerifyClient_outage_witness :
  let accounts (_ : string) : prog no_ops (result error Account) :=
    Ret (Err (New "connection refused")) in
  ∃ e', runs (VerifyClient demo_keys demo_challenge Sample.net accounts) [] (Err e') ∧
    ∀ s, Is e' s = bool_decide (s = ErrAccountLookupFailed).
Proof.
  intros accounts.
  apply (VerifyClient_outage demo_keys demo_challenge Sample.net accounts [] Sample.client
    (New "connection refused")); [reflexivity | split; reflexivity | reflexivity].
Defined.
