(* ===== verification/Interleaving.v ===== *)
(** * Concurrent calls

    The server answers each request on a goroutine of its own, and the calls
    share the database.  A pool is a list of programs; one of them at a time
    performs its next operation, so an execution is a sequence of operations,
    each tagged with the program that performed it. *)

From S2P Require Import Prelude Effects.

(** ** Pools *)

Inductive interleave {S A} : list (prog S A) → list (nat * event S) → list (prog S A) → Prop :=
| interleave_refl ps : interleave ps [] ps
| interleave_step ps tr qs i o k x :
    interleave ps tr qs → qs !! i = Some (Vis o k) →
    interleave ps (tr ++ [(i, Ev o x)]) (<[i := k x]> qs).

(** The operations one program of the pool performed. *)
Definition thread_events {S} (i : nat) (tr : list (nat * event S)) : list (event S) :=
  (filter (λ ev, ev.1 = i) tr).*2.

(** ** Worlds: a relation says which answers an operation may have *)

Inductive consistent {S W} (step : W → event S → W → Prop) : W → list (event S) → W → Prop :=
| consistent_nil w : consistent step w [] w
| consistent_cons w ev w' evs w'' :
    step w ev w' → consistent step w' evs w'' → consistent step w (ev :: evs) w''.

(** ** Lemmas: pools *)

Lemma thread_events_app {S} i (tr tr' : list (nat * event S)) :
  thread_events i (tr ++ tr') = thread_events i tr ++ thread_events i tr'.
Proof. unfold thread_events. by rewrite filter_app, fmap_app. Qed.

(** Each program of a pool runs on its own operations. *)
Lemma interleave_thread {S A} (ps qs : list (prog S A)) tr i p :
  interleave ps tr qs → ps !! i = Some p →
  ∃ q, qs !! i = Some q ∧ steps p (thread_events i tr) q.
Proof.
  intros H Hp. induction H as [ps|ps tr qs j o k x H IH Hj].
  { exists p. split; [done|constructor]. }
  destruct (IH Hp) as (q & Hq & Hs). rewrite thread_events_app.
  destruct (decide (j = i)) as [->|Hne].
  - rewrite Hq in Hj. injection Hj as ->. exists (k x). split.
    + apply list_lookup_insert_eq. by eapply lookup_lt_Some.
    + unfold thread_events at 2. rewrite filter_cons_True by done.
      rewrite filter_nil. simpl. by apply steps_snoc.
  - exists q. rewrite list_lookup_insert_ne by done. split; [done|].
    unfold thread_events at 2. rewrite filter_cons_False by done.
    rewrite filter_nil. simpl. by rewrite app_nil_r.
Qed.

Lemma interleave_thread_ret {S A} (ps qs : list (prog S A)) tr i p a :
  interleave ps tr qs → ps !! i = Some p → qs !! i = Some (Ret a) →
  runs p (thread_events i tr) a.
Proof.
  intros H Hp Hq. destruct (interleave_thread _ _ _ _ _ H Hp) as (q & Hq' & Hs).
  rewrite Hq in Hq'. injection Hq' as <-. by apply steps_ret.
Qed.

Lemma interleave_length {S A} (ps qs : list (prog S A)) tr :
  interleave ps tr qs → length qs = length ps.
Proof. induction 1 as [|ps tr qs j o k x H IH Hj]; [done|]. by rewrite length_insert. Qed.

Lemma interleave_lookup_r {S A} (ps qs : list (prog S A)) tr i q :
  interleave ps tr qs → qs !! i = Some q → is_Some (ps !! i).
Proof.
  intros H Hq. apply lookup_lt_is_Some. rewrite <-(interleave_length _ _ _ H).
  by eapply lookup_lt_Some.
Qed.

(** Every operation was performed by a program of the pool. *)
Lemma interleave_tags {S A} (ps qs : list (prog S A)) tr i ev :
  interleave ps tr qs → (i, ev) ∈ tr → is_Some (ps !! i).
Proof.
  intros H. assert (Hlen : length qs = length ps ∧ ((i, ev) ∈ tr → i < length ps)%nat).
  { induction H as [ps|ps tr qs j o k x H IH Hj].
    - split; [done|]. by intros ?%elem_of_nil.
    - destruct IH as [IH1 IH2]. rewrite length_insert. split; [done|].
      intros [Hin|Hin]%elem_of_app; [by apply IH2|].
      apply list_elem_of_singleton in Hin. injection Hin as -> _. rewrite <-IH1.
      by eapply lookup_lt_Some. }
  intros Hin. apply lookup_lt_is_Some. by apply Hlen.
Qed.

(** ** Lemmas: counting by tag *)

(** Programs that each performed an operation of a kind are no more than the
    operations of that kind. *)
Lemma threads_le_events {S} (P : event S → Prop) `{∀ ev, Decision (P ev)}
    (L : list nat) (tr : list (nat * event S)) :
  NoDup L → (∀ i, i ∈ L → ∃ ev, ev ∈ thread_events i tr ∧ P ev) →
  (length L ≤ length (filter P tr.*2))%nat.
Proof.
  intros Hnd HL.
  assert (Hlen : length (filter P tr.*2) = length (filter (λ t, P t.2) tr)).
  { clear. induction tr as [|[i ev] tr IH]; [done|]. csimpl.
    rewrite !filter_cons. csimpl. destruct (decide (P ev)); csimpl; by rewrite IH. }
  rewrite Hlen, <-(length_fmap fst). apply submseteq_length, NoDup_submseteq; [done|].
  intros i Hi. destruct (HL i Hi) as (ev & Hev & HP).
  unfold thread_events in Hev. apply list_elem_of_fmap in Hev as ([j e] & -> & Hin).
  apply list_elem_of_filter in Hin as [Hj Hin]. simpl in *. subst j.
  apply list_elem_of_fmap. exists (i, e). split; [done|].
  by apply list_elem_of_filter.
Qed.

(** Operations of a kind that each program performs at most once, and only the
    programs of [L], are no more than those programs. *)
Lemma events_le_threads {S} (P : event S → Prop) `{∀ ev, Decision (P ev)}
    (L : list nat) (tr : list (nat * event S)) :
  (∀ i ev, (i, ev) ∈ tr → P ev → i ∈ L) →
  (∀ i, i ∈ L → length (filter P (thread_events i tr)) ≤ 1)%nat →
  (length (filter P tr.*2) ≤ length L)%nat.
Proof.
  revert L. induction tr as [|[i ev] tr IH]; intros L Hin Hone.
  { simpl. lia. }
  assert (Hone' : ∀ j, j ∈ L → (length (filter P (thread_events j tr)) ≤ 1)%nat).
  { intros j Hj. specialize (Hone j Hj). unfold thread_events in *.
    rewrite filter_cons in Hone. destruct (decide (_ = _)); [|done]. csimpl in Hone.
    rewrite filter_cons in Hone. destruct (decide (P _)); csimpl in Hone; lia. }
  csimpl. rewrite filter_cons. destruct (decide (P ev)) as [HP|HP].
  - assert (HiL : i ∈ L) by (eapply Hin; [apply list_elem_of_here | done]).
    destruct (list_elem_of_split _ _ HiL) as (L1 & L2 & ->).
    assert (Hnone : ∀ e, (i, e) ∈ tr → ¬ P e).
    { intros e He HPe. specialize (Hone i HiL). unfold thread_events in Hone.
      rewrite filter_cons_True in Hone by done. csimpl in Hone.
      rewrite filter_cons_True in Hone by done. csimpl in Hone.
      assert (He' : e ∈ filter P (filter (λ ev0 : nat * event S, ev0.1 = i) tr).*2).
      { apply list_elem_of_filter. split; [done|]. apply list_elem_of_fmap.
        exists (i, e). split; [done|]. by apply list_elem_of_filter. }
      destruct (nil_or_length_pos (filter P (filter (λ ev0 : nat * event S, ev0.1 = i) tr).*2))
        as [Hnil|?]; [|lia].
      rewrite Hnil in He'. by apply elem_of_nil in He'. }
    assert (IH' : (length (filter P tr.*2) ≤ length (L1 ++ L2))%nat).
    { apply IH.
      - intros j e He HPe.
        assert (Hj : j ∈ L1 ++ i :: L2)
          by (eapply Hin; [by apply list_elem_of_further | done]).
        rewrite elem_of_app, elem_of_cons in Hj. rewrite elem_of_app.
        destruct Hj as [?|[->|?]]; [by left | | by right]. by destruct (Hnone e He).
      - intros j Hj. apply Hone'. rewrite elem_of_app, elem_of_cons.
        apply elem_of_app in Hj. tauto. }
    rewrite length_app in *. csimpl. lia.
  - apply IH; [|done]. intros j e He. eapply Hin. by apply list_elem_of_further.
Qed.

Lemma elem_of_thread_events {S} i ev (tr : list (nat * event S)) :
  ev ∈ thread_events i tr ↔ (i, ev) ∈ tr.
Proof.
  unfold thread_events. rewrite list_elem_of_fmap. split.
  - intros ([j e] & -> & [Hj Hin]%list_elem_of_filter). simpl in *. by subst.
  - intros Hin. exists (i, ev). split; [done|]. by apply list_elem_of_filter.
Qed.

Lemma length_pos_elem {A} (x : A) l : x ∈ l → (0 < length l)%nat.
Proof. destruct l; [by intros ?%elem_of_nil | simpl; lia]. Qed.

(** ** Counting *)

Definition count {A} (P : A → bool) (l : list A) : nat := length (filter (λ x, P x = true) l).

Lemma count_cons {A} (P : A → bool) x l :
  count P (x :: l) = ((if P x then 1 else 0) + count P l)%nat.
Proof. unfold count. rewrite filter_cons. by destruct (P x). Qed.

(** The positions of the elements that satisfy a test. *)
Fixpoint indices_from {A} (k : nat) (P : A → bool) (l : list A) : list nat :=
  match l with
  | [] => []
  | x :: l => (if P x then [k] else []) ++ indices_from (Datatypes.S k) P l
  end.
Abbreviation indices := (indices_from 0).

Lemma length_indices_from {A} k (P : A → bool) l :
  length (indices_from k P l) = count P l.
Proof.
  revert k. induction l as [|x l IH]; intros k; [done|]. simpl.
  rewrite length_app, IH, count_cons. by destruct (P x).
Qed.

Lemma length_indices {A} (P : A → bool) l : length (indices P l) = count P l.
Proof. apply length_indices_from. Qed.

Lemma elem_of_indices_from {A} k (P : A → bool) l i :
  i ∈ indices_from k P l ↔ ∃ x, (k ≤ i)%nat ∧ l !! (i - k)%nat = Some x ∧ P x = true.
Proof.
  revert k. induction l as [|x l IH]; intros k; simpl.
  { rewrite elem_of_nil. split; [done|]. by intros (y & _ & ? & _). }
  rewrite elem_of_app, IH. split.
  - intros [Hx|(y & Hki & Hy & HP)].
    + destruct (P x) eqn:HP; [|by apply elem_of_nil in Hx].
      apply list_elem_of_singleton in Hx as ->. exists x. by rewrite Nat.sub_diag.
    + exists y. split; [lia|]. split; [|done].
      by replace (i - k)%nat with (Datatypes.S (i - Datatypes.S k)) by lia.
  - intros (y & Hki & Hy & HP). destruct (decide (i = k)) as [->|Hne].
    + rewrite Nat.sub_diag in Hy. injection Hy as ->. rewrite HP. left.
      by apply list_elem_of_singleton.
    + right. exists y. split; [lia|]. split; [|done].
      by replace (i - k)%nat with (Datatypes.S (i - Datatypes.S k)) in Hy by lia.
Qed.

Lemma elem_of_indices {A} (P : A → bool) l i :
  i ∈ indices P l ↔ ∃ x, l !! i = Some x ∧ P x = true.
Proof.
  rewrite elem_of_indices_from. rewrite Nat.sub_0_r. split.
  - intros (x & _ & ? & ?). by exists x.
  - intros (x & ? & ?). exists x. split; [lia|done].
Qed.

(** ** Lemmas: worlds *)

Lemma consistent_app {S W} (step : W → event S → W → Prop) w evs evs' w'' :
  consistent step w (evs ++ evs') w'' ↔
  ∃ w', consistent step w evs w' ∧ consistent step w' evs' w''.
Proof.
  revert w. induction evs as [|ev evs IH]; intros w; simpl.
  - split; [intros; eexists; split; [constructor|done] | ].
    intros (w' & H & H'). inversion H; by subst.
  - split.
    + intros H. inversion H as [|? ? w1 ? ? H1 H2]; subst.
      apply IH in H2 as (w' & H2 & H3). exists w'. split; [|done].
      by econstructor.
    + intros (w' & H & H'). inversion H as [|? ? w1 ? ? H1 H2]; subst.
      econstructor; [done|]. apply IH. eauto.
Qed.

(** An invariant of every operation is an invariant of every sequence of them. *)
Lemma consistent_invariant {S W} (step : W → event S → W → Prop) (I : W → Prop) w evs w' :
  (∀ w ev w', I w → step w ev w' → I w') → consistent step w evs w' → I w → I w'.
Proof. intros Hs H. induction H; eauto. Qed.

(** ** A scheduler

    Runs a pool in the order of a schedule, against a world that answers every
    operation. *)

Fixpoint run_pool {S A W} (h : W → ∀ o : op S, res S o * W) (schedule : list nat)
    (ps : list (prog S A)) (w : W) : list (nat * event S) * list (prog S A) * W :=
  match schedule with
  | [] => ([], ps, w)
  | i :: schedule =>
      match ps !! i with
      | Some (Vis o k) =>
          let '(x, w') := h w o in
          let '(tr, qs, w'') := run_pool h schedule (<[i := k x]> ps) w' in
          ((i, Ev o x) :: tr, qs, w'')
      | _ => run_pool h schedule ps w
      end
  end.

Lemma interleave_cons {S A} (ps qs : list (prog S A)) tr i o k x :
  ps !! i = Some (Vis o k) → interleave (<[i := k x]> ps) tr qs →
  interleave ps ((i, Ev o x) :: tr) qs.
Proof.
  intros Hi H. remember (<[i := k x]> ps) as ps' eqn:Hps. revert Hps.
  induction H as [ps'|ps' tr qs j o' k' x' H IH Hj]; intros ->.
  - apply (interleave_step ps [] ps); [constructor | done].
  - apply (interleave_step ps ((i, Ev o x) :: tr)); [by apply IH | done].
Qed.

Lemma run_pool_spec {S A W} (step : W → event S → W → Prop)
    (h : W → ∀ o : op S, res S o * W) schedule (ps : list (prog S A)) w :
  (∀ w o, step w (Ev o (h w o).1) (h w o).2) →
  let '(tr, qs, w') := run_pool h schedule ps w in
  interleave ps tr qs ∧ consistent step w tr.*2 w'.
Proof.
  intros Hh. revert ps w. induction schedule as [|i schedule IH]; intros ps w; simpl.
  { split; constructor. }
  destruct (ps !! i) as [[a|o k]|] eqn:Hi; [apply IH | | apply IH].
  specialize (Hh w o). destruct (h w o) as [x w1].
  specialize (IH (<[i := k x]> ps) w1). destruct (run_pool _ _ _ _) as [[tr qs] w2].
  destruct IH as [H1 H2]. split; [by eapply interleave_cons|].
  csimpl. by econstructor.
Qed.
