(* ===== verification/Schema.v ===== *)
(** * The database (internal/store/migrations, the SQL of internal/store/postgres.go)

    The two tables as finite maps on their primary keys, one definition per
    migration script, one case of [exec] per SQL statement of the store, and
    the relation [serve] of a database that serves one statement at a time and
    may fail.  Each statement touches rows by primary key or is a single
    DELETE, so Postgres runs it atomically. *)

From S2P Require Import Prelude Errors Effects Interleaving.
Open Scope Z_scope.

(** ** The pgx driver

    An instant is sent and kept as a whole number of microseconds: the driver
    truncates the nanoseconds of a [time.Time].  It refuses to scan a NULL into
    a Go [string]. *)

Class Pgx := {
  timestamptz : Z → Z;
  null_scan : error;
}.

Class PgxLaws (Px : Pgx) := {
  timestamptz_mono t u : t ≤ u → timestamptz t ≤ timestamptz u;
  timestamptz_le t : timestamptz t ≤ t;
  timestamptz_micro t : t mod 1000 = 0 → timestamptz t = t;
  null_scan_foreign : foreign null_scan;
}.

(** ** Tables *)

(** A row of [challenges]; the nonce is its key. *)
Record challenge_row : Type := ChallengeRow {
  c_account : string;
  c_home_domain : string;
  c_client_domain : option string;
  c_issued_at : Z;
  c_expires_at : Z;
  c_consumed_at : option Z;
}.

(** A row of [sessions]; the jti is its key. *)
Record session_row : Type := SessionRow {
  s_account : string;
  s_memo : option string;
  s_home_domain : string;
  s_client_domain : option string;
  s_issued_at : Z;
  s_expires_at : Z;
}.

(** What the migrations made of the schema so far. *)
Inductive schema : Type := NoTables | NullableText | NotNullText.

Record db : Type := Db {
  d_schema : schema;
  challenges : gmap string challenge_row;
  sessions : gmap string session_row;
}.

#[global] Instance schema_eq_dec : EqDecision schema.
Proof. solve_decision. Defined.
#[global] Instance challenge_row_eq_dec : EqDecision challenge_row.
Proof. solve_decision. Defined.
#[global] Instance session_row_eq_dec : EqDecision session_row.
Proof. solve_decision. Defined.
#[global] Instance db_eq_dec : EqDecision db.
Proof. solve_decision. Defined.

Definition no_tables : db := Db NoTables ∅ ∅.

Definition with_challenges (f : gmap string challenge_row → gmap string challenge_row)
    (d : db) : db :=
  Db (d_schema d) (f (challenges d)) (sessions d).

(** ** Migrations: [None] when the script fails *)

Definition migration_1_up (d : db) : option db :=
  match d_schema d with
  | NoTables => Some (Db NullableText ∅ ∅)
  | _ => None (* CREATE TABLE on a table that exists *)
  end.

Definition fill_challenge (r : challenge_row) : challenge_row :=
  ChallengeRow (c_account r) (c_home_domain r) (Some (default "" (c_client_domain r)))
    (c_issued_at r) (c_expires_at r) (c_consumed_at r).

Definition fill_session (r : session_row) : session_row :=
  SessionRow (s_account r) (Some (default "" (s_memo r))) (s_home_domain r)
    (Some (default "" (s_client_domain r))) (s_issued_at r) (s_expires_at r).

Definition migration_2_up (d : db) : option db :=
  match d_schema d with
  | NoTables => None (* UPDATE of a table that does not exist *)
  | _ => Some (Db NotNullText (fill_challenge <$> challenges d) (fill_session <$> sessions d))
  end.

Definition migration_2_down (d : db) : option db :=
  match d_schema d with
  | NoTables => None
  | _ => Some (Db NullableText (challenges d) (sessions d))
  end.

Definition migration_1_down (d : db) : option db := Some no_tables.

(** ** Statements *)

Inductive stmt : Type :=
| INSERT_challenges (nonce account home_domain client_domain : string) (issued_at expires_at : Z)
| UPDATE_consume (nonce : string) (now : Z)
| SELECT_inspect (nonce : string)
| INSERT_sessions (jti account memo home_domain client_domain : string) (issued_at expires_at : Z)
| DELETE_expired (before : Z).

#[global] Instance stmt_eq_dec : EqDecision stmt.
Proof. solve_decision. Defined.

(** What a statement that succeeds answers: nothing, the row of a RETURNING or
    a SELECT by primary key ([None] when no row matches), a row count. *)
Definition answer (s : stmt) : Type :=
  match s with
  | INSERT_challenges _ _ _ _ _ _ => unit
  | UPDATE_consume _ _ => option (string * string * option string)
  | SELECT_inspect _ => option (option Z * Z)
  | INSERT_sessions _ _ _ _ _ _ _ => unit
  | DELETE_expired _ => Z
  end.

Variant sqlstate : Type := undefined_table | unique_violation.

Definition SQL : sig := Sig stmt (λ s, result error (answer s)).

#[global] Instance SQL_op_eq_dec : EqDecision (op SQL) := stmt_eq_dec.

Section statements.
Context {Px : Pgx}.

(** The WHERE clause of the consuming UPDATE. *)
Definition consumable (now : Z) (r : challenge_row) : bool :=
  bool_decide (c_consumed_at r = None) && (timestamptz now <=? c_expires_at r).

Definition consume_row (now : Z) (r : challenge_row) : challenge_row :=
  ChallengeRow (c_account r) (c_home_domain r) (c_client_domain r)
    (c_issued_at r) (c_expires_at r) (Some (timestamptz now)).

Definition keep_row (before : Z) (kr : string * challenge_row) : Prop :=
  timestamptz before ≤ c_expires_at kr.2.

#[global] Instance keep_row_dec before kr : Decision (keep_row before kr).
Proof. unfold keep_row. apply _. Defined.

Definition exec (s : stmt) (d : db) : result sqlstate (answer s) * db :=
  if bool_decide (d_schema d = NoTables) then (Err undefined_table, d)
  else
    match s with
    | INSERT_challenges nonce account home_domain client_domain issued_at expires_at =>
        match challenges d !! nonce with
        | Some _ => (Err unique_violation, d)
        | None =>
            (Ok tt, with_challenges
                      <[nonce := ChallengeRow account home_domain (Some client_domain)
                                   (timestamptz issued_at) (timestamptz expires_at) None]> d)
        end
    | UPDATE_consume nonce now =>
        match challenges d !! nonce with
        | Some r =>
            if consumable now r
            then (Ok (Some (c_account r, c_home_domain r, c_client_domain r)),
                  with_challenges <[nonce := consume_row now r]> d)
            else (Ok None, d)
        | None => (Ok None, d)
        end
    | SELECT_inspect nonce =>
        (Ok ((λ r, (c_consumed_at r, c_expires_at r)) <$> challenges d !! nonce), d)
    | INSERT_sessions jti account memo home_domain client_domain issued_at expires_at =>
        match sessions d !! jti with
        | Some _ => (Err unique_violation, d)
        | None =>
            (Ok tt, Db (d_schema d) (challenges d)
                      (<[jti := SessionRow account (Some memo) home_domain (Some client_domain)
                                  (timestamptz issued_at) (timestamptz expires_at)]>
                         (sessions d)))
        end
    | DELETE_expired before =>
        let kept := filter (keep_row before) (challenges d) in
        (Ok (Z.of_nat (size (challenges d)) - Z.of_nat (size kept)),
         with_challenges (λ _, kept) d)
    end.

(** One statement served.  A failure is reported with an error of the driver;
    the statement may still have taken effect, when the reply was lost. *)
Inductive serve : db → event SQL → db → Prop :=
| serve_reply d s a d' :
    exec s d = (Ok a, d') → serve d (Ev (S := SQL) s (Ok a)) d'
| serve_failed d s e :
    foreign e → serve d (Ev (S := SQL) s (Err e)) d
| serve_lost d s a d' e :
    exec s d = (Ok a, d') → foreign e → serve d (Ev (S := SQL) s (Err e)) d'.

End statements.

(** ** The invariant of the tables *)

Definition challenge_not_null (r : challenge_row) : Prop := is_Some (c_client_domain r).
Definition session_not_null (r : session_row) : Prop :=
  is_Some (s_memo r) ∧ is_Some (s_client_domain r).

Definition db_wf (d : db) : Prop :=
  match d_schema d with
  | NoTables => challenges d = ∅ ∧ sessions d = ∅
  | NullableText => True
  | NotNullText =>
      map_Forall (λ _, challenge_not_null) (challenges d) ∧
      map_Forall (λ _, session_not_null) (sessions d)
  end.

(** ** Lemmas: the invariant *)

Lemma migration_1_up_wf d d' : migration_1_up d = Some d' → db_wf d'.
Proof. unfold migration_1_up. destruct (d_schema d); by intros [= <-]. Qed.

Lemma migration_2_up_wf d d' :
  migration_2_up d = Some d' → db_wf d' ∧ d_schema d' = NotNullText.
Proof.
  unfold migration_2_up. intros H. assert (H' : d' = Db NotNullText
    (fill_challenge <$> challenges d) (fill_session <$> sessions d)).
  { destruct (d_schema d); by simplify_eq. }
  subst d'. split; [|done]. split; intros k r Hr; simpl in Hr;
    rewrite lookup_fmap in Hr; apply fmap_Some in Hr as (r' & _ & ->).
  - by eexists.
  - split; by eexists.
Qed.

Section lemmas.
Context {Px : Pgx}.

(** A statement changes the schema of no table, and keeps the invariant. *)
Lemma exec_schema s d : d_schema (exec s d).2 = d_schema d.
Proof.
  unfold exec. case_bool_decide; [done|].
  destruct s; simpl; repeat case_match; done.
Qed.

Lemma exec_wf s d : db_wf d → db_wf (exec s d).2.
Proof.
  unfold exec. case_bool_decide as Hs; [done|].
  destruct s; simpl; repeat case_match; simpl; try done;
    unfold db_wf; simpl; destruct (d_schema d); try done; intros [Hc Hse]; split; try done.
  - apply map_Forall_insert_2; [by eexists|done].
  - apply map_Forall_insert_2; [|done].
    match goal with Hr : challenges d !! nonce = Some ?r |- _ => exact (Hc nonce r Hr) end.
  - apply map_Forall_insert_2; [|done]. split; by eexists.
  - intros k r [Hr _]%map_lookup_filter_Some. by apply (Hc k).
Qed.

Lemma serve_wf d ev d' : serve d ev d' → db_wf d → db_wf d'.
Proof.
  intros [d0 s a d1 H|d0 s e He|d0 s a d1 e H He] Hwf; [|done|].
  all: pose proof (exec_wf s d0 Hwf) as Hw; by rewrite H in Hw.
Qed.

Lemma serve_schema d ev d' : serve d ev d' → d_schema d' = d_schema d.
Proof.
  intros [d0 s a d1 H|d0 s e He|d0 s a d1 e H He]; [|done|].
  all: pose proof (exec_schema s d0) as Hw; by rewrite H in Hw.
Qed.

End lemmas.
