(* ===== verification/Store.v ===== *)
(** * The store (internal/store/store.go, internal/store/postgres.go)

    Every call of the Postgres store as the sequence of SQL statements it runs,
    with their answers turned into values and errors the way the code does it;
    the abstract specification of consuming a challenge; and what holds of any
    number of concurrent calls on a database that may fail at any statement. *)

From S2P Require Import Prelude GoStd Errors Effects Interleaving Schema.
Open Scope Z_scope.

(** ** Data *)

Record ChallengeRecord : Type := MkChallengeRecord {
  cr_Nonce : string;
  cr_Account : string;
  cr_HomeDomain : string;
  cr_ClientDomain : string;
  cr_IssuedAt : Z;
  cr_ExpiresAt : Z;
}.

Record ConsumedChallenge : Type := MkConsumedChallenge {
  cc_Account : string;
  cc_HomeDomain : string;
  cc_ClientDomain : string;
}.

Record SessionRecord : Type := MkSessionRecord {
  sr_JTI : string;
  sr_Account : string;
  sr_Memo : string;
  sr_HomeDomain : string;
  sr_ClientDomain : string;
  sr_IssuedAt : Z;
  sr_ExpiresAt : Z;
}.

#[global] Instance ConsumedChallenge_eq_dec : EqDecision ConsumedChallenge.
Proof. solve_decision. Defined.

(** ** [pool.QueryRow(...).Scan(...)]

    The error is [pgx.ErrNoRows] or another one; the code tells them apart with
    [errors.Is]. *)

Variant scan_error : Type := ErrNoRows | ScanError (e : error).

Definition query_row {A B} (scan : A → result error B) (r : result error (option A)) :
  result scan_error B :=
  match r with
  | Err e => Err (ScanError e)
  | Ok None => Err ErrNoRows
  | Ok (Some a) => map_err ScanError (scan a)
  end.

Section store.
Context {Px : Pgx}.

(** ** Recording *)

Definition RecordChallenge (rec : ChallengeRecord) : prog SQL (result error unit) :=
  do r <- perform (S := SQL)
    (INSERT_challenges (cr_Nonce rec) (cr_Account rec) (cr_HomeDomain rec)
       (cr_ClientDomain rec) (cr_IssuedAt rec) (cr_ExpiresAt rec)) ;;
  Ret (map_err (λ err, Errorf "recording challenge: %w" [] [err]) r).

Definition RecordSession (rec : SessionRecord) : prog SQL (result error unit) :=
  do r <- perform (S := SQL)
    (INSERT_sessions (sr_JTI rec) (sr_Account rec) (sr_Memo rec) (sr_HomeDomain rec)
       (sr_ClientDomain rec) (sr_IssuedAt rec) (sr_ExpiresAt rec)) ;;
  Ret (map_err (λ err, Errorf "recording session: %w" [] [err]) r).

(** ** Consuming *)

(** [Scan(&out.Account, &out.HomeDomain, &out.ClientDomain)]: a NULL does not
    fit a [string]. *)
Definition scan_consumed (row : string * string * option string) :
  result error ConsumedChallenge :=
  let '(account, home_domain, client_domain) := row in
  match client_domain with
  | None => Err null_scan
  | Some client_domain => Ok (MkConsumedChallenge account home_domain client_domain)
  end.

(** The switch over the row [classifyFailure] found. *)
Definition classify_row (now : Z) (r : result scan_error (option Z * Z)) : error :=
  match r with
  | Err ErrNoRows => Errorf "%w" [] [Sentinel ErrChallengeUnknown]
  | Err (ScanError err) => Errorf "inspecting challenge: %w" [] [err]
  | Ok (consumedAt, expiresAt) =>
      if bool_decide (consumedAt ≠ None) then Errorf "%w" [] [Sentinel ErrChallengeConsumed]
      else if Before expiresAt now then Errorf "%w" [] [Sentinel ErrChallengeExpired]
      else Errorf "%w" [] [Sentinel ErrChallengeConsumed]
  end.

Definition classifyFailure (nonce : string) (now : Z) : prog SQL error :=
  do r <- perform (S := SQL) (SELECT_inspect nonce) ;;
  Ret (classify_row now (query_row Ok r)).

Definition ConsumeChallenge (nonce : string) (now : Z) :
  prog SQL (result error ConsumedChallenge) :=
  do r <- perform (S := SQL) (UPDATE_consume nonce now) ;;
  match query_row scan_consumed r with
  | Ok out => Ret (Ok out)
  | Err (ScanError err) => Ret (Err (Errorf "consuming challenge: %w" [] [err]))
  | Err ErrNoRows =>
      do err <- classifyFailure nonce now ;;
      Ret (Err err)
  end.

(** ** Sweeping *)

Definition DeleteExpiredChallenges (before : Z) : prog SQL (result error Z) :=
  do r <- perform (S := SQL) (DELETE_expired before) ;;
  Ret (map_err (λ err, Errorf "deleting expired challenges: %w" [] [err]) r).

(** ** Concurrent callers *)

Inductive call : Type :=
| CallRecord (rec : ChallengeRecord)
| CallConsume (nonce : string) (now : Z)
| CallSession (rec : SessionRecord)
| CallDelete (before : Z).

Inductive call_result : Type :=
| Recorded (r : result error unit)
| Consumed (r : result error ConsumedChallenge)
| Deleted (r : result error Z).

Definition run_call (c : call) : prog SQL call_result :=
  match c with
  | CallRecord rec => do r <- RecordChallenge rec ;; Ret (Recorded r)
  | CallConsume nonce now => do r <- ConsumeChallenge nonce now ;; Ret (Consumed r)
  | CallSession rec => do r <- RecordSession rec ;; Ret (Recorded r)
  | CallDelete before => do r <- DeleteExpiredChallenges before ;; Ret (Deleted r)
  end.

(** ** The abstract specification of consuming *)

(** A database that serves every statement, and the text of its errors. *)
Definition serve_all (driver : sqlstate → error) (d : db) (s : stmt) :
  result error (answer s) * db :=
  let '(r, d') := exec s d in (map_err driver r, d').

Definition reason (s : sentinel) : error := Errorf "%w" [] [Sentinel s].

(** What a nonce is worth, as a function of its row alone. *)
Definition consume_spec (driver : sqlstate → error) (nonce : string) (now : Z) (d : db) :
  result error ConsumedChallenge * db :=
  if bool_decide (d_schema d = NoTables) then
    (Err (Errorf "consuming challenge: %w" [] [driver undefined_table]), d)
  else match challenges d !! nonce with
  | None => (Err (reason ErrChallengeUnknown), d)
  | Some r =>
      if bool_decide (c_consumed_at r ≠ None) then (Err (reason ErrChallengeConsumed), d)
      else if c_expires_at r <? timestamptz now then (Err (reason ErrChallengeExpired), d)
      else
        (match c_client_domain r with
         | Some client_domain =>
             Ok (MkConsumedChallenge (c_account r) (c_home_domain r) client_domain)
         | None => Err (Errorf "consuming challenge: %w" [] [null_scan])
         end, with_challenges <[nonce := consume_row now r]> d)
  end.

End store.

(** ** Lemmas: rows and statements *)

(** A nonce that is still worth a consumption. *)
Definition live (n : string) (d : db) : bool :=
  match challenges d !! n with
  | Some r => bool_decide (c_consumed_at r = None)
  | None => false
  end.

Definition inserts (n : string) (o : stmt) : bool :=
  match o with
  | INSERT_challenges nonce _ _ _ _ _ => bool_decide (nonce = n)
  | _ => false
  end.

(** A consumption of [n] that the database reported to its caller. *)
Definition consumed_event (n : string) (ev : event SQL) : bool :=
  match ev with
  | Ev o x =>
      match o return result error (answer o) → bool with
      | UPDATE_consume nonce _ => λ x,
          match x with Ok (Some _) => bool_decide (nonce = n) | _ => false end
      | _ => λ _, false
      end x
  end.

Section lemmas.
Context {Px : Pgx}.
Implicit Types (d : db) (n : string).

(** One statement on one row. *)
Lemma exec_lookup s d n :
  challenges (exec s d).2 !! n =
    if bool_decide (d_schema d = NoTables) then challenges d !! n
    else match s with
    | INSERT_challenges nonce account home_domain client_domain issued_at expires_at =>
        if bool_decide (nonce = n ∧ challenges d !! n = None)
        then Some (ChallengeRow account home_domain (Some client_domain)
                     (timestamptz issued_at) (timestamptz expires_at) None)
        else challenges d !! n
    | UPDATE_consume nonce now =>
        r ← challenges d !! n;
        Some (if bool_decide (nonce = n) && consumable now r then consume_row now r else r)
    | DELETE_expired before =>
        r ← challenges d !! n;
        if bool_decide (timestamptz before ≤ c_expires_at r) then Some r else None
    | _ => challenges d !! n
    end.
Proof.
  unfold exec. case_bool_decide; [done|]. destruct s; simpl.
  - destruct (challenges d !! nonce) as [r|] eqn:Hr; simpl.
    + rewrite bool_decide_eq_false_2; [done|]. intros [-> ?]. congruence.
    + destruct (decide (nonce = n)) as [->|Hne].
      * by rewrite lookup_insert_eq, bool_decide_eq_true_2.
      * rewrite lookup_insert_ne by done. rewrite bool_decide_eq_false_2; [done|].
        by intros [? _].
  - destruct (decide (nonce = n)) as [->|Hne].
    + rewrite bool_decide_eq_true_2 by done. simpl.
      destruct (challenges d !! n) as [r|] eqn:Hr; simpl; [|by rewrite Hr].
      destruct (consumable now r); simpl; [by rewrite lookup_insert_eq | done].
    + rewrite bool_decide_eq_false_2 by done. simpl.
      transitivity (challenges d !! n); [|by destruct (challenges d !! n)].
      destruct (challenges d !! nonce) as [r|]; [|done].
      destruct (consumable now r); simpl; [by rewrite lookup_insert_ne | done].
  - done.
  - by destruct (sessions d !! jti).
  - rewrite map_lookup_filter. destruct (challenges d !! n) as [r|]; simpl; [|done].
    unfold guard, keep_row. simpl. by repeat case_decide; case_bool_decide.
Qed.

Lemma consumable_true now r :
  consumable now r = true ↔ c_consumed_at r = None ∧ timestamptz now ≤ c_expires_at r.
Proof. unfold consumable. rewrite andb_true_iff, bool_decide_eq_true, Z.leb_le. done. Qed.

(** The statement of a served event, whatever became of the reply. *)
Lemma serve_cases d ev d' :
  serve d ev d' →
  (d' = d ∧ ∃ e, ev_res ev = Err e ∧ foreign e) ∨
  (d' = (exec (ev_op ev) d).2 ∧
   ((∃ e, ev_res ev = Err e ∧ foreign e) ∨
    ∃ a, exec (ev_op ev) d = (Ok a, d') ∧ ev_res ev = Ok a)).
Proof.
  intros [d0 s a d1 H|d0 s e He|d0 s a d1 e H He]; simpl.
  - right. rewrite H. split; [done|]. right. by exists a.
  - left. split; [done|]. by exists e.
  - right. rewrite H. split; [done|]. left. by exists e.
Qed.

Lemma serve_db d ev d' : serve d ev d' → d' = d ∨ d' = (exec (ev_op ev) d).2.
Proof. intros [[-> _]|[-> _]]%serve_cases; auto. Qed.

(** A reported consumption found the nonce live and spends it. *)
Lemma consumed_event_live d ev d' n :
  serve d ev d' → consumed_event n ev = true → live n d = true ∧ live n d' = false.
Proof.
  intros [d0 s a d1 H|d0 s e He|d0 s a d1 e H He] Hc.
  2,3: by destruct s.
  destruct s; try done. simpl in a, Hc. destruct a as [row|]; [|done].
  apply bool_decide_eq_true in Hc as ->.
  unfold exec in H. case_bool_decide; [done|]. unfold live.
  destruct (challenges d0 !! n) as [r|]; [|done].
  destruct (consumable now r) eqn:Hcon; [|done]. simplify_eq. simpl.
  rewrite lookup_insert_eq. simpl. apply consumable_true in Hcon as [-> _]. done.
Qed.

(** Only an insert of [n] makes it live. *)
Lemma serve_live d ev d' n :
  serve d ev d' → inserts n (ev_op ev) = false → live n d' = true → live n d = true.
Proof.
  intros [->| ->]%serve_db Hi; [done|]. unfold live. rewrite exec_lookup.
  case_bool_decide; [done|]. destruct (ev_op ev); simpl in Hi; try done.
  - rewrite (bool_decide_eq_false_2 (_ ∧ _)); [done|].
    intros [-> _]. by rewrite bool_decide_eq_true_2 in Hi.
  - destruct (challenges d !! n) as [r|]; simpl; [|done].
    destruct (_ && _) eqn:Hc; [|done]. simpl. by case_bool_decide.
  - destruct (challenges d !! n) as [r|]; simpl; [|done].
    by case_bool_decide.
Qed.

(** The budget of a nonce: one consumption for each insert, and one more when it
    is already there. *)
Lemma consumptions_le_inserts d evs d' n :
  consistent serve d evs d' →
  ((if live n d' then 1 else 0) + count (consumed_event n) evs ≤
   (if live n d then 1 else 0) + count (λ ev : event SQL, inserts n (ev_op ev)) evs)%nat.
Proof.
  induction 1 as [d|d ev d1 evs d2 Hs _ IH]; [simpl; unfold count; simpl; lia|].
  rewrite !count_cons. destruct (consumed_event n ev) eqn:Hc.
  - destruct (consumed_event_live _ _ _ _ Hs Hc) as [H1 H2]. rewrite H1, H2 in *. lia.
  - destruct (inserts n (ev_op ev)) eqn:Hi.
    + destruct (live n d1), (live n d); lia.
    + destruct (live n d1) eqn:H1; [|destruct (live n d); lia].
      rewrite (serve_live _ _ _ _ Hs Hi H1). lia.
Qed.

(** Without an insert, an unconsumed row was there before. *)
Lemma serve_unconsumed d ev d' n r :
  serve d ev d' → inserts n (ev_op ev) = false →
  challenges d' !! n = Some r → c_consumed_at r = None → challenges d !! n = Some r.
Proof.
  intros [->| ->]%serve_db Hi; [done|]. rewrite exec_lookup.
  case_bool_decide; [done|]. destruct (ev_op ev); simpl in Hi; try done.
  - rewrite (bool_decide_eq_false_2 (_ ∧ _)); [done|].
    intros [-> _]. by rewrite bool_decide_eq_true_2 in Hi.
  - destruct (challenges d !! n) as [r0|]; simpl; [|done].
    destruct (_ && _) eqn:Hc; [|by intros [= ->]].
    intros [= <-] Hn. done.
  - destruct (challenges d !! n) as [r0|]; simpl; [|done].
    case_bool_decide; [|done]. by intros [= ->].
Qed.

Lemma consistent_unconsumed d evs d' n r :
  consistent serve d evs d' → Forall (λ ev : event SQL, inserts n (ev_op ev) = false) evs →
  challenges d' !! n = Some r → c_consumed_at r = None → challenges d !! n = Some r.
Proof.
  induction 1 as [d|d ev d1 evs d2 Hs _ IH]; [done|].
  intros [Hi Hall]%Forall_cons Hr Hn. eapply serve_unconsumed; eauto.
Qed.

(** A row says what the insert that made it said. *)
Definition issued_by (o : stmt) (n : string) (r : challenge_row) : Prop :=
  match o with
  | INSERT_challenges nonce account home_domain client_domain _ expires_at =>
      nonce = n ∧ c_account r = account ∧ c_home_domain r = home_domain ∧
      c_client_domain r = Some client_domain ∧ c_expires_at r = timestamptz expires_at
  | _ => False
  end.

Lemma serve_origin d ev d' n r :
  serve d ev d' → challenges d' !! n = Some r →
  (∃ r0, challenges d !! n = Some r0 ∧ ∀ o, issued_by o n r0 → issued_by o n r) ∨
  issued_by (ev_op ev) n r.
Proof.
  intros [->| ->]%serve_db; [by left; exists r|]. rewrite exec_lookup.
  case_bool_decide; [by left; exists r|].
  destruct (ev_op ev); simpl; try by left; exists r.
  - case_bool_decide as Hc; [|by left; exists r]. destruct Hc as [-> _].
    intros [= <-]. by right.
  - destruct (challenges d !! n) as [r0|]; simpl; [|done]. intros [= <-]. left.
    exists r0. split; [done|]. by destruct (_ && _).
  - destruct (challenges d !! n) as [r0|]; simpl; [|done].
    case_bool_decide; [|done]. intros [= ->]. left. by exists r.
Qed.

Lemma consistent_origin d evs d' n r :
  consistent serve d evs d' → challenges d !! n = None → challenges d' !! n = Some r →
  ∃ ev : event SQL, ev ∈ evs ∧ issued_by (ev_op ev) n r.
Proof.
  intros H Hnone Hr. revert r Hr. induction evs as [|ev evs IH] using rev_ind in d', H |- *;
    intros r Hr.
  { inversion H; subst. congruence. }
  apply consistent_app in H as (d1 & H1 & H2).
  inversion H2 as [|? ? d2 ? ? Hs Hnil]; subst. inversion Hnil; subst.
  destruct (serve_origin _ _ _ _ _ Hs Hr) as [(r0 & Hr0 & Hi)|Hi].
  - destruct (IH _ H1 _ Hr0) as (ev' & Hin & Hev'). exists ev'.
    split; [apply elem_of_app; by left | by apply Hi].
  - exists ev. split; [|done]. apply elem_of_app. right. by apply list_elem_of_singleton.
Qed.

(** The row a reported consumption returned. *)
Lemma consume_reply d n now row d' :
  serve d (Ev (S := SQL) (UPDATE_consume n now) (Ok (Some row))) d' →
  ∃ r, challenges d !! n = Some r ∧ row = (c_account r, c_home_domain r, c_client_domain r) ∧
       c_consumed_at r = None ∧ timestamptz now ≤ c_expires_at r.
Proof.
  intros [[_ (e & He & _)]|[_ [(e & He & _)|(a & Hex & Ha)]]]%serve_cases;
    simpl in *; try done.
  injection Ha as <-. unfold exec in Hex. case_bool_decide; [done|].
  destruct (challenges d !! n) as [r|]; [|done].
  destruct (consumable now r) eqn:Hc; [|done]. apply consumable_true in Hc as [? ?].
  exists r. by simplify_eq.
Qed.

(** ** Lemmas: calls *)

Lemma ConsumeChallenge_ok n now tr out :
  runs (ConsumeChallenge n now) tr (Ok out) ↔
  ∃ row, tr = [Ev (S := SQL) (UPDATE_consume n now) (Ok (Some row))] ∧
         scan_consumed row = Ok out.
Proof.
  unfold ConsumeChallenge. rewrite runs_bind. split.
  - intros (tr1 & tr2 & r & -> & H1 & H2). apply (runs_perform (S := SQL)) in H1 as ->.
    destruct r as [[row|]|e]; simpl in H2.
    + destruct (scan_consumed row) eqn:Hs; simpl in H2; [|by destruct H2].
      destruct H2 as [-> [= ->]]. by exists row.
    + destruct H2 as (x & tr' & -> & _ & H). done.
    + by destruct H2.
  - intros (row & -> & Hs).
    exists [Ev (S := SQL) (UPDATE_consume n now) (Ok (Some row))], [], (Ok (Some row)).
    split; [done|]. split; [by apply (runs_perform (S := SQL))|]. simpl. by rewrite Hs.
Qed.

Lemma run_consume_ok n now tr out :
  runs (run_call (CallConsume n now)) tr (Consumed (Ok out)) →
  ∃ row, tr = [Ev (S := SQL) (UPDATE_consume n now) (Ok (Some row))] ∧
         scan_consumed row = Ok out.
Proof.
  unfold run_call. rewrite runs_bind. intros (tr1 & tr2 & r & -> & H & -> & [= <-]).
  rewrite app_nil_r. by apply ConsumeChallenge_ok.
Qed.

(** The statements of a call, and that a call inserts a challenge once at most. *)
Definition call_inserts (n : string) (c : call) : bool :=
  match c with
  | CallRecord rec => bool_decide (cr_Nonce rec = n)
  | _ => false
  end.

Definition allowed (c : call) (s : stmt) : Prop :=
  match c, s with
  | CallRecord rec, INSERT_challenges nonce account home client issued expires =>
      rec = MkChallengeRecord nonce account home client issued expires
  | CallConsume nonce now, UPDATE_consume nonce' now' => nonce' = nonce ∧ now' = now
  | CallConsume nonce now, SELECT_inspect nonce' => nonce' = nonce
  | CallSession rec, INSERT_sessions jti account memo home client issued expires =>
      rec = MkSessionRecord jti account memo home client issued expires
  | CallDelete before, DELETE_expired before' => before' = before
  | _, _ => False
  end.

Lemma run_call_allowed c : all_ops (S := SQL) (allowed c) (run_call c).
Proof.
  destruct c as [[]|n now|[]|b]; simpl; [by split | | by split | by split].
  split; [done|]. intros r. destruct (query_row _ _) as [|[]]; simpl; try done.
Qed.

Lemma run_call_inserts n c :
  max_ops (S := SQL) (inserts n) (if call_inserts n c then 1 else 0) (run_call c).
Proof.
  destruct c as [rec|n' now|rec|b]; simpl; try done.
  - by case_bool_decide.
  - intros r. by destruct (query_row _ _) as [|[]].
Qed.

Lemma pool_op_allowed calls tr qs i (ev : event SQL) :
  interleave (run_call <$> calls) tr qs → (i, ev) ∈ tr →
  ∃ c, calls !! i = Some c ∧ allowed c (ev_op ev).
Proof.
  intros H Hin. destruct (interleave_tags _ _ _ _ _ H Hin) as [p Hp].
  destruct (interleave_thread _ _ _ _ _ H Hp) as (q & _ & Hs).
  rewrite list_lookup_fmap in Hp. apply fmap_Some in Hp as (c & Hc & ->).
  exists c. split; [done|].
  destruct (steps_all_ops _ _ _ _ Hs (run_call_allowed c)) as [Hall _].
  rewrite Forall_forall in Hall. by apply Hall, elem_of_thread_events.
Qed.

(** The inserts of [n] in a concurrent execution are those of the calls. *)
Lemma pool_inserts calls tr qs n :
  interleave (run_call <$> calls) tr qs →
  (count (λ ev : event SQL, inserts n (ev_op ev)) tr.*2 ≤ count (call_inserts n) calls)%nat.
Proof.
  intros H. rewrite <-(length_indices (call_inserts n)). unfold count.
  apply events_le_threads.
  - intros i ev Hin Hi. destruct (interleave_tags _ _ _ _ _ H Hin) as [p Hp].
    pose proof (interleave_thread _ _ _ _ _ H Hp) as (q & _ & Hs).
    rewrite list_lookup_fmap in Hp. apply fmap_Some in Hp as (c & Hc & ->).
    apply elem_of_indices. exists c. split; [done|].
    destruct (call_inserts n c) eqn:Hci; [done|]. exfalso.
    pose proof (run_call_inserts n c) as Hmax. rewrite Hci in Hmax.
    destruct (steps_max_ops _ _ _ _ _ Hs Hmax) as (m & _ & Hlen).
    assert (Hev : ev ∈ filter (λ ev0 : event SQL, inserts n (ev_op ev0) = true)
                        (thread_events i tr)).
    { apply list_elem_of_filter. split; [done|]. by apply elem_of_thread_events. }
    apply length_pos_elem in Hev. lia.
  - intros i (c & Hc & Hci)%elem_of_indices.
    pose proof (run_call_inserts n c) as Hmax. rewrite Hci in Hmax.
    assert (Hp : (run_call <$> calls) !! i = Some (run_call c))
      by (by rewrite list_lookup_fmap, Hc).
    destruct (interleave_thread _ _ _ _ _ H Hp) as (q & _ & Hs).
    destruct (steps_max_ops _ _ _ _ _ Hs Hmax) as (m & _ & Hlen). lia.
Qed.

(** ** Lemmas: the served database *)

Lemma serve_all_serve driver d (s : stmt) :
  (∀ st, foreign (driver st)) →
  serve d (Ev (S := SQL) s (serve_all driver d s).1) (serve_all driver d s).2.
Proof.
  intros Hf. unfold serve_all. destruct (exec s d) as [[a|e] d'] eqn:H; simpl.
  - by apply serve_reply.
  - assert (d' = d) as ->; [|by apply serve_failed].
    unfold exec in H. case_bool_decide; [by simplify_eq|].
    destruct s; simpl in H; repeat case_match; by simplify_eq.
Qed.

(** The two statements of [ConsumeChallenge] together do what a nonce is worth. *)
Lemma interp_consume `{!PgxLaws Px} driver n now d :
  interp (S := SQL) (serve_all driver) (ConsumeChallenge n now) d = consume_spec driver n now d.
Proof.
  unfold consume_spec. simpl. unfold serve_all at 1. unfold exec at 1.
  case_bool_decide as Hs; [done|].
  destruct (challenges d !! n) as [r|] eqn:Hr; simpl.
  - unfold consumable. destruct (c_consumed_at r) as [t|] eqn:Hc; simpl.
    + unfold serve_all, exec. rewrite bool_decide_eq_false_2, Hr by done. simpl.
      by rewrite Hc.
    + rewrite Z.ltb_antisym. destruct (timestamptz now <=? _) eqn:Hle; simpl.
      * by destruct (c_client_domain r).
      * unfold serve_all, exec. rewrite (bool_decide_eq_false_2 (d_schema d = NoTables)), Hr by done.
        simpl. rewrite Hc. simpl. unfold Before.
        destruct (c_expires_at r <? now) eqn:Hlt; [done|]. exfalso.
        apply Z.leb_gt in Hle. apply Z.ltb_ge in Hlt. pose proof (timestamptz_le now). lia.
  - unfold serve_all, exec. by rewrite bool_decide_eq_false_2, Hr by done.
Qed.

(** An UPDATE that matches nothing, and a SELECT, change nothing. *)
Lemma update_none n now d d' :
  exec (UPDATE_consume n now) d = (Ok None, d') → d' = d.
Proof. unfold exec. repeat case_match; intros; by simplify_eq. Qed.

Lemma select_db n d : (exec (SELECT_inspect n) d).2 = d.
Proof. unfold exec. by case_match. Qed.

(** The UPDATE alone decides what becomes of the row. *)
Lemma consume_spec_db driver n now d :
  (consume_spec driver n now d).2 = (exec (UPDATE_consume n now) d).2.
Proof.
  unfold consume_spec, exec. case_bool_decide; [done|].
  destruct (challenges d !! n) as [r|]; [|done]. unfold consumable.
  destruct (c_consumed_at r) as [t|]; [done|]. simpl. rewrite Z.ltb_antisym.
  by destruct (timestamptz now <=? _).
Qed.

Lemma consistent_one {S W} (step : W → event S → W → Prop) w ev w' :
  consistent step w [ev] w' ↔ step w ev w'.
Proof.
  split; [|intros; econstructor; [done|constructor]].
  intros H. inversion H as [|? ? ? ? ? Hs Hnil]; subst. by inversion Hnil; subst.
Qed.

End lemmas.

(** ** A driver, to evaluate the model on *)

#[global] Instance demo_pgx : Pgx := {|
  timestamptz t := t / 1000 * 1000;
  null_scan := New "cannot scan NULL into *string";
|}.

#[global] Instance demo_pgx_laws : PgxLaws demo_pgx.
Proof.
  split; simpl.
  - intros t u H. apply Z.mul_le_mono_nonneg_r; [lia|]. apply Z.div_le_mono; lia.
  - intros t. pose proof (Z.mul_div_le t 1000). lia.
  - intros t H. pose proof (Z.div_mod t 1000). lia.
  - done.
Qed.

Definition demo_driver (st : sqlstate) : error :=
  match st with
  | undefined_table => New "relation does not exist (SQLSTATE 42P01)"
  | unique_violation => New "duplicate key value (SQLSTATE 23505)"
  end.

Lemma demo_driver_foreign st : foreign (demo_driver st).
Proof. by destruct st. Qed.

Definition migrated : db := Db NotNullText ∅ ∅.

(** Two posts of one challenge, a post of another nonce, and its recording. *)
Definition demo_calls : list call :=
  [CallRecord (MkChallengeRecord "n1" "GA" "home" "wallet" (10 * Second) (310 * Second));
   CallConsume "n1" (100 * Second); CallConsume "n1" (100 * Second);
   CallConsume "n2" (100 * Second); CallDelete (50 * Second);
   CallSession (MkSessionRecord "j1" "GA" "" "home" "wallet" (100 * Second) (200 * Second))].

Definition demo_out : ConsumedChallenge := MkConsumedChallenge "GA" "home" "wallet".

(** The two posts interleave: both updates run before either select. *)
Abbreviation demo_execution :=
  (run_pool (S := SQL) (serve_all demo_driver) [0; 4; 1; 2; 3; 2; 5; 3]%nat
     (run_call <$> demo_calls) migrated).

Lemma demo_execution_spec :
  ∃ tr qs d', demo_execution = (tr, qs, d') ∧
    interleave (run_call <$> demo_calls) tr qs ∧ consistent serve migrated tr.*2 d' ∧
    qs !! 1%nat = Some (Ret (Consumed (Ok demo_out))) ∧
    qs !! 2%nat = Some (Ret (Consumed (Err (reason ErrChallengeConsumed)))) ∧
    qs !! 3%nat = Some (Ret (Consumed (Err (reason ErrChallengeUnknown)))) ∧
    qs !! 5%nat = Some (Ret (Recorded (Ok tt))).
Proof.
  pose proof (run_pool_spec (S := SQL) serve (serve_all demo_driver) [0; 4; 1; 2; 3; 2; 5; 3]%nat
    (run_call <$> demo_calls) migrated
    (λ w o, serve_all_serve demo_driver w o demo_driver_foreign)) as H.
  assert (Hq : demo_execution.1.2 !! 1%nat = Some (Ret (Consumed (Ok demo_out))) ∧
    demo_execution.1.2 !! 2%nat = Some (Ret (Consumed (Err (reason ErrChallengeConsumed)))) ∧
    demo_execution.1.2 !! 3%nat = Some (Ret (Consumed (Err (reason ErrChallengeUnknown)))) ∧
    demo_execution.1.2 !! 5%nat = Some (Ret (Recorded (Ok tt))))
    by (vm_compute; repeat split; reflexivity).
  destruct demo_execution as [[tr qs] d']. destruct H as [H1 H2].
  exists tr, qs, d'. split; [reflexivity|]. split; [exact H1|]. split; [exact H2|]. exact Hq.
Qed.

(** ** Properties *)

Section properties.
Context {Px : Pgx} {PL : PgxLaws Px}.

(** A challenge is consumed at most once, however many callers race for it and
    whatever fails: of the calls that ran concurrently on the database, in any
    interleaving of their statements, with any statement failing before or
    after it took effect, those that consumed a nonce are no more than the
    calls that recorded it, plus one if the nonce was already there, unconsumed. (claim C4) *)
Theorem ConsumeChallenge_at_most_once calls tr qs d d' n (L : list nat) :
  interleave (run_call <$> calls) tr qs → consistent serve d tr.*2 d' →
  NoDup L →
  (∀ i, i ∈ L → ∃ now out, calls !! i = Some (CallConsume n now) ∧
                           qs !! i = Some (Ret (Consumed (Ok out)))) →
  (length L ≤ (if live n d then 1 else 0) + count (call_inserts n) calls)%nat.
Proof.
  intros Hil Hc Hnd HL.
  transitivity (count (consumed_event n) tr.*2).
  - apply threads_le_events; [done|]. intros i Hi.
    destruct (HL i Hi) as (now & out & Hcall & Hq).
    assert (Hp : (run_call <$> calls) !! i = Some (run_call (CallConsume n now)))
      by (by rewrite list_lookup_fmap, Hcall).
    apply (interleave_thread_ret _ _ _ _ _ _ Hil Hp), run_consume_ok in Hq as (row & -> & _).
    eexists. split; [by apply list_elem_of_singleton|]. simpl. by apply bool_decide_eq_true_2.
  - pose proof (consumptions_le_inserts _ _ _ n Hc). pose proof (pool_inserts _ _ _ n Hil).
    destruct (live n d'); lia.
Qed.

End properties.

Lemma ConsumeChallenge_at_most_once_witness :
  ∃ tr qs d' (L : list nat),
    interleave (run_call <$> demo_calls) tr qs ∧ consistent serve migrated tr.*2 d' ∧
    length L = 1%nat ∧
    (length L ≤ (if live "n1" migrated then 1 else 0) +
       count (call_inserts "n1") demo_calls)%nat.
Proof.
  destruct demo_execution_spec as (tr & qs & d' & _ & H1 & H2 & Hq & _).
  assert (HL : ∀ i : nat, i ∈ [1%nat] → ∃ now out, demo_calls !! i = Some (CallConsume "n1" now) ∧
                             qs !! i = Some (Ret (Consumed (Ok out)))).
  { intros i ->%list_elem_of_singleton. exists (100 * Second), demo_out. exact (conj eq_refl Hq). }
  exists tr, qs, d', [1%nat]. split; [exact H1|]. split; [exact H2|]. split; [reflexivity|].
  exact (ConsumeChallenge_at_most_once demo_calls tr qs migrated d' "n1" [1%nat] H1 H2
           (NoDup_singleton _) HL).
Defined.

Section properties.
Context {Px : Pgx} {PL : PgxLaws Px}.

(** What a consumption returns is what was recorded: on a database that did not
    know the nonce, a caller that consumes it gets the account, home domain and
    client domain of a call that recorded that nonce, before that challenge
    expired, whatever the concurrent calls and failures. *)
Theorem consumed_is_what_was_recorded calls tr qs d d' i n now out :
  interleave (run_call <$> calls) tr qs → consistent serve d tr.*2 d' →
  challenges d !! n = None →
  calls !! i = Some (CallConsume n now) → qs !! i = Some (Ret (Consumed (Ok out))) →
  ∃ rec, CallRecord rec ∈ calls ∧ cr_Nonce rec = n ∧
    out = MkConsumedChallenge (cr_Account rec) (cr_HomeDomain rec) (cr_ClientDomain rec) ∧
    timestamptz now ≤ timestamptz (cr_ExpiresAt rec).
Proof.
  intros Hil Hc Hnone Hcall Hq.
  assert (Hp : (run_call <$> calls) !! i = Some (run_call (CallConsume n now)))
    by (by rewrite list_lookup_fmap, Hcall).
  apply (interleave_thread_ret _ _ _ _ _ _ Hil Hp), run_consume_ok in Hq as (row & Hev & Hscan).
  assert (Hin : (i, Ev (S := SQL) (UPDATE_consume n now) (Ok (Some row))) ∈ tr).
  { apply elem_of_thread_events. rewrite Hev. by apply list_elem_of_singleton. }
  apply (list_elem_of_fmap_2 snd) in Hin. simpl in Hin.
  apply list_elem_of_split in Hin as (evs1 & evs2 & Hsplit). rewrite Hsplit in Hc.
  apply consistent_app in Hc as (d1 & Hc1 & Hc2).
  inversion Hc2 as [|? ? d2 ? ? Hs _]; subst.
  destruct (consume_reply _ _ _ _ _ Hs) as (r & Hr & Hrow & Hexp).
  destruct (consistent_origin _ _ _ _ _ Hc1 Hnone Hr) as (ev & Hin & Hiss).
  assert (Hin' : ev ∈ tr.*2) by (rewrite Hsplit; apply elem_of_app; by left).
  apply list_elem_of_fmap in Hin' as ([j ev'] & -> & Hj). simpl in *.
  destruct (pool_op_allowed _ _ _ _ _ Hil Hj) as (c & Hcj & Hal).
  destruct (ev_op ev') as [nonce a h cl iss ex| | | |]; try done. simpl in Hiss.
  destruct c as [rec| | |]; try done. simpl in Hal. subst rec.
  destruct Hiss as (-> & <- & <- & Hcl & Hex).
  eexists. split; [by eapply list_elem_of_lookup_2|]. simpl. split; [done|].
  subst row. simpl in Hscan. rewrite Hcl in Hscan. injection Hscan as <-.
  split; [done|]. rewrite <-Hex. exact (proj2 Hexp).
Qed.

(** [ConsumeChallenge] refines [consume_spec]: alone on a database that may
    fail at either statement, it either returns what the nonce's row says and
    leaves the database as the specification does, or reports an error that is
    no verdict on the challenge, having spent the nonce or not. (claim C13) *)
Theorem ConsumeChallenge_refines_spec driver n now tr r d d' :
  runs (ConsumeChallenge n now) tr r → consistent serve d tr d' →
  (r, d') = consume_spec driver n now d ∨
  (∃ e, r = Err e ∧ foreign e ∧ (d' = d ∨ d' = (consume_spec driver n now d).2)).
Proof.
  unfold ConsumeChallenge. rewrite runs_bind.
  intros (tr1 & tr2 & x & -> & H1 & H2) Hc. apply (runs_perform (S := SQL)) in H1 as ->.
  apply consistent_app in Hc as (d1 & Hc1 & Hc2). apply consistent_one in Hc1.
  assert (Hfail : ∀ e, x = Err e → foreign e →
    r = Err (Errorf "consuming challenge: %w" [] [e]) ∧ d' = d1 ∧
    foreign (Errorf "consuming challenge: %w" [] [e])).
  { intros e -> He. simpl in H2. destruct H2 as [-> ->]. inversion Hc2; subst.
    auto 10 with anchorage. }
  destruct (serve_cases _ _ _ Hc1) as [[-> (e & Hx & He)]|[Hd [(e & Hx & He)|(a & Hex & Hx)]]].
  - destruct (Hfail _ Hx He) as (-> & -> & ?). right. eauto.
  - destruct (Hfail _ Hx He) as (-> & -> & ?). right. rewrite consume_spec_db. eauto.
  - simpl in a, Hex, Hx. subst x. clear Hfail.
    destruct a as [row|]; simpl in H2.
    + left. rewrite <-interp_consume. simpl. unfold serve_all at 1. rewrite Hex. simpl.
      destruct (scan_consumed row); simpl in *; destruct H2 as [-> ->];
        by inversion Hc2; subst.
    + destruct H2 as (y & tr' & -> & -> & ->). apply consistent_one in Hc2.
      assert (d1 = d) as -> by (by eapply update_none).
      destruct (serve_cases _ _ _ Hc2) as [[-> (e & Hy & He)]|[Hd' [(e & Hy & He)|(b & Heb & Hy)]]];
        [| |simpl in b, Heb]; simpl in Hy; subst y.
      * right. eexists. split; [done|]. split; [|by left]. simpl. auto with anchorage.
      * right. eexists. split; [done|]. simpl. split; [auto with anchorage|].
        left. etrans; [exact Hd' | apply select_db].
      * left. rewrite <-interp_consume. simpl. unfold serve_all at 1. rewrite Hex. simpl.
        unfold serve_all. by rewrite Heb.
Qed.

End properties.

(** ** Properties: verdicts, sweeping, round trip, sessions, migrations *)

(** What each verdict on a challenge says of its row. *)
Definition verdict_true (n : string) (now : Z) (d : db) (s : sentinel) : Prop :=
  match s with
  | ErrChallengeUnknown => challenges d !! n = None
  | ErrChallengeConsumed => ∃ r t, challenges d !! n = Some r ∧ c_consumed_at r = Some t
  | ErrChallengeExpired =>
      ∃ r, challenges d !! n = Some r ∧ c_consumed_at r = None ∧ c_expires_at r < now
  | _ => False
  end.

Definition is_sweep_before (now : Z) (o : stmt) : Prop :=
  match o with DELETE_expired before => before ≤ now | _ => True end.

Definition not_consume (n : string) (o : stmt) : Prop :=
  match o with UPDATE_consume nonce _ => nonce ≠ n | _ => True end.

Section properties.
Context {Px : Pgx} {PL : PgxLaws Px}.

Lemma select_reply d n y d' row :
  serve d (Ev (S := SQL) (SELECT_inspect n) y) d' → y = Ok row →
  d_schema d ≠ NoTables ∧ row = (λ r, (c_consumed_at r, c_expires_at r)) <$> challenges d !! n.
Proof.
  intros Hs ->. destruct (serve_cases _ _ _ Hs) as [[_ (e & Hy & _)]|[_ [(e & Hy & _)|(b & Hb & Hy)]]];
    simpl in *; try done.
  injection Hy as <-. unfold exec in Hb. case_bool_decide; [done|]. by simplify_eq.
Qed.

(** An UPDATE that answered that no row matched. *)
Lemma update_reply_none d n now d' r :
  serve d (Ev (S := SQL) (UPDATE_consume n now) (Ok None)) d' →
  d' = d ∧ (challenges d !! n = Some r → consumable now r = false).
Proof.
  intros [[_ (e & Hy & _)]|[_ [(e & Hy & _)|(b & Hb & Hy)]]]%serve_cases; simpl in *; try done.
  injection Hy as <-. split; [by eapply update_none|]. intros Hr.
  unfold exec in Hb. case_bool_decide; [done|]. rewrite Hr in Hb.
  by destruct (consumable now r).
Qed.

Lemma serve_error_foreign d ev d' e : serve d ev d' → ev_res ev = Err e → foreign e.
Proof.
  intros [[_ (e' & Hy & He)]|[_ [(e' & Hy & He)|(b & Hb & Hy)]]]%serve_cases H; congruence.
Qed.

(** When a consumption succeeds on a database that serves every statement. *)
Lemma consume_ok_iff driver n now d out :
  (interp (S := SQL) (serve_all driver) (ConsumeChallenge n now) d).1 = Ok out ↔
  d_schema d ≠ NoTables ∧ ∃ r, challenges d !! n = Some r ∧ c_consumed_at r = None ∧
    timestamptz now ≤ c_expires_at r ∧
    scan_consumed (c_account r, c_home_domain r, c_client_domain r) = Ok out.
Proof.
  rewrite interp_consume. unfold consume_spec. case_bool_decide as Hs; [naive_solver|].
  destruct (challenges d !! n) as [r|]; [|naive_solver].
  destruct (c_consumed_at r) eqn:Hc; simpl; [naive_solver congruence|].
  destruct (c_expires_at r <? timestamptz now) eqn:Hlt; reflect_guards; simpl.
  { split; [done|]. intros (_ & r' & [= <-] & _ & ? & _). lia. }
  destruct (c_client_domain r) eqn:Hcl; simpl; split.
  - intros [= <-]. split; [done|]. exists r. by rewrite Hcl.
  - intros (_ & r' & [= <-] & _ & _ & Hscan). by rewrite Hcl in Hscan.
  - done.
  - intros (_ & r' & [= <-] & _ & _ & Hscan). by rewrite Hcl in Hscan.
Qed.

(** The verdict of a refused challenge is the truth about its row when it is
    given, as long as nobody recorded the nonce anew in between: the final
    branch of [classifyFailure] is then never taken. (claim C31) *)
Theorem classifyFailure_accurate d0 d1 d2 d3 n now x y evs e s :
  serve d0 (Ev (S := SQL) (UPDATE_consume n now) x) d1 →
  consistent serve d1 evs d2 → Forall (λ ev : event SQL, inserts n (ev_op ev) = false) evs →
  serve d2 (Ev (S := SQL) (SELECT_inspect n) y) d3 →
  runs (ConsumeChallenge n now)
    [Ev (S := SQL) (UPDATE_consume n now) x; Ev (S := SQL) (SELECT_inspect n) y] (Err e) →
  Is e s = true → verdict_true n now d2 s.
Proof.
  intros Hu Hc Hins Hsel Hrun HIs.
  apply (runs_cons_inv (S := SQL)) in Hrun.
  destruct x as [[row|]|eu]; cbn -[runs] in Hrun.
  { by destruct (scan_consumed row); destruct Hrun as [? _]. }
  2: by destruct Hrun as [? _].
  apply (runs_cons_inv (S := SQL)) in Hrun as [_ [= ->]].
  destruct y as [row|ey]; simpl in HIs.
  - destruct (select_reply _ _ _ _ _ Hsel eq_refl) as [_ ->].
    destruct (challenges d2 !! n) as [r|] eqn:Hr; simpl in HIs.
    + destruct (c_consumed_at r) as [t|] eqn:Hcon; simpl in HIs.
      { rewrite orb_false_r in HIs. apply bool_decide_eq_true in HIs as <-. by exists r, t. }
      assert (Hr0 : challenges d0 !! n = Some r).
      { eapply serve_unconsumed; [exact Hu| | |done].
        - by simpl.
        - by eapply consistent_unconsumed. }
      destruct (update_reply_none _ _ _ _ r Hu) as [_ Hno]. specialize (Hno Hr0).
      unfold consumable in Hno. rewrite Hcon in Hno. simpl in Hno. apply Z.leb_gt in Hno.
      pose proof (timestamptz_le now) as Hle.
      assert (Before (c_expires_at r) now = true) as Hb by (apply Z.ltb_lt; lia).
      rewrite Hb in HIs. simpl in HIs. rewrite orb_false_r in HIs.
      apply bool_decide_eq_true in HIs as <-. exists r. split; [done|]. split; [done|]. lia.
    + rewrite orb_false_r in HIs. by apply bool_decide_eq_true in HIs as <-.
  - rewrite (serve_error_foreign _ _ _ _ Hsel eq_refl) in HIs. done.
Qed.

(** The cleanup loop is invisible to consumption: sweeping the rows that expired
    by some time changes no later consumption that succeeds, and lets none
    succeed that would have failed. (claim C33) *)
Theorem sweep_keeps_consumable driver before now n d out :
  before ≤ now →
  let swept := (interp (S := SQL) (serve_all driver) (DeleteExpiredChallenges before) d).2 in
  (interp (S := SQL) (serve_all driver) (ConsumeChallenge n now) swept).1 = Ok out ↔
  (interp (S := SQL) (serve_all driver) (ConsumeChallenge n now) d).1 = Ok out.
Proof.
  intros Hle swept. rewrite !consume_ok_iff.
  assert (Hsw : swept = (exec (DELETE_expired before) d).2).
  { unfold swept. simpl. unfold serve_all. by destruct (exec _ d). }
  rewrite Hsw, exec_schema, exec_lookup. clear swept Hsw.
  case_bool_decide as Hs; [tauto|].
  destruct (challenges d !! n) as [r|]; simpl; [|done]. case_bool_decide as Hk; [done|].
  split; [by intros (_ & r' & ? & _)|].
  intros (_ & r' & [= <-] & _ & Hexp & _). pose proof (timestamptz_mono _ _ Hle). lia.
Qed.

(** A recorded challenge can be consumed: after a call recorded it, and whatever
    else happens to the database as long as that nonce is not consumed and
    nothing sweeps past the time of the post, posting it until it expires
    returns exactly what was recorded. (claim C32) *)
Theorem recorded_then_consumed driver rec now d d1 evs d2 :
  interp (S := SQL) (serve_all driver) (RecordChallenge rec) d = (Ok tt, d1) →
  consistent serve d1 evs d2 →
  Forall (λ ev : event SQL, not_consume (cr_Nonce rec) (ev_op ev) ∧
                            is_sweep_before now (ev_op ev)) evs →
  now ≤ cr_ExpiresAt rec →
  (interp (S := SQL) (serve_all driver) (ConsumeChallenge (cr_Nonce rec) now) d2).1 =
    Ok (MkConsumedChallenge (cr_Account rec) (cr_HomeDomain rec) (cr_ClientDomain rec)).
Proof.
  intros Hrec Hc Hall Hnow. apply consume_ok_iff.
  assert (Hd1 : d_schema d1 ≠ NoTables ∧ challenges d1 !! cr_Nonce rec =
    Some (ChallengeRow (cr_Account rec) (cr_HomeDomain rec) (Some (cr_ClientDomain rec))
            (timestamptz (cr_IssuedAt rec)) (timestamptz (cr_ExpiresAt rec)) None)).
  { simpl in Hrec. unfold serve_all, exec in Hrec. case_bool_decide as Hs; [done|].
    destruct (challenges d !! cr_Nonce rec); [done|]. injection Hrec as <-. simpl.
    by rewrite lookup_insert_eq. }
  pose proof (timestamptz_mono _ _ Hnow) as Hle. clear Hrec.
  assert (Hd2 : d_schema d2 ≠ NoTables ∧ challenges d2 !! cr_Nonce rec =
    Some (ChallengeRow (cr_Account rec) (cr_HomeDomain rec) (Some (cr_ClientDomain rec))
            (timestamptz (cr_IssuedAt rec)) (timestamptz (cr_ExpiresAt rec)) None)).
  { induction Hc as [d0|d0 ev d1 evs d2 Hs _ IH]; [done|].
    apply Forall_cons in Hall as [[Hnc Hsw] Hall]. apply IH; [done|].
    rewrite (serve_schema _ _ _ Hs). split; [apply Hd1|]. destruct Hd1 as [Hns Hr].
    apply serve_db in Hs as [->| ->]; [done|]. rewrite exec_lookup, Hr.
    rewrite bool_decide_eq_false_2 by done.
    destruct (ev_op ev); simpl in *; try done.
    - by rewrite bool_decide_eq_false_2 by (by intros [_ ?]).
    - by rewrite bool_decide_eq_false_2 by done.
    - rewrite bool_decide_eq_true_2; [done|].
      pose proof (timestamptz_mono _ _ Hsw). lia. }
  destruct Hd2 as [Hns Hr]. split; [done|]. eexists. split; [exact Hr|]. by simpl.
Qed.

(** The session a statement inserts. *)
Definition session_of (rec : SessionRecord) : session_row :=
  SessionRow (sr_Account rec) (Some (sr_Memo rec)) (sr_HomeDomain rec)
    (Some (sr_ClientDomain rec)) (timestamptz (sr_IssuedAt rec)) (timestamptz (sr_ExpiresAt rec)).

Lemma serve_session d ev d' j s :
  serve d ev d' → sessions d !! j = Some s → sessions d' !! j = Some s.
Proof.
  intros [->| ->]%serve_db Hs; [done|]. unfold exec. case_bool_decide; [done|].
  destruct (ev_op ev); simpl; try by repeat case_match.
  destruct (sessions d !! jti) eqn:Hj; simpl; [done|].
  rewrite lookup_insert_ne; [done|]. congruence.
Qed.

Lemma insert_session_reply d rec d' x :
  serve d (Ev (S := SQL) (INSERT_sessions (sr_JTI rec) (sr_Account rec) (sr_Memo rec)
     (sr_HomeDomain rec) (sr_ClientDomain rec) (sr_IssuedAt rec) (sr_ExpiresAt rec)) x) d' →
  x = Ok tt →
  sessions d !! sr_JTI rec = None ∧ sessions d' !! sr_JTI rec = Some (session_of rec).
Proof.
  intros Hs ->. destruct (serve_cases _ _ _ Hs) as [[_ (e & Hy & _)]|[_ [(e & Hy & _)|(b & Hb & Hy)]]];
    simpl in *; try done.
  unfold exec in Hb. case_bool_decide; [done|].
  destruct (sessions d !! sr_JTI rec); [done|]. injection Hb as _ <-. simpl.
  by rewrite lookup_insert_eq.
Qed.

(** Sessions are an audit trail: a session whose recording was acknowledged was
    new, and is in the table, with the values recorded, at the end of every
    concurrent execution, whatever else ran or failed; so no two calls that
    recorded sessions under one jti are both acknowledged. (claim C34) *)
Theorem acknowledged_sessions_stay calls tr qs d d' i rec :
  interleave (run_call <$> calls) tr qs → consistent serve d tr.*2 d' →
  calls !! i = Some (CallSession rec) → qs !! i = Some (Ret (Recorded (Ok tt))) →
  sessions d !! sr_JTI rec = None ∧ sessions d' !! sr_JTI rec = Some (session_of rec).
Proof.
  intros Hil Hc Hcall Hq.
  assert (Hp : (run_call <$> calls) !! i = Some (run_call (CallSession rec)))
    by (by rewrite list_lookup_fmap, Hcall).
  apply (interleave_thread_ret _ _ _ _ _ _ Hil Hp) in Hq.
  destruct Hq as (x & tr' & Hev & -> & Hx). injection Hx as Hx.
  assert (Hx' : x = Ok tt) by (destruct x as [[]|]; [reflexivity | discriminate Hx]).
  assert (Hin : (i, Ev (S := SQL) _ x) ∈ tr)
    by (apply elem_of_thread_events; rewrite Hev; by apply list_elem_of_singleton).
  apply (list_elem_of_fmap_2 snd) in Hin. simpl in Hin.
  apply list_elem_of_split in Hin as (evs1 & evs2 & Hsplit). rewrite Hsplit in Hc.
  apply consistent_app in Hc as (d1 & Hc1 & Hc2).
  inversion Hc2 as [|? ? d2 ? ? Hs Hc3]; subst.
  destruct (insert_session_reply _ _ _ _ Hs eq_refl) as [Hbefore Hafter]. split.
  - destruct (sessions d !! sr_JTI rec) as [s|] eqn:Hd; [|done].
    pose proof (consistent_invariant serve (λ d, sessions d !! sr_JTI rec = Some s) _ _ _
      (λ w ev w' Hw Hw', serve_session _ _ _ _ _ Hw' Hw) Hc1 Hd). simpl in *. congruence.
  - apply (consistent_invariant serve (λ d, sessions d !! sr_JTI rec = Some (session_of rec)) _ _ _
      (λ w ev w' Hw Hw', serve_session _ _ _ _ _ Hw' Hw) Hc3 Hafter).
Qed.

(** After the second migration no consumption is lost to a NULL: whatever rows
    the first schema left behind, and whatever runs and fails afterwards, every
    row a consuming UPDATE returns can be scanned, so a nonce it reports spent
    is returned to its caller. (claim C35) *)
Theorem migrated_rows_scan d0 d evs d' n now row :
  migration_2_up d0 = Some d → consistent serve d evs d' →
  Ev (S := SQL) (UPDATE_consume n now) (Ok (Some row)) ∈ evs →
  ∃ out, scan_consumed row = Ok out.
Proof.
  intros Hm Hc Hin. apply migration_2_up_wf in Hm as [Hwf Hs].
  apply list_elem_of_split in Hin as (evs1 & evs2 & ->).
  apply consistent_app in Hc as (d1 & Hc1 & Hc2).
  inversion Hc2 as [|? ? d2 ? ? Hserve _]; subst.
  assert (Hwf1 : db_wf d1 ∧ d_schema d1 = NotNullText).
  { apply (consistent_invariant serve (λ d, db_wf d ∧ d_schema d = NotNullText) _ _ _) in Hc1;
      [done| |done].
    intros w ev w' [H1 H2] Hw. split; [by eapply serve_wf|].
    by rewrite (serve_schema _ _ _ Hw). }
  destruct (consume_reply _ _ _ _ _ Hserve) as (r & Hr & -> & _).
  destruct Hwf1 as [Hwf1 Hs1]. unfold db_wf in Hwf1. rewrite Hs1 in Hwf1.
  destruct Hwf1 as [Hnn _]. destruct (Hnn n r Hr) as [c Hcl]. simpl. rewrite Hcl. by eexists.
Qed.

End properties.

(** ** Witnesses *)

Lemma consumed_is_what_was_recorded_witness :
  ∃ rec, CallRecord rec ∈ demo_calls ∧ cr_Nonce rec = "n1"%string ∧
    demo_out = MkConsumedChallenge (cr_Account rec) (cr_HomeDomain rec) (cr_ClientDomain rec) ∧
    timestamptz (100 * Second) ≤ timestamptz (cr_ExpiresAt rec).
Proof.
  destruct demo_execution_spec as (tr & qs & d' & _ & H1 & H2 & Hq & _).
  exact (consumed_is_what_was_recorded demo_calls tr qs migrated d' 1%nat "n1" (100 * Second)
           demo_out H1 H2 eq_refl eq_refl Hq).
Defined.

Lemma acknowledged_sessions_stay_witness :
  ∃ d', sessions migrated !! "j1"%string = None ∧
    sessions d' !! "j1"%string =
      Some (SessionRow "GA" (Some ""%string) "home" (Some "wallet"%string)
              (100 * Second) (200 * Second)).
Proof.
  destruct demo_execution_spec as (tr & qs & d' & _ & H1 & H2 & _ & _ & _ & Hq).
  exists d'.
  exact (acknowledged_sessions_stay demo_calls tr qs migrated d' 5%nat _ H1 H2 eq_refl Hq).
Defined.

(** One live row, with the database after it was consumed. *)
Definition demo_row : challenge_row :=
  ChallengeRow "GA" "home" (Some "wallet"%string) (10 * Second) (310 * Second) None.
Definition demo_live : db := Db NotNullText {[ "n1"%string := demo_row ]} ∅.
Definition demo_spent : db := (exec (UPDATE_consume "n1" (100 * Second)) demo_live).2.

Lemma demo_update :
  serve demo_live (Ev (S := SQL) (UPDATE_consume "n1" (100 * Second))
    (Ok (Some ("GA", "home", Some "wallet")%string))) demo_spent.
Proof. apply serve_reply. vm_compute. reflexivity. Qed.

Lemma ConsumeChallenge_refines_spec_witness :
  (Ok demo_out, demo_spent) = consume_spec demo_driver "n1" (100 * Second) demo_live ∨
  (∃ e, Ok demo_out = Err e ∧ foreign e ∧
     (demo_spent = demo_live ∨
      demo_spent = (consume_spec demo_driver "n1" (100 * Second) demo_live).2)).
Proof.
  refine (ConsumeChallenge_refines_spec demo_driver "n1" (100 * Second) _ (Ok demo_out)
            demo_live demo_spent _ (proj2 (consistent_one serve _ _ _) demo_update)).
  apply ConsumeChallenge_ok. eexists. split; reflexivity.
Defined.

(** A replay: the UPDATE matches nothing and the SELECT says why. *)
Lemma classifyFailure_accurate_witness :
  verdict_true "n1" (101 * Second) demo_spent ErrChallengeConsumed.
Proof.
  refine (classifyFailure_accurate demo_spent demo_spent demo_spent demo_spent "n1" (101 * Second)
            (Ok None) (Ok (Some (Some (100 * Second), 310 * Second))) []
            (reason ErrChallengeConsumed) ErrChallengeConsumed _ _ _ _ _ _).
  - apply serve_reply. vm_compute. reflexivity.
  - apply consistent_nil.
  - apply Forall_nil_2.
  - apply serve_reply. vm_compute. reflexivity.
  - exists (Ok None), [Ev (S := SQL) (SELECT_inspect "n1") (Ok (Some (Some (100 * Second), 310 * Second)))].
    split; [reflexivity|]. eexists _, []. split; [reflexivity|]. split; reflexivity.
  - reflexivity.
Defined.

Lemma sweep_keeps_consumable_witness :
  let swept :=
    (interp (S := SQL) (serve_all demo_driver) (DeleteExpiredChallenges (50 * Second)) demo_live).2 in
  (interp (S := SQL) (serve_all demo_driver) (ConsumeChallenge "n1" (100 * Second)) swept).1 =
    Ok demo_out ↔
  (interp (S := SQL) (serve_all demo_driver) (ConsumeChallenge "n1" (100 * Second)) demo_live).1 =
    Ok demo_out.
Proof. apply sweep_keeps_consumable. vm_compute. discriminate. Defined.

Lemma recorded_then_consumed_witness :
  (interp (S := SQL) (serve_all demo_driver) (ConsumeChallenge "n1" (100 * Second))
     (exec (DELETE_expired (50 * Second)) demo_live).2).1 = Ok demo_out.
Proof.
  refine (recorded_then_consumed demo_driver
            (MkChallengeRecord "n1" "GA" "home" "wallet" (10 * Second) (310 * Second))
            (100 * Second) migrated demo_live
            [Ev (S := SQL) (DELETE_expired (50 * Second)) (Ok 0)] _ _ _ _ _).
  - vm_compute. reflexivity.
  - apply consistent_one, serve_reply. vm_compute. reflexivity.
  - apply Forall_singleton. split; [exact I|]. vm_compute. discriminate.
  - vm_compute. discriminate.
Defined.

(** A row of the first schema, without a client domain: before the migration
    consuming it spends it and returns nothing. *)
Definition legacy_row : challenge_row :=
  ChallengeRow "GA" "home" None (10 * Second) (310 * Second) None.
Definition legacy : db := Db NullableText {[ "n1"%string := legacy_row ]} ∅.

Lemma legacy_row_is_lost :
  is_ok (interp (S := SQL) (serve_all demo_driver) (ConsumeChallenge "n1" (100 * Second)) legacy).1
    = false ∧
  live "n1" (interp (S := SQL) (serve_all demo_driver) (ConsumeChallenge "n1" (100 * Second)) legacy).2
    = false.
Proof. vm_compute. split; reflexivity. Qed.

Lemma migrated_rows_scan_witness :
  ∃ out, scan_consumed ("GA", "home", Some "")%string = Ok out.
Proof.
  refine (migrated_rows_scan legacy (default legacy (migration_2_up legacy))
            [Ev (S := SQL) (UPDATE_consume "n1" (100 * Second)) (Ok (Some ("GA", "home", Some "")%string))]
            (exec (UPDATE_consume "n1" (100 * Second)) (default legacy (migration_2_up legacy))).2
            "n1" (100 * Second) _ _ _ _).
  - reflexivity.
  - apply consistent_one, serve_reply. vm_compute. reflexivity.
  - apply list_elem_of_here.
Defined.
