(* ===== verification/StoreAdmin.v ===== *)
(** * The life of the store (internal/store/store.go, internal/store/postgres.go)

    Opening and pinging the pool, applying the migrations, and the cleanup loop
    that sweeps expired challenges until its context is cancelled. *)

From S2P Require Import Prelude GoStd Errors Effects Interleaving Schema Store.
Open Scope Z_scope.

(** ** net/url, as far as [migrationURL] uses it *)

Class URLs := {
  URL : Type;
  Parse : string → result error URL;
  Scheme : URL → string;
  with_Scheme : string → URL → URL;
  URL_String : URL → string;
}.

(** [parsed.Scheme = s; ... parsed.Scheme] reads what was assigned. *)
Class URLLaws (U : URLs) := Scheme_with_Scheme s u : Scheme (with_Scheme s u) = s.

Section migration_url.
Context {U : URLs}.

Definition migrationURL (databaseURL : string) : result error string :=
  match Parse databaseURL with
  | Err _ => Err (New "database url is not a valid URL")
  | Ok parsed =>
      if (Scheme parsed =s "postgres") || (Scheme parsed =s "postgresql") then
        Ok (URL_String (with_Scheme "pgx5" parsed))
      else if Scheme parsed =s "pgx5" then Ok (URL_String parsed)
      else Err (Errorf "database url scheme %q is not supported; use postgres://"
                  [Str (Scheme parsed)] [])
  end.

(** What an error of [migrationURL] may say of the connection string. *)
Definition scheme_of (databaseURL : string) : option string :=
  match Parse databaseURL with Ok u => Some (Scheme u) | Err _ => None end.
End migration_url.

(** ** The operations of the pool, the migrator and the cleanup loop *)

Inductive migrate_error : Type := ErrNoChange | MigrateFailed (e : error).

Inductive admin_op : Type :=
| NewPool (databaseURL : string)
| PingPool
| ClosePool
| NewIofs
| NewMigrate (dsn : string)
| MigrateUp
| MigrateClose
| AwaitTick          (* select: [true] for the ticker, [false] for ctx.Done() *)
| StopTicker
| NowUTC
| CtxErr             (* ctx.Err() != nil *)
| Statement (s : stmt)
| LogError (msg : string) (e : error)
| LogInfo (msg : string) (count : Z).

Definition admin_res (o : admin_op) : Type :=
  match o with
  | NewPool _ | PingPool | NewIofs | NewMigrate _ => result error unit
  | MigrateUp => result migrate_error unit
  | ClosePool | MigrateClose | StopTicker | LogError _ _ | LogInfo _ _ => unit
  | AwaitTick | CtxErr => bool
  | NowUTC => Z
  | Statement s => result error (answer s)
  end.

Definition Admin : sig := Sig admin_op admin_res.

#[global] Instance sql_in_admin : Embed SQL Admin :=
  { embed_op := Statement; embed_res := λ _ x, x }.

(** [Postgres], by the connection string it keeps; the pool is the world's. *)
Record Postgres : Type := MkPostgres { databaseURL : string }.

Definition Open (databaseURL : string) : prog Admin (result error Postgres) :=
  do r <- perform (S := Admin) (NewPool databaseURL) ;;
  match r with
  | Err _ => Ret (Err (New "connecting to the database failed"))
  | Ok _ =>
      do r <- perform (S := Admin) PingPool ;;
      match r with
      | Err err =>
          do _ <- perform (S := Admin) ClosePool ;;
          Ret (Err (Errorf "database ping failed: %w" [] [err]))
      | Ok _ => Ret (Ok (MkPostgres databaseURL))
      end
  end.

Definition Close : prog Admin unit := perform (S := Admin) ClosePool.

(** [Postgres.Ping], over the pool's own ping. *)
Definition Ping_with {S} (ping : prog S (result error unit)) : prog S (result error unit) :=
  do r <- ping ;;
  Ret (map_err (λ err, Errorf "database ping failed: %w" [] [err]) r).

Definition Ping : prog Admin (result error unit) := Ping_with (perform (S := Admin) PingPool).

Section admin.
Context {U : URLs}.

Definition Migrate (p : Postgres) : prog Admin (result error unit) :=
  do r <- perform (S := Admin) NewIofs ;;
  match r with
  | Err err => Ret (Err (Errorf "reading embedded migrations: %w" [] [err]))
  | Ok _ =>
      match migrationURL (databaseURL p) with
      | Err err => Ret (Err err)
      | Ok dsn =>
          do r <- perform (S := Admin) (NewMigrate dsn) ;;
          match r with
          | Err _ => Ret (Err (New "preparing migrations failed"))
          | Ok _ =>
              do r <- perform (S := Admin) MigrateUp ;;
              do _ <- perform (S := Admin) MigrateClose ;;
              Ret match r with
                  | Ok _ | Err ErrNoChange => Ok tt
                  | Err (MigrateFailed err) =>
                      Err (Errorf "applying migrations: %w" [] [err])
                  end
          end
      end
  end.
End admin.

(** One case of the select of the cleanup loop, after a tick: [true] to loop. *)
Definition sweep_once : prog Admin bool :=
  do now <- perform (S := Admin) NowUTC ;;
  do r <- embed (DeleteExpiredChallenges now) ;;
  match r with
  | Err err =>
      do cancelled <- perform (S := Admin) CtxErr ;;
      if cancelled : bool then Ret false
      else do _ <- perform (S := Admin) (LogError "challenge cleanup failed" err) ;; Ret true
  | Ok deleted =>
      if 0 <? deleted then
        do _ <- perform (S := Admin) (LogInfo "deleted expired challenges" deleted) ;; Ret true
      else Ret true
  end.

(** [for { select ... }], for at most [n] rounds; the ticker is stopped when the
    loop returns.  [None]: the loop is still running after [n] rounds. *)
Fixpoint CleanupExpiredChallenges (n : nat) : prog Admin (option unit) :=
  match n with
  | O => Ret None
  | Datatypes.S n =>
      do tick <- perform (S := Admin) AwaitTick ;;
      if tick : bool then
        do continue <- sweep_once ;;
        if continue : bool then CleanupExpiredChallenges n
        else do _ <- perform (S := Admin) StopTicker ;; Ret (Some tt)
      else do _ <- perform (S := Admin) StopTicker ;; Ret (Some tt)
  end.

(** ** What the loop did *)

(** The answers that tell the loop its context is cancelled. *)
Definition cancels (ev : event Admin) : bool :=
  match ev with
  | Ev o x =>
      match o return admin_res o → bool with
      | AwaitTick => λ tick, negb tick
      | CtxErr => λ cancelled, cancelled
      | _ => λ _, false
      end x
  end.

Definition is_await (o : admin_op) : bool :=
  match o with AwaitTick => true | _ => false end.

(** Every statement sweeps up to a time the clock showed just before it. *)
Fixpoint sweeps_at_clock (clock : option Z) (tr : list (event Admin)) : Prop :=
  match tr with
  | [] => True
  | Ev o x :: tr =>
      match o return admin_res o → Prop with
      | NowUTC => λ now, sweeps_at_clock (Some now) tr
      | Statement s => λ _,
          match s with
          | DELETE_expired before => clock = Some before
          | _ => False
          end ∧ sweeps_at_clock None tr
      | _ => λ _, sweeps_at_clock None tr
      end x
  end.

(** ** Lemmas *)

Lemma runs_sweep_once tr continue :
  runs sweep_once tr continue →
  sweeps_at_clock None tr ∧ count (λ ev : event Admin, is_await (ev_op ev)) tr = 0%nat ∧
  (continue = true → count cancels tr = 0%nat) ∧
  (continue = false → ∃ pre ev, tr = pre ++ [ev] ∧ cancels ev = true ∧ count cancels pre = 0%nat).
Proof.
  intros (now & tr1 & -> & x & tr2 & -> & H). destruct x as [deleted|err]; simpl in H.
  - destruct (0 <? deleted); simpl in H.
    + destruct H as (? & ? & -> & -> & ->). by repeat split.
    + destruct H as [-> ->]. by repeat split.
  - destruct H as (cancelled & tr3 & -> & H). destruct cancelled; simpl in H.
    + destruct H as [-> ->]. split; [by repeat split|]. split; [done|]. split; [done|]. intros _.
      by eexists [_; _], _.
    + destruct H as (? & ? & -> & -> & ->). by repeat split.
Qed.

Lemma sweeps_weaken clock tr : sweeps_at_clock None tr → sweeps_at_clock clock tr.
Proof. destruct tr as [|[[] x] tr]; simpl; try done. by destruct s; intros []. Qed.

Lemma sweeps_app clock tr1 tr2 :
  sweeps_at_clock clock tr1 → sweeps_at_clock None tr2 → sweeps_at_clock clock (tr1 ++ tr2).
Proof.
  revert clock. induction tr1 as [|[[] x] tr1 IH]; intros clock H1 H2; simpl in *;
    try by auto using sweeps_weaken.
  destruct H1. by auto.
Qed.

Lemma count_app {A} (P : A → bool) l1 l2 : count P (l1 ++ l2) = (count P l1 + count P l2)%nat.
Proof. unfold count. by rewrite filter_app, length_app. Qed.

(** ** Properties *)

(** The cleanup loop sweeps and survives: every statement it runs deletes the
    challenges that expired before a time the clock showed just before; it
    ends, stopping its ticker, at the first sign that its context is cancelled,
    and for as long as there is none it goes on to the next tick whatever a
    sweep answered. (claim C36) *)
Theorem CleanupExpiredChallenges_loop n tr r :
  runs (CleanupExpiredChallenges n) tr r →
  sweeps_at_clock None tr ∧
  match r with
  | None => count cancels tr = 0%nat ∧ count (λ ev : event Admin, is_await (ev_op ev)) tr = n
  | Some _ => ∃ pre ev, tr = pre ++ [ev; Ev (S := Admin) StopTicker tt] ∧
                        cancels ev = true ∧ count cancels pre = 0%nat
  end.
Proof.
  revert tr. induction n as [|n IH]; intros tr H.
  { destruct H as [-> ->]. by repeat split. }
  destruct H as (tick & tr1 & -> & H). destruct tick; cbn -[runs pbind sweep_once] in H.
  - apply (runs_bind _ sweep_once) in H as (tr2 & tr3 & continue & -> & H1 & H2).
    apply runs_sweep_once in H1 as (Hsw & Haw & Htrue & Hfalse). destruct continue.
    + destruct (IH _ H2) as [Hsw' Hr]. split; [by apply sweeps_app|].
      specialize (Htrue eq_refl). destruct r as [[]|].
      * destruct Hr as (pre & ev & -> & Hc & Hpre).
        exists (Ev (S := Admin) AwaitTick true :: tr2 ++ pre), ev.
        split; [by simpl; rewrite <-app_assoc|]. split; [done|].
        rewrite count_cons, count_app. simpl. lia.
      * rewrite !count_cons, !count_app. simpl. lia.
    + destruct H2 as ([] & tr4 & -> & -> & ->). split; [by apply sweeps_app|].
      destruct (Hfalse eq_refl) as (pre & ev & -> & Hc & Hpre).
      exists (Ev (S := Admin) AwaitTick true :: pre), ev.
      split; [by simpl; rewrite <-app_assoc|]. split; [done|]. by rewrite count_cons.
  - destruct H as ([] & tr4 & -> & -> & ->). split; [done|].
    by exists [], (Ev (S := Admin) AwaitTick false).
Qed.

(** One sweep that fails, a clock that moved, and a cancelled context. *)
Lemma CleanupExpiredChallenges_loop_witness :
  let tr := [Ev (S := Admin) AwaitTick true; Ev (S := Admin) NowUTC 5;
             Ev (S := Admin) (Statement (DELETE_expired 5)) (Err (New "connection reset"));
             Ev (S := Admin) CtxErr false;
             Ev (S := Admin) (LogError "challenge cleanup failed"
               (Errorf "deleting expired challenges: %w" [] [New "connection reset"])) tt;
             Ev (S := Admin) AwaitTick true; Ev (S := Admin) NowUTC 9;
             Ev (S := Admin) (Statement (DELETE_expired 9)) (Ok 0);
             Ev (S := Admin) AwaitTick false; Ev (S := Admin) StopTicker tt] in
  sweeps_at_clock None tr ∧
  ∃ pre ev, tr = pre ++ [ev; Ev (S := Admin) StopTicker tt] ∧
            cancels ev = true ∧ count cancels pre = 0%nat.
Proof.
  intros tr. apply (CleanupExpiredChallenges_loop 7 tr (Some tt)).
  repeat (eexists _, _; split; [reflexivity|]). split; reflexivity.
Defined.

(** [Open] hands out a store only when the pool was made and answered a ping,
    closes the pool when the ping failed, and an error about the connection
    string says nothing of it. *)
Theorem Open_outcomes url tr r :
  runs (Open url) tr r ↔
  (∃ e, tr = [Ev (S := Admin) (NewPool url) (Err e)] ∧
        r = Err (New "connecting to the database failed")) ∨
  (∃ u e, tr = [Ev (S := Admin) (NewPool url) (Ok u); Ev (S := Admin) PingPool (Err e);
                Ev (S := Admin) ClosePool tt] ∧
          r = Err (Errorf "database ping failed: %w" [] [e])) ∨
  (∃ u v, tr = [Ev (S := Admin) (NewPool url) (Ok u); Ev (S := Admin) PingPool (Ok v)] ∧
          r = Ok (MkPostgres url)).
Proof.
  split.
  - intros (x & tr1 & -> & H). destruct x as [u|e]; simpl in H.
    + destruct H as (y & tr2 & -> & H). destruct y as [v|e]; simpl in H.
      * destruct H as [-> ->]. right; right. by exists u, v.
      * destruct H as ([] & tr3 & -> & -> & ->). right; left. by exists u, e.
    + destruct H as [-> ->]. left. by exists e.
  - intros [(e & -> & ->)|[(u & e & -> & ->)|(u & v & -> & ->)]];
      simpl; repeat (eexists _, _; split; [reflexivity|]); simpl; done || idtac.
    all: try (eexists _, _; split; [reflexivity|]; simpl; try done).
    all: try (eexists _, _; split; [reflexivity|]; simpl; try done).
Qed.

Section properties.
Context {U : URLs}.

(** An error of [migrationURL] gives away no more of the connection string, and
    of the password in it, than its scheme: strings with the same scheme, or
    without one, get the same error. *)
Theorem migrationURL_error_hides u v e :
  migrationURL u = Err e → scheme_of u = scheme_of v → migrationURL v = Err e.
Proof.
  unfold migrationURL, scheme_of. intros Hu Hs.
  destruct (Parse u) as [pu|]; destruct (Parse v) as [pv|]; try done.
  injection Hs as Hs. rewrite <-Hs. by destruct (_ || _); [|destruct (_ =s _)].
Qed.

(** The migrator is only ever given the pgx5 driver's scheme. *)
Lemma migrationURL_scheme `{!URLLaws U} u dsn :
  migrationURL u = Ok dsn → ∃ p, dsn = URL_String p ∧ Scheme p = "pgx5"%string.
Proof.
  unfold migrationURL. intros H. inv_body H; reflect_guards; subst dsn.
  - eexists. split; [done|]. by rewrite Scheme_with_Scheme.
  - by eexists.
Qed.

Lemma Migrate_ok p tr :
  runs (Migrate p) tr (Ok tt) ↔
  ∃ dsn x, migrationURL (databaseURL p) = Ok dsn ∧ (x = Ok tt ∨ x = Err ErrNoChange) ∧
    tr = [Ev (S := Admin) NewIofs (Ok tt); Ev (S := Admin) (NewMigrate dsn) (Ok tt);
          Ev (S := Admin) MigrateUp x; Ev (S := Admin) MigrateClose tt].
Proof.
  unfold Migrate. split.
  - intros (x & tr1 & -> & H). destruct x as [[]|e]; [|by destruct H].
    destruct (migrationURL (databaseURL p)) as [dsn|e]; [|by destruct H].
    destruct H as (x & tr2 & -> & H). destruct x as [[]|e]; [|by destruct H].
    destruct H as (x & tr3 & -> & [] & tr4 & -> & -> & Hx). exists dsn, x.
    split; [done|]. split; [|done]. destruct x as [[]|[]]; auto; done.
  - intros (dsn & x & Hdsn & Hx & ->). rewrite Hdsn. simpl.
    repeat (eexists _, _; split; [reflexivity|]; simpl). split; [done|].
    by destruct Hx as [-> | ->].
Qed.

(** Migrating succeeds exactly when the migrator was made for the rewritten
    connection string, applied its scripts or had none to apply, and was closed
    afterwards: running it on a current schema is no error. *)
Theorem Migrate_succeeds_exactly p tr :
  runs (Migrate p) tr (Ok tt) ↔
  ∃ dsn x, migrationURL (databaseURL p) = Ok dsn ∧ (x = Ok tt ∨ x = Err ErrNoChange) ∧
    tr = [Ev (S := Admin) NewIofs (Ok tt); Ev (S := Admin) (NewMigrate dsn) (Ok tt);
          Ev (S := Admin) MigrateUp x; Ev (S := Admin) MigrateClose tt].
Proof. exact (Migrate_ok p tr). Qed.
End properties.

(** ** A URL library to evaluate the model on: the scheme ends at the first colon *)

Fixpoint split_colon (s : string) : option (string * string) :=
  match s with
  | EmptyString => None
  | String c rest =>
      if Ascii.eqb c ":" then Some (""%string, s)
      else match split_colon rest with
           | Some (a, b) => Some (String c a, b)
           | None => None
           end
  end.

#[global] Instance demo_urls : URLs := {|
  URL := string * string;
  Parse s := or_err (New "missing protocol scheme") (split_colon s);
  Scheme := fst;
  with_Scheme s u := (s, u.2);
  URL_String u := u.1 +:+ u.2;
|}.

#[global] Instance demo_url_laws : URLLaws demo_urls.
Proof. by intros s u. Qed.

Example migrationURL_rewrites :
  migrationURL "postgres://u:secret@db/anchorage" = Ok "pgx5://u:secret@db/anchorage"%string.
Proof. reflexivity. Qed.

Lemma migrationURL_error_hides_witness :
  migrationURL "mysql://u:guess@db" =
    Err (Errorf "database url scheme %q is not supported; use postgres://" [Str "mysql"] []).
Proof. apply (migrationURL_error_hides "mysql://u:secret@db"); reflexivity. Defined.
