(* ===== verification/Token.v ===== *)
(** * Session tokens (internal/token/jwt.go)

    Minting and parsing the HS256 tokens of POST /auth.  The JWT library is a
    class with the laws it documents; a small instance of it, which the
    witnesses run, closes the file. *)

From S2P Require Import Prelude GoStd Errors SdkDemo.
Open Scope Z_scope.

(** ** Data *)

(** The fields of [jwt.RegisteredClaims] and of [Claims]; a date is an instant
    in nanoseconds, [None] when the claim is absent. *)
Record Claims : Type := MkClaims {
  cl_Issuer : string;
  cl_Subject : string;
  cl_Audience : list string;
  cl_ExpiresAt : option Z;
  cl_NotBefore : option Z;
  cl_IssuedAt : option Z;
  cl_ID : string;
  cl_ClientDomain : string;
}.

Record IssuerConfig : Type := MkIssuerConfig {
  Secret : bytes;
  iss_Issuer : string;
  iss_Lifetime : Z;
}.

Record Issuer : Type := MkIssuer { iss_cfg : IssuerConfig }.

Record Request : Type := MkRequest {
  rq_Account : string;
  rq_Memo : option Z;
  rq_ClientDomain : string;
  rq_JTI : string;
  rq_IssuedAt : Z;
}.

#[global] Instance Claims_eq_dec : EqDecision Claims.
Proof. solve_decision. Defined.

Definition minSecretLen : Z := 32.

(** ** golang-jwt

    A parser is given the key, the accepted algorithms, the issuer and the
    time; [WithExpirationRequired] is always passed. *)

Class JWT := {
  NewNumericDate : Z → Z;
  SignedString : string → Claims → bytes → result error string;
  ParseWithClaims : string → bytes → list string → string → Z → result error Claims;
  (** [errors.Is(err, jwt.ErrTokenExpired)]. *)
  is_jwt_expired : error → bool;
  (** What a token text says, and whether its signature verifies under a key. *)
  Decode : string → option (string * Claims);
  Verifies : string → bytes → bool;
}.

(** Text that JSON carries unchanged, and dates it carries exactly. *)
Definition ascii_text (s : string) : bool :=
  forallb (λ c, (Ascii.nat_of_ascii c <? 128)%nat) (String.list_ascii_of_string s).

Definition whole_seconds (d : option Z) : bool :=
  match d with
  | None => true
  | Some t => (t mod Second =? 0) && (0 <=? t) && (t / Second <? 2^53)
  end.

Definition json_safe (c : Claims) : bool :=
  ascii_text (cl_Issuer c) && ascii_text (cl_Subject c) && forallb ascii_text (cl_Audience c) &&
  ascii_text (cl_ID c) && ascii_text (cl_ClientDomain c) &&
  whole_seconds (cl_ExpiresAt c) && whole_seconds (cl_NotBefore c) && whole_seconds (cl_IssuedAt c).

(** The checks of the claims validator; an empty expected issuer is not checked. *)
Definition expired_at (now : Z) (c : Claims) : bool :=
  match cl_ExpiresAt c with Some t => negb (now <? t) | None => false end.

Definition claims_valid (iss : string) (now : Z) (c : Claims) : bool :=
  match cl_ExpiresAt c with Some t => now <? t | None => false end &&
  match cl_NotBefore c with Some t => t <=? now | None => true end &&
  ((iss =s "") || (cl_Issuer c =s iss)).

Class JWTLaws (J : JWT) := {
  NewNumericDate_seconds t : NewNumericDate t = t / Second * Second;
  (** HMAC signing of claims that marshal never fails, and what it made decodes
      to the claims and verifies under its key. *)
  HS256_signs c key : json_safe c = true → is_ok (SignedString "HS256" c key) = true;
  sign_decode alg c key raw :
    SignedString alg c key = Ok raw → json_safe c = true →
    Decode raw = Some (alg, c) ∧ Verifies raw key = true;
  (** A token is accepted when it decodes, its algorithm is one of the accepted
      ones, its signature verifies and its claims pass. *)
  parse_accepts raw key methods iss now c :
    ParseWithClaims raw key methods iss now = Ok c ↔
    ∃ alg, Decode raw = Some (alg, c) ∧ alg ∈ methods ∧ Verifies raw key = true ∧
           claims_valid iss now c = true;
  (** The errors of a token whose signature verified include [ErrTokenExpired]
      when it expired, along with those of the other checks. *)
  parse_expired raw key methods iss now e :
    ParseWithClaims raw key methods iss now = Err e →
    (is_jwt_expired e = true ↔
     ∃ alg c, Decode raw = Some (alg, c) ∧ alg ∈ methods ∧ Verifies raw key = true ∧
              expired_at now c = true);
}.

(** ** The issuer *)

Definition NewIssuer (cfg : IssuerConfig) : result error Issuer :=
  fail_if len (Secret cfg) <? minSecretLen
    with Errorf "jwt secret must be at least %d bytes" [Num minSecretLen] [] ;;
  fail_if iss_Issuer cfg =s "" with New "jwt issuer is required" ;;
  fail_if iss_Lifetime cfg <=? 0 with New "jwt lifetime must be positive" ;;
  Ok (MkIssuer cfg).

Definition Subject (account : string) (memo : option Z) : string :=
  match memo with
  | None => account
  | Some m => account +:+ ":" +:+ FormatUint m
  end.

Definition Lifetime (i : Issuer) : Z := iss_Lifetime (iss_cfg i).

Section issuer.
Context {J : JWT}.

(** The claims [Issue] signs. *)
Definition issued_claims (i : Issuer) (req : Request) : Claims :=
  MkClaims (iss_Issuer (iss_cfg i)) (Subject (rq_Account req) (rq_Memo req)) []
    (Some (NewNumericDate (Add (rq_IssuedAt req) (iss_Lifetime (iss_cfg i))))) None
    (Some (NewNumericDate (rq_IssuedAt req))) (rq_JTI req) (rq_ClientDomain req).

Definition Issue (i : Issuer) (req : Request) : result error string :=
  fail_if rq_Account req =s "" with New "account is required" ;;
  fail_if rq_JTI req =s "" with New "jti is required" ;;
  map_err (λ err, Errorf "signing token: %w" [] [err])
    (SignedString "HS256" (issued_claims i req) (Secret (iss_cfg i))).

Definition Parse (i : Issuer) (raw : string) (now : Z) : result error Claims :=
  match ParseWithClaims raw (Secret (iss_cfg i)) ["HS256"] (iss_Issuer (iss_cfg i)) now with
  | Err err =>
      if is_jwt_expired err then Err (Errorf "%w" [] [Sentinel ErrTokenExpired])
      else Err (Errorf "%w" [] [Sentinel ErrTokenInvalid])
  | Ok claims => Ok claims
  end.
End issuer.

(** ** Lemmas *)

Lemma token_NewIssuer_ok cfg i :
  NewIssuer cfg = Ok i ↔
  i = MkIssuer cfg ∧ 32 ≤ len (Secret cfg) ∧ iss_Issuer cfg ≠ ""%string ∧ 0 < iss_Lifetime cfg.
Proof.
  unfold NewIssuer. rewrite !fail_if_ok, Z.ltb_ge, Z.leb_gt, bool_decide_eq_false. unfold minSecretLen.
  naive_solver.
Qed.

(** Where the colon of a subject stands. *)
Fixpoint has_colon (s : string) : bool :=
  match s with
  | EmptyString => false
  | String c s => bool_decide (c = ":"%char) || has_colon s
  end.

Lemma colon_split a1 a2 b1 b2 :
  has_colon a1 = false → has_colon a2 = false →
  a1 +:+ String ":" b1 = a2 +:+ String ":" b2 → a1 = a2 ∧ b1 = b2.
Proof.
  revert a2. induction a1 as [|c1 a1 IH]; intros [|c2 a2] H1 H2 H;
    rewrite ?string_app_cons, ?string_app_nil_l in H; simpl in *.
  - by injection H.
  - injection H as <- _. by rewrite bool_decide_eq_true_2 in H2.
  - injection H as -> _. by rewrite bool_decide_eq_true_2 in H1.
  - apply orb_false_iff in H1 as [_ H1]. apply orb_false_iff in H2 as [_ H2].
    injection H as -> H. by destruct (IH a2 H1 H2 H) as [-> ->].
Qed.

Lemma has_colon_app a b : has_colon (a +:+ b) = has_colon a || has_colon b.
Proof.
  induction a as [|c a IH]; [done|]. rewrite string_app_cons. simpl. by rewrite IH, orb_assoc.
Qed.

Lemma truncated_whole `{!JWTLaws J} t :
  0 ≤ t → t / Second < 2^53 → whole_seconds (Some (NewNumericDate t)) = true.
Proof.
  intros H0 H1. unfold whole_seconds. rewrite NewNumericDate_seconds.
  assert (Hs : 0 < Second) by done.
  rewrite Z.mod_mul, Z.div_mul by lia. rewrite Z.eqb_refl. simpl.
  apply andb_true_iff. split; [|by apply Z.ltb_lt].
  apply Z.leb_le. apply Z.mul_nonneg_nonneg; [|lia]. by apply Z.div_pos.
Qed.

(** ** Properties *)

Section properties.
Context {J : JWT} {JL : JWTLaws J}.

(** Minting then parsing: a request with an account and a jti always gets a
    token, and that token parses back to exactly the claims of the request
    until the whole second in which its lifetime ends, from which on it is
    refused as expired, not as invalid. (claim C14) *)
Theorem Issue_then_Parse i req :
  rq_Account req ≠ ""%string → rq_JTI req ≠ ""%string → json_safe (issued_claims i req) = true →
  ∃ raw, Issue i req = Ok raw ∧
    ∀ now, Parse i raw now =
      if now <? (rq_IssuedAt req + iss_Lifetime (iss_cfg i)) / Second * Second
      then Ok (issued_claims i req)
      else Err (Errorf "%w" [] [Sentinel ErrTokenExpired]).
Proof.
  intros Ha Hj Hsafe. pose proof (HS256_signs _ (Secret (iss_cfg i)) Hsafe) as Hok.
  destruct (SignedString "HS256" (issued_claims i req) (Secret (iss_cfg i))) as [raw|] eqn:Hs; [|done].
  destruct (sign_decode _ _ _ _ Hs Hsafe) as [Hd Hv].
  exists raw. split.
  { unfold Issue. rewrite Hs. by do 2 (rewrite bool_decide_eq_false_2 by done). }
  intros now. unfold Parse.
  assert (Hexp : cl_ExpiresAt (issued_claims i req) =
    Some ((rq_IssuedAt req + iss_Lifetime (iss_cfg i)) / Second * Second))
    by (simpl; by rewrite NewNumericDate_seconds).
  destruct (ParseWithClaims raw (Secret (iss_cfg i)) ["HS256"] (iss_Issuer (iss_cfg i)) now)
    as [c|e] eqn:Hp.
  - apply parse_accepts in Hp as (alg & Hd' & _ & _ & Hval). rewrite Hd in Hd'. injection Hd' as <- <-.
    unfold claims_valid in Hval. rewrite Hexp in Hval. by destruct (now <? _).
  - pose proof (parse_expired _ _ _ _ _ _ Hp) as Hiff.
    destruct (now <? _) eqn:Hlt.
    + exfalso. assert (Hok' : ParseWithClaims raw (Secret (iss_cfg i)) ["HS256"]
        (iss_Issuer (iss_cfg i)) now = Ok (issued_claims i req)); [|congruence].
      apply parse_accepts. exists "HS256"%string. split; [done|].
      split; [apply list_elem_of_here|]. split; [done|]. unfold claims_valid.
      rewrite Hexp, Hlt. simpl. rewrite (bool_decide_eq_true_2 _ eq_refl). apply orb_true_r.
    + assert (is_jwt_expired e = true) as ->; [|done].
      apply Hiff. eexists _, _. split; [exact Hd|]. split; [apply list_elem_of_here|].
      split; [done|]. unfold expired_at. by rewrite Hexp, Hlt.
Qed.

(** A token of this issuer: HS256, verified under its secret, of its name, with an
    expiry still ahead, and not of the future. *)
Definition live_token (i : Issuer) (raw : string) (now : Z) (c : Claims) : Prop :=
  Decode raw = Some ("HS256"%string, c) ∧ Verifies raw (Secret (iss_cfg i)) = true ∧
  cl_Issuer c = iss_Issuer (iss_cfg i) ∧
  (∃ t, cl_ExpiresAt c = Some t ∧ now < t) ∧ (∀ t, cl_NotBefore c = Some t → t ≤ now).

(** An HS256 token verified under its secret, whose expiry has come. *)
Definition dead_token (i : Issuer) (raw : string) (now : Z) : Prop :=
  ∃ c t, Decode raw = Some ("HS256"%string, c) ∧ Verifies raw (Secret (iss_cfg i)) = true ∧
    cl_ExpiresAt c = Some t ∧ t ≤ now.

Lemma parse_ok_live i raw now c :
  iss_Issuer (iss_cfg i) ≠ ""%string →
  ParseWithClaims raw (Secret (iss_cfg i)) ["HS256"] (iss_Issuer (iss_cfg i)) now = Ok c ↔
  live_token i raw now c.
Proof.
  intros Hne. rewrite parse_accepts. unfold claims_valid, live_token.
  rewrite (bool_decide_eq_false_2 _ Hne). cbn [orb]. split.
  - intros (alg & Hd & ->%list_elem_of_singleton & Hv & Hval). reflect_guards.
    split; [done|]. split; [done|]. split; [done|].
    destruct (cl_ExpiresAt c) as [t|]; [|done]. split; [exists t; split; [done|by apply Z.ltb_lt]|].
    intros u Hu. rewrite Hu in *. by apply Z.leb_le.
  - intros (Hd & Hv & Hi & (t & Ht & Hlt) & Hnb). exists "HS256"%string.
    split; [done|]. split; [apply list_elem_of_here|]. split; [done|].
    rewrite Ht, (proj2 (Z.ltb_lt _ _) Hlt), Hi, bool_decide_eq_true_2 by done.
    destruct (cl_NotBefore c) as [u|]; [|done].
    by rewrite (proj2 (Z.leb_le _ _) (Hnb u eq_refl)).
Qed.

Lemma parse_expired_dead i raw now e :
  ParseWithClaims raw (Secret (iss_cfg i)) ["HS256"] (iss_Issuer (iss_cfg i)) now = Err e →
  is_jwt_expired e = true ↔ dead_token i raw now.
Proof.
  intros ->%parse_expired. unfold expired_at, dead_token. split.
  - intros (alg & c & Hd & ->%list_elem_of_singleton & Hv & He). exists c.
    destruct (cl_ExpiresAt c) as [t|]; [|done]. exists t. split_and!; try done.
    apply negb_true_iff, Z.ltb_ge in He. done.
  - intros (c & t & Hd & Hv & Ht & Hle). exists "HS256"%string, c. rewrite Ht.
    split; [done|]. split; [apply list_elem_of_here|]. split; [done|]. by apply negb_true_iff, Z.ltb_ge.
Qed.

(** What [Parse] answers, exactly: the claims of a token that is of algorithm
    HS256, verifies under this issuer's secret, names this issuer, carries an
    expiry still ahead and is not of the future; [ErrTokenExpired] for one that
    is of that algorithm, verifies and has expired, whatever else it claims; and
    [ErrTokenInvalid] for everything else. (claim C15) *)
Theorem Parse_accepts_exactly cfg i raw now :
  NewIssuer cfg = Ok i →
  (∀ c, Parse i raw now = Ok c ↔ live_token i raw now c) ∧
  (Parse i raw now = Err (Errorf "%w" [] [Sentinel ErrTokenExpired]) ↔ dead_token i raw now) ∧
  (Parse i raw now = Err (Errorf "%w" [] [Sentinel ErrTokenInvalid]) ↔
     ¬ dead_token i raw now ∧ ∀ c, ¬ live_token i raw now c).
Proof.
  intros (-> & _ & Hne & _)%token_NewIssuer_ok. change cfg with (iss_cfg (MkIssuer cfg)) in Hne.
  set (i := MkIssuer cfg) in *.
  assert (Hlive : ∀ c, live_token i raw now c ↔
    ParseWithClaims raw (Secret (iss_cfg i)) ["HS256"] (iss_Issuer (iss_cfg i)) now = Ok c)
    by (intros c; symmetry; by apply parse_ok_live).
  setoid_rewrite Hlive. unfold Parse.
  destruct (ParseWithClaims raw (Secret (iss_cfg i)) ["HS256"] (iss_Issuer (iss_cfg i)) now) as [c|e] eqn:Hp.
  - assert (Hdead : ¬ dead_token i raw now).
    { destruct (proj2 (Hlive c) eq_refl) as (Hd & _ & _ & (t & Ht & Hlt) & _).
      intros (c' & t' & Hd' & _ & Ht' & Hle). rewrite Hd in Hd'. injection Hd' as <-.
      rewrite Ht in Ht'. injection Ht' as <-. lia. }
    split; [done|]. split; [by split|]. split; [done|]. intros [_ H]. by destruct (H c).
  - pose proof (parse_expired_dead _ _ _ _ Hp) as Hiff.
    destruct (is_jwt_expired e); (split; [done|]); split.
    + split; [intros _; by apply Hiff|done].
    + split; [done|]. intros [Hd _]. by destruct Hd; apply Hiff.
    + split; [done|]. intros Hd. by apply Hiff in Hd.
    + split; [intros _|done]. split; [|done]. intros Hd. by apply Hiff in Hd.
Qed.
End properties.

(** The subject determines the account and the memo: two sessions have the same
    [sub] only when they are of the same account with the same memo. *)
Theorem Subject_injective a1 m1 a2 m2 :
  has_colon a1 = false → has_colon a2 = false →
  (∀ m, m1 = Some m → 0 ≤ m ≤ uint64_max) → (∀ m, m2 = Some m → 0 ≤ m ≤ uint64_max) →
  Subject a1 m1 = Subject a2 m2 → a1 = a2 ∧ m1 = m2.
Proof.
  intros H1 H2 Hm1 Hm2 H.
  assert (Hcolon : ∀ a b, has_colon (a +:+ ":" +:+ b) = true)
    by (intros a b; rewrite has_colon_app; simpl; apply orb_true_r).
  destruct m1 as [m1|], m2 as [m2|]; simpl in H.
  - apply colon_split in H as [-> H]; [|done|done].
    apply FormatUint_inj in H as ->; auto.
  - by rewrite <-H, Hcolon in H2.
  - by rewrite H, Hcolon in H1.
  - done.
Qed.

(** ** A JWT library to evaluate the model on

    A token is the length-prefixed list of its fields, in the clear, with the
    key in the place of the signature. *)

Module DemoJWT.

Definition date_text (d : option Z) : string :=
  match d with None => "" | Some t => Net.z_text t end.
Definition text_date (s : string) : option Z :=
  match s with EmptyString => None | _ => Some (Net.text_z s) end.

Definition encode (alg : string) (c : Claims) (key : bytes) : string :=
  Net.put [alg; cl_Issuer c; cl_Subject c; Net.put (cl_Audience c); date_text (cl_ExpiresAt c);
           date_text (cl_NotBefore c); date_text (cl_IssuedAt c); cl_ID c; cl_ClientDomain c; key].

Definition fields (raw : string) : option (string * Claims * bytes) :=
  match Net.unput raw with
  | Some [alg; iss; sub; aud; exp; nbf; iat; jti; cd; key] =>
      aud ← Net.unput aud;
      Some (alg, MkClaims iss sub aud (text_date exp) (text_date nbf) (text_date iat) jti cd, key)
  | _ => None
  end.

Definition decode (raw : string) : option (string * Claims) := fst <$> fields raw.
Definition verifies (raw : string) (key : bytes) : bool :=
  match fields raw with Some (_, k) => k =s key | None => false end.

Definition expired_error : error := New "token has invalid claims: token is expired".

Definition parse (raw : string) (key : bytes) (methods : list string) (iss : string) (now : Z) :
  result error Claims :=
  match decode raw with
  | None => Err (New "token is malformed")
  | Some (alg, c) =>
      if negb (bool_decide (alg ∈ methods)) then Err (New "signing method is invalid")
      else if negb (verifies raw key) then Err (New "token signature is invalid")
      else if expired_at now c then Err expired_error
      else if claims_valid iss now c then Ok c else Err (New "token has invalid claims")
  end.

Definition is_expired (e : error) : bool :=
  match e with New t => t =s "token has invalid claims: token is expired" | _ => false end.

Lemma text_date_text d : text_date (date_text d) = d.
Proof. destruct d as [[]|]; simpl; try done; by rewrite Net.bits_pos_bits. Qed.

Lemma fields_encode alg c key : fields (encode alg c key) = Some (alg, c, key).
Proof.
  unfold fields, encode. rewrite Net.unput_put. simpl. rewrite Net.unput_put. simpl.
  rewrite !text_date_text. by destruct c.
Qed.

#[global] Instance demo_jwt : JWT := {|
  NewNumericDate t := t / Second * Second;
  SignedString alg c key := Ok (encode alg c key);
  ParseWithClaims := parse;
  is_jwt_expired := is_expired;
  Decode := decode;
  Verifies := verifies;
|}.

Lemma not_expired iss now c : claims_valid iss now c = true → expired_at now c = false.
Proof.
  unfold claims_valid, expired_at. destruct (cl_ExpiresAt c) as [t|]; [|done].
  by destruct (now <? t).
Qed.

#[global] Instance demo_jwt_laws : JWTLaws demo_jwt.
Proof.
  split; simpl.
  - done.
  - done.
  - intros alg c key raw [= <-] _. unfold decode, verifies. rewrite fields_encode. simpl.
    split; [done|]. by apply bool_decide_eq_true_2.
  - intros raw key methods iss now c. unfold parse. split.
    + intros H. destruct (decode raw) as [[alg c']|]; [|done].
      destruct (negb (bool_decide _)) eqn:Hm; [done|]. destruct (negb (verifies _ _)) eqn:Hv; [done|].
      destruct (expired_at now c'); [done|]. destruct (claims_valid iss now c') eqn:Hc; [|done].
      injection H as <-. reflect_guards. by exists alg.
    + intros (alg & -> & Hm & -> & Hc). rewrite bool_decide_eq_true_2 by done. simpl.
      by rewrite (not_expired _ _ _ Hc), Hc.
  - intros raw key methods iss now e. unfold parse. intros H.
    destruct (decode raw) as [[alg c]|]; [|injection H as <-; naive_solver].
    destruct (negb (bool_decide _)) eqn:Hm.
    { injection H as <-. reflect_guards. split; [done|]. naive_solver. }
    destruct (negb (verifies _ _)) eqn:Hv.
    { injection H as <-. reflect_guards. split; [done|]. naive_solver congruence. }
    reflect_guards. destruct (expired_at now c) eqn:He.
    { injection H as <-. split; [intros _|done]. by exists alg, c. }
    destruct (claims_valid iss now c) eqn:Hc; [done|]. injection H as <-.
    split; [done|]. intros (a & c' & [= <- <-] & _ & _ & ?). congruence.
Qed.

End DemoJWT.

(** ** Witnesses *)

Definition demo_issuer : Issuer :=
  MkIssuer (MkIssuerConfig "0123456789abcdef0123456789abcdef" "https://auth.example.com" (24 * Hour)).
Definition demo_request : Request :=
  MkRequest "GWALLET" (Some 1234) "wallet.example.com" "5afe" (1000 * Second + 5).

Lemma Issue_then_Parse_witness :
  ∃ raw, Issue demo_issuer demo_request = Ok raw ∧
    ∀ now, Parse demo_issuer raw now =
      if now <? (1000 * Second + 5 + 24 * Hour) / Second * Second
      then Ok (issued_claims demo_issuer demo_request)
      else Err (Errorf "%w" [] [Sentinel ErrTokenExpired]).
Proof. apply (Issue_then_Parse demo_issuer demo_request); [discriminate|discriminate|reflexivity]. Defined.

Example demo_subject : Subject "GWALLET" (Some 1234) = "GWALLET:1234"%string.
Proof. reflexivity. Qed.

(** A token whose header names another algorithm is refused. *)
Example demo_alg_refused :
  Parse demo_issuer (DemoJWT.encode "none" (issued_claims demo_issuer demo_request)
    "0123456789abcdef0123456789abcdef") (1000 * Second) =
  Err (Errorf "%w" [] [Sentinel ErrTokenInvalid]).
Proof. vm_compute. reflexivity. Qed.

Lemma Subject_injective_witness :
  "GWALLET"%string = "GWALLET"%string ∧ Some 7 = Some 7.
Proof.
  apply Subject_injective; [reflexivity|reflexivity| | |reflexivity].
  - intros m [= <-]. vm_compute. split; discriminate.
  - intros m [= <-]. vm_compute. split; discriminate.
Defined.

(** The token of the demo request before it expires and from then on, and the
    same claims under another key. *)
Lemma Parse_accepts_exactly_witness :
  let raw := DemoJWT.encode "HS256" (issued_claims demo_issuer demo_request)
               "0123456789abcdef0123456789abcdef" in
  live_token demo_issuer raw (86400 * Second) (issued_claims demo_issuer demo_request) ∧
  dead_token demo_issuer raw (87400 * Second) ∧
  ¬ dead_token demo_issuer
      (DemoJWT.encode "HS256" (issued_claims demo_issuer demo_request) "another key") (87400 * Second).
Proof.
  intros raw. assert (Hi : NewIssuer (iss_cfg demo_issuer) = Ok demo_issuer) by reflexivity.
  split; [|split].
  - destruct (Parse_accepts_exactly _ _ raw (86400 * Second) Hi) as [H _]. apply H. vm_compute. reflexivity.
  - destruct (Parse_accepts_exactly _ _ raw (87400 * Second) Hi) as (_ & H & _). apply H. vm_compute. reflexivity.
  - destruct (Parse_accepts_exactly _ _ (DemoJWT.encode "HS256" (issued_claims demo_issuer demo_request)
      "another key") (87400 * Second) Hi) as (_ & _ & H). apply H. vm_compute. reflexivity.
Defined.
