(* ===== verification/Challenge.v ===== *)
(** * Issuing challenges (internal/auth/challenge.go)

    [NewIssuer], [Issue] and [appendClientDomain].  The resolver of client
    domains and [txnbuild.BuildChallengeTx], which reads the clock and draws
    the nonce, are programs over operations of the caller's choosing. *)

From S2P Require Import Prelude GoStd Errors Effects Stellar SdkDemo Signatures ReadChallenge.
Open Scope Z_scope.

Section challenge.
Context {S : sig} `{Sd : SDK}.

(** [ClientDomainResolver], an interface of one method. *)
Definition ClientDomainResolver : Type := string → prog S (result error string).

Record IssuerConfig : Type := MkIssuerConfig {
  SigningSecret : string;
  NetworkPassphrase : string;
  WebAuthDomain : string;
  HomeDomains : list string;
  ChallengeTimeout : Z;
  ClientDomainRequired : bool;
  Resolver : option ClientDomainResolver;   (* a nil interface is [None] *)
}.

Record Issuer : Type := MkIssuer {
  cfg : IssuerConfig;
  signer : Full;
  homeSet : gset string;
  firstDom : string;
  resolver : ClientDomainResolver;          (* [cfg.Resolver], known not to be nil *)
}.

Record IssueRequest : Type := MkIssueRequest {
  ir_Account : string;
  ir_Memo : option Z;
  ir_HomeDomain : string;
  ir_ClientDomain : string;
}.

Record IssuedChallenge : Type := MkIssuedChallenge {
  TransactionXDR : string;
  ic_NetworkPassphrase : string;
  ic_Nonce : string;
  ic_Account : string;
  ic_HomeDomain : string;
  ic_ClientDomain : string;
  ic_ExpiresAt : Z;
}.

Definition NewIssuer (cfg : IssuerConfig) : result error Issuer :=
  match ParseFull (SigningSecret cfg) with
  | Err _ => Err (New "signing secret is not a valid Stellar seed")
  | Ok signer =>
      match HomeDomains cfg with
      | [] => Err (New "at least one home domain is required")
      | first :: _ =>
          fail_if ChallengeTimeout cfg <? Second
            with New "challenge timeout must be at least 1s" ;;
          match Resolver cfg with
          | None => Err (New "a client domain resolver is required")
          | Some r => Ok (MkIssuer cfg signer (list_to_set (HomeDomains cfg)) first r)
          end
      end
  end.

Definition ServerAccountID (i : Issuer) : string := full_Address (signer i).

(** [i.appendClientDomain]. *)
Definition appendClientDomain (i : Issuer) (tx : Transaction) (domain signingKey : string) :
  result error Transaction :=
  fail_if negb (IsValidEd25519PublicKey signingKey)
    with wrap ErrClientDomainRejected "%w: %s published an invalid SIGNING_KEY" [Str domain] ;;
  let operations := tx_Operations tx ++
    [OpManageData (MkManageData signingKey opClientDomain domain)] in
  let params := MkParams (MkSimpleAccount (AccountID (tx_SourceAccount tx)) 0) false operations
                  (tx_BaseFee tx) (tx_Timebounds tx) (tx_Memo tx) in
  let? rebuilt := map_err (λ e, Errorf "rebuilding challenge with client domain: %w" [] [New e])
                    (NewTransaction params) in
  map_err (λ e, Errorf "re-signing challenge: %w" [] [New e])
    (tx_Sign rebuilt (NetworkPassphrase (cfg i)) (signer i)).

(** The account and home domain checks: the home domain of the challenge. *)
Definition check_request (i : Issuer) (req : IssueRequest) : result error string :=
  let isMuxed := IsValidMuxedAccountEd25519PublicKey (ir_Account req) in
  fail_if negb isMuxed && negb (IsValidEd25519PublicKey (ir_Account req))
    with wrap ErrInvalidAccount "%w: %q is not a G... or M... address" [Str (ir_Account req)] ;;
  fail_if bool_decide (ir_Memo req ≠ None) && isMuxed
    with wrap ErrMemoWithMuxed "%w: a muxed account already identifies the user" [] ;;
  if ir_HomeDomain req =s "" then Ok (firstDom i)
  else
    fail_if negb (bool_decide (ir_HomeDomain req ∈ homeSet i))
      with wrap ErrUnknownHomeDomain "%w: %q" [Str (ir_HomeDomain req)] ;;
    Ok (ir_HomeDomain req).

(** The client domain's signing key, [""] when the request names none. *)
Definition resolve_client_domain (i : Issuer) (req : IssueRequest) : prog S (result error string) :=
  if ir_ClientDomain req <>s "" then
    do r <- resolver i (ir_ClientDomain req) ;;
    Ret match r with
        | Err err => Err (Errorf "%w: %s: %w" [Str (ir_ClientDomain req)]
                            [Sentinel ErrClientDomainRejected; err])
        | Ok key =>
            fail_if key =s ""
              with wrap ErrClientDomainRejected "%w: %s: resolver returned no signing key"
                     [Str (ir_ClientDomain req)] ;;
            Ok key
        end
  else if ClientDomainRequired (cfg i) then
    Ret (Err (wrap ErrClientDomainRequired "%w: this server requires a client_domain" []))
  else Ret (Ok "").

(** The part of [Issue] after [BuildChallengeTx].  [tx.Operations()[0]] would
    panic on a transaction without operations; [BuildChallengeTx] makes two. *)
Definition finish_issue (i : Issuer) (req : IssueRequest) (homeDomain clientDomainKey : string)
    (tx : Transaction) : result error IssuedChallenge :=
  let? tx := if clientDomainKey <>s "" then appendClientDomain i tx (ir_ClientDomain req) clientDomainKey
             else Ok tx in
  let? xdrString := map_err (λ e, Errorf "encoding challenge: %w" [] [New e]) (tx_Base64 tx) in
  match tx_Operations tx with
  | [] => Err (New "panic: runtime error: index out of range [0] with length 0")
  | OpOther _ :: _ => Err (New "built challenge has no manage_data operation")
  | OpManageData nonceOp :: _ =>
      Ok (MkIssuedChallenge xdrString (NetworkPassphrase (cfg i)) (Value nonceOp)
            (ir_Account req) homeDomain (ir_ClientDomain req)
            (fromUnix (MaxTime (tx_Timebounds tx))))
  end.

Definition build_args (i : Issuer) (req : IssueRequest) (homeDomain : string) : ChallengeArgs :=
  MkChallengeArgs (SigningSecret (cfg i)) (ir_Account req) (WebAuthDomain (cfg i)) homeDomain
    (NetworkPassphrase (cfg i)) (ChallengeTimeout (cfg i)) (ir_Memo req).

Section Issue.
Variable BuildChallengeTx : ChallengeArgs → prog S (result string Transaction).

Definition Issue (i : Issuer) (req : IssueRequest) : prog S (result error IssuedChallenge) :=
  match check_request i req with
  | Err e => Ret (Err e)
  | Ok homeDomain =>
      do? clientDomainKey <- resolve_client_domain i req ;;
      do r <- BuildChallengeTx (build_args i req homeDomain) ;;
      Ret match r with
          | Err err => Err (Errorf "building challenge: %w" [] [New err])
          | Ok tx => finish_issue i req homeDomain clientDomainKey tx
          end
  end.

(** The documented behaviour of [BuildChallengeTx]: a challenge of the arguments,
    signed by the secret's key, around a nonce of 48 random bytes in base64. *)
Definition builds_challenges : Prop :=
  ∀ args tr tx k, runs (BuildChallengeTx args) tr (Ok tx) → ParseFull (ca_serverSignerSecret args) = Ok k →
  ∃ nonce now, challenge_tx args (full_Address k) nonce now tx ∧ 0 ≤ now ∧
    String.length nonce = 64%nat ∧
    Forall (λ a, is_Some (base64_val a)) (String.list_ascii_of_string nonce).

End Issue.

(** ** Lemmas: the issuer *)

Lemma challenge_NewIssuer_ok c i :
  NewIssuer c = Ok i ↔
  cfg i = c ∧ ParseFull (SigningSecret c) = Ok (signer i) ∧ head (HomeDomains c) = Some (firstDom i) ∧
  Second ≤ ChallengeTimeout c ∧ Resolver c = Some (resolver i) ∧
  homeSet i = list_to_set (HomeDomains c).
Proof.
  unfold NewIssuer. split.
  - intros H. inv_body H; reflect_guards. by subst i.
  - intros (Hc & -> & Hh & Ht & -> & Hs). destruct (HomeDomains c) as [|d ds]; [done|].
    injection Hh as ->. destruct (Z.ltb_spec (ChallengeTimeout c) Second); [lia|].
    destruct i; simpl in *. by subst.
Qed.

Lemma check_request_ok i req hd :
  check_request i req = Ok hd ↔
  (IsValidMuxedAccountEd25519PublicKey (ir_Account req) = true ∨
   IsValidEd25519PublicKey (ir_Account req) = true) ∧
  (is_Some (ir_Memo req) → IsValidMuxedAccountEd25519PublicKey (ir_Account req) = false) ∧
  (ir_HomeDomain req = ""%string ∧ hd = firstDom i ∨
   ir_HomeDomain req ≠ ""%string ∧ hd = ir_HomeDomain req ∧ hd ∈ homeSet i).
Proof.
  unfold check_request. rewrite !fail_if_ok, !andb_false_iff, !negb_false_iff, bool_decide_eq_false.
  rewrite <-(not_eq_None_Some (ir_Memo req)).
  assert (Hm : (¬ ir_Memo req ≠ None ∨ IsValidMuxedAccountEd25519PublicKey (ir_Account req) = false) ↔
    (ir_Memo req ≠ None → IsValidMuxedAccountEd25519PublicKey (ir_Account req) = false)).
  { destruct (decide (ir_Memo req ≠ None)); tauto. }
  rewrite Hm. case_bool_decide as Hh; [naive_solver|].
  rewrite fail_if_ok, negb_false_iff, bool_decide_eq_true. naive_solver.
Qed.

(** The operation [appendClientDomain] adds, if any. *)
Definition binding_op (domain key : string) : list Operation :=
  if key =s "" then [] else [OpManageData (MkManageData key opClientDomain domain)].

(** The transaction [finish_issue] encodes: that of [BuildChallengeTx], with the
    binding operation, under a signature of the server over what it is now. *)
Definition bound_tx (i : Issuer) (domain key : string) (tx tx' : Transaction) : Prop :=
  AccountID (tx_SourceAccount tx') = AccountID (tx_SourceAccount tx) ∧
  Sequence (tx_SourceAccount tx') = 0 ∧
  tx_Timebounds tx' = tx_Timebounds tx ∧ tx_Memo tx' = tx_Memo tx ∧
  tx_Operations tx' = tx_Operations tx ++ binding_op domain key ∧
  ∃ h s, tx_Hash tx' (NetworkPassphrase (cfg i)) = Ok h ∧ tx_Signatures tx' = [s] ∧
         signed_with h (ServerAccountID i) s.

Context {L : SDKLaws Sd}.

Lemma appendClientDomain_ok i tx domain key tx' :
  key ≠ ""%string → appendClientDomain i tx domain key = Ok tx' →
  IsValidEd25519PublicKey key = true ∧ bound_tx i domain key tx tx'.
Proof.
  intros Hkey H. unfold appendClientDomain in H. apply fail_if_ok in H as [Hv H].
  apply bind_ok in H as (rebuilt & Hn & H). rewrite map_err_ok in Hn, H.
  apply negb_false_iff in Hv. split; [done|].
  apply NewTransaction_spec in Hn as (Hs & Ht & Ho & Hm & Hsig); [|done].
  apply tx_Sign_spec in H as ((Hs' & Ht' & Ho' & Hm' & _) & h & s & Hh & Hsig' & Hw).
  simpl in *. unfold bound_tx, binding_op. rewrite Hs', Ht', Ho', Hm', Hs, Ht, Ho, Hm.
  rewrite bool_decide_eq_false_2 by done. rewrite Hsig in Hsig'.
  split_and!; try done. by exists h, s.
Qed.

Lemma finish_issue_ok i req hd key tx ic nonce now :
  challenge_tx (build_args i req hd) (ServerAccountID i) nonce now tx →
  finish_issue i req hd key tx = Ok ic →
  ∃ tx', tx_Base64 tx' = Ok (TransactionXDR ic) ∧ bound_tx i (ir_ClientDomain req) key tx tx' ∧
    (key ≠ ""%string → IsValidEd25519PublicKey key = true) ∧
    ic = MkIssuedChallenge (TransactionXDR ic) (NetworkPassphrase (cfg i)) nonce (ir_Account req)
           hd (ir_ClientDomain req) (fromUnix (MaxTime (tx_Timebounds tx'))).
Proof.
  intros (Hsrc & Htb & Hops & Hmemo & h & s & Hh & Hsig & Hw) H.
  unfold finish_issue in H. apply bind_ok in H as (tx' & Hb & H).
  apply bind_ok in H as (x & Hx & H). rewrite map_err_ok in Hx.
  assert (Hbound : bound_tx i (ir_ClientDomain req) key tx tx' ∧
                   (key ≠ ""%string → IsValidEd25519PublicKey key = true)).
  { case_bool_decide as Hk; simpl in Hb.
    - injection Hb as <-. split; [|done]. unfold bound_tx, binding_op.
      rewrite bool_decide_eq_true_2, app_nil_r, Hsrc by done. split_and!; try done.
      by exists h, s.
    - by apply appendClientDomain_ok in Hb as [? ?]. }
  destruct Hbound as [Hbound Hkey]. exists tx'.
  pose proof Hbound as (_ & _ & _ & _ & Ho & _). rewrite Ho, Hops in H. simpl in H.
  injection H as <-. by rewrite Hx.
Qed.

(** What is issued is for the request, around the nonce of the first operation. *)
Lemma finish_issue_fields i req hd key tx ic :
  finish_issue i req hd key tx = Ok ic →
  ic_Account ic = ir_Account req ∧ ic_ClientDomain ic = ir_ClientDomain req ∧
  match tx_Operations tx with
  | OpManageData op :: _ => Value op = ic_Nonce ic
  | OpOther _ :: _ => False
  | [] => True
  end.
Proof.
  unfold finish_issue. intros H. apply bind_ok in H as (tx' & Hb & H).
  apply bind_ok in H as (x & _ & H).
  assert (Hops : ∃ more, tx_Operations tx' = tx_Operations tx ++ more).
  { case_bool_decide as Hk; simpl in Hb.
    - injection Hb as <-. exists []. by rewrite app_nil_r.
    - apply appendClientDomain_ok in Hb as (_ & _ & _ & _ & _ & Ho & _); [|done]. by eexists. }
  destruct Hops as [more Ho]. rewrite Ho in H.
  destruct (tx_Operations tx) as [|[op|src] ops]; simpl in H; [|by injection H as <-|done].
  destruct more as [|[op|src] more]; [done|by injection H as <-|done].
Qed.

(** What a run of [Issue] that succeeds did. *)
Lemma Issue_ok Build i req tr ic :
  runs (Issue Build i req) tr (Ok ic) →
  ∃ hd key tx tr1 tr2, tr = tr1 ++ tr2 ∧ check_request i req = Ok hd ∧
    runs (resolve_client_domain i req) tr1 (Ok key) ∧
    runs (Build (build_args i req hd)) tr2 (Ok tx) ∧
    finish_issue i req hd key tx = Ok ic.
Proof.
  unfold Issue. destruct (check_request i req) as [hd|] eqn:Hc; [|by intros [_ ?]].
  rewrite runs_bind_result. intros [(e & _ & [=])|(tr1 & tr2 & key & -> & H1 & H2)].
  apply runs_bind in H2 as (tr3 & tr4 & r & -> & H2 & -> & H3).
  destruct r as [tx|]; [|done]. rewrite app_nil_r. by exists hd, key, tx, tr1, tr3.
Qed.

(** The key of a request, and where it came from. *)
Lemma resolve_client_domain_ok i req tr key :
  runs (resolve_client_domain i req) tr (Ok key) →
  (ir_ClientDomain req = ""%string ∧ key = ""%string ∧ tr = [] ∧
     ClientDomainRequired (cfg i) = false) ∨
  (ir_ClientDomain req ≠ ""%string ∧ key ≠ ""%string ∧
     runs (resolver i (ir_ClientDomain req)) tr (Ok key)).
Proof.
  unfold resolve_client_domain. case_bool_decide as Hd; simpl.
  - destruct (ClientDomainRequired (cfg i)); [by intros [_ ?]|]. intros [-> [= ->]]. by left.
  - rewrite runs_bind. intros (tr1 & tr2 & r & -> & H1 & -> & H2). right.
    rewrite app_nil_r. destruct r as [k|]; [|done]. symmetry in H2.
    apply fail_if_ok in H2 as [Hk [= ->]]. reflect_guards. done.
Qed.

(** The envelope of an issued challenge, and what its first operation says. *)
Lemma bound_tx_front i c req hd key tx tx' nonce now0 now :
  NewIssuer c = Ok i → check_request i req = Ok hd →
  challenge_tx (build_args i req hd) (ServerAccountID i) nonce now0 tx → 0 ≤ now0 →
  bound_tx i (ir_ClientDomain req) key tx tx' →
  0 ≤ Unix now < 2^62 →
  MinTime (tx_Timebounds tx') - 300 ≤ Unix now ≤ MaxTime (tx_Timebounds tx') →
  envelope_ok (ServerAccountID i) tx' ∧ in_window now tx' ∧ hd ∈ HomeDomains c ∧
  ir_Account req ≠ ""%string ∧ tx_Memo tx' = MemoID <$> ir_Memo req ∧
  tx_Operations tx' =
    OpManageData (MkManageData (ir_Account req) (hd +:+ " auth") nonce) ::
    OpManageData (MkManageData (ServerAccountID i) "web_auth_domain" (WebAuthDomain c)) ::
    binding_op (ir_ClientDomain req) key.
Proof.
  intros Hi Hchk Htx Hnow0 Hb Hnow Hwin.
  apply challenge_NewIssuer_ok in Hi as (Hcfg & Hp & Hfirst & Htimeout & _ & Hset).
  apply check_request_ok in Hchk as (Hacct & _ & Hhd).
  destruct Htx as (Hsrc & Htb & Hops & Hmemo & _).
  destruct Hb as (Hid & Hseq & Htb' & Hmemo' & Hops' & _).
  split_and!.
  - split; [|split; [apply full_Address_valid|]].
    + rewrite Hsrc in Hid. simpl in Hid. destruct (tx_SourceAccount tx') as [a q]. simpl in *. by subst.
    + rewrite TimeoutInfinite_zero, Htb', Htb. simpl. rewrite Hcfg. unfold Unix, Second in *.
      assert (1 ≤ (now0 + ChallengeTimeout c) / 1000000000); [|lia].
      apply Z.div_le_lower_bound; lia.
  - unfold in_window. rewrite int64_id by lia. lia.
  - destruct Hhd as [[_ ->]|(_ & _ & Hin)].
    + destruct (HomeDomains c) as [|d ds]; [done|]. injection Hfirst as ->. apply list_elem_of_here.
    + rewrite Hset in Hin. by apply elem_of_list_to_set in Hin.
  - intros Ha. rewrite Ha in Hacct. destruct Hacct as [Ha'|Ha'].
    + by rewrite muxed_not_empty in Ha'.
    + by rewrite ed25519_not_empty in Ha'.
  - by rewrite Hmemo', Hmemo.
  - rewrite Hops', Hops. simpl. by rewrite Hcfg.
Qed.

(** The transaction of an issued challenge is well formed for the reader. *)
Lemma bound_tx_well_formed i c req hd key tx tx' nonce now0 now :
  NewIssuer c = Ok i → check_request i req = Ok hd → hd ≠ ""%string →
  challenge_tx (build_args i req hd) (ServerAccountID i) nonce now0 tx → 0 ≤ now0 →
  String.length nonce = 64%nat →
  Forall (λ a, is_Some (base64_val a)) (String.list_ascii_of_string nonce) →
  bound_tx i (ir_ClientDomain req) key tx tx' →
  (key = ""%string ∧ ir_ClientDomain req = ""%string ∨
   IsValidEd25519PublicKey key = true ∧ key ≠ ServerAccountID i ∧ ir_ClientDomain req ≠ ""%string) →
  0 ≤ Unix now < 2^62 →
  MinTime (tx_Timebounds tx') - 300 ≤ Unix now ≤ MaxTime (tx_Timebounds tx') →
  WellFormed (ServerAccountID i) (NetworkPassphrase c) (WebAuthDomain c) (HomeDomains c) now
    (MkChallenge tx' (ir_Account req) hd (ir_Memo req) nonce (ir_ClientDomain req) key).
Proof.
  intros Hi Hchk Hne Htx Hnow0 Hnl Hnf Hb Hkey Hnow Hwin.
  destruct (bound_tx_front _ _ _ _ _ _ _ _ _ _ Hi Hchk Htx Hnow0 Hb Hnow Hwin)
    as ((Hsrc & Hserver & Hfin) & Hw & Hin & Hacct & Hmemo & Hops).
  apply challenge_NewIssuer_ok in Hi as (Hcfg & _).
  apply check_request_ok in Hchk as (Haddr & Hmux & _).
  destruct Hb as (_ & _ & _ & _ & _ & h & s & Hh & Hsig & Hs).
  split; simpl; try done.
  - exists ([OpManageData (MkManageData (ServerAccountID i) "web_auth_domain" (WebAuthDomain c))] ++
            binding_op (ir_ClientDomain req) key).
    split; [done|].
    assert (Hne' : ServerAccountID i ≠ ""%string)
      by (intros He; by rewrite He, ed25519_not_empty in Hserver).
    unfold binding_op. destruct Hkey as [[-> ->]|(Hv & Hk & Hd)].
    + rewrite bool_decide_eq_true_2 by done. split; [|by split_and!; simpl; auto].
      by repeat constructor.
    + assert (key ≠ ""%string) as Hk' by (intros ->; by rewrite ed25519_not_empty in Hv).
      rewrite bool_decide_eq_false_2 by done.
      split; [|by split_and!; simpl; auto]. by repeat constructor.
  - rewrite <-Hcfg. exists h, O. split; [done|]. exists s. by rewrite Hsig.
Qed.

(** One that binds the client domain to the server's own key is malformed for it. *)
Lemma bound_tx_own_key i c req hd key tx tx' nonce now0 now :
  NewIssuer c = Ok i → check_request i req = Ok hd → hd ≠ ""%string →
  challenge_tx (build_args i req hd) (ServerAccountID i) nonce now0 tx → 0 ≤ now0 →
  bound_tx i (ir_ClientDomain req) key tx tx' → key = ServerAccountID i →
  0 ≤ Unix now < 2^62 →
  MinTime (tx_Timebounds tx') - 300 ≤ Unix now ≤ MaxTime (tx_Timebounds tx') →
  reading_fault (ServerAccountID i) (WebAuthDomain c) (HomeDomains c) now tx' = Some ErrChallengeMalformed.
Proof.
  intros Hi Hchk Hne Htx Hnow0 Hb -> Hnow Hwin.
  destruct (bound_tx_front _ _ _ _ _ _ _ _ _ _ Hi Hchk Htx Hnow0 Hb Hnow Hwin)
    as (He & Hw & Hin & Hacct & Hmemo & Hops).
  apply check_request_ok in Hchk as (Haddr & Hmux & _). pose proof He as (_ & Hserver & _).
  assert (Hne' : ServerAccountID i ≠ ""%string)
    by (intros Hs; by rewrite Hs, ed25519_not_empty in Hserver).
  unfold reading_fault. do 2 (rewrite decide_False by tauto). rewrite Hops. cbn [SourceAccount Name Value].
  rewrite decide_False by done. rewrite decide_False.
  2: { intros Hk. apply Hk, Exists_exists. by exists hd. }
  assert (Hd1 : negb (IsValidMuxedAccountEd25519PublicKey (ir_Account req)) &&
                negb (IsValidEd25519PublicKey (ir_Account req)) = false)
    by (destruct Haddr as [-> | ->]; [done|apply andb_false_r]).
  assert (Hd2 : IsValidMuxedAccountEd25519PublicKey (ir_Account req) && bool_decide (tx_Memo tx' ≠ None) = false).
  { rewrite Hmemo. destruct (ir_Memo req) as [m|]; [|apply andb_false_r]. by rewrite Hmux. }
  rewrite Hd1, Hd2. rewrite decide_False; [done|]. intros (_ & _ & HF & _).
  apply Forall_cons in HF as [_ HF]. unfold binding_op in HF. rewrite bool_decide_eq_false_2 in HF by done.
  apply Forall_singleton in HF as [_ HF]. by destruct HF as (_ & ? & _).
Qed.

End challenge.

(** ** Properties *)

(** The first thing wrong with a request, if anything is. *)
Definition request_fault {S} {Sd : SDK} (i : Issuer (S := S)) (req : IssueRequest) : option sentinel :=
  let isMuxed := IsValidMuxedAccountEd25519PublicKey (ir_Account req) in
  if negb isMuxed && negb (IsValidEd25519PublicKey (ir_Account req)) then Some ErrInvalidAccount
  else if isMuxed && bool_decide (ir_Memo req ≠ None) then Some ErrMemoWithMuxed
  else if bool_decide (ir_HomeDomain req ≠ "" ∧ ir_HomeDomain req ∉ homeSet i)
  then Some ErrUnknownHomeDomain
  else if (ir_ClientDomain req =s "") && ClientDomainRequired (cfg i)
  then Some ErrClientDomainRequired
  else None.

Lemma check_request_fault {S} {Sd : SDK} (i : Issuer (S := S)) req :
  match check_request i req with
  | Ok _ => request_fault i req =
      if (ir_ClientDomain req =s "") && ClientDomainRequired (cfg i)
      then Some ErrClientDomainRequired else None
  | Err e => ∃ s f args, e = wrap s f args ∧ request_fault i req = Some s
  end.
Proof.
  unfold check_request, request_fault. destruct (negb _ && negb _); [by eexists _, _, _|].
  rewrite andb_comm. destruct (_ && bool_decide (ir_Memo req ≠ None)); [by eexists _, _, _|].
  destruct (decide (ir_HomeDomain req = ""%string)) as [Hh|Hh].
  { rewrite bool_decide_eq_true_2 by done. rewrite bool_decide_eq_false_2 by tauto. done. }
  rewrite bool_decide_eq_false_2 by done.
  destruct (decide (ir_HomeDomain req ∈ homeSet i)) as [Hin|Hin].
  - rewrite bool_decide_eq_true_2 by done. simpl. by rewrite bool_decide_eq_false_2 by tauto.
  - rewrite bool_decide_eq_false_2 by done. simpl. rewrite bool_decide_eq_true_2 by done.
    by eexists _, _, _.
Qed.

(** The home domain of the challenge for a request that has no fault. *)
Definition home_domain {S} {Sd : SDK} (i : Issuer (S := S)) (req : IssueRequest) : string :=
  if ir_HomeDomain req =s "" then firstDom i else ir_HomeDomain req.

Lemma check_request_home {S} {Sd : SDK} (i : Issuer (S := S)) req hd :
  check_request i req = Ok hd → hd = home_domain i req.
Proof.
  intros H. apply check_request_ok in H as (_ & _ & [[Hh ->]|(Hh & -> & _)]); unfold home_domain.
  - by rewrite bool_decide_eq_true_2.
  - by rewrite bool_decide_eq_false_2.
Qed.

(** What [finish_issue] makes of a built transaction, by the client domain's key. *)
Definition finished {S} {Sd : SDK} (i : Issuer (S := S)) (req : IssueRequest) (key : string)
    (r : result error IssuedChallenge) : Prop :=
  if bool_decide (key ≠ "") && negb (IsValidEd25519PublicKey key) then
    ∃ e, r = Err e ∧ only_class ErrClientDomainRejected e
  else match r with
       | Ok ic => ic_Account ic = ir_Account req ∧ ic_ClientDomain ic = ir_ClientDomain req
       | Err e => foreign e
       end.

Lemma finish_issue_finished {S} {Sd : SDK} {L : SDKLaws Sd} (i : Issuer (S := S)) req hd key tx :
  finished i req key (finish_issue i req hd key tx).
Proof.
  destruct (finish_issue i req hd key tx) as [ic|e] eqn:H; unfold finished.
  - pose proof (finish_issue_fields _ _ _ _ _ _ H) as (? & ? & _).
    unfold finish_issue in H. apply bind_ok in H as (tx' & H & _).
    destruct (decide (key = ""%string)) as [->|Hk]; [done|].
    rewrite bool_decide_eq_false_2 in H by done.
    apply appendClientDomain_ok in H as [-> _]; [|done]. by rewrite andb_false_r.
  - unfold finish_issue in H. apply bind_err in H as [H|(tx' & Htx & H)].
    + case_bool_decide as Hk; [done|]. rewrite bool_decide_eq_true_2 by done. simpl in *.
      unfold appendClientDomain in H. apply fail_if_err in H as [[-> ->]|[-> H]].
      { eexists. split; [done|]. apply only_class_wrap. }
      apply bind_err in H as [H|(r & _ & H)]; apply map_err_err in H as (? & _ & ->); auto with anchorage.
    + assert (bool_decide (key ≠ ""%string) && negb (IsValidEd25519PublicKey key) = false) as ->.
      { destruct (decide (key = ""%string)) as [->|Hk]; [done|].
        rewrite bool_decide_eq_false_2 in Htx by done.
        apply appendClientDomain_ok in Htx as [-> _]; [|done]. by rewrite andb_false_r. }
      apply bind_err in H as [H|(x & _ & H)];
        [apply map_err_err in H as (? & _ & ->); auto with anchorage|].
      destruct (tx_Operations tx') as [|[]]; injection H as <- || done; auto with anchorage.
Qed.

Section properties.
Context {S : sig} {Sd : SDK} {L : SDKLaws Sd}.

(** What is issued can be read back: with home domains none of which is empty
    (as the configuration parser makes them) and a [BuildChallengeTx] that does
    what the SDK documents, every challenge [Issue] returns, the server's own
    reader accepts while it is alive, from five minutes before its
    MinTime to the expiry recorded for it, and reads in it the account, home
    domain, memo, nonce and client domain of the request and, for a client
    domain, the very key the resolver returned; with one exception: a client
    domain that publishes the server's own key, which [Issue] does not check, is
    issued a challenge that the reader refuses as malformed. (claim C7) *)
Theorem Issue_then_ReadChallenge Build (c : IssuerConfig (S := S)) i req tr ic :
  NewIssuer c = Ok i → "" ∉ HomeDomains c → builds_challenges Build →
  runs (Issue Build i req) tr (Ok ic) →
  ∃ tx key, TransactionFromXDR (TransactionXDR ic) = Ok (SimpleTx tx) ∧
    (ir_ClientDomain req = ""%string ∧ key = ""%string ∨
     ∃ tr', runs (resolver i (ir_ClientDomain req)) tr' (Ok key)) ∧
    ∀ now, 0 ≤ Unix now < 2^62 → MinTime (tx_Timebounds tx) - 300 ≤ Unix now →
      fromUnix (Unix now) ≤ ic_ExpiresAt ic →
      let r := ReadChallenge (TransactionXDR ic) (ServerAccountID i) (NetworkPassphrase c)
                 (WebAuthDomain c) (HomeDomains c) now in
      if key =s ServerAccountID i then refused ErrChallengeMalformed r
      else r = Ok (MkChallenge tx (ir_Account req) (ic_HomeDomain ic) (ir_Memo req) (ic_Nonce ic)
                     (ir_ClientDomain req) key).
Proof.
  intros Hi Hnoempty Hbuild Hrun.
  apply Issue_ok in Hrun as (hd & key & tx & tr1 & tr2 & -> & Hchk & Hres & Hb & Hfin).
  pose proof Hi as Hi'. apply challenge_NewIssuer_ok in Hi' as (Hcfg & Hp & Hfirst & _).
  destruct (Hbuild _ _ _ (signer i) Hb) as (nonce & now0 & Htx & Hnow0 & Hnl & Hnf).
  { simpl. by rewrite Hcfg. }
  destruct (finish_issue_ok _ _ _ _ _ _ _ _ Htx Hfin) as (tx' & Hx & Hbt & Hkey & Hic).
  apply TransactionFromXDR_Base64 in Hx.
  exists tx', key. split; [done|].
  apply resolve_client_domain_ok in Hres.
  split; [destruct Hres as [(? & ? & _)|(? & ? & ?)]; [by left | right; by exists tr1]|].
  assert (Hhd : hd ≠ ""%string).
  { apply check_request_ok in Hchk as (_ & _ & Hhd). intros ->.
    destruct Hhd as [[_ Hf]|[? [? _]]]; [|congruence].
    apply Hnoempty. rewrite Hf. destruct (HomeDomains c) as [|d ds]; [done|].
    injection Hfirst as ->. apply list_elem_of_here. }
  intros now Hnow Hlo Hhi. rewrite Hic in Hhi. simpl in Hhi.
  assert (Hwin : MinTime (tx_Timebounds tx') - 300 ≤ Unix now ≤ MaxTime (tx_Timebounds tx'))
    by (split; [done|]; unfold fromUnix, Second in Hhi; lia).
  cbv zeta. case_bool_decide as Hown.
  - pose proof (ReadChallenge_faults (TransactionXDR ic) (ServerAccountID i) (NetworkPassphrase c)
      (WebAuthDomain c) (HomeDomains c) now) as Hf. cbv zeta in Hf. rewrite Hx in Hf.
    by rewrite (bound_tx_own_key _ _ _ _ _ _ _ _ _ _ Hi Hchk Hhd Htx Hnow0 Hbt Hown Hnow Hwin) in Hf.
  - rewrite Hic. apply ReadChallenge_ok. split; [done|]. simpl.
    eapply bound_tx_well_formed; try done.
    destruct Hres as [(? & ? & _)|(Hd & Hk & _)]; [by left|right]. by split; [apply Hkey|].
Qed.


End properties.

(** ** The demo issuer *)

Definition pure : sig := Sig Empty_set (λ _, unit).

(** A [BuildChallengeTx] whose clock stands still and whose nonce is fixed. *)
Definition demo_build (args : ChallengeArgs) : prog pure (result string Transaction) :=
  Ret (let? k := ParseFull (ca_serverSignerSecret args) in
       tx_Sign (Demo.MkTx (MkSimpleAccount (full_Address k) 0)
           (MkTimeBounds 1000 (Unix (fromUnix 1000 + ca_timebound args)))
           [OpManageData (MkManageData (ca_clientAccountID args) (ca_homeDomain args +:+ " auth")
              Sample.nonce);
            OpManageData (MkManageData (full_Address k) "web_auth_domain" (ca_webAuthDomain args))]
           (MemoID <$> ca_memo args) 100 [] : Transaction) (ca_network args) k).

Lemma demo_builds : builds_challenges demo_build.
Proof.
  intros args tr tx k [-> Htx] Hk. rewrite Hk in Htx. cbn [result_bind] in Htx. symmetry in Htx.
  pose proof (tx_Sign_spec (SDKLaws := Demo.demo_laws) _ _ _ _ Htx)
    as ((Hs & Ht & Ho & Hm & _) & h & s & Hh & Hsig & Hw).
  exists Sample.nonce, (fromUnix 1000). split.
  - split; [exact Hs|]. split; [exact Ht|]. split; [exact Ho|]. split; [exact Hm|].
    exists h, s. split; [exact Hh|]. split; [exact Hsig|exact Hw].
  - split; [by vm_compute|]. split; [reflexivity|]. unfold Sample.nonce. rewrite String.list_ascii_of_string_of_list_ascii.
    apply Forall_replicate. by eexists.
Qed.

Definition demo_resolver (domain : string) : prog pure (result error string) :=
  Ret (if domain =s Sample.domain then Ok Sample.wallet else Err (New "client domain is not permitted")).

Definition demo_config : IssuerConfig (S := pure) :=
  MkIssuerConfig "Sserver" Sample.net Sample.web [Sample.home] (300 * Second) false (Some demo_resolver).

Definition demo_issuer : Issuer (S := pure) :=
  MkIssuer demo_config "server" {[ Sample.home ]} Sample.home demo_resolver.

Definition demo_req (home : string) : IssueRequest :=
  MkIssueRequest Sample.client (Some 7) home Sample.domain.

Lemma demo_new : NewIssuer demo_config = Ok demo_issuer.
Proof. vm_compute. reflexivity. Qed.

(** The issued challenge, encoded. *)
Definition demo_tx : Transaction :=
  Sample.signed (Sample.body true (Some (MemoID 7))) [Sample.server].
Definition demo_xdr : string := Demo.tx_text demo_tx.

Lemma demo_issue :
  runs (Issue demo_build demo_issuer (demo_req "")) []
    (Ok (MkIssuedChallenge demo_xdr Sample.net Sample.nonce Sample.client Sample.home Sample.domain
           (fromUnix 1300))).
Proof. split; reflexivity. Qed.

(** A client domain that publishes the server's own key. *)
Definition own_config : IssuerConfig (S := pure) :=
  MkIssuerConfig "Sserver" Sample.net Sample.web [Sample.home] (300 * Second) false
    (Some (λ _, Ret (Ok Sample.server))).

Definition own_issuer : Issuer (S := pure) :=
  MkIssuer own_config "server" {[ Sample.home ]} Sample.home (λ _, Ret (Ok Sample.server)).

(** [Issue] gives it a challenge that lives from 1000 to 1300. *)
Lemma own_issue :
  ∃ ic, runs (Issue demo_build own_issuer (demo_req "")) [] (Ok ic) ∧ ic_ExpiresAt ic = fromUnix 1300 ∧
    ∀ tx, TransactionFromXDR (TransactionXDR ic) = Ok (SimpleTx tx) → MinTime (tx_Timebounds tx) = 1000.
Proof.
  assert (H : match Issue demo_build own_issuer (demo_req "") with
              | Ret (Ok ic) => (ic_ExpiresAt ic =? fromUnix 1300) &&
                  match TransactionFromXDR (TransactionXDR ic) with
                  | Ok (SimpleTx tx) => MinTime (tx_Timebounds tx) =? 1000 | _ => false end
              | _ => false
              end = true) by (vm_compute; reflexivity).
  destruct (Issue demo_build own_issuer (demo_req "")) as [[ic|e]|[]]; [|discriminate].
  apply andb_true_iff in H as [H1%Z.eqb_eq H2]. exists ic. split; [by split|]. split; [exact H1|].
  intros tx Htx. rewrite Htx in H2. by apply Z.eqb_eq in H2.
Qed.

(** The challenge of the wallet's domain is read back; that of a domain that
    publishes the server's key is issued, and refused. *)
Lemma Issue_then_ReadChallenge_witness :
  (∃ tx key, TransactionFromXDR demo_xdr = Ok (SimpleTx tx) ∧
    ReadChallenge demo_xdr Sample.server Sample.net Sample.web [Sample.home] (fromUnix 1300) =
      Ok (MkChallenge tx Sample.client Sample.home (Some 7) Sample.nonce Sample.domain key)) ∧
  ∃ ic, runs (Issue demo_build own_issuer (demo_req "")) [] (Ok ic) ∧
    refused ErrChallengeMalformed
      (ReadChallenge (TransactionXDR ic) Sample.server Sample.net Sample.web [Sample.home] (fromUnix 1300)).
Proof.
  assert (Hb1 : 0 ≤ Unix (fromUnix 1300) < 2^62) by (vm_compute; split; [discriminate|reflexivity]).
  assert (Hb2 : fromUnix (Unix (fromUnix 1300)) ≤ fromUnix 1300) by (vm_compute; discriminate).
  assert (Hne : "" ∉ [Sample.home]) by (rewrite list_elem_of_singleton; discriminate).
  split.
  - destruct (Issue_then_ReadChallenge demo_build demo_config demo_issuer (demo_req "") [] _ demo_new
      Hne demo_builds demo_issue) as (tx & key & Htx & Hkey & Hread).
    exists tx, key. split; [exact Htx|].
    assert (Hlo : MinTime (tx_Timebounds tx) - 300 ≤ Unix (fromUnix 1300)).
    { assert (Hd : TransactionFromXDR demo_xdr = Ok (SimpleTx tx)) by exact Htx.
      assert (Hm : match TransactionFromXDR demo_xdr with
                   | Ok (SimpleTx t) => MinTime (tx_Timebounds t) | _ => 0 end = 1000)
        by (vm_compute; reflexivity).
      rewrite Hd in Hm. rewrite Hm. vm_compute. discriminate. }
    assert (Hk : bool_decide (key = ServerAccountID demo_issuer) = false).
    { destruct Hkey as [[Hd _]|(tr' & _ & Hr)]; [discriminate Hd|].
      injection Hr as ->. reflexivity. }
    specialize (Hread _ Hb1 Hlo Hb2). cbv zeta in Hread. rewrite Hk in Hread. exact Hread.
  - destruct own_issue as (ic & Hrun & Hexp & Hmin).
    destruct (Issue_then_ReadChallenge demo_build own_config own_issuer (demo_req "") [] ic eq_refl
      Hne demo_builds Hrun) as (tx & key & Htx & Hkey & Hread).
    exists ic. split; [exact Hrun|].
    assert (Hlo : MinTime (tx_Timebounds tx) - 300 ≤ Unix (fromUnix 1300))
      by (rewrite (Hmin tx Htx); vm_compute; discriminate).
    rewrite Hexp in Hread.
    assert (Hk : bool_decide (key = ServerAccountID own_issuer) = true).
    { destruct Hkey as [[Hd _]|(tr' & _ & Hr)]; [discriminate Hd|].
      injection Hr as ->. reflexivity. }
    specialize (Hread _ Hb1 Hlo Hb2). cbv zeta in Hread. rewrite Hk in Hread. exact Hread.
Defined.

