(* ===== verification/Http.v ===== *)
(** * HTTP requests the server makes

    The answer of an HTTP request as the sources read it: a status, a body that
    is a stream, and the redirect target, if any; [io.ReadAll] through
    [io.LimitReader]; and the operations the clients perform. *)

From S2P Require Import Prelude Errors Effects.
Open Scope Z_scope.

(** A body delivers its content, then ends or fails. *)
Record Body : Type := MkBody { body_content : bytes; body_failure : option error }.

Record Response : Type := MkResponse {
  StatusCode : Z;
  resp_Body : Body;
  Location : option (string * string);   (* the absolute URL of a redirect: scheme and rest *)
}.

Definition StatusOK : Z := 200.
Definition StatusNotFound : Z := 404.

(** The first [n] bytes. *)
Fixpoint take_bytes (n : nat) (s : bytes) : bytes :=
  match n, s with
  | O, _ | _, EmptyString => EmptyString
  | S n, String c s => String c (take_bytes n s)
  end.

(** [io.ReadAll(io.LimitReader(body, n))]: the limited reader ends after [n]
    bytes and does not look further, so a failure beyond them is not seen. *)
Definition ReadAll_limited (n : Z) (b : Body) : result error bytes :=
  if n <=? len (body_content b) then Ok (take_bytes (Z.to_nat n) (body_content b))
  else match body_failure b with
       | None => Ok (body_content b)
       | Some err => Err err
       end.

(** ** Lemmas *)

Lemma take_bytes_length n s : String.length (take_bytes n s) = Nat.min n (String.length s).
Proof.
  revert s. induction n as [|n IH]; intros [|c s]; simpl; try done. by rewrite IH.
Qed.

(** Reading through a cap one byte over the limit tells an oversized body from
    one that fits, and gives the latter whole. *)
Lemma ReadAll_capped cap b body :
  0 ≤ cap → ReadAll_limited (cap + 1) b = Ok body →
  if cap <? len body then cap < len (body_content b)
  else body = body_content b ∧ body_failure b = None ∧ len body ≤ cap.
Proof.
  intros Hcap. unfold ReadAll_limited.
  destruct (Z.leb_spec (cap + 1) (len (body_content b))) as [Hle|Hlt].
  - intros [= <-]. unfold len in *. rewrite take_bytes_length.
    rewrite Nat.min_l by lia. rewrite Z2Nat.id by lia.
    destruct (Z.ltb_spec cap (cap + 1)); lia.
  - destruct (body_failure b); [done|]. intros [= <-].
    destruct (Z.ltb_spec cap (len (body_content b))); [lia|]. split_and!; done || lia.
Qed.

Lemma ReadAll_oversized cap b :
  0 ≤ cap → cap < len (body_content b) →
  ∃ body, ReadAll_limited (cap + 1) b = Ok body ∧ cap < len body.
Proof.
  intros Hcap Hlt. unfold ReadAll_limited. rewrite (proj2 (Z.leb_le _ _)) by lia.
  eexists. split; [done|]. unfold len in *. rewrite take_bytes_length.
  rewrite Nat.min_l by lia. lia.
Qed.
