(* ===== verification/Account.v ===== *)
(** * Reading accounts from Horizon (internal/account/fetcher.go)

    The fetcher as a program over HTTP requests.  URL handling and JSON decoding
    into the SDK's account type are parameters; the composition with
    [VerifyClient] is the safety property of this file. *)

From S2P Require Import Prelude GoStd Errors Effects Stellar SdkDemo Signatures ReadChallenge.
From S2P Require Import Verify Http.
Open Scope Z_scope.

Definition maxAccountBytes : Z := 256 * 1024.
Definition defaultTimeout : Z := 10 * Second.

(** ** net/url and net/http, as far as the fetcher uses them *)

Class HorizonLib := {
  url_Parse : string → result error (string * string);      (* scheme and host *)
  JoinPath : string → string → string → result error string;
  NewRequest : string → result error string;                (* the request, by its URL *)
  (** json.Unmarshal into [hProtocol.Account], its SignerSummary and threshold. *)
  hAccount : Type;
  Unmarshal : bytes → result error hAccount;
  SignerSummary : hAccount → gmap string Z;
  hMedThreshold : hAccount → Z;
}.

(** None of those libraries returns a variable of this program. *)
Class HorizonLibLaws (H : HorizonLib) := {
  JoinPath_foreign a b c e : JoinPath a b c = Err e → foreign e;
  NewRequest_foreign u e : NewRequest u = Err e → foreign e;
  Unmarshal_foreign b e : Unmarshal b = Err e → foreign e;
  hMedThreshold_byte a : 0 ≤ hMedThreshold a < 256;
}.

Inductive fetch_op : Type :=
| Do (url accept : string)
| CloseBody.

Definition Fetch : sig :=
  Sig fetch_op (λ o, match o with Do _ _ => result error Response | CloseBody => unit end).

#[global] Instance fetch_op_eq_dec : EqDecision fetch_op.
Proof. solve_decision. Defined.
#[global] Instance Fetch_op_eq_dec : EqDecision (op Fetch) := fetch_op_eq_dec.

(** A client, by its timeout. *)
Record HTTPClient : Type := MkHTTPClient { client_Timeout : Z }.

Record Fetcher : Type := MkFetcher { baseURL : string; f_client : HTTPClient }.

Section fetcher.
Context {HL : HorizonLib}.

Definition NewFetcher (horizonURL : string) (client : option HTTPClient) : result error Fetcher :=
  match url_Parse horizonURL with
  | Err _ => Err (Errorf "horizon url is not a valid URL: %q" [Str horizonURL] [])
  | Ok (scheme, host) =>
      fail_if (scheme =s "") || (host =s "")
        with Errorf "horizon url must be absolute: %q" [Str horizonURL] [] ;;
      Ok (MkFetcher horizonURL (default (MkHTTPClient defaultTimeout) client))
  end.

(** [errors.As(err, &urlErr)]: the first [*url.Error] of the tree. *)
Fixpoint As_URLError (e : error) : option (option error) :=
  match e with
  | URLError _ cause => Some cause
  | Errorf _ _ wrapped =>
      (fix first (l : list error) : option (option error) :=
         match l with
         | [] => None
         | e :: l => match As_URLError e with Some c => Some c | None => first l end
         end) wrapped
  | Sentinel _ | New _ => None
  end.

Definition unwrapURLError (err : error) : error :=
  match As_URLError err with
  | Some (Some cause) => cause
  | _ => err
  end.

(** The part of [Account] after a 200, on the body it read. *)
Definition decode_account (b : Body) : result error Account :=
  let? body := map_err (λ err, Errorf "%w: reading body: %w" [] [Sentinel ErrAccountLookupFailed; err])
                 (ReadAll_limited (maxAccountBytes + 1) b) in
  fail_if maxAccountBytes <? len body
    with wrap ErrAccountLookupFailed "%w: response body is too large" [] ;;
  let? decoded := map_err (λ err, Errorf "%w: decoding body: %w" []
                                    [Sentinel ErrAccountLookupFailed; err]) (Unmarshal body) in
  let signers := SignerSummary decoded in
  fail_if bool_decide (size signers = 0%nat)
    with wrap ErrAccountLookupFailed "%w: horizon returned an account with no signers" [] ;;
  Ok (MkAccount signers (int32 (hMedThreshold decoded))).

(** The verdict on a response. *)
Definition read_response (accountID : string) (resp : Response) : result error Account :=
  fail_if StatusCode resp =? StatusNotFound
    with wrap ErrAccountNotFound "%w: %s" [Str accountID] ;;
  fail_if negb (StatusCode resp =? StatusOK)
    with wrap ErrAccountLookupFailed "%w: horizon returned %d" [Num (StatusCode resp)] ;;
  decode_account (resp_Body resp).

Definition FetchAccount (f : Fetcher) (accountID : string) : prog Fetch (result error Account) :=
  match JoinPath (baseURL f) "accounts" accountID with
  | Err err => Ret (Err (Errorf "%w: building url: %w" [] [Sentinel ErrAccountLookupFailed; err]))
  | Ok endpoint =>
      match NewRequest endpoint with
      | Err err =>
          Ret (Err (Errorf "%w: building request: %w" [] [Sentinel ErrAccountLookupFailed; err]))
      | Ok req =>
          do resp <- perform (S := Fetch) (Do req "application/json") ;;
          match resp with
          | Err err =>
              Ret (Err (Errorf "%w: %w" [] [Sentinel ErrAccountLookupFailed; unwrapURLError err]))
          | Ok resp =>
              let r := read_response accountID resp in
              do _ <- perform (S := Fetch) CloseBody ;;
              Ret r
          end
      end
  end.

(** ** Lemmas *)

Lemma As_URLError_Is e c s : As_URLError e = Some (Some c) → Is c s = true → Is e s = true.
Proof.
  revert e. fix IH 1. intros [s'|t|f args ws|o [c'|]]; simpl; try done.
  - induction ws as [|w ws IHw]; [done|]. intros H Hc. specialize (IH w).
    destruct (As_URLError w) as [c'|].
    + by rewrite IH.
    + rewrite IHw by done. apply orb_true_r.
  - by intros [= ->].
Qed.

Lemma unwrapURLError_foreign e : foreign e → foreign (unwrapURLError e).
Proof.
  intros He s. unfold unwrapURLError. destruct (As_URLError e) as [[c|]|] eqn:Hc; [|apply He..].
  specialize (He s). apply not_true_is_false. intros HIs.
  by rewrite (As_URLError_Is _ _ _ Hc HIs) in He.
Qed.

Context {HLL : HorizonLibLaws HL}.

(** An answer of the network whose errors are not this program's variables. *)
Definition honest (ev : event Fetch) : Prop :=
  match ev with
  | Ev o x =>
      match o return res Fetch o → Prop with
      | Do _ _ => λ x,
          match x with
          | Err e => foreign e
          | Ok resp => ∀ e, body_failure (resp_Body resp) = Some e → foreign e
          end
      | CloseBody => λ _, True
      end x
  end.

Lemma decode_account_err b e :
  (∀ e, body_failure b = Some e → foreign e) → decode_account b = Err e →
  only_class ErrAccountLookupFailed e.
Proof.
  intros Hb H. unfold decode_account in H.
  apply bind_err in H as [H|(body & _ & H)].
  { apply map_err_err in H as (e' & H & ->). apply only_class_with.
    unfold ReadAll_limited in H. destruct (_ <=? _); [done|].
    destruct (body_failure b); [|done]. injection H as ->. by apply Hb. }
  apply fail_if_err in H as [[_ ->]|[_ H]]; [apply only_class_wrap|].
  apply bind_err in H as [H|(d & _ & H)].
  { apply map_err_err in H as (e' & H & ->). by apply only_class_with, (Unmarshal_foreign _ _ H). }
  apply fail_if_err in H as [[_ ->]|[_ H]]; [apply only_class_wrap|done].
Qed.

Lemma decode_account_ok b acc :
  decode_account b = Ok acc ↔
  body_failure b = None ∧ len (body_content b) ≤ maxAccountBytes ∧
  ∃ d, Unmarshal (body_content b) = Ok d ∧ SignerSummary d ≠ ∅ ∧
       acc = MkAccount (SignerSummary d) (hMedThreshold d).
Proof.
  unfold decode_account. rewrite bind_ok. setoid_rewrite map_err_ok. split.
  - intros (body & Hr & H). apply fail_if_ok in H as [Hlen H].
    pose proof (ReadAll_capped maxAccountBytes b body ltac:(done) Hr) as Hcap.
    rewrite Hlen in Hcap. destruct Hcap as (-> & Hf & Hl). split; [done|]. split; [done|].
    apply bind_ok in H as (d & Hd & H). apply map_err_ok in Hd. apply fail_if_ok in H as [Hs H].
    exists d. split; [done|]. reflect_guards. rewrite map_size_empty_iff in Hs. split; [done|].
    injection H as <-. f_equal. apply int32_id. pose proof (hMedThreshold_byte d). lia.
  - intros (Hf & Hl & d & Hd & Hs & ->). exists (body_content b). split.
    + unfold ReadAll_limited. rewrite (proj2 (Z.leb_gt _ _)) by lia. by rewrite Hf.
    + rewrite fail_if_ok. split; [apply Z.ltb_ge; lia|]. rewrite Hd. simpl.
      rewrite bool_decide_eq_false_2 by (by rewrite map_size_empty_iff).
      do 2 f_equal. apply int32_id. pose proof (hMedThreshold_byte d). lia.
Qed.

(** What a run of the fetcher did. *)
Lemma FetchAccount_runs f id tr r :
  runs (FetchAccount f id) tr r → Forall honest tr →
  (∃ e, r = Err e ∧ only_class ErrAccountLookupFailed e ∧
        ∀ resp u a, Ev (S := Fetch) (Do u a) (Ok resp) ∉ tr) ∨
  (∃ u resp, tr = [Ev (S := Fetch) (Do u "application/json") (Ok resp); Ev (S := Fetch) CloseBody tt] ∧
             r = read_response id resp ∧
             ∀ e, body_failure (resp_Body resp) = Some e → foreign e).
Proof.
  unfold FetchAccount. destruct (JoinPath _ _ _) as [endpoint|e] eqn:Hj.
  2: { intros [-> ->] _. left. eexists. split; [done|].
       split; [by apply only_class_with, (JoinPath_foreign _ _ _ _ Hj)|]. intros *. apply not_elem_of_nil. }
  destruct (NewRequest endpoint) as [req|e] eqn:Hn.
  2: { intros [-> ->] _. left. eexists. split; [done|].
       split; [by apply only_class_with, (NewRequest_foreign _ _ Hn)|]. intros *. apply not_elem_of_nil. }
  intros (x & tr1 & -> & H) [Hh _]%Forall_cons. destruct x as [resp|e]; simpl in H.
  - destruct H as ([] & tr2 & -> & -> & ->). right. by exists req, resp.
  - destruct H as [-> ->]. left. eexists. split; [done|].
    split; [by apply only_class_with, unwrapURLError_foreign|].
    intros resp u a Hin%list_elem_of_singleton.
    apply (f_equal (λ ev : event Fetch, match ev with
      | Ev (Do _ _) x => is_ok x | _ => false end)) in Hin. done.
Qed.

End fetcher.

(** ** Properties *)

Section properties.
Context {HL : HorizonLib} {HLL : HorizonLibLaws HL}.

(** A missing account and an outage are never confused: an error of the
    fetcher is of the class [ErrAccountNotFound] and of no other exactly when
    Horizon answered 404, and of the class [ErrAccountLookupFailed] and of no
    other in every other case: transport failure, another status, a body that
    fails, is too large or does not decode, an account without signers. (claim C30) *)
Theorem FetchAccount_error_class f id tr e :
  runs (FetchAccount f id) tr (Err e) → Forall honest tr →
  let answered_404 := ∃ u resp, Ev (S := Fetch) (Do u "application/json") (Ok resp) ∈ tr ∧
                                StatusCode resp = 404 in
  (answered_404 ∧ only_class ErrAccountNotFound e) ∨
  (¬ answered_404 ∧ only_class ErrAccountLookupFailed e).
Proof.
  intros H Hh. destruct (FetchAccount_runs _ _ _ _ H Hh) as [(e' & [= <-] & He & Hno)|(u & resp & -> & Hr & Hb)].
  - right. split; [|done]. intros (u & resp & Hin & _). by apply (Hno resp u "application/json").
  - unfold read_response in Hr. symmetry in Hr.
    apply fail_if_err in Hr as [[H404 ->]|[H404 Hr]]; reflect_guards.
    { left. split; [exists u, resp; split; [apply list_elem_of_here|done]|]. apply only_class_wrap. }
    right. split.
    + intros (u' & resp' & Hin & Hs). apply elem_of_cons in Hin as [Heq|Hin].
      * apply (f_equal (λ ev : event Fetch, match ev with
          | Ev o x => match o return res Fetch o → Z with
                      | Do _ _ => λ x, match x with Ok r => StatusCode r | Err _ => 0 end
                      | CloseBody => λ _, 0 end x end)) in Heq.
        simpl in Heq. unfold StatusNotFound in H404. congruence.
      * apply list_elem_of_singleton in Hin.
        apply (f_equal (λ ev : event Fetch, match ev_op ev with CloseBody => true | _ => false end)) in Hin.
        done.
    + apply fail_if_err in Hr as [[_ ->]|[_ Hr]]; [apply only_class_wrap|].
      by eapply decode_account_err.
Qed.

(** What the fetcher accepts: a 200 whose body arrived whole and is no larger
    than 256 KiB, decoded to an account with at least one signer; it returns
    that account's signers and threshold, and closes the body. *)
Theorem FetchAccount_accepts f id tr acc :
  runs (FetchAccount f id) tr (Ok acc) → Forall honest tr →
  ∃ u resp d, tr = [Ev (S := Fetch) (Do u "application/json") (Ok resp);
                    Ev (S := Fetch) CloseBody tt] ∧
    StatusCode resp = 200 ∧ body_failure (resp_Body resp) = None ∧
    len (body_content (resp_Body resp)) ≤ 256 * 1024 ∧
    Unmarshal (body_content (resp_Body resp)) = Ok d ∧ SignerSummary d ≠ ∅ ∧
    acc = MkAccount (SignerSummary d) (hMedThreshold d).
Proof.
  intros H Hh. destruct (FetchAccount_runs _ _ _ _ H Hh) as [(e' & [=] & _)|(u & resp & -> & Hr & _)].
  unfold read_response in Hr. symmetry in Hr. apply fail_if_ok in Hr as [_ Hr].
  apply fail_if_ok in Hr as [H200 Hr]. reflect_guards.
  apply decode_account_ok in Hr as (Hf & Hl & d & Hd & Hs & ->).
  by exists u, resp, d.
Qed.

(** An outage never authenticates: when the client verifies against Horizon, it
    is on the word of a 404 that names no signers, and then only by the master
    key, or of a 200 that decoded to an account whose threshold the signers
    reach. (claim C10) *)
Theorem VerifyClient_through_Horizon {Sd : SDK} keys c net f tr found :
  ranges_over keys →
  runs (VerifyClient keys c net (FetchAccount f)) tr (Ok found) → Forall honest tr →
  ∃ base h u resp, baseAccountID (ClientAccountID c) = Ok base ∧ tx_Hash (Tx c) net = Ok h ∧
    tr = [Ev (S := Fetch) (Do u "application/json") (Ok resp); Ev (S := Fetch) CloseBody tt] ∧
    ((StatusCode resp = 404 ∧ signed_by h c [base] found) ∨
     ∃ d cands, StatusCode resp = 200 ∧ Unmarshal (body_content (resp_Body resp)) = Ok d ∧
       signed_by h c cands found ∧ (∀ s, s ∈ cands → is_Some (SignerSummary d !! s)) ∧
       hMedThreshold d ≤ accountSignerWeight found (SignerSummary d) (ClientDomainKey c)).
Proof.
  intros Hkeys H Hh. apply VerifyClient_runs in H as [(? & _ & _ & [=])|(base & account & Hb & H & Hv)].
  symmetry in Hv. destruct (FetchAccount_runs _ _ _ _ H Hh) as [(e & -> & He & _)|(u & resp & -> & -> & Hbf)].
  { unfold verify_looked_up in Hv. by rewrite (He ErrAccountNotFound) in Hv. }
  unfold read_response in Hv. destruct (StatusCode resp =? StatusNotFound) eqn:H404.
  - unfold verify_looked_up in Hv. rewrite Is_wrap_self in Hv.
    apply verifySigners_sound in Hv as (h & Hhash & Hs). exists base, h, u, resp.
    reflect_guards. split_and!; try done. by left.
  - destruct (StatusCode resp =? StatusOK) eqn:H200; cbn [negb] in Hv;
      [|unfold verify_looked_up in Hv; by rewrite Is_wrap in Hv].
    destruct (decode_account (resp_Body resp)) as [acc|e] eqn:Hd.
    + destruct (verify_looked_up_sound _ _ _ _ _ _ Hkeys Hv) as (h & cands & Hhash & Hs & Hc & Hw).
      apply decode_account_ok in Hd as (_ & _ & d & Hd & _ & ->).
      reflect_guards. exists base, h, u, resp. split_and!; try done. right. by exists d, cands.
    + pose proof (decode_account_err _ _ Hbf Hd ErrAccountNotFound) as He.
      unfold verify_looked_up in Hv. by rewrite He in Hv.
Qed.

End properties.

(** ** A demo library: the body ["alice"] is an account whose signer is Alice *)

#[global] Instance demo_horizon : HorizonLib := {|
  url_Parse u := if u =s "" then Err (New "empty url") else Ok ("https", u)%string;
  JoinPath a b c := Ok (a +:+ "/" +:+ b +:+ "/" +:+ c);
  NewRequest u := Ok u;
  hAccount := gmap string Z * Z;
  Unmarshal b := if b =s "alice" then Ok ({[ Sample.client := 1 ]}, 1)
                 else Err (New "invalid character");
  SignerSummary := fst;
  hMedThreshold a := a.2 mod 256;
|}.

#[global] Instance demo_horizon_laws : HorizonLibLaws demo_horizon.
Proof.
  split; simpl; try done.
  - intros b e. case_bool_decide; [done|]. by intros [= <-].
  - intros [m t]. simpl. apply Z.mod_pos_bound. lia.
Qed.

Definition demo_fetcher : Fetcher := MkFetcher "https://horizon" (MkHTTPClient defaultTimeout).

Abbreviation demo_get resp := [Ev (S := Fetch) (Do ("https://horizon/accounts/" +:+ Sample.client)
  "application/json") (Ok resp); Ev (S := Fetch) CloseBody tt].
Abbreviation demo_response code content := (MkResponse code (MkBody content None) None).

Lemma demo_honest code content : Forall honest (demo_get (demo_response code content)).
Proof. repeat constructor. simpl. discriminate. Qed.

Lemma FetchAccount_error_class_witness :
  let e := wrap ErrAccountNotFound "%w: %s" [Str Sample.client] in
  let tr := demo_get (demo_response 404 "") in
  let answered_404 := ∃ u resp, Ev (S := Fetch) (Do u "application/json") (Ok resp) ∈ tr ∧
                                StatusCode resp = 404 in
  (answered_404 ∧ only_class ErrAccountNotFound e) ∨
  (¬ answered_404 ∧ only_class ErrAccountLookupFailed e).
Proof.
  apply (FetchAccount_error_class demo_fetcher Sample.client); [|apply demo_honest].
  repeat (eexists _, _; split; [reflexivity|]). split; reflexivity.
Defined.

Lemma FetchAccount_accepts_witness :
  ∃ u resp d, demo_get (demo_response 200 "alice") =
      [Ev (S := Fetch) (Do u "application/json") (Ok resp); Ev (S := Fetch) CloseBody tt] ∧
    StatusCode resp = 200 ∧ body_failure (resp_Body resp) = None ∧
    len (body_content (resp_Body resp)) ≤ 256 * 1024 ∧
    Unmarshal (body_content (resp_Body resp)) = Ok d ∧ SignerSummary d ≠ ∅ ∧
    MkAccount {[ Sample.client := 1 ]} 1 = MkAccount (SignerSummary d) (hMedThreshold d).
Proof.
  apply (FetchAccount_accepts demo_fetcher Sample.client); [|apply demo_honest].
  repeat (eexists _, _; split; [reflexivity|]). split; reflexivity.
Defined.

Lemma VerifyClient_through_Horizon_witness :
  ∃ base h u resp, baseAccountID (ClientAccountID demo_challenge) = Ok base ∧
    tx_Hash (Tx demo_challenge) Sample.net = Ok h ∧
    demo_get (demo_response 404 "") =
      [Ev (S := Fetch) (Do u "application/json") (Ok resp); Ev (S := Fetch) CloseBody tt] ∧
    ((StatusCode resp = 404 ∧ signed_by h demo_challenge [base] [Sample.client; Sample.wallet]) ∨
     ∃ d cands, StatusCode resp = 200 ∧ Unmarshal (body_content (resp_Body resp)) = Ok d ∧
       signed_by h demo_challenge cands [Sample.client; Sample.wallet] ∧
       (∀ s, s ∈ cands → is_Some (SignerSummary d !! s)) ∧
       hMedThreshold d ≤ accountSignerWeight [Sample.client; Sample.wallet] (SignerSummary d)
                           (ClientDomainKey demo_challenge)).
Proof.
  apply (VerifyClient_through_Horizon demo_keys demo_challenge Sample.net demo_fetcher);
    [exact demo_keys_range| |apply demo_honest].
  apply VerifyClient_runs. right.
  exists Sample.client, (Err (wrap ErrAccountNotFound "%w: %s" [Str Sample.client])).
  split; [reflexivity|]. split.
  - repeat (eexists _, _; split; [reflexivity|]). split; reflexivity.
  - vm_compute. reflexivity.
Defined.
