(* ===== verification/ClientDomain.v ===== *)
(** * Resolving client domains (internal/clientdomain/resolver.go)

    The resolver with its allowlist, its cache shared between requests, and the
    bounded fetch of a stellar.toml through [http.Client.Do] and the redirect
    policy.  A section under the resolver's mutex is one operation. *)

From S2P Require Import Prelude GoStd Errors Effects Interleaving Stellar SdkDemo Http.
Open Scope Z_scope.

Definition maxTOMLBytes : Z := 100 * 1024.
Definition maxRedirects : Z := 3.
Definition fetchTimeout : Z := 5 * Second.
Definition maxCacheEntries : Z := 1024.

(** ** Data *)

Record cacheEntry : Type := MkCacheEntry { signingKey : string; expiresAt : Z }.
Abbreviation cache := (gmap string cacheEntry).

#[global] Instance cacheEntry_eq_dec : EqDecision cacheEntry.
Proof. solve_decision. Defined.

(** An absolute URL: scheme and rest. *)
Definition url : Type := string * string.

(** [http.Client], its redirect policy apart from the rest. *)
Record Client : Type := MkClient {
  c_Timeout : Z;
  CheckRedirect : option (url → nat → option error);   (* request URL, number of requests made *)
}.

Record ResolverConfig : Type := MkResolverConfig {
  Allowlist : list string;
  CacheTTL : Z;
  rc_Client : option Client;
}.

(** [Resolver]; the cache it guards is the state of the world. *)
Record Resolver : Type := MkResolver {
  allowlist : gset string;
  ttl : Z;
  r_client : Client;
  urlFor : string → string;
}.

Inductive resolver_op : Type :=
| Cached (domain : string)              (* the body of [cached], under the mutex *)
| Store (domain key : string)           (* the body of [store], under the mutex *)
| RoundTrip (u : url)                   (* one request of the HTTP client *)
| CloseBody.

Definition resolver_res (o : resolver_op) : Type :=
  match o with
  | Cached _ => option string
  | Store _ _ => unit
  | RoundTrip _ => result error Response
  | CloseBody => unit
  end.

Definition RSig : sig := Sig resolver_op resolver_res.

#[global] Instance resolver_op_eq_dec : EqDecision resolver_op.
Proof. solve_decision. Defined.
#[global] Instance RSig_op_eq_dec : EqDecision (op RSig) := resolver_op_eq_dec.

(** ** Construction *)

Definition defaultURL (domain : string) : string :=
  "https://" +:+ domain +:+ "/.well-known/stellar.toml".

(** [len(via)] is the number of requests already made, at least one. *)
Definition checkRedirect (req : url) (via : nat) : option error :=
  if maxRedirects <=? Z.of_nat via then
    Some (Errorf "stopped after %d redirects" [Num maxRedirects] [])
  else if req.1 <>s "https" then
    Some (Errorf "refusing redirect to non-https scheme %q" [Str req.1] [])
  else None.

(** The caller's client is copied before the policy is set. *)
Definition NewResolver (cfg : ResolverConfig) : Resolver :=
  let client := default (MkClient fetchTimeout None) (rc_Client cfg) in
  let policed := MkClient (c_Timeout client) (Some checkRedirect) in
  MkResolver (list_to_set (Allowlist cfg)) (CacheTTL cfg) policed defaultURL.

(** ** The cache *)

Definition entry_live (now : Z) (kv : string * cacheEntry) : Prop :=
  Before now (expiresAt kv.2) = true.

#[global] Instance entry_live_dec now kv : Decision (entry_live now kv).
Proof. unfold entry_live. apply _. Defined.

Definition store_at (ttl now : Z) (domain key : string) (c : cache) : cache :=
  let c := filter (entry_live now) c in
  if maxCacheEntries <=? Z.of_nat (size c) then c
  else <[domain := MkCacheEntry key (Add now ttl)]> c.

Definition cached_at (now : Z) (domain : string) (c : cache) : option string :=
  match c !! domain with
  | None => None
  | Some entry => if negb (Before now (expiresAt entry)) then None else Some (signingKey entry)
  end.

(** The cache answers at a time of its own; the network answers anything. *)
Inductive rstep (r : Resolver) : cache → event RSig → cache → Prop :=
| rstep_cached c now domain :
    rstep r c (Ev (S := RSig) (Cached domain) (cached_at now domain c)) c
| rstep_store c now domain key :
    rstep r c (Ev (S := RSig) (Store domain key) tt) (store_at (ttl r) now domain key c)
| rstep_net c u x : rstep r c (Ev (S := RSig) (RoundTrip u) x) c
| rstep_close c : rstep r c (Ev (S := RSig) CloseBody tt) c.

(** ** The HTTP client *)

Definition is_redirect (code : Z) : bool :=
  bool_decide (code ∈ [301; 302; 303; 307; 308]).

(** [client.Do] on a GET: follow redirects while the policy allows.  [via] is
    the number of requests made; a redirect without a Location is the answer. *)
Fixpoint client_Do (fuel : nat) (c : Client) (req : url) (via : nat) :
  prog RSig (result error Response) :=
  match fuel with
  | O => Ret (Err (URLError "Get" (Some (New "stopped after 10 redirects"))))
  | S fuel =>
      do r <- perform (S := RSig) (RoundTrip req) ;;
      match r with
      | Err err => Ret (Err (URLError "Get" (Some err)))
      | Ok resp =>
          match is_redirect (StatusCode resp), Location resp with
          | true, Some next =>
              do _ <- perform (S := RSig) CloseBody ;;
              match CheckRedirect c with
              | Some check =>
                  match check next (S via) with
                  | Some err => Ret (Err (URLError "Get" (Some err)))
                  | None => client_Do fuel c next (S via)
                  end
              | None => client_Do fuel c next (S via)
              end
          | _, _ => Ret (Ok resp)
          end
      end
  end.

(** Without a policy net/http gives up after ten requests. *)
Definition default_requests : nat := 10.

(** ** The resolver *)

Class TomlLib := {
  NewRequest : string → result error url;
  toml_Decode : bytes → result error string;     (* the SIGNING_KEY, or "" *)
}.

Class TomlLaws (T : TomlLib) := {
  NewRequest_https rest u : NewRequest ("https://" +:+ rest) = Ok u → u.1 = "https"%string;
}.

Section resolver.
Context {TL : TomlLib} {Sd : SDK}.

(** What [fetch] makes of the response. *)
Definition read_toml (domain : string) (resp : Response) : result error string :=
  fail_if negb (StatusCode resp =? StatusOK)
    with Errorf "%s: stellar.toml returned %d" [Str domain; Num (StatusCode resp)] [] ;;
  let? body := map_err (λ _, Errorf "%s: reading stellar.toml failed" [Str domain] [])
                 (ReadAll_limited (maxTOMLBytes + 1) (resp_Body resp)) in
  fail_if maxTOMLBytes <? len body
    with Errorf "%s: stellar.toml is too large" [Str domain] [] ;;
  let? key := map_err (λ _, Errorf "%s: stellar.toml is not valid TOML" [Str domain] [])
                (toml_Decode body) in
  fail_if key =s "" with Errorf "%s: stellar.toml has no SIGNING_KEY" [Str domain] [] ;;
  fail_if negb (IsValidEd25519PublicKey key)
    with Errorf "%s: SIGNING_KEY is not a valid G... address" [Str domain] [] ;;
  Ok key.

Definition fetch (r : Resolver) (domain : string) : prog RSig (result error string) :=
  let endpoint := urlFor r domain in
  match NewRequest endpoint with
  | Err err => Ret (Err (Errorf "%s: building request: %w" [Str domain] [err]))
  | Ok req =>
      do resp <- client_Do default_requests (r_client r) req 0 ;;
      match resp with
      | Err _ => Ret (Err (Errorf "%s: fetching stellar.toml failed" [Str domain] []))
      | Ok resp =>
          let key := read_toml domain resp in
          do _ <- perform (S := RSig) CloseBody ;;
          Ret key
      end
  end.

Definition Resolve (r : Resolver) (domain : string) : prog RSig (result error string) :=
  if domain =s "" then Ret (Err (New "client domain is empty"))
  else if negb (bool_decide (size (allowlist r) = 0%nat)) && negb (bool_decide (domain ∈ allowlist r))
  then Ret (Err (Errorf "%s is not on the allowlist" [Str domain] []))
  else
    do hit <- perform (S := RSig) (Cached domain) ;;
    match hit with
    | Some key => Ret (Ok key)
    | None =>
        do? key <- fetch r domain ;;
        do _ <- perform (S := RSig) (Store domain key) ;;
        Ret (Ok key)
    end.
End resolver.

(** ** Lemmas: the redirect policy *)

Definition is_round_trip (o : resolver_op) : bool :=
  match o with RoundTrip _ => true | _ => false end.

Definition https_only (o : resolver_op) : Prop :=
  match o with RoundTrip u => u.1 = "https"%string | _ => True end.

Definition policed (t : Z) : Client := MkClient t (Some checkRedirect).

Lemma checkRedirect_none u via :
  checkRedirect u via = None ↔ Z.of_nat via < 3 ∧ u.1 = "https"%string.
Proof.
  unfold checkRedirect, maxRedirects. destruct (Z.leb_spec 3 (Z.of_nat via)); [naive_solver lia|].
  case_bool_decide; simpl; naive_solver.
Qed.

Lemma client_Do_round_trips fuel t req via :
  (via < 3)%nat → max_ops (S := RSig) is_round_trip (3 - via) (client_Do fuel (policed t) req via).
Proof.
  revert req via. induction fuel as [|fuel IH]; intros req via Hvia; [done|].
  replace (3 - via)%nat with (Datatypes.S (2 - via)) by lia. simpl. intros [resp|]; [|done]. simpl.
  destruct (is_redirect _); [|done]. destruct (Location resp) as [next|]; [|done]. simpl. intros _.
  destruct (checkRedirect next (Datatypes.S via)) eqn:Hc; [done|].
  apply checkRedirect_none in Hc as [Hc _].
  replace (2 - via)%nat with (3 - Datatypes.S via)%nat by lia. apply IH. lia.
Qed.

Lemma client_Do_https fuel t req via :
  req.1 = "https"%string → all_ops (S := RSig) https_only (client_Do fuel (policed t) req via).
Proof.
  revert req via. induction fuel as [|fuel IH]; intros req via Hreq; [done|]. simpl.
  split; [done|]. intros [resp|]; [|done]. simpl.
  destruct (is_redirect _); [|done]. destruct (Location resp) as [next|]; [|done]. simpl.
  split; [done|]. intros _. destruct (checkRedirect next (Datatypes.S via)) eqn:Hc; [done|].
  apply checkRedirect_none in Hc as [_ Hc]. by apply IH.
Qed.

(** The policy stops the loop, not the fuel: three requests are enough. *)
Lemma client_Do_fuel fuel t req via :
  (via < 3)%nat → (3 - via ≤ fuel)%nat →
  client_Do fuel (policed t) req via ≡ client_Do (3 - via) (policed t) req via.
Proof.
  revert req via. induction fuel as [|fuel IH]; intros req via Hvia Hf; [lia|].
  replace (3 - via)%nat with (Datatypes.S (2 - via)) by lia.
  exists eq_refl. intros [resp|]; [|done]. simpl.
  destruct (is_redirect _); [|done]. destruct (Location resp) as [next|]; [|done].
  exists eq_refl. intros _. simpl. destruct (checkRedirect next (Datatypes.S via)) eqn:Hc; [done|].
  apply checkRedirect_none in Hc as [Hc _].
  replace (2 - via)%nat with (3 - Datatypes.S via)%nat by lia. apply IH; lia.
Qed.

(** ** Lemmas: the cache *)

Definition cache_size_ok (c : cache) : Prop := Z.of_nat (size c) ≤ maxCacheEntries.

Lemma size_filter_le now (c : cache) : (size (filter (entry_live now) c) ≤ size c)%nat.
Proof. apply map_subseteq_size, map_filter_subseteq. Qed.

Lemma store_at_size ttl now domain key c : cache_size_ok c → cache_size_ok (store_at ttl now domain key c).
Proof.
  unfold cache_size_ok, store_at. intros Hc. pose proof (size_filter_le now c).
  destruct (Z.leb_spec maxCacheEntries (Z.of_nat (size (filter (entry_live now) c)))); [lia|].
  rewrite map_size_insert. destruct (_ !! domain); unfold id; lia.
Qed.

Lemma store_at_lookup ttl now domain key c d e :
  store_at ttl now domain key c !! d = Some e →
  (d = domain ∧ e = MkCacheEntry key (Add now ttl)) ∨ (c !! d = Some e ∧ Before now (expiresAt e) = true).
Proof.
  unfold store_at. destruct (_ <=? _).
  - intros [? ?]%map_lookup_filter_Some. by right.
  - destruct (decide (d = domain)) as [->|Hne].
    + rewrite lookup_insert_eq. intros [= <-]. by left.
    + rewrite lookup_insert_ne by done. intros [? ?]%map_lookup_filter_Some. by right.
Qed.

Section lemmas.
Context {TL : TomlLib} {Sd : SDK}.

Lemma read_toml_ok domain resp key :
  read_toml domain resp = Ok key →
  IsValidEd25519PublicKey key = true ∧ StatusCode resp = 200 ∧
  body_failure (resp_Body resp) = None ∧ len (body_content (resp_Body resp)) ≤ maxTOMLBytes ∧
  toml_Decode (body_content (resp_Body resp)) = Ok key.
Proof.
  unfold read_toml. intros H. apply fail_if_ok in H as [Hs H].
  apply bind_ok in H as (body & Hb & H). apply map_err_ok in Hb.
  apply fail_if_ok in H as [Hl H]. apply bind_ok in H as (k & Hk & H). apply map_err_ok in Hk.
  apply fail_if_ok in H as [_ H]. apply fail_if_ok in H as [Hv H]. injection H as ->.
  pose proof (ReadAll_capped maxTOMLBytes _ _ ltac:(done) Hb) as Hc. rewrite Hl in Hc.
  destruct Hc as (-> & ? & ?). reflect_guards. done.
Qed.

(** What the resolver does, whatever it is answered. *)
Definition resolver_does (d : string) (o : resolver_op) : Prop :=
  match o with
  | Cached d' => d' = d
  | Store d' key => d' = d ∧ IsValidEd25519PublicKey key = true
  | RoundTrip u => u.1 = "https"%string
  | CloseBody => True
  end.

Context {TLL : TomlLaws TL}.

Lemma fetch_does cfg d :
  all_ops (S := RSig) https_only (fetch (NewResolver cfg) d) ∧
  all_ops (S := RSig) (resolver_does d) (fetch (NewResolver cfg) d) ∧
  max_ops (S := RSig) is_round_trip 3 (fetch (NewResolver cfg) d).
Proof.
  unfold fetch. destruct (NewRequest _) as [req|] eqn:Hreq; [|done].
  apply NewRequest_https in Hreq.
  pose proof (client_Do_https default_requests (c_Timeout (r_client (NewResolver cfg))) req 0 Hreq) as H1.
  pose proof (client_Do_round_trips default_requests (c_Timeout (r_client (NewResolver cfg))) req 0
    ltac:(lia)) as H2.
  split_and!.
  - apply all_ops_bind; [exact H1|]. by intros [].
  - apply all_ops_bind; [|by intros []].
    assert (Hnostore : ∀ fuel c req via, all_ops (S := RSig) https_only (client_Do fuel c req via) →
      all_ops (S := RSig) (resolver_does d) (client_Do fuel c req via)).
    { clear. induction fuel as [|fuel IH]; intros c req via H; [done|]. simpl in *.
      destruct H as [Hr H]. split; [done|]. intros x. specialize (H x). destruct x as [resp|]; [|done].
      simpl in *. destruct (is_redirect _); [|done]. destruct (Location resp); [|done]. simpl in *.
      split; [done|]. intros u. destruct H as [_ H]. specialize (H u).
      destruct (CheckRedirect c) as [check|]; [|by apply IH].
      destruct (check _ _); [done|]. by apply IH. }
    by apply Hnostore.
  - change 3%nat with (3 + 0)%nat. apply max_ops_bind; [exact H2|]. by intros [].
Qed.

(** A run of [fetch] that succeeds ends with the response that published the key. *)
Lemma client_Do_ok fuel c req via tr resp :
  runs (client_Do fuel c req via) tr (Ok resp) →
  ∃ u, Ev (S := RSig) (RoundTrip u) (Ok resp) ∈ tr.
Proof.
  revert req via tr. induction fuel as [|fuel IH]; intros req via tr H; [by destruct H|].
  destruct H as (x & tr1 & -> & H). destruct x as [resp'|]; [|by destruct H]. cbn -[runs] in H.
  assert (Hend : runs (S := RSig) (Ret (Ok (E := error) resp')) tr1 (Ok resp) →
    ∃ u, Ev (S := RSig) (RoundTrip u) (Ok resp) ∈ Ev (S := RSig) (RoundTrip req) (Ok resp') :: tr1).
  { intros [-> [= ->]]. exists req. apply list_elem_of_here. }
  destruct (is_redirect _); [|by apply Hend]. destruct (Location resp') as [next|]; [|by apply Hend].
  destruct H as (y & tr2 & -> & H).
  assert (Hrec : runs (client_Do fuel c next (Datatypes.S via)) tr2 (Ok resp) →
    ∃ u, Ev (S := RSig) (RoundTrip u) (Ok resp) ∈
      Ev (S := RSig) (RoundTrip req) (Ok resp') :: Ev (S := RSig) CloseBody y :: tr2).
  { intros Hr. destruct (IH _ _ _ Hr) as [u Hu]. exists u.
    by do 2 apply list_elem_of_further. }
  destruct (CheckRedirect c) as [check|]; [|by apply Hrec].
  destruct (check _ _); [by destruct H|by apply Hrec].
Qed.

Lemma fetch_ok r d tr key :
  runs (fetch r d) tr (Ok key) →
  ∃ u resp, Ev (S := RSig) (RoundTrip u) (Ok resp) ∈ tr ∧ read_toml d resp = Ok key.
Proof.
  unfold fetch. destruct (NewRequest _) as [req|]; [|by intros [_ ?]].
  rewrite runs_bind. intros (tr1 & tr2 & x & -> & H1 & H2).
  destruct x as [resp|]; [|by destruct H2]. destruct H2 as (y & tr3 & -> & -> & H2).
  destruct (client_Do_ok _ _ _ _ _ _ H1) as [u Hu]. exists u, resp.
  split; [apply elem_of_app; by left|done].
Qed.

Lemma client_Do_no_store fuel c req via :
  all_ops (S := RSig) (λ o, match o with Store _ _ => False | _ => True end)
    (client_Do fuel c req via).
Proof.
  revert req via. induction fuel as [|fuel IH]; intros req via; [done|].
  split; [done|]. intros [resp|]; [|done]. simpl. destruct (is_redirect _); [|done].
  destruct (Location resp); [|done]. split; [done|]. intros u.
  destruct (CheckRedirect c) as [check|]; [|by apply IH].
  destruct (check _ _); [done|]. by apply IH.
Qed.

Lemma fetch_no_store r d :
  all_ops (S := RSig) (λ o, match o with Store _ _ => False | _ => True end) (fetch r d).
Proof.
  unfold fetch. destruct (NewRequest _); [|done].
  apply all_ops_bind; [apply client_Do_no_store|]. by intros [].
Qed.

Lemma Resolve_does cfg d : all_ops (S := RSig) (resolver_does d) (Resolve (NewResolver cfg) d).
Proof.
  unfold Resolve. destruct (d =s ""); [done|]. destruct (_ && _); [done|].
  split; [done|]. intros [key|]; [done|]. simpl.
  apply all_ops_bind_runs; [apply fetch_does|].
  intros tr [key|e] Hr; [|done]. split; [|done]. split; [done|].
  apply fetch_ok in Hr as (u & resp & _ & Hr). by apply read_toml_ok in Hr as [? _].
Qed.

Lemma Resolve_round_trips cfg d :
  max_ops (S := RSig) is_round_trip 3 (Resolve (NewResolver cfg) d).
Proof.
  unfold Resolve. destruct (d =s ""); [done|]. destruct (_ && _); [done|].
  intros [key|]; [done|]. simpl. change 3%nat with (3 + 0)%nat.
  apply max_ops_bind_result; [apply fetch_does|]. done.
Qed.

End lemmas.

(** ** Properties *)

(** The invariant of the cache: bounded, and only keys that are addresses. *)
Definition cache_ok {Sd : SDK} (c : cache) : Prop :=
  cache_size_ok c ∧ map_Forall (λ _ e, IsValidEd25519PublicKey (signingKey e) = true) c.

Lemma rstep_ok {Sd : SDK} r d c (ev : event RSig) c' :
  resolver_does d (ev_op ev) → rstep r c ev c' → cache_ok c → cache_ok c'.
Proof.
  intros Hdoes H [Hs Hk]. destruct H as [|c now domain key| |]; try done. split.
  - by apply store_at_size.
  - intros d' e He. apply store_at_lookup in He as [[_ ->]|[He _]]; [by destruct Hdoes|by apply (Hk d')].
Qed.

(** A hit is a live entry. *)
Lemma cached_at_some now d c key :
  cached_at now d c = Some key ↔ ∃ e, c !! d = Some e ∧ now < expiresAt e ∧ signingKey e = key.
Proof.
  unfold cached_at, Before. destruct (c !! d) as [e|]; [|naive_solver].
  destruct (Z.ltb_spec now (expiresAt e)); simpl; naive_solver lia.
Qed.

(** The domain and the answer of a look in the cache. *)
Definition hit_of (ev : event RSig) : option (string * option string) :=
  match ev with
  | Ev o x =>
      match o return resolver_res o → option (string * option string) with
      | Cached d => λ x, Some (d, x)
      | _ => λ _, None
      end x
  end.

Lemma rstep_hit r c ev c' d key :
  rstep r c ev c' → hit_of ev = Some (d, Some key) → ∃ now, cached_at now d c = Some key.
Proof. intros [c0 now d0| | |]; simpl; intros H; simplify_eq. by exists now. Qed.

Section properties.
Context {TL : TomlLib} {Sd : SDK} {TLL : TomlLaws TL}.

(** However many requests resolve domains at once, over a network that answers
    anything, the shared cache stays within its 1024 entries, and every key a
    request is given, cached or fetched, is a valid account address. (claim C16) *)
Theorem Resolve_concurrent cfg domains tr qs c c' :
  let r := NewResolver cfg in
  interleave (Resolve r <$> domains) tr qs → consistent (rstep r) c tr.*2 c' → cache_ok c →
  cache_ok c' ∧
  ∀ i key, qs !! i = Some (Ret (Ok key)) → IsValidEd25519PublicKey key = true.
Proof.
  intros r Hil Hc Hok.
  assert (Hdoes : Forall (λ ev : event RSig, ∃ d, resolver_does d (ev_op ev)) tr.*2).
  { apply Forall_forall. intros ev Hev. apply list_elem_of_fmap in Hev as ([i ev'] & -> & Hin).
    destruct (interleave_tags _ _ _ _ _ Hil Hin) as [p Hp].
    destruct (interleave_thread _ _ _ _ _ Hil Hp) as (q & _ & Hs).
    rewrite list_lookup_fmap in Hp. apply fmap_Some in Hp as (d & _ & ->).
    exists d. pose proof (proj1 (steps_all_ops _ _ _ _ Hs (Resolve_does cfg d))) as Hall.
    rewrite Forall_forall in Hall. by apply Hall, elem_of_thread_events. }
  assert (Hinv : cache_ok c' ∧ ∀ d key,
    Ev (S := RSig) (Cached d) (Some key) ∈ tr.*2 → IsValidEd25519PublicKey key = true).
  { clear Hil. induction Hc as [c|c ev c1 evs c2 Hs _ IH]; [by split; [|intros ? ? ?%elem_of_nil]|].
    apply Forall_cons in Hdoes as [[d Hd] Hdoes].
    destruct (IH (rstep_ok _ _ _ _ _ Hd Hs Hok) Hdoes) as [IH1 IH2]. split; [done|].
    intros d' key [Heq|Hin]%elem_of_cons; [|by eapply IH2].
    destruct (rstep_hit _ _ _ _ d' key Hs) as [now Hhit]; [by subst ev|].
    apply cached_at_some in Hhit as (e & He & _ & <-). by apply (proj2 Hok d'). }
  destruct Hinv as [Hok' Hhits]. split; [done|]. intros i key Hq.
  destruct (interleave_lookup_r _ _ _ _ _ Hil Hq) as [p Hp].
  pose proof (interleave_thread_ret _ _ _ _ _ _ Hil Hp Hq) as Hrun.
  rewrite list_lookup_fmap in Hp. apply fmap_Some in Hp as (d & _ & ->).
  unfold Resolve in Hrun. destruct (d =s ""); [by destruct Hrun|].
  destruct (_ && _); [by destruct Hrun|].
  destruct Hrun as (x & tr1 & Hev & Hrun). destruct x as [k|].
  - destruct Hrun as [-> [= ->]]. apply (Hhits d).
    apply list_elem_of_fmap. exists (i, Ev (S := RSig) (Cached d) (Some k)). split; [done|].
    apply elem_of_thread_events. rewrite Hev. apply list_elem_of_here.
  - apply runs_bind_result in Hrun as [(e & _ & [=])|(tr2 & tr3 & k & -> & Hf & Hr)].
    destruct Hr as (y & tr4 & -> & -> & [= ->]).
    apply fetch_ok in Hf as (u & resp & _ & Hf). by apply read_toml_ok in Hf as [? _].
Qed.

(** Every request the resolver sends is HTTPS, and it sends at most three for a
    domain, the first and two redirects: whatever the network answers, and
    whatever policy the caller's client had. (claim C21) *)
Theorem Resolve_requests_bounded cfg d tr q :
  steps (Resolve (NewResolver cfg) d) tr q →
  (count (λ ev : event RSig, is_round_trip (ev_op ev)) tr ≤ 3)%nat ∧
  Forall (λ ev : event RSig, https_only (ev_op ev)) tr.
Proof.
  intros Hs. split.
  - destruct (steps_max_ops _ _ _ _ _ Hs (Resolve_round_trips cfg d)) as (m & _ & Hm).
    unfold count. lia.
  - eapply Forall_impl; [apply (steps_all_ops _ _ _ _ Hs (Resolve_does cfg d))|].
    intros [[] x]; simpl; try done.
Qed.

(** A domain outside a non-empty allowlist, and the empty domain, are refused
    before the cache or the network is touched. *)
Theorem Resolve_refuses_first cfg d tr r :
  d = ""%string ∨ (Allowlist cfg ≠ [] ∧ d ∉ Allowlist cfg) →
  runs (Resolve (NewResolver cfg) d) tr r → tr = [] ∧ is_ok r = false.
Proof.
  intros Hd. unfold Resolve. destruct (decide (d = ""%string)) as [->|Hne].
  { rewrite bool_decide_eq_true_2 by done. by intros [-> ->]. }
  rewrite bool_decide_eq_false_2 by done. destruct Hd as [?|[Hal Hd]]; [done|].
  rewrite !bool_decide_eq_false_2; simpl.
  - by intros [-> ->].
  - by rewrite elem_of_list_to_set.
  - rewrite size_empty_iff. intros He. apply Hal. destruct (Allowlist cfg) as [|a l]; [done|].
    assert (Ha : a ∈ (list_to_set (a :: l) : gset string)) by set_solver.
    simpl in *. set_solver.
Qed.

(** Where a key comes from: a resolution that succeeds either was answered by
    the cache and did nothing else, or got a 200 whose body arrived whole, is
    no larger than 100 KiB and decodes to that key, and cached it for that
    domain last; one that fails caches nothing. *)
Theorem Resolve_provenance r d tr res :
  runs (Resolve r d) tr res →
  match res with
  | Ok key =>
      tr = [Ev (S := RSig) (Cached d) (Some key)] ∨
      ∃ tr' u resp, tr = tr' ++ [Ev (S := RSig) (Store d key) tt] ∧
        Ev (S := RSig) (RoundTrip u) (Ok resp) ∈ tr' ∧ StatusCode resp = 200 ∧
        body_failure (resp_Body resp) = None ∧ len (body_content (resp_Body resp)) ≤ 100 * 1024 ∧
        toml_Decode (body_content (resp_Body resp)) = Ok key
  | Err _ => Forall (λ ev : event RSig, match ev_op ev with Store _ _ => False | _ => True end) tr
  end.
Proof.
  unfold Resolve. destruct (d =s ""); [by intros [-> ->]|].
  destruct (_ && _); [by intros [-> ->]|].
  intros (x & tr1 & -> & H). destruct x as [k|].
  { destruct H as [-> ->]. by left. }
  apply runs_bind_result in H as [(e & Hf & ->)|(tr2 & tr3 & k & -> & Hf & Hr)].
  - constructor; [done|]. exact (runs_all_ops _ _ _ _ Hf (fetch_no_store r d)).
  - destruct Hr as ([] & tr4 & -> & -> & ->). right.
    apply fetch_ok in Hf as (u & resp & Hin & Hf). apply read_toml_ok in Hf as (_ & ? & ? & ? & ?).
    exists (Ev (S := RSig) (Cached d) None :: tr2), u, resp. split; [done|].
    split; [by apply list_elem_of_further|]. done.
Qed.

(** Storing a key drops what has expired, never a live entry of another domain,
    and leaves the new entry live for its whole lifetime unless 1024 live ones
    were there. *)
Theorem store_keeps_live r now d key c :
  (∀ d' e, d' ≠ d → c !! d' = Some e →
     store_at (ttl r) now d key c !! d' = if now <? expiresAt e then Some e else None) ∧
  (Z.of_nat (size (filter (entry_live now) c)) < 1024 →
   ∀ t, cached_at t d (store_at (ttl r) now d key c) = if t <? now + ttl r then Some key else None).
Proof.
  unfold store_at, maxCacheEntries. split.
  - intros d' e Hne He.
    assert (Hf : filter (entry_live now) c !! d' = if now <? expiresAt e then Some e else None).
    { destruct (now <? expiresAt e) eqn:Hlt.
      - by apply map_lookup_filter_Some.
      - apply map_lookup_filter_None. right. intros e' He' Hl. unfold entry_live, Before in Hl.
        simpl in Hl. congruence. }
    destruct (_ <=? _); [done|]. by rewrite lookup_insert_ne.
  - intros Hlt t. rewrite (proj2 (Z.leb_gt _ _)) by lia. unfold cached_at, Before, Add.
    rewrite lookup_insert_eq. simpl. by destruct (t <? now + ttl r).
Qed.
End properties.

(** ** A demo: every URL text parses, and a stellar.toml is the bare key *)

#[global] Instance demo_toml : TomlLib := {|
  NewRequest s := Ok ("https"%string, s);
  toml_Decode b := Ok b;
|}.

#[global] Instance demo_toml_laws : TomlLaws demo_toml.
Proof. by split; intros rest u [= <-]. Qed.

Definition demo_cfg : ResolverConfig := MkResolverConfig [Sample.domain] (10 * Minute) None.
Definition demo_resolver : Resolver := NewResolver demo_cfg.

(** A world whose clock stands still and whose network always publishes the
    wallet's key. *)
Definition demo_handler (c : cache) (o : resolver_op) : resolver_res o * cache :=
  match o with
  | Cached d => (cached_at 0 d c, c)
  | Store d key => (tt, store_at (ttl demo_resolver) 0 d key c)
  | RoundTrip u => (Ok (MkResponse 200 (MkBody Sample.wallet None) None), c)
  | CloseBody => (tt, c)
  end.

Lemma demo_handler_step c o :
  rstep demo_resolver c (Ev (S := RSig) o (demo_handler c o).1) (demo_handler c o).2.
Proof. destruct o; constructor. Qed.

(** Two requests for one domain: both miss, both fetch, both store. *)
Lemma Resolve_concurrent_witness :
  ∃ tr qs c', interleave (Resolve demo_resolver <$> [Sample.domain; Sample.domain]) tr qs ∧
    consistent (rstep demo_resolver) ∅ tr.*2 c' ∧ cache_ok c' ∧
    qs !! 1%nat = Some (Ret (Ok Sample.wallet)) ∧ IsValidEd25519PublicKey Sample.wallet = true.
Proof.
  pose proof (run_pool_spec (S := RSig) (rstep demo_resolver) demo_handler [0; 1; 0; 1; 1; 0; 1; 0]%nat
    (Resolve demo_resolver <$> [Sample.domain; Sample.domain]) ∅ demo_handler_step) as H.
  assert (Hq : (run_pool (S := RSig) demo_handler [0; 1; 0; 1; 1; 0; 1; 0]%nat
    (Resolve demo_resolver <$> [Sample.domain; Sample.domain]) ∅).1.2 !! 1%nat =
    Some (Ret (Ok Sample.wallet))) by (vm_compute; reflexivity).
  destruct (run_pool _ _ _ _) as [[tr qs] c']. destruct H as [H1 H2]. simpl in Hq.
  assert (Hok : cache_ok (∅ : cache)) by (split; [vm_compute; discriminate|apply map_Forall_empty]).
  destruct (Resolve_concurrent demo_cfg _ tr qs ∅ c' H1 H2 Hok) as [Hc Hk].
  exists tr, qs, c'. split; [exact H1|]. split; [exact H2|]. split; [exact Hc|].
  split; [exact Hq|]. exact (Hk 1%nat Sample.wallet Hq).
Defined.

(** A chain of redirects within HTTPS: the third hop is refused. *)
Definition hop (n : string) : Response :=
  MkResponse 302 (MkBody "" None) (Some ("https"%string, n)).
Abbreviation redirect_trace :=
  [Ev (S := RSig) (Cached Sample.domain) None;
   Ev (S := RSig) (RoundTrip ("https"%string, defaultURL Sample.domain)) (Ok (hop "1"));
   Ev (S := RSig) CloseBody tt;
   Ev (S := RSig) (RoundTrip ("https"%string, "1"%string)) (Ok (hop "2"));
   Ev (S := RSig) CloseBody tt;
   Ev (S := RSig) (RoundTrip ("https"%string, "2"%string)) (Ok (hop "3"));
   Ev (S := RSig) CloseBody tt].

Definition hop_handler (hops : list Response) (o : op RSig) : res RSig o * list Response :=
  match o with
  | Cached d => (None, hops)
  | Store d key => (tt, hops)
  | RoundTrip u =>
      match hops with [] => (Err (New "connection refused"), []) | h :: hops => (Ok h, hops) end
  | CloseBody => (tt, hops)
  end.

(** [maxRedirects] is three, and two redirects are followed. *)
Lemma third_redirect_refused :
  runs (Resolve demo_resolver Sample.domain) redirect_trace
    (Err (Errorf "%s: fetching stellar.toml failed" [Str Sample.domain] [])).
Proof.
  apply (run_trace_eq hop_handler _ [hop "1"; hop "2"; hop "3"]). vm_compute. reflexivity.
Qed.

Lemma Resolve_requests_bounded_witness :
  (count (λ ev : event RSig, is_round_trip (ev_op ev)) redirect_trace ≤ 3)%nat ∧
  Forall (λ ev : event RSig, https_only (ev_op ev)) redirect_trace.
Proof.
  exact (Resolve_requests_bounded demo_cfg _ _ _ (runs_steps _ _ _ third_redirect_refused)).
Defined.

Lemma Resolve_refuses_first_witness :
  ([] : list (event RSig)) = [] ∧
  is_ok (Err (Errorf "%s is not on the allowlist" [Str "evil.example"] []) : result error string) = false.
Proof.
  apply (Resolve_refuses_first demo_cfg "evil.example").
  - right. split; [discriminate|]. simpl. rewrite list_elem_of_singleton. discriminate.
  - apply (run_trace_eq hop_handler _ []). vm_compute. reflexivity.
Defined.

Lemma Resolve_provenance_witness :
  Forall (λ ev : event RSig, match ev_op ev with Store _ _ => False | _ => True end) redirect_trace.
Proof. exact (Resolve_provenance _ _ _ _ third_redirect_refused). Defined.

Lemma store_keeps_live_witness :
  let c : cache := {[ "a.example"%string := MkCacheEntry Sample.server (20 * Second) ]} in
  store_at (ttl demo_resolver) (10 * Second) Sample.domain Sample.wallet c !! "a.example"%string =
    Some (MkCacheEntry Sample.server (20 * Second)) ∧
  cached_at (11 * Second) Sample.domain
    (store_at (ttl demo_resolver) (10 * Second) Sample.domain Sample.wallet c) = Some Sample.wallet.
Proof.
  intros c. destruct (store_keeps_live demo_resolver (10 * Second) Sample.domain Sample.wallet c)
    as [H1 H2]. split.
  - apply (H1 "a.example"%string (MkCacheEntry Sample.server (20 * Second))); [discriminate|reflexivity].
  - apply (H2 ltac:(vm_compute; reflexivity) (11 * Second)).
Defined.
