(* ===== verification/World.v ===== *)
(** * The operations of the server

    Everything a request handler does to the world around it, as one signature:
    the clock, SQL, Horizon, the wallets' domains with the resolver's cache,
    the SDK's challenge builder, the rate limiter, the log, and the response it
    writes.  The signatures of
    the packages embed in it, so their programs run in the server unchanged. *)

From S2P Require Import Prelude Errors Effects Stellar Schema Http Account ClientDomain.
Open Scope Z_scope.

(** The JSON bodies the server writes, by the struct they are encoded from. *)
Inductive json_body : Type :=
| errorBody (Error : string)
| challengeResponse (Transaction NetworkPassphrase : string)
| tokenResponse (Token : string)
| healthResponse (Status Database : string).

#[global] Instance json_body_eq_dec : EqDecision json_body.
Proof. solve_decision. Defined.

Inductive log_level : Type := LevelInfo | LevelWarn | LevelError.

(** The value of a log attribute. *)
Inductive attr : Type :=
| AErr (e : error)
| AStr (s : string)
| AInt (z : Z).

Section world.
Context {Sd : SDK}.

Inductive server_op : Type :=
| TimeNow                               (* time.Now() *)
| Sql (s : stmt)
| Horizon (o : fetch_op)
| Wallet (o : resolver_op)
| BuildTx (args : ChallengeArgs)        (* txnbuild.BuildChallengeTx *)
| PoolPing
| SetHeader (key value : string)        (* w.Header().Set *)
| WriteHeader (status : Z)
| Write (b : bytes)
| Log (level : log_level) (msg : string) (attrs : list (string * attr))
| NewRequestID                          (* chi's RequestID: the id of the request *)
| Allow (key : string) (now : Z)        (* the body of [allow], under the limiter's mutex *)
| WrappedStatus                         (* what chi's WrapResponseWriter has seen written *)
| WrappedBytes.

Definition server_res (o : server_op) : Type :=
  match o with
  | TimeNow => Z
  | Sql s => result error (answer s)
  | Horizon o => res Fetch o
  | Wallet o => resolver_res o
  | BuildTx _ => result string Transaction
  | PoolPing => result error unit
  | Write _ => result error unit
  | SetHeader _ _ | WriteHeader _ | Log _ _ _ => unit
  | NewRequestID => string
  | Allow _ _ => bool
  | WrappedStatus | WrappedBytes => Z
  end.

Definition Server : sig := Sig server_op server_res.

#[global] Instance embed_sql : Embed SQL Server := { embed_op := Sql; embed_res := λ _ x, x }.
#[global] Instance embed_fetch : Embed Fetch Server := { embed_op := Horizon; embed_res := λ _ x, x }.
#[global] Instance embed_resolver : Embed RSig Server := { embed_op := Wallet; embed_res := λ _ x, x }.

Definition log_error (msg : string) (err : error) : prog Server unit :=
  perform (S := Server) (Log LevelError msg [("error"%string, AErr err)]).

(** Operations that write the response. *)
Definition writes (o : server_op) : bool :=
  match o with SetHeader _ _ | WriteHeader _ | Write _ => true | _ => false end.

Definition writes_status (o : server_op) : bool :=
  match o with WriteHeader _ => true | _ => false end.

End world.
