(* ===== verification/HttpApi.v ===== *)
(** * The HTTP handlers (internal/httpapi)

    respond.go, auth_handler.go, health_handler.go and toml_handler.go.  A
    branch that the source ends with a call and a [return] ends with that call. *)

From S2P Require Import Prelude GoStd Errors Effects Stellar ReadChallenge Verify Schema Store.
From S2P Require Import Http Account ClientDomain World.
From S2P Require Token Challenge.
Open Scope Z_scope.

(** ** net/http, encoding/json and mime, as far as the handlers use them *)

Record Request : Type := MkRequest {
  r_ID : string;                         (* the request id of the context *)
  r_Method : string;
  r_Path : string;
  r_RemoteAddr : string;
  r_RawQuery : string;                   (* URL.RawQuery *)
  r_ContentType : string;
  r_Body : Body;
}.

Class WebLib := {
  Marshal : json_body → result error bytes;
  ParseMediaType : string → result error string;
  (** [json.NewDecoder(r.Body).Decode(&body)], the transaction field. *)
  DecodeTransaction : Body → result error string;
  (** [url.ParseQuery], without the error, as [URL.Query()] calls it. *)
  ParseQuery : string → list (string * string);
  (** [r.ParseForm()], then [r.PostForm]: a function of the method, the query,
      which is parsed too, the content type and the body. *)
  ParseForm : string → string → string → Body → result error (list (string * string));
}.

(** [values.Get(key)]: the first value, [""] when there is none. *)
Definition Get (key : string) (values : list (string * string)) : string :=
  match filter (λ kv, kv.1 = key) values with
  | (_, v) :: _ => v
  | [] => ""
  end.

(** The body written when a response does not encode: a JSON object with the one
    field [error]. *)
Definition dquote : string := String (Ascii.ascii_of_nat 34) EmptyString.
Definition internal_body : bytes :=
  "{" +:+ dquote +:+ "error" +:+ dquote +:+ ":" +:+ dquote +:+ "internal server error" +:+ dquote +:+ "}".

Definition StatusBadRequest : Z := 400.
Definition StatusUnauthorized : Z := 401.
Definition StatusTooManyRequests : Z := 429.
Definition StatusInternalServerError : Z := 500.
Definition StatusServiceUnavailable : Z := 503.

(** ** Errors to statuses *)

Definition sentinelStatus : list (sentinel * Z) :=
  [(ErrInvalidAccount, StatusBadRequest);
   (ErrMemoWithMuxed, StatusBadRequest);
   (ErrUnknownHomeDomain, StatusBadRequest);
   (ErrClientDomainRequired, StatusBadRequest);
   (ErrClientDomainRejected, StatusBadRequest);
   (ErrChallengeMalformed, StatusUnauthorized);
   (ErrChallengeUnknown, StatusUnauthorized);
   (ErrChallengeConsumed, StatusUnauthorized);
   (ErrChallengeExpired, StatusUnauthorized);
   (ErrSignatureUnrecognized, StatusUnauthorized);
   (ErrThresholdNotMet, StatusUnauthorized);
   (ErrClientDomainUnverified, StatusUnauthorized);
   (ErrAccountLookupFailed, StatusServiceUnavailable)].

Fixpoint classify_in (table : list (sentinel * Z)) (err : error) : option (sentinel * Z) :=
  match table with
  | [] => None
  | entry :: table => if Is err entry.1 then Some entry else classify_in table err
  end.

Definition classify (err : error) : option (sentinel * Z) := classify_in sentinelStatus err.

Section handlers.
Context {Sd : SDK} {J : Token.JWT} {WL : WebLib}.

(** ** Writing responses *)

Definition writeJSON (status : Z) (body : json_body) : prog Server unit :=
  match Marshal body with
  | Err err =>
      do _ <- log_error "encoding response failed" err ;;
      do _ <- perform (S := Server) (SetHeader "Content-Type" "application/json") ;;
      do _ <- perform (S := Server) (WriteHeader StatusInternalServerError) ;;
      do _ <- perform (S := Server) (Write internal_body) ;;
      Ret tt
  | Ok encoded =>
      do _ <- perform (S := Server) (SetHeader "Content-Type" "application/json") ;;
      do _ <- perform (S := Server) (WriteHeader status) ;;
      do r <- perform (S := Server) (Write encoded) ;;
      match r with
      | Err err => perform (S := Server) (Log LevelWarn "writing response failed" [("error"%string, AErr err)])
      | Ok _ => Ret tt
      end
  end.

Definition writeError (status : Z) (message : string) : prog Server unit :=
  writeJSON status (errorBody message).

Definition respondError (err : error) : prog Server unit :=
  match classify err with
  | Some (sentinel, status) => writeError status (sentinel_text sentinel)
  | None =>
      do _ <- log_error "unhandled error" err ;;
      writeError StatusInternalServerError "internal server error"
  end.

Definition respondStoreError (err : error) : prog Server unit :=
  match classify err with
  | Some (sentinel, status) => writeError status (sentinel_text sentinel)
  | None =>
      do _ <- log_error "store failure" err ;;
      writeError StatusServiceUnavailable "service unavailable"
  end.

(** ** Dependencies *)

(** The [ChallengeStore] interface. *)
Record ChallengeStore : Type := MkChallengeStore {
  st_RecordChallenge : ChallengeRecord → prog Server (result error unit);
  st_ConsumeChallenge : string → Z → prog Server (result error ConsumedChallenge);
  st_RecordSession : SessionRecord → prog Server (result error unit);
}.

(** [Deps], once [NewRouter] has checked that nothing is nil. *)
Record Deps : Type := MkDeps {
  d_Issuer : Challenge.Issuer (S := Server);
  d_Tokens : Token.Issuer;
  d_Accounts : string → prog Server (result error Account);
  d_Challenges : ChallengeStore;
  d_Health : prog Server (result error unit);
  d_NetworkPassphrase : string;
  d_WebAuthDomain : string;
  d_HomeDomains : list string;
}.

(** ** GET /auth *)

Definition parseMemo (raw : string) : result string (option Z) :=
  if raw =s "" then Ok None
  else match ParseUint raw with
       | None => Err "memo must be a positive integer"%string
       | Some value => Ok (Some value)
       end.

Definition BuildChallengeTx (args : ChallengeArgs) : prog Server (result string Transaction) :=
  perform (S := Server) (BuildTx args).

Definition getAuthHandler (d : Deps) (r : Request) : prog Server unit :=
  let query := ParseQuery (r_RawQuery r) in
  let account := Get "account" query in
  if account =s "" then writeError StatusBadRequest "account is required"
  else match parseMemo (Get "memo" query) with
  | Err text => writeError StatusBadRequest text
  | Ok memo =>
      do issued <- Challenge.Issue BuildChallengeTx (d_Issuer d)
        (Challenge.MkIssueRequest account memo (Get "home_domain" query) (Get "client_domain" query)) ;;
      match issued with
      | Err err => respondError err
      | Ok issued =>
          do now <- perform (S := Server) TimeNow ;;
          do err <- st_RecordChallenge (d_Challenges d)
            (MkChallengeRecord (Challenge.ic_Nonce issued) (Challenge.ic_Account issued)
               (Challenge.ic_HomeDomain issued) (Challenge.ic_ClientDomain issued) now
               (Challenge.ic_ExpiresAt issued)) ;;
          match err with
          | Err err => respondStoreError err
          | Ok _ => writeJSON StatusOK (challengeResponse (Challenge.TransactionXDR issued)
                                          (Challenge.ic_NetworkPassphrase issued))
          end
      end
  end.

(** ** POST /auth *)

Definition readTransactionField (r : Request) : result string string :=
  match ParseMediaType (r_ContentType r) with
  | Err _ => Err "content-type is not valid"%string
  | Ok mediaType =>
      if mediaType =s "application/json" then
        match DecodeTransaction (r_Body r) with
        | Err _ => Err "request body is not valid JSON"%string
        | Ok transaction =>
            fail_if transaction =s "" with "transaction is required"%string ;; Ok transaction
        end
      else if mediaType =s "application/x-www-form-urlencoded" then
        match ParseForm (r_Method r) (r_RawQuery r) (r_ContentType r) (r_Body r) with
        | Err _ => Err "request body is not a valid form"%string
        | Ok form =>
            let value := Get "transaction" form in
            fail_if value =s "" with "transaction is required"%string ;; Ok value
        end
      else Err "content-type must be application/json or application/x-www-form-urlencoded"%string
  end.

Definition memoValue (memo : option Z) : option Z := memo.

Definition memoString (memo : option Z) : string :=
  match memo with None => "" | Some m => FormatUint m end.

(** The session a verified challenge is recorded with. *)
Definition session_record (d : Deps) (challenge : ReadChallenge.Challenge)
    (consumed : ConsumedChallenge) (jti : string) (now : Z) : SessionRecord :=
  MkSessionRecord jti (ClientAccountID challenge) (memoString (memoValue (ch_Memo challenge)))
    (cc_HomeDomain consumed) (ReadChallenge.ClientDomain challenge) now
    (Add now (Token.Lifetime (d_Tokens d))).

Definition token_request (challenge : ReadChallenge.Challenge) (jti : string) (now : Z) : Token.Request :=
  Token.MkRequest (ClientAccountID challenge) (memoValue (ch_Memo challenge))
    (ReadChallenge.ClientDomain challenge) jti now.

(** After the signatures are verified: the jti, the token, the session. *)
Definition issue_session (d : Deps) (challenge : ReadChallenge.Challenge)
    (consumed : ConsumedChallenge) (now : Z) : prog Server unit :=
  match tx_HashHex (Tx challenge) (d_NetworkPassphrase d) with
  | Err err =>
      do _ <- log_error "hashing the challenge failed" (New err) ;;
      writeError StatusInternalServerError "internal server error"
  | Ok jti =>
      match Token.Issue (d_Tokens d) (token_request challenge jti now) with
      | Err err =>
          do _ <- log_error "issuing the token failed" err ;;
          writeError StatusInternalServerError "internal server error"
      | Ok signed =>
          do err <- st_RecordSession (d_Challenges d) (session_record d challenge consumed jti now) ;;
          match err with
          | Err err => respondStoreError err
          | Ok _ => writeJSON StatusOK (tokenResponse signed)
          end
      end
  end.

Section post.
Variable keys : gmap string Z → list string.   (* the order of the signer map's range *)

(** After the nonce is spent: the stored record, the signatures. *)
Definition verify_consumed (d : Deps) (challenge : ReadChallenge.Challenge)
    (consumed : ConsumedChallenge) (now : Z) : prog Server unit :=
  if (cc_Account consumed <>s ClientAccountID challenge) ||
     (cc_ClientDomain consumed <>s ReadChallenge.ClientDomain challenge)
  then
    do _ <- perform (S := Server) (Log LevelError "stored challenge disagrees with the posted envelope"
              [("nonce"%string, AStr (Nonce challenge))]) ;;
    respondError (Sentinel ErrChallengeMalformed)
  else
    do verified <- VerifyClient keys challenge (d_NetworkPassphrase d) (d_Accounts d) ;;
    match verified with
    | Err err => respondError err
    | Ok _ => issue_session d challenge consumed now
    end.

(** The handler reads the clock twice: inside [ReadChallenge] and before the
    nonce is spent. *)
Definition postAuthHandler (d : Deps) (r : Request) : prog Server unit :=
  match readTransactionField r with
  | Err text => writeError StatusBadRequest text
  | Ok envelope =>
      do reading <- perform (S := Server) TimeNow ;;
      match ReadChallenge envelope (Challenge.ServerAccountID (d_Issuer d)) (d_NetworkPassphrase d)
              (d_WebAuthDomain d) (d_HomeDomains d) reading with
      | Err err => respondError err
      | Ok challenge =>
          do now <- perform (S := Server) TimeNow ;;
          do consumed <- st_ConsumeChallenge (d_Challenges d) (Nonce challenge) now ;;
          match consumed with
          | Err err => respondStoreError err
          | Ok consumed => verify_consumed d challenge consumed now
          end
      end
  end.
End post.

(** ** GET /health, GET /.well-known/stellar.toml *)

Definition healthHandler (pinger : prog Server (result error unit)) (r : Request) : prog Server unit :=
  do pong <- pinger ;;
  match pong with
  | Err err =>
      do _ <- log_error "health check failed" err ;;
      writeJSON StatusServiceUnavailable (healthResponse "degraded" "unavailable")
  | Ok _ => writeJSON StatusOK (healthResponse "ok" "ok")
  end.

Definition tomlHandler (body : bytes) (r : Request) : prog Server unit :=
  do _ <- perform (S := Server) (SetHeader "Content-Type" "text/plain; charset=utf-8") ;;
  do _ <- perform (S := Server) (SetHeader "Access-Control-Allow-Origin" "*") ;;
  do _ <- perform (S := Server) (WriteHeader StatusOK) ;;
  do r <- perform (S := Server) (Write body) ;;
  match r with
  | Err err => perform (S := Server) (Log LevelWarn "writing stellar.toml failed" [("error"%string, AErr err)])
  | Ok _ => Ret tt
  end.

End handlers.

(** ** What is on the wire *)

Section wire.
Context {Sd : SDK} {J : Token.JWT} {WL : WebLib}.

Definition wire_json (status : Z) (body : json_body) : Z * bytes :=
  match Marshal body with
  | Ok encoded => (status, encoded)
  | Err _ => (StatusInternalServerError, internal_body)
  end.

(** The status and the body of an error of a step of the protocol, and of the store. *)
Definition protocol_answer (err : error) : Z * bytes :=
  match classify err with
  | Some (s, status) => wire_json status (errorBody (sentinel_text s))
  | None => wire_json StatusInternalServerError (errorBody "internal server error")
  end.

Definition store_answer (err : error) : Z * bytes :=
  match classify err with
  | Some (s, status) => wire_json status (errorBody (sentinel_text s))
  | None => wire_json StatusServiceUnavailable (errorBody "service unavailable")
  end.

(** A response: one status line, then one body, and nothing else but logging. *)
Definition logs (ev : event Server) : Prop :=
  match ev_op ev with Log _ _ _ => True | _ => False end.

Definition response (tr : list (event Server)) (status : Z) (body : bytes) : Prop :=
  ∃ pre post kind x, Forall logs pre ∧ Forall logs post ∧
    tr = pre ++ [Ev (S := Server) (SetHeader "Content-Type" kind) tt;
                 Ev (S := Server) (WriteHeader status) tt; Ev (S := Server) (Write body) x] ++ post.

Lemma runs_log level msg err tr a :
  runs (perform (S := Server) (Log level msg err)) tr a → Forall logs tr.
Proof. intros ->%(runs_perform (S := Server)). by repeat constructor. Qed.

Lemma response_log level msg err tr status body x :
  response tr status body → response (Ev (S := Server) (Log level msg err) x :: tr) status body.
Proof.
  intros (pre & post & kind & y & H1 & H2 & ->).
  exists (Ev (S := Server) (Log level msg err) x :: pre), post, kind, y.
  split; [by constructor|]. done.
Qed.

Lemma writeJSON_response status body tr :
  runs (writeJSON status body) tr tt →
  response tr (wire_json status body).1 (wire_json status body).2.
Proof.
  unfold writeJSON, wire_json. destruct (Marshal body) as [encoded|err].
  - intros ([] & tr1 & -> & [] & tr2 & -> & x & tr3 & -> & H).
    exists [], tr3, "application/json"%string, x. split; [constructor|]. split; [|done].
    destruct x as [u|err]; [by destruct H as [-> _]|]. by apply runs_log in H.
  - intros ([] & tr1 & -> & [] & tr2 & -> & [] & tr3 & -> & x & tr4 & -> & -> & _).
    exists [Ev (S := Server) (Log LevelError "encoding response failed" [("error"%string, AErr err)]) tt], [],
      "application/json"%string, x.
    split; [by repeat constructor|]. by split; [constructor|].
Qed.

Lemma respondError_response err tr :
  runs (respondError err) tr tt → response tr (protocol_answer err).1 (protocol_answer err).2.
Proof.
  unfold respondError, protocol_answer. destruct (classify err) as [[s status]|].
  - apply writeJSON_response.
  - intros ([] & tr1 & -> & H). by apply response_log, writeJSON_response.
Qed.

Lemma respondStoreError_response err tr :
  runs (respondStoreError err) tr tt → response tr (store_answer err).1 (store_answer err).2.
Proof.
  unfold respondStoreError, store_answer. destruct (classify err) as [[s status]|].
  - apply writeJSON_response.
  - intros ([] & tr1 & -> & H). by apply response_log, writeJSON_response.
Qed.

(** The texts an error response may carry. *)
Definition public_texts : list string :=
  (sentinel_text ∘ fst <$> sentinelStatus) ++
  ["internal server error"; "service unavailable"; "account is required";
   "memo must be a positive integer"; "content-type is not valid";
   "request body is not valid JSON"; "transaction is required";
   "request body is not a valid form";
   "content-type must be application/json or application/x-www-form-urlencoded"; "too many requests"].

Definition error_statuses : list Z := [400; 401; 429; 500; 503].

Lemma classify_in_some table err entry :
  classify_in table err = Some entry → entry ∈ table ∧ Is err entry.1 = true.
Proof.
  induction table as [|e table IH]; simpl; [done|]. destruct (Is err e.1) eqn:He.
  - intros [= <-]. split; [apply list_elem_of_here|done].
  - intros H. destruct (IH H). split; [by apply list_elem_of_further|done].
Qed.

Lemma classify_status err s status :
  classify err = Some (s, status) →
  (s, status) ∈ sentinelStatus ∧ sentinel_text s ∈ public_texts ∧ status ∈ error_statuses.
Proof.
  intros H. apply classify_in_some in H as [Hin _]. split; [done|]. split.
  - unfold public_texts. apply elem_of_app. left.
    apply list_elem_of_fmap. by exists (s, status).
  - unfold sentinelStatus in Hin.
    repeat (apply elem_of_cons in Hin as [[= -> ->]|Hin]; [vm_compute; set_solver|]).
    by apply elem_of_nil in Hin.
Qed.

(** An error response: a public text under an error status. *)
Definition error_wire (sb : Z * bytes) : Prop :=
  sb = (StatusInternalServerError, internal_body) ∨
  ∃ status t, t ∈ public_texts ∧ status ∈ error_statuses ∧
    Marshal (errorBody t) = Ok sb.2 ∧ sb.1 = status.

Lemma wire_json_error status t :
  t ∈ public_texts → status ∈ error_statuses → error_wire (wire_json status (errorBody t)).
Proof.
  intros Ht Hs. unfold wire_json. destruct (Marshal (errorBody t)) as [b|e] eqn:Hm; [right|by left].
  by exists status, t.
Qed.

Lemma protocol_answer_error err : error_wire (protocol_answer err).
Proof.
  unfold protocol_answer. destruct (classify err) as [[s status]|] eqn:Hc.
  - apply classify_status in Hc as (_ & ? & ?). by apply wire_json_error.
  - apply wire_json_error; [by apply (list_elem_of_lookup_2 _ 13)|by apply (list_elem_of_lookup_2 _ 3)].
Qed.

Lemma store_answer_error err : error_wire (store_answer err).
Proof.
  unfold store_answer. destruct (classify err) as [[s status]|] eqn:Hc.
  - apply classify_status in Hc as (_ & ? & ?). by apply wire_json_error.
  - apply wire_json_error; [by apply (list_elem_of_lookup_2 _ 14)|by apply (list_elem_of_lookup_2 _ 4)].
Qed.
End wire.

(** ** The outcomes of the handlers *)

Section outcomes.
Context {Sd : SDK} {J : Token.JWT} {WL : WebLib}.

Variable keys : gmap string Z → list string.
Implicit Types (d : Deps) (r : Request).

(** Everything a POST that is answered with a token went through, in order. *)
Definition authenticated d r (tr : list (event Server)) (c : ReadChallenge.Challenge)
    (consumed : ConsumedChallenge) (now : Z) (signed : string) : Prop :=
  ∃ envelope reading found jti tr1 tr2 tr3,
    readTransactionField r = Ok envelope ∧
    ReadChallenge envelope (Challenge.ServerAccountID (d_Issuer d)) (d_NetworkPassphrase d)
      (d_WebAuthDomain d) (d_HomeDomains d) reading = Ok c ∧
    runs (st_ConsumeChallenge (d_Challenges d) (Nonce c) now) tr1 (Ok consumed) ∧
    cc_Account consumed = ClientAccountID c ∧
    cc_ClientDomain consumed = ReadChallenge.ClientDomain c ∧
    runs (VerifyClient keys c (d_NetworkPassphrase d) (d_Accounts d)) tr2 (Ok found) ∧
    tx_HashHex (Tx c) (d_NetworkPassphrase d) = Ok jti ∧
    Token.Issue (d_Tokens d) (token_request c jti now) = Ok signed ∧
    runs (st_RecordSession (d_Challenges d) (session_record d c consumed jti now)) tr3 (Ok tt) ∧
    tr = Ev (S := Server) TimeNow reading :: Ev (S := Server) TimeNow now :: tr1 ++ tr2 ++ tr3.

(** How the minting of the token for a verified challenge fails. *)
Inductive mint_failed d (c : ReadChallenge.Challenge) (consumed : ConsumedChallenge) (now : Z) :
  list (event Server) → Z * bytes → Prop :=
| not_hashed e :
    tx_HashHex (Tx c) (d_NetworkPassphrase d) = Err e →
    mint_failed d c consumed now [] (wire_json 500 (errorBody "internal server error"))
| not_signed jti e :
    tx_HashHex (Tx c) (d_NetworkPassphrase d) = Ok jti →
    Token.Issue (d_Tokens d) (token_request c jti now) = Err e →
    mint_failed d c consumed now [] (wire_json 500 (errorBody "internal server error"))
| session_not_recorded jti signed tr e :
    tx_HashHex (Tx c) (d_NetworkPassphrase d) = Ok jti →
    Token.Issue (d_Tokens d) (token_request c jti now) = Ok signed →
    runs (st_RecordSession (d_Challenges d) (session_record d c consumed jti now)) tr (Err e) →
    mint_failed d c consumed now tr (store_answer e).

(** How a consumed challenge fails. *)
Inductive verification_failed d c (consumed : ConsumedChallenge) (now : Z) :
  list (event Server) → Z * bytes → Prop :=
| stored_disagrees :
    ¬ (cc_Account consumed = ClientAccountID c ∧ cc_ClientDomain consumed = ReadChallenge.ClientDomain c) →
    verification_failed d c consumed now [] (protocol_answer (Sentinel ErrChallengeMalformed))
| not_verified tr e :
    cc_Account consumed = ClientAccountID c → cc_ClientDomain consumed = ReadChallenge.ClientDomain c →
    runs (VerifyClient keys c (d_NetworkPassphrase d) (d_Accounts d)) tr (Err e) →
    verification_failed d c consumed now tr (protocol_answer e)
| not_minted found tr1 tr2 sb :
    cc_Account consumed = ClientAccountID c → cc_ClientDomain consumed = ReadChallenge.ClientDomain c →
    runs (VerifyClient keys c (d_NetworkPassphrase d) (d_Accounts d)) tr1 (Ok found) →
    mint_failed d c consumed now tr2 sb →
    verification_failed d c consumed now (tr1 ++ tr2) sb.

(** How a POST fails: at which step, after what work, and with what answer. *)
Inductive post_failed d r : list (event Server) → Z * bytes → Prop :=
| post_unreadable text :
    readTransactionField r = Err text → post_failed d r [] (wire_json 400 (errorBody text))
| post_malformed envelope reading e :
    readTransactionField r = Ok envelope →
    ReadChallenge envelope (Challenge.ServerAccountID (d_Issuer d)) (d_NetworkPassphrase d)
      (d_WebAuthDomain d) (d_HomeDomains d) reading = Err e →
    post_failed d r [Ev (S := Server) TimeNow reading] (protocol_answer e)
| post_not_consumed envelope reading c now tr e :
    readTransactionField r = Ok envelope →
    ReadChallenge envelope (Challenge.ServerAccountID (d_Issuer d)) (d_NetworkPassphrase d)
      (d_WebAuthDomain d) (d_HomeDomains d) reading = Ok c →
    runs (st_ConsumeChallenge (d_Challenges d) (Nonce c) now) tr (Err e) →
    post_failed d r (Ev (S := Server) TimeNow reading :: Ev (S := Server) TimeNow now :: tr) (store_answer e)
| post_not_verified envelope reading c now tr1 consumed tr2 sb :
    readTransactionField r = Ok envelope →
    ReadChallenge envelope (Challenge.ServerAccountID (d_Issuer d)) (d_NetworkPassphrase d)
      (d_WebAuthDomain d) (d_HomeDomains d) reading = Ok c →
    runs (st_ConsumeChallenge (d_Challenges d) (Nonce c) now) tr1 (Ok consumed) →
    verification_failed d c consumed now tr2 sb →
    post_failed d r (Ev (S := Server) TimeNow reading :: Ev (S := Server) TimeNow now :: tr1 ++ tr2) sb.

Abbreviation query r := (ParseQuery (r_RawQuery r)).
Abbreviation issue_request r memo :=
  (Challenge.MkIssueRequest (Get "account" (query r)) memo (Get "home_domain" (query r))
     (Get "client_domain" (query r))).
Abbreviation challenge_record issued now :=
  (MkChallengeRecord (Challenge.ic_Nonce issued) (Challenge.ic_Account issued)
     (Challenge.ic_HomeDomain issued) (Challenge.ic_ClientDomain issued) now
     (Challenge.ic_ExpiresAt issued)).

(** How a GET fails, and how it succeeds. *)
Inductive get_failed d r : list (event Server) → Z * bytes → Prop :=
| get_no_account :
    Get "account" (query r) = ""%string →
    get_failed d r [] (wire_json 400 (errorBody "account is required"))
| get_bad_memo text :
    Get "account" (query r) ≠ ""%string → parseMemo (Get "memo" (query r)) = Err text →
    get_failed d r [] (wire_json 400 (errorBody text))
| get_not_issued memo tr e :
    Get "account" (query r) ≠ ""%string → parseMemo (Get "memo" (query r)) = Ok memo →
    runs (Challenge.Issue BuildChallengeTx (d_Issuer d) (issue_request r memo)) tr (Err e) →
    get_failed d r tr (protocol_answer e)
| get_not_recorded memo issued now tr1 tr2 e :
    Get "account" (query r) ≠ ""%string → parseMemo (Get "memo" (query r)) = Ok memo →
    runs (Challenge.Issue BuildChallengeTx (d_Issuer d) (issue_request r memo)) tr1 (Ok issued) →
    runs (st_RecordChallenge (d_Challenges d) (challenge_record issued now)) tr2 (Err e) →
    get_failed d r (tr1 ++ Ev (S := Server) TimeNow now :: tr2) (store_answer e).

Definition challenge_issued d r (tr : list (event Server)) (issued : Challenge.IssuedChallenge) : Prop :=
  ∃ memo now tr1 tr2,
    parseMemo (Get "memo" (query r)) = Ok memo ∧
    tr = tr1 ++ Ev (S := Server) TimeNow now :: tr2 ∧
    runs (Challenge.Issue BuildChallengeTx (d_Issuer d) (issue_request r memo)) tr1 (Ok issued) ∧
    runs (st_RecordChallenge (d_Challenges d) (challenge_record issued now)) tr2 (Ok tt).

(** *** Work, then one response *)

(** A run is work and then a response, and the two are as [Q] says. *)
Definition answered (Q : list (event Server) → Z * bytes → Prop) (tr : list (event Server)) : Prop :=
  ∃ work out sb, tr = work ++ out ∧ response out sb.1 sb.2 ∧ Q work sb.

Lemma answered_now (Q : list (event Server) → Z * bytes → Prop) sb tr :
  response tr sb.1 sb.2 → Q [] sb → answered Q tr.
Proof. intros. by exists [], tr, sb. Qed.

Lemma answered_app (Q : list (event Server) → Z * bytes → Prop) pre tr :
  answered (λ work, Q (pre ++ work)) tr → answered Q (pre ++ tr).
Proof. intros (work & out & sb & -> & Hr & HQ). exists (pre ++ work), out, sb. by rewrite <-app_assoc. Qed.

Lemma answered_after (Q : list (event Server) → Z * bytes → Prop) pre sb tr :
  response tr sb.1 sb.2 → Q pre sb → answered Q (pre ++ tr).
Proof. intros. by exists pre, tr, sb. Qed.

Lemma issue_session_runs d c consumed now tr :
  runs (issue_session d c consumed now) tr tt →
  answered (λ work sb, mint_failed d c consumed now work sb ∨
    ∃ jti signed, sb = wire_json 200 (tokenResponse signed) ∧
      tx_HashHex (Tx c) (d_NetworkPassphrase d) = Ok jti ∧
      Token.Issue (d_Tokens d) (token_request c jti now) = Ok signed ∧
      runs (st_RecordSession (d_Challenges d) (session_record d c consumed jti now)) work (Ok tt)) tr.
Proof.
  unfold issue_session. destruct (tx_HashHex _ _) as [jti|e] eqn:Hh.
  2: { intros ([] & tr1 & -> & H). eapply answered_now; [by apply response_log, writeJSON_response|].
       left. by eapply not_hashed. }
  destruct (Token.Issue _ _) as [signed|e] eqn:Hi.
  2: { intros ([] & tr1 & -> & H). eapply answered_now; [by apply response_log, writeJSON_response|].
       left. by eapply not_signed. }
  rewrite runs_bind. intros (tr1 & tr2 & [[]|e] & -> & Hr & H).
  - eapply answered_after; [by apply writeJSON_response|]. right. by exists jti, signed.
  - eapply answered_after; [by apply respondStoreError_response|]. left. by eapply session_not_recorded.
Qed.

Lemma verify_consumed_runs d c consumed now tr :
  runs (verify_consumed keys d c consumed now) tr tt →
  answered (λ work sb, verification_failed d c consumed now work sb ∨
    ∃ found jti signed tr2 tr3, sb = wire_json 200 (tokenResponse signed) ∧ work = tr2 ++ tr3 ∧
      cc_Account consumed = ClientAccountID c ∧
      cc_ClientDomain consumed = ReadChallenge.ClientDomain c ∧
      runs (VerifyClient keys c (d_NetworkPassphrase d) (d_Accounts d)) tr2 (Ok found) ∧
      tx_HashHex (Tx c) (d_NetworkPassphrase d) = Ok jti ∧
      Token.Issue (d_Tokens d) (token_request c jti now) = Ok signed ∧
      runs (st_RecordSession (d_Challenges d) (session_record d c consumed jti now)) tr3 (Ok tt)) tr.
Proof.
  unfold verify_consumed. destruct (_ || _) eqn:Hm.
  { intros ([] & tr1 & -> & H). eapply answered_now; [by apply response_log, respondError_response|].
    left. apply stored_disagrees. intros [Ha Hd]. rewrite Ha, Hd in Hm. by rewrite !bool_decide_eq_true_2 in Hm. }
  rewrite runs_bind. intros (tr1 & tr2 & x & -> & Hv & H). reflect_guards. destruct x as [found|e].
  - apply answered_app. apply issue_session_runs in H as (work & out & sb & -> & Hr & HQ).
    exists work, out, sb. split; [done|]. split; [done|].
    destruct HQ as [HQ|(jti & signed & -> & HQ)]; [left; by eapply not_minted|right].
    by exists found, jti, signed, tr1, work.
  - eapply answered_after; [by apply respondError_response|]. left. by apply not_verified.
Qed.

Lemma readTransactionField_err r e : readTransactionField r = Err e → e ∈ public_texts.
Proof.
  unfold readTransactionField. intros H.
  assert (Hin : e ∈ ["content-type is not valid"; "request body is not valid JSON";
    "transaction is required"; "request body is not a valid form";
    "content-type must be application/json or application/x-www-form-urlencoded"]%string)
    by (inv_body H; subst; set_solver).
  unfold public_texts. apply elem_of_app. right. set_solver.
Qed.

Lemma postAuthHandler_runs d r tr :
  runs (postAuthHandler keys d r) tr tt →
  answered (λ work sb, post_failed d r work sb ∨
    ∃ c consumed now signed, authenticated d r work c consumed now signed ∧
      sb = wire_json 200 (tokenResponse signed)) tr.
Proof.
  unfold postAuthHandler. destruct (readTransactionField r) as [envelope|e] eqn:Hf.
  2: { intros H. eapply answered_now; [by apply writeJSON_response|]. left. by apply post_unreadable. }
  intros (reading & tr1 & -> & H). cbn -[runs] in H.
  destruct (ReadChallenge _ _ _ _ _ _) as [c|e] eqn:Hc.
  2: { apply (answered_after _ [_]) with (1 := respondError_response _ _ H). left. by eapply post_malformed. }
  destruct H as (now & tr2 & -> & H). cbn -[runs] in H.
  apply (runs_bind _ (st_ConsumeChallenge (d_Challenges d) (Nonce c) now)) in H
    as (tr3 & tr4 & [consumed|e] & -> & Hcon & H).
  - apply verify_consumed_runs in H as (work & out & sb & -> & Hr & HQ).
    exists (Ev (S := Server) TimeNow reading :: Ev (S := Server) TimeNow now :: tr3 ++ work), out, sb.
    split; [by simpl; rewrite <-app_assoc|]. split; [done|].
    destruct HQ as [HQ|(found & jti & signed & tr5 & tr6 & -> & -> & ? & ? & ? & ? & ? & ?)];
      [left; by eapply post_not_verified|right].
    exists c, consumed, now, signed. split; [|done]. by exists envelope, reading, found, jti, tr3, tr5, tr6.
  - eapply (answered_after _ (_ :: _ :: tr3)); [by apply respondStoreError_response|].
    left. by eapply post_not_consumed.
Qed.

Lemma getAuthHandler_runs d r tr :
  runs (getAuthHandler d r) tr tt →
  answered (λ work sb, get_failed d r work sb ∨
    ∃ issued, challenge_issued d r work issued ∧
      sb = wire_json 200 (challengeResponse (Challenge.TransactionXDR issued)
                            (Challenge.ic_NetworkPassphrase issued))) tr.
Proof.
  unfold getAuthHandler. case_bool_decide as Ha.
  { intros H. eapply answered_now; [by apply writeJSON_response|]. left. by apply get_no_account. }
  destruct (parseMemo _) as [memo|text] eqn:Hm.
  2: { intros H. eapply answered_now; [by apply writeJSON_response|]. left. by apply get_bad_memo. }
  rewrite runs_bind. intros (tr1 & tr2 & [issued|e] & -> & Hi & H).
  2: { eapply answered_after; [by apply respondError_response|]. left. by eapply get_not_issued. }
  destruct H as (now & tr3 & -> & H). cbn -[runs] in H.
  apply (runs_bind _ (st_RecordChallenge (d_Challenges d) _)) in H as (tr4 & tr5 & x & -> & Hr & H).
  exists (tr1 ++ Ev (S := Server) TimeNow now :: tr4), tr5. destruct x as [[]|e].
  - eexists. split; [by rewrite <-app_assoc|]. split; [by apply writeJSON_response|]. right. exists issued.
    split; [|done]. by exists memo, now, tr1, tr4.
  - eexists. split; [by rewrite <-app_assoc|]. split; [by apply respondStoreError_response|].
    left. by eapply get_not_recorded.
Qed.

(** *** What fails is answered with a public text *)

Lemma internal_error_wire : error_wire (wire_json 500 (errorBody "internal server error")).
Proof. apply wire_json_error; [by apply (list_elem_of_lookup_2 _ 13)|by apply (list_elem_of_lookup_2 _ 3)]. Qed.

Lemma bad_request_wire text : text ∈ public_texts → error_wire (wire_json 400 (errorBody text)).
Proof. intros Ht. apply wire_json_error; [done|apply list_elem_of_here]. Qed.

#[local] Hint Resolve internal_error_wire protocol_answer_error store_answer_error : core.

Lemma post_failed_error d r work sb : post_failed d r work sb → error_wire sb.
Proof.
  intros [text Hf| | |? ? ? ? ? ? ? ? _ _ _ Hv]; [|done|done|].
  - by eapply bad_request_wire, readTransactionField_err.
  - destruct Hv as [| |? ? ? ? _ _ _ Hm]; [done|done|]. by destruct Hm.
Qed.

Lemma get_failed_error d r work sb : get_failed d r work sb → error_wire sb.
Proof.
  intros [|text _ Hm| |]; try done; apply bad_request_wire; unfold public_texts; apply elem_of_app; right.
  - set_solver.
  - unfold parseMemo in Hm. inv_body Hm. subst text. set_solver.
Qed.

(** *** Dependencies that do not write to the response, which they are not given *)

Abbreviation silent := (λ o : server_op, writes o = false).
Abbreviation silently tr := (Forall (λ ev : event Server, writes (ev_op ev) = false) tr).

Record silent_deps d : Prop := {
  silent_resolver domain : all_ops (S := Server) silent (Challenge.resolver (d_Issuer d) domain);
  silent_accounts a : all_ops (S := Server) silent (d_Accounts d a);
  silent_record rec : all_ops (S := Server) silent (st_RecordChallenge (d_Challenges d) rec);
  silent_consume n now : all_ops (S := Server) silent (st_ConsumeChallenge (d_Challenges d) n now);
  silent_session rec : all_ops (S := Server) silent (st_RecordSession (d_Challenges d) rec);
}.

Lemma runs_silently {A} (p : prog Server A) tr a :
  all_ops (S := Server) silent p → runs p tr a → silently tr.
Proof. intros Hp Hr. exact (runs_all_ops (S := Server) silent p tr a Hr Hp). Qed.

Context {d : Deps} (Hd : silent_deps d).

Lemma VerifyClient_silent c : all_ops (S := Server) silent (VerifyClient keys c (d_NetworkPassphrase d) (d_Accounts d)).
Proof.
  unfold VerifyClient. destruct (baseAccountID _); [|done].
  apply (all_ops_bind (S := Server)); [apply (silent_accounts _ Hd)|done].
Qed.

Lemma Issue_silent req : all_ops (S := Server) silent (Challenge.Issue BuildChallengeTx (d_Issuer d) req).
Proof.
  unfold Challenge.Issue. destruct (Challenge.check_request _ req); [|done].
  apply (all_ops_bind_result (S := Server)); [|by intros key].
  unfold Challenge.resolve_client_domain. destruct (_ <>s _); [|by destruct (Challenge.ClientDomainRequired _)].
  apply (all_ops_bind (S := Server)); [apply (silent_resolver _ Hd)|done].
Qed.

Lemma mint_failed_silent c consumed now work sb : mint_failed d c consumed now work sb → silently work.
Proof. intros [| |? ? ? ? _ _ H]; [done|done|]. by eapply runs_silently, H; apply silent_session. Qed.

Lemma verification_failed_silent c consumed now work sb :
  verification_failed d c consumed now work sb → silently work.
Proof.
  intros [|? ? _ _ H|? ? ? ? _ _ H Hm]; [done| |apply Forall_app; split].
  - by eapply runs_silently, H; apply VerifyClient_silent.
  - by eapply runs_silently, H; apply VerifyClient_silent.
  - by eapply mint_failed_silent.
Qed.

Lemma post_failed_silent r work sb : post_failed d r work sb → silently work.
Proof.
  intros [|? ? ? _ _|? ? ? ? ? ? _ _ H|? ? ? ? ? ? ? ? _ _ H Hv]; repeat apply Forall_cons_2; try done.
  - by eapply runs_silently, H; apply silent_consume.
  - apply Forall_app. split; [by eapply runs_silently, H; apply silent_consume|].
    by eapply verification_failed_silent.
Qed.

Lemma authenticated_silent r work c consumed now signed :
  authenticated d r work c consumed now signed → silently work.
Proof.
  intros (envelope & reading & found & jti & tr1 & tr2 & tr3 & _ & _ & H1 & _ & _ & H2 & _ & _ & H3 & ->).
  repeat apply Forall_cons_2; try done. rewrite !Forall_app. split_and!.
  - by eapply runs_silently, H1; apply silent_consume.
  - by eapply runs_silently, H2; apply VerifyClient_silent.
  - by eapply runs_silently, H3; apply silent_session.
Qed.

Lemma challenge_issued_silent r work issued : challenge_issued d r work issued → silently work.
Proof.
  intros (memo & now & tr1 & tr2 & _ & -> & H1 & H2). rewrite Forall_app, Forall_cons. split_and!; [|done|].
  - by eapply runs_silently, H1; apply Issue_silent.
  - by eapply runs_silently, H2; apply silent_record.
Qed.

Lemma get_failed_silent r work sb : get_failed d r work sb → silently work.
Proof.
  intros [| |? ? ? _ _ H|? ? ? ? ? ? _ _ H1 H2]; try done.
  - by eapply runs_silently, H; apply Issue_silent.
  - rewrite Forall_app, Forall_cons. split_and!; [|done|].
    + by eapply runs_silently, H1; apply Issue_silent.
    + by eapply runs_silently, H2; apply silent_record.
Qed.
End outcomes.

(** ** Properties *)

Section properties.
Context {Sd : SDK} {J : Token.JWT} {WL : WebLib}.

(** POST /auth answers exactly once, with a token only to a client it
    authenticated, and with the error of the first step that failed otherwise.
    With dependencies that do not write to the response (they are not given it),
    every run of the handler does some work that writes nothing of the response
    and then writes one response, a status line and a body, and nothing more.
    Either the work is that of a POST that fails, at the step, after the work
    and with the status and text that [post_failed] lists, an answer whose text
    is from a fixed list; or the handler read the challenge, consumed its nonce,
    found the stored account and client domain to be those of the envelope,
    verified the signatures, minted the token for that account, memo and client
    domain and recorded the session, in this order, and the answer is the token. (claim C11) *)
Theorem postAuthHandler_outcome keys d r tr :
  silent_deps d →
  runs (postAuthHandler keys d r) tr tt →
  ∃ work out status body, tr = work ++ out ∧
    Forall (λ ev : event Server, writes (ev_op ev) = false) work ∧ response out status body ∧
    (post_failed keys d r work (status, body) ∧ error_wire (status, body) ∨
     ∃ c consumed now signed, authenticated keys d r work c consumed now signed ∧
       (status, body) = wire_json 200 (tokenResponse signed)).
Proof.
  intros Hd (work & out & [status body] & -> & Hr & HQ)%postAuthHandler_runs.
  exists work, out, status, body. split; [done|]. split; [|split; [done|]].
  - destruct HQ as [HQ|(c & consumed & now & signed & HQ & _)];
      [by eapply post_failed_silent|by eapply authenticated_silent].
  - destruct HQ as [HQ|HQ]; [left|by right]. split; [done|by eapply post_failed_error].
Qed.

(** GET /auth answers exactly once, with a challenge only after recording it,
    and with the error of the first step that failed otherwise.  With
    dependencies that do not write to the response, every run does some work
    that writes nothing of it and then writes one response.  Either the account
    is missing, the memo is no number, the issuer refused or the store did, and
    the answer is the one [get_failed] lists for it, with a text from a fixed
    list; or the answer is a challenge that was issued for the account, memo,
    home domain and client domain of the query and whose nonce the store
    acknowledged, with the account, domains and expiry issued, before the
    response is written. (claim C12) *)
Theorem getAuthHandler_outcome d r tr :
  silent_deps d →
  runs (getAuthHandler d r) tr tt →
  ∃ work out status body, tr = work ++ out ∧
    Forall (λ ev : event Server, writes (ev_op ev) = false) work ∧ response out status body ∧
    (get_failed d r work (status, body) ∧ error_wire (status, body) ∨
     ∃ issued, challenge_issued d r work issued ∧
       (status, body) = wire_json 200 (challengeResponse (Challenge.TransactionXDR issued)
                                         (Challenge.ic_NetworkPassphrase issued))).
Proof.
  intros Hd (work & out & [status body] & -> & Hr & HQ)%getAuthHandler_runs.
  exists work, out, status, body. split; [done|]. split; [|split; [done|]].
  - destruct HQ as [HQ|(issued & HQ & _)]; [by eapply get_failed_silent|by eapply challenge_issued_silent].
  - destruct HQ as [HQ|HQ]; [left|by right]. split; [done|by eapply get_failed_error].
Qed.

(** The status of each class: an error of one class is answered with that
    class's text and status, 400 for a bad request, 401 for a failed
    verification and 503 for a failed lookup; an error of no class is a 500
    from the protocol's steps and a 503 from the store's.  No class but a
    missing account is without a status of its own. *)
Theorem classify_exact e s :
  only_class s e →
  let answer status := wire_json status (errorBody (sentinel_text s)) in
  match s with
  | ErrInvalidAccount | ErrMemoWithMuxed | ErrUnknownHomeDomain | ErrClientDomainRequired
  | ErrClientDomainRejected =>
      protocol_answer e = answer 400 ∧ store_answer e = answer 400
  | ErrChallengeMalformed | ErrChallengeUnknown | ErrChallengeConsumed | ErrChallengeExpired
  | ErrSignatureUnrecognized | ErrThresholdNotMet | ErrClientDomainUnverified =>
      protocol_answer e = answer 401 ∧ store_answer e = answer 401
  | ErrAccountLookupFailed =>
      protocol_answer e = answer 503 ∧ store_answer e = answer 503
  | ErrAccountNotFound | ErrTokenInvalid | ErrTokenExpired =>
      protocol_answer e = wire_json 500 (errorBody "internal server error") ∧
      store_answer e = wire_json 503 (errorBody "service unavailable")
  end.
Proof.
  intros He. assert (Hc : classify e = classify (Sentinel s)).
  { unfold classify. induction sentinelStatus as [|entry table IH]; [done|]. cbn [classify_in].
    rewrite (He entry.1), IH. done. }
  unfold protocol_answer, store_answer. rewrite Hc. clear He Hc. destruct s; split; reflexivity.
Qed.

Lemma classify_exact_witness :
  let e := wrap ErrThresholdNotMet "%w: matched weight %d against threshold %d" [Num 1; Num 2] in
  protocol_answer e = wire_json 401 (errorBody "signature weight does not meet the account threshold") ∧
  store_answer e = wire_json 401 (errorBody "signature weight does not meet the account threshold").
Proof. apply (classify_exact _ ErrThresholdNotMet), only_class_wrap. Defined.

(** A memo survives the query string and the session row. *)
Lemma parseMemo_memoString m :
  (∀ v, m = Some v → 0 ≤ v ≤ uint64_max) → parseMemo (memoString (memoValue m)) = Ok m.
Proof.
  intros Hm. unfold parseMemo, memoString, memoValue. destruct m as [v|]; [|done].
  pose proof (ParseUint_FormatUint v (Hm v eq_refl)) as H.
  case_bool_decide as He; [by rewrite He in H|]. by rewrite H.
Qed.

(** GET /health says nothing of the error it got. *)
Lemma healthHandler_outcome pinger r tr :
  runs (healthHandler pinger r) tr tt →
  ∃ work out x, tr = work ++ out ∧ runs pinger work x ∧
    response out (wire_json (if is_ok x then 200 else 503)
                    (if is_ok x then healthResponse "ok" "ok"
                     else healthResponse "degraded" "unavailable")).1
                 (wire_json (if is_ok x then 200 else 503)
                    (if is_ok x then healthResponse "ok" "ok"
                     else healthResponse "degraded" "unavailable")).2.
Proof.
  unfold healthHandler. rewrite runs_bind. intros (work & out & x & -> & Hp & H).
  exists work, out, x. split; [done|]. split; [done|]. destruct x as [u|e]; simpl in *.
  - by apply writeJSON_response in H.
  - destruct H as ([] & tr1 & -> & H). by apply response_log, writeJSON_response.
Qed.
End properties.
