(* ===== verification/Binary64.v ===== *)
(** * float64

    Go's [float64] for the rate limiter, as a class of operations with laws, and
    IEEE 754 double precision as its instance: an operation is the exact
    rational result, rounded to the nearest double, ties to even.  Infinities
    and NaN are left out: the limiter divides by 60 and 10^9 only, and its
    numbers stay below 2^64. *)

From Stdlib Require Import QArith Qround Qpower Lqa SpecFloat.
From S2P Require Import Prelude.
Open Scope Z_scope.

Class Float64 := {
  F : Type;
  of_int : Z → F;                 (* float64(n) *)
  fadd : F → F → F;
  fsub : F → F → F;
  fmul : F → F → F;
  fdiv : F → F → F;
  flt : F → F → bool;
}.

(** What the theorems need of the arithmetic: a value is a rational; comparisons
    are exact, so are small integers, multiplication by one and the operations
    on zero; adding and dividing nonnegative numbers of the limiter's range is
    off by [eps] at most, and rounding never takes a sum below one of its
    terms, nor a sum or quotient across zero, nor a quotient of the limiter's
    range to zero. *)
Class FloatLaws (FL : Float64) := {
  val : F → Q;
  eps : Q;
  eps_range : (0 <= eps <= 1)%Q;
  lt_spec a b : flt a b = true ↔ (val a < val b)%Q;
  of_int_val n : Z.abs n ≤ 2^53 → (val (of_int n) == inject_Z n)%Q;
  add_ge a b : (0 <= val a → 0 <= val b → val a <= val (fadd a b) /\ val b <= val (fadd a b))%Q;
  add_le a b : (0 <= val a → 0 <= val b → val a + val b <= 128 →
                val (fadd a b) <= val a + val b + eps)%Q;
  add_zero a b : (val a == 0 → val b == 0 → val (fadd a b) == 0)%Q;
  add_nonpos a b : (val a <= 0 → val b <= 0 → val (fadd a b) <= 0)%Q;
  div_nonneg a b : (0 <= val a → 0 < val b → 0 <= val (fdiv a b))%Q;
  div_le a b : (0 <= val a → 0 < val b → val a <= val b →
                val (fdiv a b) <= val a / val b + eps)%Q;
  div_pos a b : (1 <= val a → 0 < val b → val b <= inject_Z (2^30) → 0 < val (fdiv a b))%Q;
  div_nonpos a b : (val a <= 0 → 0 < val b → val (fdiv a b) <= 0)%Q;
  div_zero a b : (val a == 0 → 0 < val b → val (fdiv a b) == 0)%Q;
  div_self a : (0 < val a → val (fdiv a a) == 1)%Q;
  mul_one a b : (val b == 1 → val (fmul a b) == val a)%Q;
  sub_one a : (1 <= val a → val a <= 128 →
               0 <= val (fsub a (of_int 1)) /\ val (fsub a (of_int 1)) <= val a - 1 + eps)%Q;
}.

(** ** Doubles *)

(** [m * 2^e] is a double when its mantissa takes 53 bits and its exponent is
    not below that of the subnormals. *)
Definition fits (m e : Z) : bool := (Z.abs m <=? 2^53) && (-1074 <=? e).

Record double : Type := MkDouble { mant : Z; expo : Z; double_fits : fits mant expo = true }.

Definition value (d : double) : Q := (inject_Z (mant d) * 2 ^ expo d)%Q.

(** The nearest integer, ties to even. *)
Definition nearest (x : Q) : Z :=
  let a := Qfloor x in
  match Qcompare (x - inject_Z a) (1 # 2) with
  | Lt => a
  | Gt => a + 1
  | Eq => if Z.even a then a else a + 1
  end.

(** The exponent of the leading bit of a positive rational. *)
Definition magnitude (q : Q) : Z :=
  let k := Z.log2 (Qnum q) - Z.log2 (Zpos (Qden q)) in
  if Qle_bool (2 ^ k) q then k else k - 1.

(** The exponent of its last bit as a double. *)
Definition exponent (q : Q) : Z := Z.max (-1074) (magnitude q - 52).

Definition round_abs (q : Q) : Z * Z :=
  let e := exponent q in (nearest (q * 2 ^ (- e)), e).

Definition round_parts (q : Q) : Z * Z :=
  if Qle_bool 0 q then round_abs q
  else let '(m, e) := round_abs (- q) in (- m, e).

(** *** The nearest integer *)

Lemma nearest_floor x : nearest x = Qfloor x ∨ nearest x = Qfloor x + 1.
Proof.
  unfold nearest. destruct (Qcompare _ _); [|auto|auto]. destruct (Z.even _); auto.
Qed.

Lemma nearest_near x : (inject_Z (nearest x) <= x + (1 # 2))%Q.
Proof.
  unfold nearest. pose proof (Qfloor_le x).
  destruct (Qcompare_spec (x - inject_Z (Qfloor x)) (1 # 2)) as [Hc|Hc|Hc];
    [destruct (Z.even _)|..]; rewrite ?inject_Z_plus; change (inject_Z 1) with 1%Q; lra.
Qed.

Lemma nearest_ge n x : (inject_Z n <= x)%Q → n ≤ nearest x.
Proof.
  intros H%Qfloor_resp_le. rewrite Qfloor_Z in H. destruct (nearest_floor x) as [->| ->]; lia.
Qed.

Lemma nearest_le n x : (x <= inject_Z n)%Q → nearest x ≤ n.
Proof.
  intros H. pose proof (Qfloor_resp_le _ _ H) as Hf. rewrite Qfloor_Z in Hf.
  destruct (Z.eq_dec (Qfloor x) n) as [He|]; [|destruct (nearest_floor x) as [->| ->]; lia].
  pose proof (Qfloor_le x) as Hx. unfold nearest. rewrite He in Hx |- *.
  destruct (Qcompare_spec (x - inject_Z n) (1 # 2)) as [Hc|Hc|Hc]; [lra|lia|lra].
Qed.

(** *** Powers of two *)

Lemma pow2_pos e : (0 < 2 ^ e)%Q.
Proof. by apply Qpower_0_lt. Qed.

Lemma pow2_plus a b : (2 ^ (a + b) == 2 ^ a * 2 ^ b)%Q.
Proof. by apply Qpower_plus. Qed.

Lemma pow2_le a b : a ≤ b → (2 ^ a <= 2 ^ b)%Q.
Proof. intros H. by apply Qpower_le_compat_l. Qed.

Lemma pow2_Z e : 0 ≤ e → (inject_Z (2 ^ e) == 2 ^ e)%Q.
Proof. intros H. by rewrite Zpower_Qpower. Qed.

(** Scaling by a power of two and back. *)
Lemma unscale x e : (x * 2 ^ (- e) * 2 ^ e == x)%Q.
Proof. rewrite <-Qmult_assoc, <-pow2_plus. replace (- e + e) with 0 by lia. apply Qmult_1_r. Qed.

Lemma scaled_le x y e : (x * 2 ^ (- e) <= y ↔ x <= y * 2 ^ e)%Q.
Proof. rewrite <-(Qmult_le_r _ _ _ (pow2_pos e)), unscale. done. Qed.

Lemma scaled_ge x y e : (y <= x * 2 ^ (- e) ↔ y * 2 ^ e <= x)%Q.
Proof. rewrite <-(Qmult_le_r _ _ _ (pow2_pos e)), unscale. done. Qed.

(** *** The exponent *)

Lemma magnitude_spec q : (0 < q)%Q → (2 ^ magnitude q <= q)%Q ∧ (q < 2 ^ (magnitude q + 1))%Q.
Proof.
  intros Hq. destruct q as [n d]. assert (Hn : 0 < n) by (unfold Qlt in Hq; simpl in Hq; lia).
  pose proof (Z.log2_spec n Hn) as [Hn1 Hn2]. pose proof (Z.log2_spec (Zpos d) eq_refl) as [Hd1 Hd2].
  pose proof (Z.log2_nonneg n). pose proof (Z.log2_nonneg (Zpos d)).
  unfold magnitude. simpl Qnum. simpl Qden. set (a := Z.log2 n) in *. set (b := Z.log2 (Zpos d)) in *.
  assert (Hq' : (n # d == inject_Z n / inject_Z (Zpos d))%Q) by apply Qmake_Qdiv.
  assert (Hpos : (0 < inject_Z (Zpos d))%Q) by (unfold Qlt; simpl; lia).
  assert (Hlo : (2 ^ (a - b - 1) <= n # d)%Q).
  { rewrite Hq'. apply Qle_shift_div_l; [done|].
    apply Qle_trans with (2 ^ (a - b - 1) * 2 ^ (b + 1))%Q.
    - apply Qmult_le_l; [apply pow2_pos|]. rewrite <-pow2_Z by lia. rewrite <-Zle_Qle. lia.
    - rewrite <-pow2_plus. replace (a - b - 1 + (b + 1)) with a by lia. rewrite <-pow2_Z by lia.
      rewrite <-Zle_Qle. lia. }
  assert (Hhi : (n # d < 2 ^ (a - b + 1))%Q).
  { rewrite Hq'. apply Qlt_shift_div_r; [done|].
    apply Qlt_le_trans with (2 ^ (a + 1))%Q.
    - rewrite <-pow2_Z by lia. rewrite <-Zlt_Qlt. lia.
    - replace (a + 1) with (a - b + 1 + b) by lia. rewrite (pow2_plus (a - b + 1)).
      apply Qmult_le_l; [apply pow2_pos|]. rewrite <-pow2_Z by lia. rewrite <-Zle_Qle. lia. }
  destruct (Qle_bool (2 ^ (a - b)) (n # d)) eqn:Hk.
  - apply Qle_bool_iff in Hk. by split.
  - split; [done|]. replace (a - b - 1 + 1) with (a - b) by lia. apply Qnot_le_lt. intros Hle.
    apply Qle_bool_iff in Hle. congruence.
Qed.

(** A positive rational lies below [2^53] units of its last bit, and, unless it is
    subnormal, at [2^52] or above. *)
Lemma exponent_spec q :
  (0 < q)%Q →
  (q <= inject_Z (2 ^ 53) * 2 ^ exponent q)%Q ∧ -1074 <= exponent q ∧
  (exponent q = -1074 ∨ (inject_Z (2 ^ 52) * 2 ^ exponent q <= q)%Q).
Proof.
  intros [Hlo Hhi]%magnitude_spec. unfold exponent. rewrite !pow2_Z, <-!pow2_plus by lia. split_and!.
  - apply Qlt_le_weak, Qlt_le_trans with (1 := Hhi). apply pow2_le. lia.
  - lia.
  - destruct (Z.le_gt_cases (magnitude q - 52) (-1074)); [left; lia|right].
    replace (52 + _) with (magnitude q) by lia. done.
Qed.

(** *** Rounding *)

Definition scale (me : Z * Z) : Q := (inject_Z me.1 * 2 ^ me.2)%Q.

(** A double on the grid of a finer exponent, and below that of a coarser one. *)
Lemma on_grid m e x : x ≤ e → (inject_Z m * 2 ^ e == inject_Z (m * 2 ^ (e - x)) * 2 ^ x)%Q.
Proof.
  intros Hx. rewrite inject_Z_mult, pow2_Z, <-Qmult_assoc, <-pow2_plus by lia.
  by replace (e - x + x) with e by lia.
Qed.

Lemma below_grid m e x : Z.abs m ≤ 2 ^ 53 → e < x → (inject_Z m * 2 ^ e <= inject_Z (2 ^ 52) * 2 ^ x)%Q.
Proof.
  intros Hm Hx. apply Qle_trans with (inject_Z (2 ^ 53) * 2 ^ e)%Q.
  { apply Qmult_le_compat_r; [rewrite <-Zle_Qle; lia|apply Qlt_le_weak, pow2_pos]. }
  rewrite !pow2_Z, <-!pow2_plus by lia. apply pow2_le. lia.
Qed.

(** A nonnegative rational is rounded between the doubles around it. *)
Lemma round_abs_ge m e q :
  fits m e = true → (0 <= q)%Q → (scale (m, e) <= q)%Q → (scale (m, e) <= scale (round_abs q))%Q.
Proof.
  unfold scale. cbn [fst snd]. intros [Hm He]%andb_true_iff Hq Hle. apply Z.leb_le in Hm, He.
  unfold round_abs. cbn [fst snd]. set (x := exponent q).
  destruct (Z.le_gt_cases x e) as [Hx|Hx].
  - rewrite (on_grid m e x Hx) in Hle |- *. apply Qmult_le_compat_r; [|apply Qlt_le_weak, pow2_pos].
    rewrite <-Zle_Qle. apply nearest_ge. by apply scaled_ge.
  - apply Qle_lteq in Hq as [Hq|Hq].
    + destruct (exponent_spec q Hq) as (_ & _ & [Hs|Hs]); [unfold x in Hx; lia|]. fold x in Hs.
      apply Qle_trans with (inject_Z (2 ^ 52) * 2 ^ x)%Q.
      * by apply below_grid.
      * apply Qmult_le_compat_r; [|apply Qlt_le_weak, pow2_pos].
        rewrite <-Zle_Qle. apply nearest_ge. by apply scaled_ge.
    + apply Qle_trans with 0%Q; [by rewrite Hq|].
      apply Qmult_le_0_compat; [|apply Qlt_le_weak, pow2_pos].
      rewrite <-(Zle_Qle 0). apply nearest_ge. apply scaled_ge. rewrite <-Hq.
      change (inject_Z 0) with 0%Q. rewrite Qmult_0_l. apply Qle_refl.
Qed.

Lemma round_abs_le m e q :
  fits m e = true → (0 <= q)%Q → (q <= scale (m, e))%Q → (scale (round_abs q) <= scale (m, e))%Q.
Proof.
  unfold scale. cbn [fst snd]. intros [Hm He]%andb_true_iff Hq Hle. apply Z.leb_le in Hm, He.
  unfold round_abs. cbn [fst snd]. set (x := exponent q).
  destruct (Z.le_gt_cases x e) as [Hx|Hx].
  - rewrite (on_grid m e x Hx) in Hle |- *. apply Qmult_le_compat_r; [|apply Qlt_le_weak, pow2_pos].
    rewrite <-Zle_Qle. apply nearest_le. by apply scaled_le.
  - apply Qle_lteq in Hq as [Hq|Hq].
    + destruct (exponent_spec q Hq) as (_ & _ & [Hs|Hs]); [unfold x in Hx; lia|]. fold x in Hs.
      assert (Hf : (inject_Z m * 2 ^ e <= inject_Z (2 ^ 52) * 2 ^ x)%Q)
        by (by apply below_grid).
      apply Qle_trans with (inject_Z (2 ^ 52) * 2 ^ x)%Q; [|lra].
      apply Qmult_le_compat_r; [|apply Qlt_le_weak, pow2_pos].
      rewrite <-Zle_Qle. apply nearest_le. apply scaled_le. lra.
    + apply Qle_trans with 0%Q; [|by rewrite Hq].
      rewrite <-(Qmult_0_l (2 ^ x)). apply Qmult_le_compat_r; [|apply Qlt_le_weak, pow2_pos].
      rewrite <-(Zle_Qle _ 0). apply nearest_le. apply scaled_le. rewrite <-Hq.
      change (inject_Z 0) with 0%Q. rewrite Qmult_0_l. apply Qle_refl.
Qed.

Lemma round_abs_near q : (0 <= q <= 128)%Q → (scale (round_abs q) <= q + 2 ^ (-46))%Q.
Proof.
  intros [Hq Hq']. apply Qle_trans with (q + (1 # 2) * 2 ^ exponent q)%Q.
  - unfold scale, round_abs. cbn [fst snd]. set (e := exponent q).
    apply Qle_trans with ((q * 2 ^ (- e) + (1 # 2)) * 2 ^ e)%Q.
    + apply Qmult_le_compat_r; [apply nearest_near|apply Qlt_le_weak, pow2_pos].
    + rewrite Qmult_plus_distr_l, unscale. apply Qle_refl.
  - apply Qplus_le_r. change (1 # 2)%Q with (2 ^ (-1))%Q. rewrite <-pow2_plus. apply pow2_le.
    unfold exponent. apply Qle_lteq in Hq as [Hq|Hq].
    + apply magnitude_spec in Hq as [Hm _].
      assert (magnitude q ≤ 7); [|lia]. apply (Qpower_le_compat_l_inv 2); [|done].
      by apply Qle_trans with q.
    + unfold magnitude. assert (Qnum q = 0) as ->.
      { unfold Qeq in Hq. simpl in Hq. lia. }
      pose proof (Z.log2_nonneg (Zpos (Qden q))). simpl (Z.log2 0). destruct (Qle_bool _ _); lia.
Qed.

Lemma round_abs_fits q : (0 <= q)%Q → fits (round_abs q).1 (round_abs q).2 = true.
Proof.
  intros Hq. unfold fits. apply andb_true_iff. rewrite !Z.leb_le. unfold round_abs. cbn [fst snd].
  assert (H0 : 0 ≤ nearest (q * 2 ^ (- exponent q))).
  { apply nearest_ge, scaled_ge. change (inject_Z 0) with 0%Q. by rewrite Qmult_0_l. }
  split; [|unfold exponent; lia]. rewrite Z.abs_eq by done. apply nearest_le, scaled_le.
  apply Qle_lteq in Hq as [Hq|Hq]; [by apply exponent_spec|].
  apply Qle_trans with 0%Q; [by rewrite <-Hq|]. apply Qmult_le_0_compat; [done|apply Qlt_le_weak, pow2_pos].
Qed.

Lemma round_parts_fits q : fits (round_parts q).1 (round_parts q).2 = true.
Proof.
  unfold round_parts. destruct (Qle_bool 0 q) eqn:Hq.
  - apply round_abs_fits. by apply Qle_bool_iff.
  - assert (Hn : (0 <= - q)%Q).
    { assert (¬ (0 <= q)%Q) as Hlt%Qnot_le_lt by (rewrite <-Qle_bool_iff; congruence). lra. }
    pose proof (round_abs_fits _ Hn) as H. destruct (round_abs (- q)) as [m e]. simpl in *.
    unfold fits in *. by rewrite Z.abs_opp.
Qed.

Definition round (q : Q) : double := MkDouble (round_parts q).1 (round_parts q).2 (round_parts_fits q).

Lemma round_nonneg q : (0 <= q)%Q → value (round q) = scale (round_abs q).
Proof. intros Hq%Qle_bool_iff. unfold value, round, round_parts. simpl. by rewrite Hq. Qed.

Lemma round_neg q : (q < 0)%Q → (value (round q) == - scale (round_abs (- q)))%Q.
Proof.
  intros Hq. unfold value, round, round_parts. cbn [mant expo].
  assert (Qle_bool 0 q = false) as ->.
  { apply not_true_is_false. rewrite Qle_bool_iff. lra. }
  destruct (round_abs (- q)) as [m e]. unfold scale. cbn [fst snd]. rewrite inject_Z_opp. ring.
Qed.

(** A double is its own rounding. *)
Lemma round_exact (d : double) q : (q == value d)%Q → (value (round q) == value d)%Q.
Proof.
  destruct d as [m e Hd]. unfold value at 1 3. cbn [mant expo]. intros Hq.
  destruct (Qlt_le_dec q 0) as [Hn|Hn].
  - rewrite round_neg by done.
    assert (Hd' : fits (- m) e = true) by (unfold fits in *; by rewrite Z.abs_opp).
    assert (Hs : (- q == scale ((- m)%Z, e))%Q) by (unfold scale; cbn [fst snd]; rewrite inject_Z_opp, Hq; ring).
    assert (H : (scale (round_abs (- q)) == scale ((- m)%Z, e))%Q).
    { apply Qle_antisym; [apply round_abs_le|apply round_abs_ge]; try done; lra. }
    rewrite H. unfold scale. cbn [fst snd]. rewrite inject_Z_opp. ring.
  - rewrite round_nonneg by done. change (inject_Z m * 2 ^ e)%Q with (scale (m, e)) in *.
    apply Qle_antisym; [apply round_abs_le|apply round_abs_ge]; try done; lra.
Qed.

Lemma round_ge (d : double) q : (0 <= q)%Q → (value d <= q)%Q → (value d <= value (round q))%Q.
Proof. intros Hq H. rewrite round_nonneg by done. destruct d as [m e Hd]. by apply round_abs_ge. Qed.

Lemma round_near q : (0 <= q <= 128)%Q → (value (round q) <= q + 2 ^ (-46))%Q.
Proof. intros Hq. rewrite round_nonneg by lra. by apply round_abs_near. Qed.

(** ** The instance *)

#[global] Instance binary64 : Float64 := {|
  F := double;
  of_int n := round (inject_Z n);
  fadd a b := round (value a + value b);
  fsub a b := round (value a - value b);
  fmul a b := round (value a * value b);
  fdiv a b := round (value a / value b);
  flt a b := negb (Qle_bool (value b) (value a));
|}.

(** Zero and the integers of 53 bits are doubles. *)
Definition of_small (n : Z) (Hn : fits n 0 = true) : double := MkDouble n 0 Hn.

Lemma of_small_value n Hn : (value (of_small n Hn) == inject_Z n)%Q.
Proof. unfold value. cbn [of_small mant expo]. apply Qmult_1_r. Qed.

Lemma round_int n q : Z.abs n ≤ 2^53 → (q == inject_Z n)%Q → (value (round q) == inject_Z n)%Q.
Proof.
  intros Hn Hq. assert (Hf : fits n 0 = true) by (unfold fits; apply andb_true_iff; by rewrite !Z.leb_le).
  rewrite <-(of_small_value n Hf). apply round_exact. by rewrite of_small_value.
Qed.

Lemma round_pos q : (0 <= q)%Q → (0 <= value (round q))%Q.
Proof.
  intros Hq. assert (Hz : (value (of_small 0 eq_refl) == 0)%Q) by apply of_small_value.
  rewrite <-Hz. apply round_ge; [done|by rewrite Hz].
Qed.

Lemma round_nonpos q : (q <= 0)%Q → (value (round q) <= 0)%Q.
Proof.
  intros Hq. destruct (Qlt_le_dec q 0) as [Hn|Hn].
  - rewrite round_neg by done.
    assert (H : (scale (0%Z, 0%Z) <= scale (round_abs (- q)))%Q).
    { apply round_abs_ge; [done|lra|]. unfold scale. cbn [fst snd]. change (inject_Z 0) with 0%Q. lra. }
    unfold scale at 1 in H. cbn [fst snd] in H. change (inject_Z 0) with 0%Q in H. lra.
  - assert (Hz : (value (round q) == inject_Z 0)%Q)
      by (apply round_int; [done|change (inject_Z 0) with 0%Q; lra]).
    rewrite Hz. apply Qle_refl.
Qed.

(** A rational that is not tiny is not rounded to zero. *)
Lemma round_away q : (2 ^ (-30) <= q)%Q → (0 < value (round q))%Q.
Proof.
  intros Hq. assert (Hd : (value (MkDouble 1 (-30) eq_refl) == 2 ^ (-30))%Q) by reflexivity.
  apply Qlt_le_trans with (2 ^ (-30))%Q; [reflexivity|]. rewrite <-Hd.
  apply round_ge; [|by rewrite Hd]. apply Qle_trans with (2 ^ (-30))%Q; [by vm_compute|done].
Qed.

Lemma quotient_range a b : (0 <= a → 0 < b → a <= b → 0 <= a / b <= 128)%Q.
Proof. intros Ha Hb H. split; [apply Qle_shift_div_l; lra|apply Qle_shift_div_r; lra]. Qed.

#[global] Instance binary64_laws : FloatLaws binary64.
Proof.
  refine {| val := value : F → Q; eps := (2 ^ (-46))%Q |}; cbn [of_int fadd fsub fmul fdiv flt binary64].
  - split; by vm_compute.
  - intros a b. rewrite negb_true_iff, <-not_true_iff_false, Qle_bool_iff. split; [apply Qnot_le_lt|apply Qlt_not_le].
  - intros n Hn. by apply round_int.
  - intros a b Ha Hb. split; apply round_ge; lra.
  - intros a b Ha Hb H. apply round_near. lra.
  - intros a b Ha Hb. apply (round_int 0); [done|]. rewrite Ha, Hb. reflexivity.
  - intros a b Ha Hb. apply round_nonpos. lra.
  - intros a b Ha Hb. apply round_pos. apply Qle_shift_div_l; lra.
  - intros a b Ha Hb H. by apply round_near, quotient_range.
  - intros a b Ha Hb H. apply round_away. apply Qle_shift_div_l; [done|].
    apply Qle_trans with (2 ^ (-30) * inject_Z (2 ^ 30))%Q; [|apply Qle_trans with 1%Q; [by vm_compute|done]].
    apply Qmult_le_l; [reflexivity|done].
  - intros a b Ha Hb. apply round_nonpos. apply Qle_shift_div_r; lra.
  - intros a b Ha Hb. apply (round_int 0); [done|]. rewrite Ha. unfold Qdiv. apply Qmult_0_l.
  - intros a Ha. apply (round_int 1); [done|]. apply Qmult_inv_r. lra.
  - intros a b Hb. apply round_exact. rewrite Hb. apply Qmult_1_r.
  - intros a Ha Ha'. assert (Hone : (value (round (inject_Z 1)) == 1)%Q) by (by apply (round_int 1)).
    split; [apply round_pos; lra|]. apply Qle_trans with (value a - value (round (inject_Z 1)) + 2 ^ (-46))%Q.
    + apply round_near. lra.
    + rewrite Hone. apply Qle_refl.
Defined.

(** ** The Standard Library's double precision

    [SpecFloat] defines the operations of IEEE 754 on bits.  Both definitions
    agree on a table of sums, differences, products and quotients. *)

Definition spec_float64 : Float64 := {|
  F := spec_float;
  of_int n := binary_normalize 53 1024 n 0 false;
  fadd := SFadd 53 1024; fsub := SFsub 53 1024; fmul := SFmul 53 1024; fdiv := SFdiv 53 1024;
  flt := SFltb;
|}.

Definition to_spec (d : double) : spec_float := binary_normalize 53 1024 (mant d) (expo d) false.

Definition same (d : double) (s : spec_float) : bool :=
  match to_spec d, s with
  | S754_zero _, S754_zero _ => true
  | S754_finite b1 m1 e1, S754_finite b2 m2 e2 => Bool.eqb b1 b2 && (m1 =? m2)%positive && (e1 =? e2)
  | _, _ => false
  end.

Definition agree_on (x y : double) : bool :=
  same (fadd (Float64 := binary64) x y) (fadd (Float64 := spec_float64) (to_spec x) (to_spec y)) &&
  same (fsub (Float64 := binary64) x y) (fsub (Float64 := spec_float64) (to_spec x) (to_spec y)) &&
  same (fmul (Float64 := binary64) x y) (fmul (Float64 := spec_float64) (to_spec x) (to_spec y)) &&
  same (fdiv (Float64 := binary64) x y) (fdiv (Float64 := spec_float64) (to_spec x) (to_spec y)).

(** Integers, thirds, sevenths and nanoseconds, and their products. *)
Definition sample : list double :=
  let ints := map (of_int (Float64 := binary64)) [1; 3; -7; 59; 60; 1000000000; 2^53 - 1; 2^60 + 129] in
  let over n := map (λ x, fdiv (Float64 := binary64) x (round (inject_Z n))) ints in
  ints ++ over 3 ++ over 999999937.

Example agrees : forallb (λ x, forallb (agree_on x) sample) sample = true.
Proof. vm_compute. reflexivity. Qed.
