(* ===== verification/RateLimit.v ===== *)
(** * The rate limiter (internal/httpapi/middleware.go)

    The token bucket per client address, over the class of float64 arithmetic of
    Binary64.v.  The theorems are stated for any arithmetic with its laws, which
    double precision has. *)

From Stdlib Require Import QArith Lqa.
From S2P Require Import Prelude GoStd.
From S2P Require Export Binary64.
Open Scope Z_scope.

Definition requestsPerMinute : Z := 60.
Definition bucketIdleTTL : Z := 10 * Minute.
Definition sweepInterval : Z := Minute.

(** The zero [time.Time], in nanoseconds since the epoch: January 1, year 1. *)
Definition zero_time : Z := -62135596800 * Second.

(** ** The limiter *)

Section limiter.
Context {FL : Float64}.

(** [d.Seconds()]: whole seconds and the rest are converted apart. *)
Definition Seconds (d : Z) : F :=
  fadd (of_int (Z.quot d Second)) (fdiv (of_int (Z.rem d Second)) (of_int 1000000000)).

Record bucket : Type := MkBucket { tokens : F; last : Z }.

Record rateLimiter : Type := MkRateLimiter {
  buckets : gmap string bucket;
  perSecond : F;
  burst : F;
  lastSweep : Z;
}.

Definition newRateLimiter (perMinute : Z) : rateLimiter :=
  MkRateLimiter ∅ (fdiv (of_int perMinute) (of_int 60)) (of_int perMinute) zero_time.

Definition busy (now : Z) (kb : string * bucket) : Prop := Sub now (last kb.2) ≤ bucketIdleTTL.

#[global] Instance busy_dec now kb : Decision (busy now kb).
Proof. unfold busy. apply _. Defined.

Definition sweep (l : rateLimiter) (now : Z) : rateLimiter :=
  if Sub now (lastSweep l) <? sweepInterval then l
  else MkRateLimiter (filter (busy now) (buckets l)) (perSecond l) (burst l) now.

(** The refill of a bucket for the time since its last request. *)
Definition refill (l : rateLimiter) (b : bucket) (now : Z) : bucket :=
  let elapsed := Seconds (Sub now (last b)) in
  if flt (of_int 0) elapsed then
    let t := fadd (tokens b) (fmul elapsed (perSecond l)) in
    MkBucket (if flt (burst l) t then burst l else t) now
  else b.

(** [allow], in the lock: the verdict and the limiter afterwards. *)
Definition allow (l : rateLimiter) (key : string) (now : Z) : bool * rateLimiter :=
  let l := sweep l now in
  let b := default (MkBucket (burst l) now) (buckets l !! key) in
  let b := refill l b now in
  if flt (tokens b) (of_int 1) then
    (false, MkRateLimiter (<[key := b]> (buckets l)) (perSecond l) (burst l) (lastSweep l))
  else
    (true, MkRateLimiter (<[key := MkBucket (fsub (tokens b) (of_int 1)) (last b)]> (buckets l))
             (perSecond l) (burst l) (lastSweep l)).

(** Requests one after the other, in the order they take the lock. *)
Fixpoint allow_all (l : rateLimiter) (reqs : list (string * Z)) : list bool * rateLimiter :=
  match reqs with
  | [] => ([], l)
  | (key, now) :: reqs =>
      let '(ok, l) := allow l key now in
      let '(oks, l) := allow_all l reqs in (ok :: oks, l)
  end.

(** How many requests of a key were let through. *)
Fixpoint allowed (key : string) (reqs : list (string * Z)) (oks : list bool) : Z :=
  match reqs, oks with
  | (k, _) :: reqs, ok :: oks =>
      (if bool_decide (k = key) && ok then 1 else 0) + allowed key reqs oks
  | _, _ => 0
  end.

End limiter.

(** ** Runs *)

(** Sixty requests at once, one more, then two after a second and a half. *)
Example limiter_runs :
  (allow_all (newRateLimiter requestsPerMinute)
     (replicate 61 ("1.2.3.4"%string, 1000 * Second) ++
      replicate 2 ("1.2.3.4"%string, 1000 * Second + 1500000000))).1 =
  replicate 60 true ++ [false; true; false].
Proof. vm_compute. reflexivity. Qed.

(** The same requests over the Standard Library's doubles. *)
Example limiter_runs_spec :
  (allow_all (FL := spec_float64) (newRateLimiter requestsPerMinute)
     (replicate 61 ("1.2.3.4"%string, 1000 * Second) ++
      replicate 2 ("1.2.3.4"%string, 1000 * Second + 1500000000))).1 =
  replicate 60 true ++ [false; true; false].
Proof. vm_compute. reflexivity. Qed.

(** ** Lemmas *)

Section lemmas.
Context {FL : Float64} {L : FloatLaws FL}.

(** Nanoseconds as seconds. *)
Definition sec (d : Z) : Q := (inject_Z d / inject_Z Second)%Q.

Lemma sec_plus a b : (sec (a + b) == sec a + sec b)%Q.
Proof. unfold sec. rewrite inject_Z_plus. field. done. Qed.

Lemma sec_le a b : a ≤ b → (sec a <= sec b)%Q.
Proof.
  intros H. unfold sec. apply Qmult_le_compat_r; [by rewrite <-Zle_Qle|]. done.
Qed.

Lemma sec_nonneg d : 0 ≤ d → (0 <= sec d)%Q.
Proof. intros H. apply (sec_le 0 d) in H. assert (H0 : (sec 0 == 0)%Q) by reflexivity. by rewrite H0 in H. Qed.

Lemma sec_seconds q : (sec (q * Second) == inject_Z q)%Q.
Proof. unfold sec. rewrite inject_Z_mult. field. done. Qed.

Lemma sec_split d : (sec d == inject_Z (Z.quot d Second) + sec (Z.rem d Second))%Q.
Proof.
  rewrite <-sec_seconds, <-sec_plus. rewrite (Z.quot_rem' d Second) at 1.
  by rewrite (Z.mul_comm Second).
Qed.

(** The parts of a duration. *)
Lemma Seconds_parts d :
  0 ≤ d ≤ int64_max →
  (val (of_int (Z.quot d Second)) == inject_Z (Z.quot d Second))%Q ∧
  (0 <= inject_Z (Z.quot d Second))%Q ∧
  (0 <= val (fdiv (of_int (Z.rem d Second)) (of_int 1000000000)))%Q ∧
  (val (fdiv (of_int (Z.rem d Second)) (of_int 1000000000)) <= sec (Z.rem d Second) + eps)%Q.
Proof.
  intros Hd. unfold int64_max in Hd.
  assert (Hq : 0 ≤ Z.quot d Second ≤ 9300000000).
  { split; [apply Z.quot_pos; [lia|done]|]. apply (Z.quot_le_upper_bound d Second); [done|].
    unfold Second. lia. }
  assert (Hr : 0 ≤ Z.rem d Second < Second) by (apply Z.rem_bound_pos; [lia|done]).
  assert (Hb : (val (of_int 1000000000) == inject_Z 1000000000)%Q) by (apply of_int_val; lia).
  assert (Ha : (val (of_int (Z.rem d Second)) == inject_Z (Z.rem d Second))%Q)
    by (apply of_int_val; unfold Second in *; lia).
  assert (Hb0 : (0 < val (of_int 1000000000))%Q) by (rewrite Hb; reflexivity).
  assert (Ha0 : (0 <= val (of_int (Z.rem d Second)))%Q)
    by (rewrite Ha; change 0%Q with (inject_Z 0); rewrite <-Zle_Qle; lia).
  split; [apply of_int_val; lia|]. split; [change 0%Q with (inject_Z 0); rewrite <-Zle_Qle; lia|].
  split; [by apply div_nonneg|].
  pose proof (div_le _ _ Ha0 Hb0) as H. rewrite Ha, Hb in H. apply H.
  rewrite <-Zle_Qle. assert (Second = 1000000000) by done. lia.
Qed.

Lemma Seconds_ge d : 0 ≤ d ≤ int64_max → (inject_Z (Z.quot d Second) <= val (Seconds d))%Q.
Proof.
  intros Hd. destruct (Seconds_parts d Hd) as (Hq & Hq0 & Hf & _).
  unfold Seconds. rewrite <-Hq. apply add_ge; [by rewrite Hq|done].
Qed.

Lemma Seconds_nonneg d : 0 ≤ d ≤ int64_max → (0 <= val (Seconds d))%Q.
Proof.
  intros Hd. eapply Qle_trans; [|by apply Seconds_ge]. by apply Seconds_parts.
Qed.

(** The sign of the seconds is that of the duration. *)
Lemma Seconds_pos d : 0 < d ≤ int64_max → (0 < val (Seconds d))%Q.
Proof.
  intros Hd. destruct (Seconds_parts d ltac:(lia)) as (Hq & Hq0 & Hf & _).
  destruct (Z_lt_le_dec (Z.quot d Second) 1) as [Hlt|Hge].
  - assert (Hdq : 0 ≤ Z.quot d Second) by (apply Z.quot_pos; [lia|done]).
    assert (Hrem : Z.rem d Second = d) by (pose proof (Z.quot_rem' d Second) as Hqr; assert (Hz : Z.quot d Second = 0) by lia;
          rewrite Hz in Hqr; lia).
    assert (Hsm : d < Second) by (rewrite <-Hrem; apply Z.rem_bound_pos; [lia|done]).
    assert (Hv : (val (of_int (Z.rem d Second)) == inject_Z d)%Q)
      by (rewrite Hrem; apply of_int_val; unfold Second in *; lia).
    assert (Hb : (val (of_int 1000000000) == inject_Z 1000000000)%Q) by (apply of_int_val; lia).
    unfold Seconds. apply Qlt_le_trans with (val (fdiv (of_int (Z.rem d Second)) (of_int 1000000000))).
    + apply div_pos; rewrite ?Hv, ?Hb; [|reflexivity|by vm_compute].
      change 1%Q with (inject_Z 1). rewrite <-Zle_Qle. lia.
    + apply add_ge; [by rewrite Hq|done].
  - apply Qlt_le_trans with (inject_Z (Z.quot d Second)); [|apply Seconds_ge; lia].
    change 0%Q with (inject_Z 0). rewrite <-Zlt_Qlt. lia.
Qed.

Lemma Seconds_nonpos d : int64_min ≤ d ≤ 0 → (val (Seconds d) <= 0)%Q.
Proof.
  intros Hd. unfold int64_min in Hd.
  assert (Hq : -9300000000 ≤ Z.quot d Second ≤ 0).
  { pose proof (Z.quot_opp_l d Second ltac:(done)) as Hopp.
    assert (0 ≤ Z.quot (- d) Second ≤ 9300000000); [|lia].
    split; [apply Z.quot_pos; [lia|done]|]. apply (Z.quot_le_upper_bound (- d) Second); [done|].
    unfold Second. lia. }
  assert (Hr : - Second < Z.rem d Second ≤ 0).
  { pose proof (Z.rem_opp_l d Second ltac:(done)) as Hopp.
    pose proof (Z.rem_bound_pos (- d) Second ltac:(lia) ltac:(done)). lia. }
  assert (Hle : ∀ n, n ≤ 0 → (inject_Z n <= 0)%Q)
    by (intros n Hn; change 0%Q with (inject_Z 0); rewrite <-Zle_Qle; lia).
  unfold Seconds. apply add_nonpos.
  - rewrite of_int_val by lia. apply Hle. lia.
  - apply div_nonpos.
    + rewrite of_int_val by (unfold Second in *; lia). apply Hle. lia.
    + rewrite of_int_val by done. reflexivity.
Qed.

Lemma Seconds_le d :
  0 ≤ d ≤ int64_max → (sec d <= 60)%Q → (val (Seconds d) <= sec d + 2 * eps)%Q.
Proof.
  intros Hd Hs. destruct (Seconds_parts d Hd) as (Hq & Hq0 & Hf0 & Hf).
  pose proof (sec_split d) as Hsplit. pose proof eps_range.
  unfold Seconds.
  pose proof (add_le (of_int (Z.quot d Second)) (fdiv (of_int (Z.rem d Second)) (of_int 1000000000))) as H'.
  rewrite Hq in H'. specialize (H' Hq0 Hf0).
  assert (Hrange : (inject_Z (d ÷ Second) +
    val (fdiv (of_int (Z.rem d Second)) (of_int 1000000000)) <= 128)%Q) by lra.
  specialize (H' Hrange). lra.
Qed.

Lemma Seconds_zero : (val (Seconds 0) == 0)%Q.
Proof.
  unfold Seconds. apply add_zero.
  - by rewrite of_int_val.
  - apply div_zero; [by rewrite of_int_val|]. by rewrite of_int_val.
Qed.

Definition bucket_ok (b : bucket) (now : Z) : Prop :=
  (0 <= val (tokens b) /\ val (tokens b) <= 60)%Q ∧ last b ≤ now.

(** The invariant of the limiter at time [now]. *)
Definition limiter_ok (l : rateLimiter) (now : Z) : Prop :=
  (val (perSecond l) == 1)%Q ∧ (val (burst l) == 60)%Q ∧
  map_Forall (λ _ b, bucket_ok b now) (buckets l).

Lemma Sub_range now t :
  t ≤ now → 0 ≤ Sub now t ≤ int64_max ∧ Sub now t ≤ now - t ∧
            (now - t ≤ int64_max → Sub now t = now - t).
Proof. unfold Sub, int64_max, int64_min. lia. Qed.

Lemma sec_Sub now t :
  t ≤ now → (sec (now - t) <= 60)%Q → Sub now t = now - t.
Proof.
  intros Ht Hs. apply Sub_range; [done|]. unfold int64_max.
  destruct (Z_le_gt_dec (now - t) (60 * Second)) as [H|H].
  { unfold Second in H. lia. }
  exfalso. pose proof (sec_le (60 * Second + 1) (now - t) ltac:(lia)) as Hle.
  assert (H60 : (60 < sec (60 * Second + 1))%Q) by reflexivity. lra.
Qed.

Lemma flt_false a b : flt a b = false ↔ (val b <= val a)%Q.
Proof.
  pose proof (lt_spec a b) as H. destruct (flt a b).
  - split; [done|]. intros Hle. exfalso. apply (Qlt_not_le _ _ (proj1 H eq_refl) Hle).
  - split; [|done]. intros _. apply Qnot_lt_le. intros Hlt. by apply H in Hlt.
Qed.

(** A refill adds the elapsed seconds, up to rounding, and never exceeds the burst. *)
Lemma refill_ok l b now :
  (val (perSecond l) == 1)%Q → (val (burst l) == 60)%Q → bucket_ok b now →
  bucket_ok (refill l b now) now ∧
  (val (tokens (refill l b now)) + sec (now - last (refill l b now)) <=
   val (tokens b) + sec (now - last b) + 4 * eps)%Q.
Proof.
  intros Hper Hburst [[Ht0 Ht60] Hlast]. pose proof eps_range as He.
  destruct (Sub_range now (last b) Hlast) as (Hd & _ & _).
  pose proof (Seconds_nonneg _ Hd) as Hs0.
  pose proof (sec_nonneg (now - last b) ltac:(lia)) as Hsec0.
  unfold refill. destruct (flt (of_int 0) _); [|split; [done|lra]].
  set (e := Seconds (Sub now (last b))) in *. pose proof (mul_one e _ Hper) as Hm.
  assert (Hm0 : (0 <= val (fmul e (perSecond l)))%Q) by (rewrite Hm; done).
  destruct (add_ge _ _ Ht0 Hm0) as [Hge _].
  set (t := fadd (tokens b) (fmul e (perSecond l))) in *.
  assert (Hub : (val (tokens b) + sec (now - last b) <= 60 →
                 val t <= val (tokens b) + sec (now - last b) + 3 * eps)%Q).
  { intros Hle. assert (Hsub : Sub now (last b) = now - last b) by (apply sec_Sub; [done|lra]).
    assert (Hel : (val e <= sec (now - last b) + 2 * eps)%Q).
    { unfold e. rewrite <-Hsub. apply Seconds_le; [done|]. rewrite Hsub. lra. }
    pose proof (add_le _ _ Ht0 Hm0) as Ha. rewrite Hm in Ha. unfold t.
    assert (Hr : (val (tokens b) + val e <= 128)%Q) by lra. specialize (Ha Hr). lra. }
  assert (Hz : (sec (now - now) == 0)%Q) by (rewrite Z.sub_diag; reflexivity).
  destruct (flt (burst l) t) eqn:Hc; unfold bucket_ok; simpl; rewrite Hz.
  - apply lt_spec in Hc. rewrite Hburst in *. split; [split; [split; lra|lia]|].
    destruct (Qlt_le_dec (val (tokens b) + sec (now - last b)) 60) as [Hlt|Hle]; [|lra].
    assert (Hle' : (val (tokens b) + sec (now - last b) <= 60)%Q) by lra. specialize (Hub Hle'). lra.
  - apply flt_false in Hc. rewrite Hburst in Hc. split; [split; [split; lra|lia]|].
    destruct (Qlt_le_dec (val (tokens b) + sec (now - last b)) 60) as [Hlt|Hle]; [|lra].
    assert (Hle' : (val (tokens b) + sec (now - last b) <= 60)%Q) by lra. specialize (Hub Hle'). lra.
Qed.

(** A bucket idle for longer than the TTL refills to the burst. *)
Lemma refill_idle l b now :
  (val (perSecond l) == 1)%Q → (val (burst l) == 60)%Q → bucket_ok b now →
  bucketIdleTTL < Sub now (last b) → refill l b now = MkBucket (burst l) now.
Proof.
  intros Hper Hburst [[Ht0 Ht60] Hlast] Hidle.
  destruct (Sub_range now (last b) Hlast) as (Hd & _ & _).
  pose proof (Seconds_ge _ Hd) as Hge. pose proof (Seconds_nonneg _ Hd) as Hs0.
  assert (Hq : (600 <= inject_Z (Z.quot (Sub now (last b)) Second))%Q).
  { change 600%Q with (inject_Z 600). rewrite <-Zle_Qle. apply Z.quot_le_lower_bound; [done|].
    unfold bucketIdleTTL, Minute in Hidle. lia. }
  unfold refill. set (e := Seconds (Sub now (last b))) in *. pose proof (mul_one e _ Hper) as Hm.
  assert (flt (of_int 0) e = true) as ->.
  { apply lt_spec. rewrite of_int_val by done. change (inject_Z 0) with 0%Q. lra. }
  assert (Hm0 : (0 <= val (fmul e (perSecond l)))%Q) by (rewrite Hm; done).
  destruct (add_ge _ _ Ht0 Hm0) as [_ Hge2]. rewrite Hm in Hge2.
  assert (flt (burst l) (fadd (tokens b) (fmul e (perSecond l))) = true) as ->; [|done].
  apply lt_spec. rewrite Hburst. lra.
Qed.

Lemma refill_now l now : refill l (MkBucket (burst l) now) now = MkBucket (burst l) now.
Proof.
  unfold refill. simpl. assert (Hs : Sub now now = 0) by (unfold Sub, int64_min, int64_max; lia).
  rewrite Hs. assert (flt (of_int 0) (Seconds 0) = false) as ->; [|done].
  apply flt_false. rewrite Seconds_zero, of_int_val by done. apply Qle_refl.
Qed.

Lemma sweep_ok l now : limiter_ok l now → limiter_ok (sweep l now) now.
Proof.
  intros (Hp & Hb & Hbs). unfold sweep. destruct (_ <? _); [done|].
  split_and!; try done. simpl. intros k b [Hk _]%map_lookup_filter_Some. by apply (Hbs k).
Qed.

Lemma sweep_params l now : perSecond (sweep l now) = perSecond l ∧ burst (sweep l now) = burst l.
Proof. unfold sweep. by destruct (_ <? _). Qed.

Lemma sweep_lookup l now key :
  buckets (sweep l now) !! key = buckets l !! key ∨
  (buckets (sweep l now) !! key = None ∧
   ∃ b, buckets l !! key = Some b ∧ bucketIdleTTL < Sub now (last b)).
Proof.
  unfold sweep. destruct (_ <? _); [by left|]. simpl.
  destruct (buckets l !! key) as [b|] eqn:Hb.
  - destruct (decide (busy now (key, b))) as [Hbusy|Hbusy].
    + left. by apply map_lookup_filter_Some.
    + right. split; [|exists b; split; [done|unfold busy in Hbusy; simpl in Hbusy; lia]].
      apply map_lookup_filter_None. right. intros b' Hb'. by simplify_eq.
  - left. apply map_lookup_filter_None. by left.
Qed.

Lemma limiter_ok_later l t now : t ≤ now → limiter_ok l t → limiter_ok l now.
Proof.
  intros Hle (Hp & Hb & Hbs). split_and!; try done. intros k b Hk.
  destruct (Hbs k b Hk) as [Ht Hlast]. split; [done|lia].
Qed.

(** The bucket a request is charged to, after the refill. *)
Definition charged (l : rateLimiter) (key : string) (now : Z) : bucket :=
  refill (sweep l now)
    (default (MkBucket (burst (sweep l now)) now) (buckets (sweep l now) !! key)) now.

(** What [allow] does to the limiter. *)
Lemma allow_spec l key now :
  perSecond (allow l key now).2 = perSecond l ∧ burst (allow l key now).2 = burst l ∧
  (∀ k, k ≠ key → buckets (allow l key now).2 !! k = buckets (sweep l now) !! k) ∧
  (if (allow l key now).1
   then flt (tokens (charged l key now)) (of_int 1) = false ∧
        buckets (allow l key now).2 !! key =
          Some (MkBucket (fsub (tokens (charged l key now)) (of_int 1)) (last (charged l key now)))
   else buckets (allow l key now).2 !! key = Some (charged l key now)).
Proof.
  destruct (sweep_params l now) as [Hp Hb]. unfold allow. fold (charged l key now).
  destruct (flt (tokens (charged l key now)) (of_int 1)) eqn:Hlt; simpl; rewrite lookup_insert_eq;
    (split; [done|]; split; [done|]; split; [|done]); intros k Hk; by rewrite lookup_insert_ne.
Qed.

Definition in_range (x : F) : Prop := (0 <= val x /\ val x <= 60)%Q.

(** One token less is in range again. *)
Lemma spend_range x :
  in_range x → flt x (of_int 1) = false →
  in_range (fsub x (of_int 1)) ∧ (val (fsub x (of_int 1)) <= val x - 1 + eps)%Q.
Proof.
  intros [H0 H60] Hlt. apply flt_false in Hlt. rewrite of_int_val in Hlt by done.
  change (inject_Z 1) with 1%Q in Hlt. pose proof eps_range.
  assert (H128 : (val x <= 128)%Q) by lra.
  destruct (sub_one _ Hlt H128) as [Hs0 Hs1]. split; [split; [done|lra]|done].
Qed.

Lemma limiter_ok_allow l key now : limiter_ok l now → limiter_ok (allow l key now).2 now.
Proof.
  intros Hok. pose proof Hok as (Hp & Hb & _). destruct (sweep_ok _ _ Hok) as (Hp' & Hb' & Hbs).
  assert (Hch : bucket_ok (charged l key now) now).
  { unfold charged. destruct (buckets (sweep l now) !! key) as [b|] eqn:Hk; simpl.
    - by apply refill_ok, (Hbs _ _ Hk).
    - rewrite refill_now. split; [|simpl; lia]. simpl. rewrite Hb'. lra. }
  destruct (allow_spec l key now) as (H1 & H2 & Hother & Hkey).
  split; [by rewrite H1|]. split; [by rewrite H2|]. intros k b Hk. destruct (decide (k = key)) as [->|Hne].
  - destruct (allow l key now).1.
    + destruct Hkey as [Hlt Hkey]. rewrite Hkey in Hk. injection Hk as <-.
      destruct Hch as [Hr Hl]. split; [|done]. by apply (spend_range _ Hr).
    + rewrite Hkey in Hk. by injection Hk as <-.
  - rewrite Hother in Hk by done. by apply (Hbs k).
Qed.

(** *** Any order of the clock readings *)

(** A limiter in use: its parameters, and no bucket out of range. *)
Definition sound (l : rateLimiter) : Prop :=
  (val (perSecond l) == 1)%Q ∧ (val (burst l) == 60)%Q ∧
  map_Forall (λ _ b, in_range (tokens b)) (buckets l).

(** A refill at a later reading brings the bucket up to it; any other leaves it. *)
Lemma refill_cases l b now :
  (val (perSecond l) == 1)%Q → (val (burst l) == 60)%Q → in_range (tokens b) →
  in_range (tokens (refill l b now)) ∧
  (now ≤ last b ∧ refill l b now = b ∨
   last b < now ∧ last (refill l b now) = now ∧
   (val (tokens (refill l b now)) <= val (tokens b) + sec (now - last b) + 4 * eps)%Q).
Proof.
  intros Hp Hb Hr. assert (Hz : (val (of_int 0) == 0)%Q) by (by rewrite of_int_val).
  destruct (Z_lt_le_dec (last b) now) as [Hlt|Hle].
  - assert (Hok : bucket_ok b now) by (split; [done|lia]).
    destruct (refill_ok l b now Hp Hb Hok) as [[Hr' _] Hbound]. split; [done|]. right.
    assert (Hlast : last (refill l b now) = now).
    { unfold refill. assert (flt (of_int 0) (Seconds (Sub now (last b))) = true) as ->; [|done].
      apply lt_spec. rewrite Hz. apply Seconds_pos. unfold Sub, int64_max, int64_min. lia. }
    split; [done|]. split; [done|]. rewrite Hlast, Z.sub_diag in Hbound.
    assert (H0 : (sec 0 == 0)%Q) by reflexivity. rewrite H0 in Hbound. lra.
  - assert (Href : refill l b now = b).
    { unfold refill. assert (flt (of_int 0) (Seconds (Sub now (last b))) = false) as ->; [|done].
      apply flt_false. rewrite Hz. apply Seconds_nonpos. unfold Sub, int64_max, int64_min. lia. }
    rewrite Href. split; [done|by left].
Qed.

Lemma charged_range l key now : sound l → in_range (tokens (charged l key now)).
Proof.
  intros (Hp & Hb & Hbs). destruct (sweep_params l now) as [Hp' Hb'].
  apply refill_cases; rewrite ?Hp', ?Hb'; [done|done|].
  destruct (sweep_lookup l now key) as [->|(-> & _)].
  - destruct (buckets l !! key) as [b|] eqn:Hk; [by apply (Hbs key)|].
    unfold in_range. simpl. rewrite Hb. lra.
  - unfold in_range. simpl. rewrite Hb. lra.
Qed.

Lemma sound_allow l key now : sound l → sound (allow l key now).2.
Proof.
  intros Hs. pose proof (charged_range l key now Hs) as Hr. destruct Hs as (Hp & Hb & Hbs).
  destruct (allow_spec l key now) as (H1 & H2 & Hother & Hkey).
  split; [by rewrite H1|]. split; [by rewrite H2|]. intros k b Hk. destruct (decide (k = key)) as [->|Hne].
  - destruct (allow l key now).1.
    + destruct Hkey as [Hlt Hkey]. rewrite Hkey in Hk. injection Hk as <-. by apply (spend_range _ Hr).
    + rewrite Hkey in Hk. by injection Hk as <-.
  - rewrite Hother in Hk by done. destruct (sweep_lookup l now k) as [Heq|(Heq & _)]; [|congruence].
    rewrite Heq in Hk. by apply (Hbs k).
Qed.

Lemma sound_allow_all l reqs : sound l → sound (allow_all l reqs).2.
Proof.
  revert l. induction reqs as [|[key now] reqs IH]; intros l Hl; [done|]. cbn [allow_all].
  pose proof (sound_allow l key now Hl) as Hl'. destruct (allow l key now) as [ok l'].
  specialize (IH l' Hl'). by destruct (allow_all l' reqs).
Qed.

(** Clock readings in the order their requests take the lock.  A request reads
    the clock before it takes the lock, so another may overtake it; none is so
    late as to bring a reading more than nine minutes older than one the limiter
    has seen. *)
Fixpoint clock_near (t latest : Z) (reqs : list (string * Z)) : Prop :=
  match reqs with
  | [] => True
  | (_, now) :: reqs => t ≤ now ∧ latest - 9 * Minute ≤ now ∧ clock_near t (Z.max latest now) reqs
  end.

Fixpoint latest (t : Z) (reqs : list (string * Z)) : Z :=
  match reqs with [] => t | (_, now) :: reqs => latest (Z.max t now) reqs end.

(** The readings of one key. *)
Definition of_key (key : string) (reqs : list (string * Z)) : list (string * Z) :=
  filter (λ kt, kt.1 = key) reqs.

(** What the bucket of a key says of the [n] requests let through since [t], when
    [m] is the latest reading; [err] is what rounding added. *)
Definition account_of (t m n : Z) (err : Q) (ob : option bucket) : Prop :=
  match ob with
  | None => n = 0 ∨ (inject_Z n + 540 <= sec (m - t) + err)%Q
  | Some b => in_range (tokens b) ∧
      (last b < t ∧ n = 0 ∨
       t ≤ last b ∧ (inject_Z n + val (tokens b) <= 60 + sec (Z.min (last b) m - t) + err)%Q)
  end.

Lemma sec_minus a b : (sec (a - b) == sec a - sec b)%Q.
Proof. assert (H := sec_plus (a - b) b). replace (a - b + b) with a in H by lia. lra. Qed.

Lemma account_later t m m' n err ob : m ≤ m' → account_of t m n err ob → account_of t m' n err ob.
Proof.
  intros Hm. destruct ob as [b|]; simpl.
  - intros [Hr [H|[Hl H]]]; split; try done; [by left|right]. split; [done|].
    pose proof (sec_le (Z.min (last b) m - t) (Z.min (last b) m' - t) ltac:(lia)). lra.
  - intros [H|H]; [by left|right]. pose proof (sec_le (m - t) (m' - t) ltac:(lia)). lra.
Qed.

(** A sweep that drops the bucket of a key comes when its requests were long paid for. *)
Lemma account_sweep l key t m now n err :
  (0 <= err)%Q → now ≤ m → account_of t m n err (buckets l !! key) →
  account_of t m n err (buckets (sweep l now) !! key).
Proof.
  intros He Hm. destruct (sweep_lookup l now key) as [->|(-> & b & -> & Hidle)]; [done|].
  intros [[H0 H60] [[_ ->]|[Hl H]]]; [by left|right].
  assert (Hgap : 600 * Second < now - last b).
  { unfold Sub, int64_min, int64_max, bucketIdleTTL, Minute, Second in *. lia. }
  rewrite Z.min_l in H by (unfold Second in Hgap; lia).
  pose proof (sec_le (600 * Second + (last b - t)) (m - t) ltac:(lia)) as Hs.
  rewrite sec_plus in Hs. assert (H600 : (sec (600 * Second) == 600)%Q) by reflexivity. lra.
Qed.

(** The bucket the next request of the key is charged to. *)
Lemma account_charged l key t m now n err :
  (val (perSecond l) == 1)%Q → (val (burst l) == 60)%Q → (0 <= err)%Q →
  t ≤ now ≤ m → m - 9 * Minute ≤ now →
  account_of t m n err (buckets l !! key) →
  in_range (tokens (charged l key now)) ∧ t ≤ last (charged l key now) ∧
  (inject_Z n + val (tokens (charged l key now)) <=
   60 + sec (Z.min (last (charged l key now)) m - t) + (err + 4 * eps))%Q.
Proof.
  intros Hp Hb He [Ht Hm] Hnear Hacc. apply (account_sweep l key t m now n err He Hm) in Hacc.
  pose proof eps_range as Heps. pose proof (sec_nonneg (now - t) ltac:(lia)) as Hnow.
  destruct (sweep_params l now) as [Hp' Hb']. rewrite <-Hp' in Hp. rewrite <-Hb' in Hb.
  unfold charged. destruct (buckets (sweep l now) !! key) as [b|]; simpl in *.
  - destruct Hacc as [Hr Hacc]. destruct (refill_cases _ b now Hp Hb Hr) as [Hr' [[Hle ->]|(Hlt & Hl & Hle)]].
    + split; [done|]. split; [lia|]. destruct Hacc as [[? ->]|[_ Hacc]]; [lia|lra].
    + rewrite Hl. rewrite Z.min_l by lia. split; [done|]. split; [done|].
      destruct Hr' as [H0' H60']. destruct Hacc as [[_ ->]|[_ Hacc]].
      * change (inject_Z 0) with 0%Q. lra.
      * rewrite Z.min_l in Hacc by lia.
        assert (Hs : (sec (now - t) == sec (last b - t) + sec (now - last b))%Q)
          by (rewrite !sec_minus; lra).
        lra.
  - rewrite refill_now. simpl. rewrite Z.min_l by lia. unfold in_range. rewrite Hb.
    split; [lra|]. split; [done|]. destruct Hacc as [->|Hacc]; [change (inject_Z 0) with 0%Q; lra|].
    pose proof (sec_le (m - t) (now - t + 540 * Second)) as Hs. rewrite sec_plus in Hs.
    assert (H540 : (sec (540 * Second) == 540)%Q) by reflexivity.
    specialize (Hs ltac:(unfold Minute, Second in *; lia)). lra.
Qed.

Lemma account_step l key k t m now n err :
  (val (perSecond l) == 1)%Q → (val (burst l) == 60)%Q → (0 <= err)%Q →
  t ≤ now → m - 9 * Minute ≤ now →
  account_of t m n err (buckets l !! key) →
  account_of t (Z.max m now) (n + (if bool_decide (k = key) && (allow l k now).1 then 1 else 0))
    (err + (if bool_decide (k = key) then 5 * eps else 0)) (buckets (allow l k now).2 !! key).
Proof.
  intros Hp Hb He Ht Hnear Hacc. pose proof eps_range as Heps.
  apply (account_later _ m (Z.max m now)) in Hacc; [|lia].
  destruct (allow_spec l k now) as (_ & _ & Hother & Hkey). case_bool_decide as Hk.
  - subst k. destruct (account_charged l key t (Z.max m now) now n err Hp Hb He ltac:(lia)
      ltac:(unfold Minute, Second in *; lia) Hacc) as (Hr & Hl & Hle).
    destruct (allow l key now).1; cbn [andb].
    + destruct Hkey as [Hlt ->]. destruct (spend_range _ Hr Hlt) as [Hr' Hs]. split; [done|]. right.
      split; [done|]. simpl. rewrite inject_Z_plus. change (inject_Z 1) with 1%Q. lra.
    + rewrite Hkey, Z.add_0_r. split; [done|]. right. split; [done|]. lra.
  - rewrite Hother by congruence. cbn [andb]. rewrite Z.add_0_r.
    apply (account_sweep l key t _ now n err He) in Hacc; [|lia].
    destruct (buckets (sweep l now) !! key) as [b|]; simpl in *.
    + destruct Hacc as [Hr [Hacc|[Hl Hacc]]]; split; try done; [by left|right]. split; [done|]. lra.
    + destruct Hacc as [Hacc|Hacc]; [by left|right]. lra.
Qed.

Lemma account_bound t m n err ob :
  (0 <= err)%Q → t ≤ m → account_of t m n err ob → (inject_Z n <= 60 + sec (m - t) + err)%Q.
Proof.
  intros He Hm. pose proof (sec_nonneg (m - t) ltac:(lia)). destruct ob as [b|]; simpl.
  - intros [[H0 _] [[_ ->]|[Hl H1]]]; [change (inject_Z 0) with 0%Q; lra|].
    pose proof (sec_le (Z.min (last b) m - t) (m - t) ltac:(lia)). lra.
  - intros [->|H1]; [change (inject_Z 0) with 0%Q; lra|lra].
Qed.

Lemma allow_all_account key t reqs l m n err :
  (val (perSecond l) == 1)%Q → (val (burst l) == 60)%Q → (0 <= err)%Q → t ≤ m →
  clock_near t m reqs → account_of t m n err (buckets l !! key) →
  (inject_Z (n + allowed key reqs (allow_all l reqs).1) <=
   60 + sec (latest m reqs - t) + (err + 5 * eps * inject_Z (Z.of_nat (length (of_key key reqs)))))%Q.
Proof.
  revert l m n err. induction reqs as [|[k now] reqs IH]; intros l m n err Hp Hb He Hm Hclock Hacc.
  { cbn [allow_all fst allowed latest]. rewrite Z.add_0_r. change (inject_Z (Z.of_nat (length (of_key key [])))) with 0%Q.
    pose proof (account_bound t m n err _ He Hm Hacc). lra. }
  destruct Hclock as (Ht & Hnear & Hclock). pose proof eps_range as Heps.
  pose proof (account_step l key k t m now n err Hp Hb He Ht Hnear Hacc) as Hacc'.
  destruct (allow_spec l k now) as (Hp' & Hb' & _ & _). rewrite <-Hp' in Hp. rewrite <-Hb' in Hb.
  assert (He' : (0 <= err + (if bool_decide (k = key) then 5 * eps else 0))%Q) by (case_bool_decide; lra).
  specialize (IH _ (Z.max m now) _ _ Hp Hb He' ltac:(lia) Hclock Hacc').
  cbn [allow_all latest]. destruct (allow l k now) as [ok l']. cbn [fst snd] in IH.
  destruct (allow_all l' reqs) as [oks l'']. cbn [fst allowed] in *.
  rewrite Z.add_assoc. unfold of_key. rewrite filter_cons. cbn [fst].
  destruct (bool_decide (k = key)) eqn:Hk.
  - apply bool_decide_eq_true in Hk. rewrite decide_True by done. cbn [length]. rewrite Nat2Z.inj_succ, <-Z.add_1_l, (inject_Z_plus 1).
    change (inject_Z 1) with 1%Q. unfold of_key in IH. cbn [andb] in *. lra.
  - apply bool_decide_eq_false in Hk. rewrite decide_False by done. unfold of_key in IH. lra.
Qed.

(** From any sound state, in any order the readings allow. *)
Lemma allow_all_bound l key t reqs :
  sound l → clock_near t t reqs →
  (inject_Z (allowed key reqs (allow_all l reqs).1) <=
   60 + sec (latest t reqs - t) + 5 * eps * inject_Z (Z.of_nat (length (of_key key reqs))))%Q.
Proof.
  intros (Hp & Hb & Hbs) Hclock.
  assert (Hacc : account_of t t 0 0 (buckets l !! key)).
  { destruct (buckets l !! key) as [b|] eqn:Hk; [|by left]. pose proof (Hbs _ _ Hk) as [H0 H60].
    split; [done|]. destruct (Z_lt_le_dec (last b) t) as [|Hl]; [by left|right]. split; [done|].
    rewrite Z.min_r by lia. rewrite Z.sub_diag. assert (Hz : (sec 0 == 0)%Q) by reflexivity.
    change (inject_Z 0) with 0%Q. lra. }
  pose proof (allow_all_account key t reqs l t 0 0 Hp Hb ltac:(lra) ltac:(lia) Hclock Hacc) as H.
  rewrite Z.add_0_l in H. lra.
Qed.

Lemma newRateLimiter_ok t : limiter_ok (newRateLimiter requestsPerMinute) t.
Proof.
  assert (Hv : (val (of_int 60) == 60)%Q) by (by rewrite of_int_val).
  split_and!; simpl.
  - apply div_self. rewrite Hv. reflexivity.
  - exact Hv.
  - apply map_Forall_empty.
Qed.

Lemma newRateLimiter_sound : sound (newRateLimiter requestsPerMinute).
Proof. destruct (newRateLimiter_ok 0) as (Hp & Hb & _). by split_and!. Qed.

End lemmas.

(** ** Properties *)

(** The limit holds: of any number of requests, from any addresses, that take
    the lock of a limiter in use, those of one address let through are at most
    sixty, and one for every second between a time no reading is before and the
    latest reading, up to the rounding of the arithmetic; the readings may come
    in any order, none nine minutes late. *)
Theorem allow_rate_bound {FL : Float64} {L : FloatLaws FL} before key t reqs :
  clock_near t t reqs →
  (inject_Z (allowed key reqs (allow_all (allow_all (newRateLimiter requestsPerMinute) before).2 reqs).1) <=
   60 + sec (latest t reqs - t) + 5 * eps * inject_Z (Z.of_nat (length (of_key key reqs))))%Q.
Proof. apply allow_all_bound, sound_allow_all, newRateLimiter_sound. Qed.

(** Sixty requests at once, two seconds later one more, and a straggler whose
    reading is a second old: all but the straggler and one of the first are let
    through. *)
Lemma allow_rate_bound_witness :
  let reqs := replicate 61 ("1.2.3.4"%string, 1000 * Second) ++
              [("1.2.3.4"%string, 1001 * Second); ("1.2.3.4"%string, 1000 * Second)] in
  allowed "1.2.3.4" reqs (allow_all (newRateLimiter requestsPerMinute) reqs).1 = 61 ∧
  (inject_Z (allowed "1.2.3.4" reqs (allow_all (newRateLimiter requestsPerMinute) reqs).1) <=
   60 + sec (latest (1000 * Second) reqs - 1000 * Second) +
   5 * eps * inject_Z (Z.of_nat (length (of_key "1.2.3.4" reqs))))%Q.
Proof.
  intros reqs. split; [vm_compute; reflexivity|].
  assert (Hc : clock_near (1000 * Second) (1000 * Second) reqs) by (vm_compute; repeat split; discriminate).
  exact (allow_rate_bound [] "1.2.3.4" (1000 * Second) reqs Hc).
Defined.

(** Sweeping idle buckets changes no verdict: a limiter that sweeps and one that
    has just swept answer a request alike and leave the address the same
    bucket, because a bucket idle for ten minutes has refilled. (claim C39) *)
Theorem sweep_transparent {FL : Float64} {L : FloatLaws FL} l key now :
  limiter_ok l now →
  let unswept := MkRateLimiter (buckets l) (perSecond l) (burst l) now in
  (allow l key now).1 = (allow unswept key now).1 ∧
  buckets (allow l key now).2 !! key = buckets (allow unswept key now).2 !! key.
Proof.
  intros Hok unswept. pose proof Hok as (Hper & Hb & Hbs).
  assert (Hno : sweep unswept now = unswept).
  { unfold sweep. simpl. assert (Hs : Sub now now = 0) by (unfold Sub, int64_min, int64_max; lia).
    by rewrite Hs. }
  assert (Hch : charged l key now = charged unswept key now).
  { unfold charged. rewrite Hno. destruct (sweep_params l now) as [Hp1 Hp2].
    assert (Href : ∀ b, refill (sweep l now) b now = refill unswept b now).
    { intros b. unfold refill. rewrite Hp1, Hp2. done. }
    rewrite Href, Hp2. destruct (sweep_lookup l now key) as [->|(-> & b & Hk & Hidle)]; [done|].
    simpl. rewrite Hk. simpl.
    pose proof (refill_now unswept now) as Hn. change (burst unswept) with (burst l) in Hn. rewrite Hn.
    symmetry. exact (refill_idle unswept b now Hper Hb (Hbs key b Hk) Hidle). }
  unfold allow. fold (charged l key now). fold (charged unswept key now). rewrite <-Hch.
  destruct (flt (tokens (charged l key now)) (of_int 1)); simpl; by rewrite !lookup_insert_eq.
Qed.

Lemma sweep_transparent_witness :
  let l := (allow (newRateLimiter requestsPerMinute) "1.2.3.4" (1000 * Second)).2 in
  let unswept := MkRateLimiter (buckets l) (perSecond l) (burst l) (1700 * Second) in
  (allow l "1.2.3.4" (1700 * Second)).1 = (allow unswept "1.2.3.4" (1700 * Second)).1 ∧
  buckets (allow l "1.2.3.4" (1700 * Second)).2 !! "1.2.3.4"%string =
    buckets (allow unswept "1.2.3.4" (1700 * Second)).2 !! "1.2.3.4"%string.
Proof.
  intros l. apply (sweep_transparent l "1.2.3.4" (1700 * Second)).
  apply (limiter_ok_later l (1000 * Second)); [vm_compute; discriminate|].
  exact (limiter_ok_allow _ "1.2.3.4" (1000 * Second) (newRateLimiter_ok (1000 * Second))).
Defined.
