(* ===== verification/GoText.v ===== *)
(** * Text functions of the Go standard library

    [strings.TrimSpace], [bytes.Contains], [bytes.ReplaceAll],
    [net.SplitHostPort] and [time.ParseDuration], after their sources. *)

From Stdlib Require Import SpecFloat.
From S2P Require Import Prelude GoStd.
Open Scope Z_scope.

Definition text (s : string) : list ascii := String.list_ascii_of_string s.
Definition untext (l : list ascii) : string := String.string_of_list_ascii l.

Definition byte (n : nat) : ascii := Ascii.ascii_of_nat n.

(** ** [strings.TrimSpace] *)

(** The UTF-8 encodings of the characters with the White_Space property. *)
Definition white_space : list (list ascii) :=
  ((λ n, [byte n]) <$> [9; 10; 11; 12; 13; 32]%nat) ++
  [[byte 194; byte 133]; [byte 194; byte 160]; [byte 225; byte 154; byte 128]] ++
  ((λ n, [byte 226; byte 128; byte n]) <$> seq 128 11) ++
  [[byte 226; byte 128; byte 168]; [byte 226; byte 128; byte 169]; [byte 226; byte 128; byte 175];
   [byte 226; byte 129; byte 159]; [byte 227; byte 128; byte 128]].

Fixpoint strip_prefix (p l : list ascii) : option (list ascii) :=
  match p, l with
  | [], _ => Some l
  | c :: p, d :: l => if bool_decide (c = d) then strip_prefix p l else None
  | _ :: _, [] => None
  end.

(** The rest of [l] after the first of [ps] that is a prefix of it. *)
Fixpoint strip_any (ps : list (list ascii)) (l : list ascii) : option (list ascii) :=
  match ps with
  | [] => None
  | p :: ps => match strip_prefix p l with Some l => Some l | None => strip_any ps l end
  end.

Fixpoint trim_left (fuel : nat) (ps : list (list ascii)) (l : list ascii) : list ascii :=
  match fuel with
  | O => l
  | S fuel => match strip_any ps l with Some l => trim_left fuel ps l | None => l end
  end.

(** White space off the left end, then off the right end. *)
Definition TrimSpace (s : string) : string :=
  let l := trim_left (String.length s) white_space (text s) in
  untext (rev (trim_left (length l) ((λ p, rev p) <$> white_space) (rev l))).

(** ** [bytes.Contains], [bytes.ReplaceAll] for a pattern that is not empty *)

Fixpoint contains_bytes (l p : list ascii) : bool :=
  match strip_prefix p l with
  | Some _ => true
  | None => match l with [] => false | _ :: l => contains_bytes l p end
  end.

Fixpoint replace_bytes (fuel : nat) (l p new : list ascii) : list ascii :=
  match fuel with
  | O => l
  | S fuel =>
      match strip_prefix p l with
      | Some rest => new ++ replace_bytes fuel rest p new
      | None => match l with [] => [] | c :: l => c :: replace_bytes fuel l p new end
      end
  end.

Definition Contains (s p : bytes) : bool := contains_bytes (text s) (text p).
Definition ReplaceAll (s p new : bytes) : bytes :=
  untext (replace_bytes (S (String.length s)) (text s) (text p) (text new)).

(** ** [net.SplitHostPort]: the host, when there is one and a port *)

Fixpoint index (c : ascii) (l : list ascii) : option nat :=
  match l with
  | [] => None
  | d :: l => if bool_decide (c = d) then Some O else S <$> index c l
  end.

Definition last_index (c : ascii) (l : list ascii) : option nat :=
  (λ i, (length l - 1 - i)%nat) <$> index c (rev l).

Definition SplitHostPort (hostport : string) : option (string * string) :=
  let l := text hostport in
  i ← last_index ":" l;
  '(host, j, k) ←
    (if bool_decide (head l = Some "["%char) then
       close ← index "]" l;
       if bool_decide (S close = i) then Some (take (close - 1) (drop 1 l), 1%nat, S close) else None
     else
       let host := take i l in
       if bool_decide (index ":" host = None) then Some (host, O, O) else None);
  if bool_decide (index "[" (drop j l) = None) && bool_decide (index "]" (drop k l) = None)
  then Some (untext host, untext (drop (S i) l)) else None.

Example split_v4 : SplitHostPort "192.0.2.1:1234" = Some ("192.0.2.1", "1234")%string.
Proof. reflexivity. Qed.
Example split_v6 : SplitHostPort "[2001:db8::1]:80" = Some ("2001:db8::1", "80")%string.
Proof. reflexivity. Qed.
Example split_bare_v6 : SplitHostPort "2001:db8::1" = None.
Proof. reflexivity. Qed.

(** ** [time.ParseDuration] *)

Definition digit (c : ascii) : bool := match digit_val c with Some _ => true | None => false end.

(** [leadingInt]: the digits at the front, [None] when they overflow. *)
Fixpoint leadingInt (x : Z) (l : list ascii) : option (Z * list ascii) :=
  match l with
  | [] => Some (x, [])
  | c :: l' =>
      match digit_val c with
      | None => Some (x, l)
      | Some d =>
          if 2^63 / 10 <? x then None
          else if 2^63 <? x * 10 + d then None
          else leadingInt (x * 10 + d) l'
      end
  end.

(** [leadingFraction]: digits past the precision are skipped; [scale] is the
    power of ten, a float64 in the source, by its exponent. *)
Fixpoint leadingFraction (x : Z) (exponent : nat) (overflow : bool) (l : list ascii) :
  Z * nat * list ascii :=
  match l with
  | [] => (x, exponent, [])
  | c :: l' =>
      match digit_val c with
      | None => (x, exponent, l)
      | Some d =>
          if overflow then leadingFraction x exponent true l'
          else if (2^63 - 1) / 10 <? x then leadingFraction x exponent true l'
          else if 2^63 <? x * 10 + d then leadingFraction x exponent true l'
          else leadingFraction (x * 10 + d) (S exponent) false l'
      end
  end.

(** IEEE double arithmetic. *)
Definition float64 (n : Z) : spec_float := binary_normalize 53 1024 n 0 false.
Fixpoint pow10 (n : nat) : spec_float :=
  match n with O => float64 1 | S n => SFmul 53 1024 (pow10 n) (float64 10) end.

(** [uint64(x)] of a float that is not negative: truncation. *)
Definition truncate (x : spec_float) : Z :=
  match x with
  | S754_finite false m e => if 0 <=? e then Z.pos m * 2 ^ e else Z.pos m / 2 ^ (- e)
  | _ => 0
  end.

Definition fraction (f unit : Z) (exponent : nat) : Z :=
  truncate (SFmul 53 1024 (float64 f) (SFdiv 53 1024 (float64 unit) (pow10 exponent))).

Definition unitMap (u : list ascii) : option Z :=
  let micro n := untext [byte (fst n); byte (snd n); "s"%char] in
  let u := untext u in
  if u =s "ns" then Some 1
  else if (u =s "us") || (u =s micro (194, 181)%nat) || (u =s micro (206, 188)%nat) then Some 1000
  else if u =s "ms" then Some 1000000
  else if u =s "s" then Some Second
  else if u =s "m" then Some Minute
  else if u =s "h" then Some Hour
  else None.

(** The characters of the unit: up to the next digit or period. *)
Fixpoint span_unit (l : list ascii) : list ascii * list ascii :=
  match l with
  | [] => ([], [])
  | c :: l' =>
      if digit c || bool_decide (c = "."%char) then ([], l)
      else let '(u, r) := span_unit l' in (c :: u, r)
  end.

(** One round of the loop: a number and its unit. *)
Definition duration_part (l : list ascii) : option (Z * list ascii) :=
  '(v, l1) ← leadingInt 0 l;
  let pre := negb (bool_decide (length l1 = length l)) in
  let '(f, exponent, l2, post) :=
    match l1 with
    | "."%char :: l1' =>
        let '(f, exponent, l2) := leadingFraction 0 0 false l1' in
        (f, exponent, l2, negb (bool_decide (length l2 = length l1')))
    | _ => (0, 0%nat, l1, false)
    end in
  if negb pre && negb post then None
  else
    let '(u, rest) := span_unit l2 in
    if bool_decide (u = []) then None
    else
      unit ← unitMap u;
      if 2^63 / unit <? v then None
      else
        let v := v * unit in
        let v := if 0 <? f then v + fraction f unit exponent else v in
        if 2^63 <? v then None else Some (v, rest).

(** The loop; each round consumes at least a character. *)
Fixpoint duration_loop (fuel : nat) (d : Z) (l : list ascii) : option Z :=
  match l, fuel with
  | [], _ => Some d
  | _, O => None
  | c :: _, S fuel =>
      if digit c || bool_decide (c = "."%char) then
        '(v, rest) ← duration_part l;
        if 2^63 <? d + v then None else duration_loop fuel (d + v) rest
      else None
  end.

Definition ParseDuration (s : string) : option Z :=
  let l := text s in
  let '(neg, l) :=
    match l with
    | "-"%char :: l => (true, l)
    | "+"%char :: l => (false, l)
    | _ => (false, l)
    end in
  if bool_decide (untext l = "0"%string) then Some 0
  else match l with
  | [] => None
  | _ =>
      d ← duration_loop (length l) 0 l;
      if neg : bool then Some (- d) else if 2^63 - 1 <? d then None else Some d
  end.

Example duration_minutes : ParseDuration "1h15m30.5s" = Some (Hour + 15 * Minute + 30500000000).
Proof. vm_compute. reflexivity. Qed.
Example duration_no_unit : ParseDuration "300" = None.
Proof. vm_compute. reflexivity. Qed.
Example duration_negative : ParseDuration "-1.5ms" = Some (-1500000).
Proof. vm_compute. reflexivity. Qed.
Example trim_example : TrimSpace "  a b	 " = "a b"%string.
Proof. vm_compute. reflexivity. Qed.
Example replace_example :
  ReplaceAll "K=${SIGNING_KEY} ${SIGNING_KEY" "${SIGNING_KEY}" "GABC" = "K=GABC ${SIGNING_KEY"%string.
Proof. vm_compute. reflexivity. Qed.

(** ** What [ReplaceAll] does: a reference

    The text is cut at the occurrences of the pattern, none of the pieces
    contains it, and the pieces are joined by the new text. *)

Fixpoint join_with (sep : list ascii) (pieces : list (list ascii)) : list ascii :=
  match pieces with
  | [] => []
  | [x] => x
  | x :: pieces => x ++ sep ++ join_with sep pieces
  end.

Lemma join_with_cons sep x pieces :
  pieces ≠ [] → join_with sep (x :: pieces) = x ++ sep ++ join_with sep pieces.
Proof. by destruct pieces. Qed.

Lemma strip_prefix_app p l rest : strip_prefix p l = Some rest ↔ l = p ++ rest.
Proof.
  revert l. induction p as [|c p IH]; intros [|d l]; simpl; try naive_solver.
  case_bool_decide as Hc; [subst; rewrite IH; naive_solver|naive_solver].
Qed.

Lemma strip_prefix_extend p l l' rest : strip_prefix p l = Some rest → is_Some (strip_prefix p (l ++ l')).
Proof. rewrite strip_prefix_app. intros ->. exists (rest ++ l'). by rewrite strip_prefix_app, app_assoc. Qed.

Lemma contains_cons c l p :
  contains_bytes (c :: l) p = true ↔ is_Some (strip_prefix p (c :: l)) ∨ contains_bytes l p = true.
Proof.
  cbn [contains_bytes]. destruct (strip_prefix p (c :: l)); [naive_solver|].
  split; [by right|]. by intros [[? ?]|?].
Qed.

Lemma replace_pieces fuel l p new :
  p ≠ [] → (length l < fuel)%nat →
  ∃ pieces, pieces ≠ [] ∧ l = join_with p pieces ∧
    Forall (λ piece, contains_bytes piece p = false) pieces ∧
    (contains_bytes l p = true ↔ (2 ≤ length pieces)%nat) ∧
    replace_bytes fuel l p new = join_with new pieces.
Proof.
  intros Hp. assert (Hnil : contains_bytes [] p = false) by by destruct p.
  revert l. induction fuel as [|fuel IH]; intros l Hl; [lia|]. cbn [replace_bytes].
  destruct (strip_prefix p l) as [rest|] eqn:Hs.
  - pose proof Hs as ->%strip_prefix_app. rewrite length_app in Hl.
    assert (0 < length p)%nat by (destruct p; [done|simpl; lia]).
    destruct (IH rest) as (pieces & Hne & Hr & Hf & _ & Heq); [lia|].
    exists ([] :: pieces). split; [done|]. rewrite !join_with_cons by done.
    split; [by rewrite <-Hr|]. split; [by constructor|]. split; [|by rewrite Heq].
    destruct pieces; [done|]. simpl. split; [lia|intros _].
    destruct (p ++ rest); [by destruct p|]. cbn [contains_bytes]. by rewrite Hs.
  - destruct l as [|c l].
    { exists [[]]. split_and!; try done; [by repeat constructor|]. rewrite Hnil. simpl. split; [done|lia]. }
    destruct (IH l) as ([|x pieces] & Hne & Hr & Hf & Hc & Heq); [simpl in Hl; lia|done|].
    exists ((c :: x) :: pieces). apply Forall_cons in Hf as [Hx Hf].
    split; [done|]. split; [by rewrite Hr; destruct pieces|]. split.
    + constructor; [|done]. apply not_true_iff_false. rewrite contains_cons, Hx.
      intros [[rest Hrest]|?]; [|done].
      destruct (strip_prefix_extend _ _ (match pieces with [] => [] | _ => p ++ join_with p pieces end) _ Hrest)
        as [rest' Hrest'].
      assert (Hcl : c :: l = (c :: x) ++ match pieces with [] => [] | _ => p ++ join_with p pieces end).
      { rewrite Hr. destruct pieces; [by rewrite app_nil_r|done]. }
      rewrite <-Hcl in Hrest'. congruence.
    + split; [|by rewrite Heq; destruct pieces]. rewrite contains_cons, Hs, Hc. simpl.
      split; [by intros [[? ?]|?]|by right].
Qed.

Lemma text_untext l : text (untext l) = l.
Proof. apply String.list_ascii_of_string_of_list_ascii. Qed.

Lemma ReplaceAll_pieces s p new :
  p ≠ ""%string →
  ∃ pieces, text s = join_with (text p) pieces ∧
    Forall (λ piece, contains_bytes piece (text p) = false) pieces ∧
    (Contains s p = true ↔ (2 ≤ length pieces)%nat) ∧
    text (ReplaceAll s p new) = join_with (text new) pieces.
Proof.
  intros Hp. destruct (replace_pieces (S (String.length s)) (text s) (text p) (text new))
    as (pieces & _ & ? & ? & ? & ?).
  - by destruct p.
  - unfold text. clear. induction s; simpl in *; lia.
  - exists pieces. unfold ReplaceAll. by rewrite text_untext.
Qed.
