(* ===== verification/Config.v ===== *)
(** * Configuration (internal/config/config.go)

    [Load] and the helpers it reads the environment with.  Everything the
    constructors of the other packages check at start, [Load] has checked. *)

From S2P Require Import Prelude GoStd GoText Errors Stellar SdkDemo Http Account.
Open Scope Z_scope.

Definition minJWTSecretLen : Z := 32.

Record Config : Type := MkConfig {
  cfg_SigningSecret : string;
  cfg_SigningPublicKey : string;
  cfg_NetworkPassphrase : string;
  cfg_HorizonURL : string;
  cfg_WebAuthDomain : string;
  cfg_HomeDomains : list string;
  cfg_ChallengeTimeout : Z;
  cfg_JWTSecret : string;
  cfg_JWTIssuer : string;
  cfg_JWTLifetime : Z;
  cfg_ClientDomainRequired : bool;
  cfg_ClientDomainAllowlist : list string;
  cfg_ClientDomainCacheTTL : Z;
  cfg_DatabaseURL : string;
  cfg_ListenAddr : string;
  cfg_TOMLPath : string;
  cfg_TrustProxyHeaders : bool;
}.

(** ** Reading one variable *)

Definition required (getenv : string → string) (name : string) : result error string :=
  let v := TrimSpace (getenv name) in
  fail_if v =s "" with Errorf "%s is required but not set" [Str name] [] ;;
  Ok v.

Definition duration (getenv : string → string) (name : string) (def : Z) : result error Z :=
  let raw := TrimSpace (getenv name) in
  if raw =s "" then Ok def
  else or_err (Errorf "%s is not a valid duration: %q" [Str name; Str raw] []) (ParseDuration raw).

Definition boolean (getenv : string → string) (name : string) (def : bool) : result error bool :=
  let raw := TrimSpace (getenv name) in
  if raw =s "" then Ok def
  else or_err (Errorf "%s is not a valid boolean: %q" [Str name; Str raw] []) (ParseBool raw).

Definition splitList (raw : string) : list string :=
  filter (λ trimmed, trimmed ≠ ""%string) (TrimSpace <$> Split raw ",").

(** ** [Load] *)

Section load.
Context {Sd : SDK} {HL : HorizonLib}.

Definition Load (getenv : string → string) : result error Config :=
  let? signingSecret := required getenv "SEP10_SIGNING_SECRET" in
  let? kp := map_err (λ _, New "SEP10_SIGNING_SECRET is not a valid Stellar secret seed")
               (ParseFull signingSecret) in
  let? networkPassphrase := required getenv "SEP10_NETWORK_PASSPHRASE" in
  let? horizonURL := required getenv "SEP10_HORIZON_URL" in
  fail_if match url_Parse horizonURL with
          | Err _ => true
          | Ok (scheme, host) => (scheme =s "") || (host =s "")
          end
    with Errorf "SEP10_HORIZON_URL is not a valid absolute URL: %q" [Str horizonURL] [] ;;
  let? webAuthDomain := required getenv "SEP10_WEB_AUTH_DOMAIN" in
  let? rawHomeDomains := required getenv "SEP10_HOME_DOMAINS" in
  let homeDomains := splitList rawHomeDomains in
  fail_if bool_decide (homeDomains = [])
    with New "SEP10_HOME_DOMAINS contains no non-empty entries" ;;
  let? challengeTimeout := duration getenv "SEP10_CHALLENGE_TIMEOUT" (300 * Second) in
  fail_if challengeTimeout <? Second
    with Errorf "SEP10_CHALLENGE_TIMEOUT must be at least 1s, got %s" [Num challengeTimeout] [] ;;
  let? jwtSecret := required getenv "SEP10_JWT_SECRET" in
  fail_if len jwtSecret <? minJWTSecretLen
    with Errorf "SEP10_JWT_SECRET must be at least %d bytes" [Num minJWTSecretLen] [] ;;
  let? jwtIssuer := required getenv "SEP10_JWT_ISSUER" in
  let? jwtLifetime := duration getenv "SEP10_JWT_LIFETIME" (24 * Hour) in
  fail_if jwtLifetime <=? 0
    with Errorf "SEP10_JWT_LIFETIME must be positive, got %s" [Num jwtLifetime] [] ;;
  let? clientDomainRequired := boolean getenv "SEP10_CLIENT_DOMAIN_REQUIRED" false in
  let clientDomainAllowlist := splitList (getenv "SEP10_CLIENT_DOMAIN_ALLOWLIST") in
  let? clientDomainCacheTTL := duration getenv "SEP10_CLIENT_DOMAIN_CACHE_TTL" (5 * Minute) in
  fail_if clientDomainCacheTTL <=? 0
    with Errorf "SEP10_CLIENT_DOMAIN_CACHE_TTL must be positive, got %s" [Num clientDomainCacheTTL] [] ;;
  let? databaseURL := required getenv "SEP10_DATABASE_URL" in
  let listenAddr := getenv "SEP10_LISTEN_ADDR" in
  let listenAddr := if listenAddr =s "" then ":8080"%string else listenAddr in
  let? tomlPath := required getenv "SEP10_TOML_PATH" in
  let? trustProxyHeaders := boolean getenv "SEP10_TRUST_PROXY_HEADERS" false in
  Ok (MkConfig signingSecret (full_Address kp) networkPassphrase horizonURL webAuthDomain homeDomains
        challengeTimeout jwtSecret jwtIssuer jwtLifetime clientDomainRequired clientDomainAllowlist
        clientDomainCacheTTL databaseURL listenAddr tomlPath trustProxyHeaders).

(** ** What a loaded configuration is *)

Record Valid (c : Config) : Prop := {
  v_key : ∃ kp, ParseFull (cfg_SigningSecret c) = Ok kp ∧ cfg_SigningPublicKey c = full_Address kp;
  v_network : cfg_NetworkPassphrase c ≠ ""%string;
  v_horizon : ∃ scheme host, url_Parse (cfg_HorizonURL c) = Ok (scheme, host) ∧
                scheme ≠ ""%string ∧ host ≠ ""%string;
  v_web : cfg_WebAuthDomain c ≠ ""%string;
  v_homes : cfg_HomeDomains c ≠ [] ∧ "" ∉ cfg_HomeDomains c;
  v_timeout : Second ≤ cfg_ChallengeTimeout c;
  v_secret : 32 ≤ len (cfg_JWTSecret c);
  v_issuer : cfg_JWTIssuer c ≠ ""%string;
  v_lifetime : 0 < cfg_JWTLifetime c;
  v_ttl : 0 < cfg_ClientDomainCacheTTL c;
  v_database : cfg_DatabaseURL c ≠ ""%string;
  v_listen : cfg_ListenAddr c ≠ ""%string;
  v_toml : cfg_TOMLPath c ≠ ""%string;
}.

(** ** What an error of [Load] may depend on *)

(** The variables whose values an error may show, and those that must be set. *)
Definition public_variables : list string :=
  ["SEP10_HORIZON_URL"; "SEP10_CHALLENGE_TIMEOUT"; "SEP10_JWT_LIFETIME";
   "SEP10_CLIENT_DOMAIN_REQUIRED"; "SEP10_CLIENT_DOMAIN_CACHE_TTL"; "SEP10_TRUST_PROXY_HEADERS"].
Definition required_variables : list string :=
  ["SEP10_SIGNING_SECRET"; "SEP10_NETWORK_PASSPHRASE"; "SEP10_HORIZON_URL"; "SEP10_WEB_AUTH_DOMAIN";
   "SEP10_HOME_DOMAINS"; "SEP10_JWT_SECRET"; "SEP10_JWT_ISSUER"; "SEP10_DATABASE_URL"; "SEP10_TOML_PATH"].

(** The environment without its secrets: only the public variables are left. *)
Definition mask (getenv : string → string) (name : string) : string :=
  if bool_decide (name ∈ public_variables) then getenv name else "".

(** The error about a duration that is out of bounds shows the duration. *)
Definition bound_error (public : string → string) (name : string) (def : Z) (format : string) :
  list error :=
  match duration public name def with
  | Ok d => [Errorf format [Num d] []]
  | Err _ => []
  end.

(** The errors there can be, given the public variables. *)
Definition possible_errors (public : string → string) : list error :=
  ((λ name, Errorf "%s is required but not set" [Str name] []) <$> required_variables) ++
  [New "SEP10_SIGNING_SECRET is not a valid Stellar secret seed";
   New "SEP10_HOME_DOMAINS contains no non-empty entries";
   Errorf "SEP10_JWT_SECRET must be at least %d bytes" [Num 32] [];
   Errorf "SEP10_HORIZON_URL is not a valid absolute URL: %q"
     [Str (TrimSpace (public "SEP10_HORIZON_URL"))] []] ++
  ((λ name, Errorf "%s is not a valid duration: %q" [Str name; Str (TrimSpace (public name))] []) <$>
     ["SEP10_CHALLENGE_TIMEOUT"; "SEP10_JWT_LIFETIME"; "SEP10_CLIENT_DOMAIN_CACHE_TTL"]) ++
  ((λ name, Errorf "%s is not a valid boolean: %q" [Str name; Str (TrimSpace (public name))] []) <$>
     ["SEP10_CLIENT_DOMAIN_REQUIRED"; "SEP10_TRUST_PROXY_HEADERS"]) ++
  bound_error public "SEP10_CHALLENGE_TIMEOUT" (300 * Second)
    "SEP10_CHALLENGE_TIMEOUT must be at least 1s, got %s" ++
  bound_error public "SEP10_JWT_LIFETIME" (24 * Hour) "SEP10_JWT_LIFETIME must be positive, got %s" ++
  bound_error public "SEP10_CLIENT_DOMAIN_CACHE_TTL" (5 * Minute)
    "SEP10_CLIENT_DOMAIN_CACHE_TTL must be positive, got %s".

(** ** Lemmas *)

Lemma required_ok getenv name v :
  required getenv name = Ok v ↔ v = TrimSpace (getenv name) ∧ v ≠ ""%string.
Proof.
  unfold required. rewrite fail_if_ok, bool_decide_eq_false. naive_solver.
Qed.

(** A computation all of whose errors are of [es]. *)
Definition errs {A} (es : list error) (r : result error A) : Prop := ∀ e, r = Err e → e ∈ es.

Lemma errs_bind {A B} es (r : result error A) (f : A → result error B) :
  errs es r → (∀ a, r = Ok a → errs es (f a)) → errs es (result_bind f r).
Proof. intros Hr Hf e [H|(a & Ha & H)]%bind_err; [by apply Hr|by eapply Hf]. Qed.

Lemma errs_fail_if {A} es (c : bool) e (k : result error A) :
  e ∈ es → errs es k → errs es (fail_if c with e ;; k).
Proof. intros He Hk e' [[_ ->]|[_ H]]%fail_if_err; [done|by apply Hk]. Qed.

Lemma errs_ok {A} es (a : A) : errs es (Ok a).
Proof. by intros e. Qed.

Lemma errs_map_err {A} es e (r : result string A) : e ∈ es → errs es (map_err (λ _, e) r).
Proof. intros He e' (? & _ & ->)%map_err_err. done. Qed.

Lemma required_errs es getenv name :
  Errorf "%s is required but not set" [Str name] [] ∈ es → errs es (required getenv name).
Proof. intros He. apply errs_fail_if; [done|apply errs_ok]. Qed.

Lemma duration_errs es getenv name def :
  Errorf "%s is not a valid duration: %q" [Str name; Str (TrimSpace (getenv name))] [] ∈ es →
  errs es (duration getenv name def).
Proof. unfold duration. intros He. destruct (_ =s ""); [apply errs_ok|]. by intros e [_ ->]%or_err_err. Qed.

Lemma boolean_errs es getenv name def :
  Errorf "%s is not a valid boolean: %q" [Str name; Str (TrimSpace (getenv name))] [] ∈ es →
  errs es (boolean getenv name def).
Proof. unfold boolean. intros He. destruct (_ =s ""); [apply errs_ok|]. by intros e [_ ->]%or_err_err. Qed.

Lemma mask_public getenv name : name ∈ public_variables → mask getenv name = getenv name.
Proof. intros Hn. unfold mask. by rewrite bool_decide_eq_true_2. Qed.

Lemma bound_error_in getenv name def format d :
  name ∈ public_variables → duration getenv name def = Ok d →
  Errorf format [Num d] [] ∈ bound_error (mask getenv) name def format.
Proof.
  intros Hn Hd. assert (Hm : duration (mask getenv) name def = Ok d)
    by (unfold duration in *; by rewrite mask_public).
  unfold bound_error. rewrite Hm. by apply list_elem_of_singleton.
Qed.

(** Where each error stands in the list. *)
Lemma possible_required public name :
  name ∈ required_variables →
  Errorf "%s is required but not set" [Str name] [] ∈ possible_errors public.
Proof. intros Hn. apply elem_of_app. left. apply list_elem_of_fmap. by exists name. Qed.

Lemma possible_fixed public e :
  e ∈ [New "SEP10_SIGNING_SECRET is not a valid Stellar secret seed";
       New "SEP10_HOME_DOMAINS contains no non-empty entries";
       Errorf "SEP10_JWT_SECRET must be at least %d bytes" [Num 32] [];
       Errorf "SEP10_HORIZON_URL is not a valid absolute URL: %q"
         [Str (TrimSpace (public "SEP10_HORIZON_URL"))] []] →
  e ∈ possible_errors public.
Proof. intros He. apply elem_of_app. right. apply elem_of_app. by left. Qed.

Lemma possible_horizon getenv u :
  required getenv "SEP10_HORIZON_URL" = Ok u →
  Errorf "SEP10_HORIZON_URL is not a valid absolute URL: %q" [Str u] [] ∈ possible_errors (mask getenv).
Proof.
  intros [-> _]%required_ok. apply possible_fixed. rewrite mask_public by set_solver. set_solver.
Qed.

Lemma possible_duration getenv name :
  name ∈ ["SEP10_CHALLENGE_TIMEOUT"; "SEP10_JWT_LIFETIME"; "SEP10_CLIENT_DOMAIN_CACHE_TTL"] →
  Errorf "%s is not a valid duration: %q" [Str name; Str (TrimSpace (getenv name))] []
    ∈ possible_errors (mask getenv).
Proof.
  intros Hn. rewrite <-(mask_public getenv name) by set_solver.
  do 2 (apply elem_of_app; right). apply elem_of_app. left. apply list_elem_of_fmap. by exists name.
Qed.

Lemma possible_boolean getenv name :
  name ∈ ["SEP10_CLIENT_DOMAIN_REQUIRED"; "SEP10_TRUST_PROXY_HEADERS"] →
  Errorf "%s is not a valid boolean: %q" [Str name; Str (TrimSpace (getenv name))] []
    ∈ possible_errors (mask getenv).
Proof.
  intros Hn. rewrite <-(mask_public getenv name) by set_solver.
  do 3 (apply elem_of_app; right). apply elem_of_app. left. apply list_elem_of_fmap. by exists name.
Qed.

Lemma possible_bound getenv name def format d :
  (name, def, format) ∈
    [("SEP10_CHALLENGE_TIMEOUT", 300 * Second, "SEP10_CHALLENGE_TIMEOUT must be at least 1s, got %s");
     ("SEP10_JWT_LIFETIME", 24 * Hour, "SEP10_JWT_LIFETIME must be positive, got %s");
     ("SEP10_CLIENT_DOMAIN_CACHE_TTL", 5 * Minute,
      "SEP10_CLIENT_DOMAIN_CACHE_TTL must be positive, got %s")]%string →
  duration getenv name def = Ok d →
  Errorf format [Num d] [] ∈ possible_errors (mask getenv).
Proof.
  intros Hn Hd. do 4 (apply elem_of_app; right).
  apply elem_of_cons in Hn as [[= -> -> ->]|[[= -> -> ->]|[= -> -> ->]%list_elem_of_singleton]%elem_of_cons].
  - apply elem_of_app. left. apply bound_error_in; [set_solver|done].
  - apply elem_of_app. right. apply elem_of_app. left. apply bound_error_in; [set_solver|done].
  - do 2 (apply elem_of_app; right). apply bound_error_in; [set_solver|done].
Qed.

Lemma splitList_nonempty raw : "" ∉ splitList raw.
Proof. unfold splitList. intros H. apply list_elem_of_filter in H as [H _]. done. Qed.

Lemma Load_ok getenv c : Load getenv = Ok c → Valid c.
Proof.
  unfold Load. intros H. body_ok H. injection H as <-.
  repeat match goal with
    | H : required _ _ = Ok _ |- _ => apply required_ok in H as [-> ?]
    | H : map_err _ _ = Ok _ |- _ => apply map_err_ok in H
    | H : match url_Parse ?u with _ => _ end = false |- _ =>
        let E := fresh "Hurl" in destruct (url_Parse u) as [[scheme host]|] eqn:E; [|done]
    end; reflect_guards.
  split; cbn [cfg_SigningSecret cfg_SigningPublicKey cfg_NetworkPassphrase cfg_HorizonURL cfg_WebAuthDomain
    cfg_HomeDomains cfg_ChallengeTimeout cfg_JWTSecret cfg_JWTIssuer cfg_JWTLifetime
    cfg_ClientDomainCacheTTL cfg_DatabaseURL cfg_ListenAddr cfg_TOMLPath]; try done.
  - by eexists.
  - by exists scheme, host.
  - split; [done|apply splitList_nonempty].
  - by case_bool_decide.
Qed.

(** ** Properties *)

(** [Load] lets nothing unvalidated through: whatever the environment holds, a
    configuration it returns has a parseable signing seed with the public key
    derived from it, an absolute Horizon URL, at least one home domain and no
    empty one, a timeout of a second or more, a JWT secret of 32 bytes or more,
    positive lifetimes, and no required setting empty. *)
Theorem Load_valid getenv c : Load getenv = Ok c → Valid c.
Proof. exact (Load_ok getenv c). Qed.

(** No error of [Load] carries a secret: whatever the seed, the JWT secret, the
    database URL and the other variables that are not public hold, the error is
    one of a list that is made from the public variables alone, as a whole: its
    text, its operands and the errors it wraps.  So an error shows a name, the
    trimmed value of a public variable or a number, and no part of a secret or
    of an error that quotes one. (claim C38) *)
Theorem Load_error_hides_secrets getenv e :
  Load getenv = Err e → e ∈ possible_errors (mask getenv).
Proof.
  revert e. change (errs (possible_errors (mask getenv)) (Load getenv)). unfold Load, minJWTSecretLen.
  repeat first
    [ apply errs_ok
    | apply errs_bind; [solve [apply errs_map_err, possible_fixed; set_solver
        | apply required_errs, possible_required; set_solver
        | apply duration_errs, possible_duration; set_solver
        | apply boolean_errs, possible_boolean; set_solver ] | intros ? ?]
    | apply errs_fail_if; [solve [apply possible_fixed; set_solver
        | eapply possible_bound; [|eassumption]; set_solver
        | by apply possible_horizon]|] ].
Qed.

End load.

(** ** An environment *)

Definition demo_env (name : string) : string :=
  if name =s "SEP10_SIGNING_SECRET" then "Sserver"
  else if name =s "SEP10_NETWORK_PASSPHRASE" then Sample.net
  else if name =s "SEP10_HORIZON_URL" then " https://horizon.example "
  else if name =s "SEP10_WEB_AUTH_DOMAIN" then Sample.web
  else if name =s "SEP10_HOME_DOMAINS" then " example.com, ,other.example"
  else if name =s "SEP10_JWT_SECRET" then "0123456789abcdef0123456789abcdef"
  else if name =s "SEP10_JWT_ISSUER" then "https://auth.example"
  else if name =s "SEP10_JWT_LIFETIME" then "1h30m"
  else if name =s "SEP10_DATABASE_URL" then "postgres://db/anchorage"
  else if name =s "SEP10_TOML_PATH" then "/etc/stellar.toml"
  else "".

Lemma Load_valid_witness :
  match Load demo_env with
  | Ok c => Valid c ∧ cfg_SigningPublicKey c = "Gserver" ∧ cfg_HomeDomains c = ["example.com"; "other.example"]
  | Err _ => False
  end.
Proof.
  destruct (Load demo_env) as [c|e] eqn:H; [|by vm_compute in H].
  split; [by apply (Load_valid demo_env)|]. vm_compute in H. by injection H as <-.
Defined.

(** A seed that does not parse: the error names the variable only, and a
    lifetime out of bounds is shown, as the public variable it comes from. *)
Definition bad_seed_env (name : string) : string :=
  if name =s "SEP10_SIGNING_SECRET" then "correct horse battery staple" else demo_env name.
Definition bad_lifetime_env (name : string) : string :=
  if name =s "SEP10_JWT_LIFETIME" then "-5s" else demo_env name.

Lemma Load_error_hides_secrets_witness :
  (∃ e, Load bad_seed_env = Err e ∧ e ∈ possible_errors (mask bad_seed_env)) ∧
  ∃ e, Load bad_lifetime_env = Err e ∧ e ∈ possible_errors (mask bad_lifetime_env).
Proof.
  split; eexists; (split; [vm_compute; reflexivity|]);
    apply (Load_error_hides_secrets _); vm_compute; reflexivity.
Defined.
