(* ===== verification/Router.v ===== *)
(** * Middleware and routes (internal/httpapi/router.go, middleware.go, toml_handler.go)

    [NewRouter] with its checks, [loadTOML], every middleware of the chain and
    the route table.  A handler may end in a panic, which [recoverPanic] stops.
    The router of chi is a class: which route a request matches, and what chi
    answers when none does. *)

From S2P Require Import Prelude GoStd GoText Errors Effects Stellar Verify Schema Store.
From S2P Require Import Http Account ClientDomain World HttpApi RateLimit.
From S2P Require Token Challenge.
Open Scope Z_scope.

Definition maxBodyBytes : Z := 64 * 1024.
Definition Millisecond : Z := 1000000.

(** ** The SEP-1 file *)

Definition signingKeyPlaceholder : string := "${SIGNING_KEY}".

Definition loadTOML (ReadFile : string → result error bytes) (path signingKey : string) :
  result error bytes :=
  match ReadFile path with
  | Err err => Err (Errorf "reading the SEP-1 file at %s: %w" [Str path] [err])
  | Ok raw =>
      fail_if negb (Contains raw signingKeyPlaceholder)
        with Errorf "the SEP-1 file at %s must contain the %s placeholder, not a literal signing key"
               [Str path; Str signingKeyPlaceholder] [] ;;
      Ok (ReplaceAll raw signingKeyPlaceholder signingKey)
  end.

(** ** Handlers that may panic *)

(** The value of a panic: [http.ErrAbortHandler] or another. *)
Inductive panic : Type :=
| ErrAbortHandler
| PanicValue (v : attr).

Section router.
Context {Sd : SDK} {J : Token.JWT} {WL : WebLib}.

(** [None] when the handler returned. *)
Definition Handler : Type := Request → prog Server (option panic).

Definition HandlerFunc (h : Request → prog Server unit) : Handler :=
  λ r, do _ <- h r ;; Ret None.

(** ** Middleware *)

(** [http.MaxBytesReader]: reads past the limit fail. *)
Definition MaxBytesReader (n : Z) (b : Body) : Body :=
  if n <? len (body_content b)
  then MkBody (take_bytes (Z.to_nat n) (body_content b)) (Some (New "http: request body too large"))
  else b.

Definition with_Body (r : Request) (b : Body) : Request :=
  MkRequest (r_ID r) (r_Method r) (r_Path r) (r_RemoteAddr r) (r_RawQuery r) (r_ContentType r) b.
Definition with_ID (r : Request) (id : string) : Request :=
  MkRequest id (r_Method r) (r_Path r) (r_RemoteAddr r) (r_RawQuery r) (r_ContentType r) (r_Body r).

Definition limitBody (next : Handler) : Handler :=
  λ r, next (with_Body r (MaxBytesReader maxBodyBytes (r_Body r))).

(** The line [requestLogger] writes. *)
Definition request_line (r : Request) (status bytes duration : Z) : list (string * attr) :=
  [("method", AStr (r_Method r)); ("path", AStr (r_Path r)); ("status", AInt status);
   ("bytes", AInt bytes); ("duration_ms", AInt (Z.quot duration Millisecond));
   ("request_id", AStr (r_ID r))]%string.

Definition requestLogger (next : Handler) : Handler := λ r,
  do started <- perform (S := Server) TimeNow ;;
  do p <- next r ;;
  match p with
  | Some p => Ret (Some p)
  | None =>
      do status <- perform (S := Server) WrappedStatus ;;
      do written <- perform (S := Server) WrappedBytes ;;
      do now <- perform (S := Server) TimeNow ;;
      do _ <- perform (S := Server) (Log LevelInfo "request"
                (request_line r status written (Sub now started))) ;;
      Ret None
  end.

Definition recoverPanic (next : Handler) : Handler := λ r,
  do p <- next r ;;
  match p with
  | None => Ret None
  | Some ErrAbortHandler => Ret (Some ErrAbortHandler)
  | Some (PanicValue v) =>
      do _ <- perform (S := Server) (Log LevelError "panic recovered"
                [("panic", v); ("path", AStr (r_Path r)); ("request_id", AStr (r_ID r))]%string) ;;
      do _ <- writeError StatusInternalServerError "internal server error" ;;
      Ret None
  end.

Definition clientIP (r : Request) : string :=
  match SplitHostPort (r_RemoteAddr r) with
  | None => r_RemoteAddr r
  | Some (host, _) => host
  end.

(** [limiter.middleware]; the limiter's critical section is one operation. *)
Definition limit (next : Handler) : Handler := λ r,
  do now <- perform (S := Server) TimeNow ;;
  do ok <- perform (S := Server) (Allow (clientIP r) now) ;;
  if negb ok then
    do _ <- writeError StatusTooManyRequests "too many requests" ;; Ret None
  else next r.

(** ** chi *)

Class Chi := {
  RealIP : Request → Request;
  (** The position in a route table of the route a method and a path match. *)
  Match : list (string * string) → string → string → option nat;
  (** chi's own answer, 404 or 405, when no route matches. *)
  Unrouted : Handler;
}.

(** A pattern without parameters or wildcard. *)
Definition static (pattern : string) : Prop :=
  index "{" (text pattern) = None ∧ index "*" (text pattern) = None.

(** A static pattern matches itself only; RealIP rewrites the address only; chi's
    own answers do nothing but write the response. *)
Class ChiLaws (C : Chi) := {
  Match_sound ps m p i : Forall (static ∘ snd) ps → Match ps m p = Some i → ps !! i = Some (m, p);
  Match_complete ps m p : Forall (static ∘ snd) ps → (m, p) ∈ ps → is_Some (Match ps m p);
  RealIP_addr r : RealIP r =
    MkRequest (r_ID r) (r_Method r) (r_Path r) (r_RemoteAddr (RealIP r)) (r_RawQuery r)
      (r_ContentType r) (r_Body r);
  Unrouted_writes r : all_ops (S := Server) (λ o, writes o = true) (Unrouted r);
}.

Context {C : Chi}.

(** [middleware.RequestID] puts an id in the context of the request. *)
Definition RequestID (next : Handler) : Handler := λ r,
  do id <- perform (S := Server) NewRequestID ;;
  next (with_ID r id).

Definition real_ip (next : Handler) : Handler := λ r, next (RealIP r).

(** A [chi.Mux]: what [Use] and [Get]/[Post] have added, in order. *)
Record Mux : Type := MkMux {
  middlewares : list (Handler → Handler);
  route_table : list ((string * string) * Handler);
}.

Definition dispatch (routes : list ((string * string) * Handler)) : Handler := λ r,
  match Match routes.*1 (r_Method r) (r_Path r) with
  | Some i => match routes !! i with Some (_, h) => h r | None => Unrouted r end
  | None => Unrouted r
  end.

(** The first middleware is the outermost. *)
Definition ServeHTTP (m : Mux) : Handler :=
  foldr (λ mw h, mw h) (dispatch (route_table m)) (middlewares m).

(** ** [NewRouter] *)

(** [httpapi.Deps]; an interface or pointer that is nil is [None]. *)
Record RouterDeps : Type := MkRouterDeps {
  rd_Logger : option unit;
  rd_Issuer : option (Challenge.Issuer (S := Server));
  rd_Tokens : option Token.Issuer;
  rd_Accounts : option (string → prog Server (result error Account));
  rd_Challenges : option ChallengeStore;
  rd_Health : option (prog Server (result error unit));
  rd_NetworkPassphrase : string;
  rd_WebAuthDomain : string;
  rd_HomeDomains : list string;
  rd_TOMLPath : string;
  rd_SigningPublicKey : string;
  rd_TrustProxyHeaders : bool;
}.

Variable keys : gmap string Z → list string.
Context {FL : Float64}.

Definition routes (d : Deps) (tomlBody : bytes) : list ((string * string) * Handler) :=
  [(("GET", "/health"), HandlerFunc (healthHandler (d_Health d)));
   (("GET", "/auth"), HandlerFunc (getAuthHandler d));
   (("POST", "/auth"), HandlerFunc (postAuthHandler keys d));
   (("GET", "/.well-known/stellar.toml"), HandlerFunc (tomlHandler tomlBody))]%string.

Definition chain (trustProxyHeaders : bool) : list (Handler → Handler) :=
  [RequestID] ++ (if trustProxyHeaders then [real_ip] else []) ++
  [recoverPanic; requestLogger; limitBody; limit].

(** The router and the limiter its requests share. *)
Definition NewRouter (ReadFile : string → result error bytes) (d : RouterDeps) :
  result error (Mux * rateLimiter) :=
  let? _ := or_err (New "a logger is required") (rd_Logger d) in
  let? health := or_err (New "a health pinger is required") (rd_Health d) in
  let? issuer := or_err (New "a challenge issuer is required") (rd_Issuer d) in
  let? challenges := or_err (New "a challenge store is required") (rd_Challenges d) in
  let? tokens := or_err (New "a token issuer is required") (rd_Tokens d) in
  let? accounts := or_err (New "an account fetcher is required") (rd_Accounts d) in
  fail_if rd_WebAuthDomain d =s "" with New "a web auth domain is required" ;;
  fail_if bool_decide (rd_HomeDomains d = []) with New "at least one home domain is required" ;;
  fail_if rd_NetworkPassphrase d =s "" with New "a network passphrase is required" ;;
  fail_if rd_TOMLPath d =s "" with New "a SEP-1 toml path is required" ;;
  fail_if rd_SigningPublicKey d =s "" with New "a signing public key is required" ;;
  let? tomlBody := loadTOML ReadFile (rd_TOMLPath d) (rd_SigningPublicKey d) in
  let deps := MkDeps issuer tokens accounts challenges health (rd_NetworkPassphrase d)
                (rd_WebAuthDomain d) (rd_HomeDomains d) in
  Ok (MkMux (chain (rd_TrustProxyHeaders d)) (routes deps tomlBody),
      newRateLimiter requestsPerMinute).
End router.

(** ** Lemmas *)

Section lemmas.
Context {Sd : SDK} {J : Token.JWT} {WL : WebLib} {C : Chi} {CL : ChiLaws C}.

Lemma runs_HandlerFunc h r tr p :
  runs (HandlerFunc h r) tr p ↔ p = None ∧ runs (h r) tr tt.
Proof.
  unfold HandlerFunc. rewrite runs_bind. split.
  - intros (tr1 & tr2 & [] & -> & H & -> & ->). by rewrite app_nil_r.
  - intros [-> H]. exists tr, [], tt. by rewrite app_nil_r.
Qed.

(** A table of static patterns, each once, dispatches to the route asked for. *)
Lemma dispatch_routed (routes : list ((string * string) * Handler)) r (h : Handler) :
  Forall (static ∘ snd) routes.*1 → NoDup routes.*1 →
  ((r_Method r, r_Path r), h) ∈ routes → dispatch routes r = h r.
Proof.
  intros Hs Hnd Hin. unfold dispatch.
  destruct (Match_complete routes.*1 (r_Method r) (r_Path r) Hs) as [i Hi].
  { apply list_elem_of_fmap. by exists ((r_Method r, r_Path r), h). }
  rewrite Hi. apply Match_sound in Hi; [|done].
  rewrite list_lookup_fmap in Hi. destruct (routes !! i) as [[k h']|] eqn:Hr; [|done].
  injection Hi as ->. apply list_elem_of_lookup_1 in Hin as [j Hj].
  assert (i = j) as <-.
  { apply (NoDup_lookup routes.*1 i j (r_Method r, r_Path r) Hnd); rewrite list_lookup_fmap;
      [by rewrite Hr|by rewrite Hj]. }
  rewrite Hr in Hj. by injection Hj as ->.
Qed.

(** *** The chain *)

Definition line_events (r : Request) (started ws wb ended : Z) : list (event Server) :=
  [Ev (S := Server) WrappedStatus ws; Ev (S := Server) WrappedBytes wb; Ev (S := Server) TimeNow ended;
   Ev (S := Server) (Log LevelInfo "request" (request_line r ws wb (Sub ended started))) tt].

(** The request as the handler sees it: its id, its address, its capped body. *)
Definition seen (trust : bool) (r : Request) (id : string) : Request :=
  let r := with_ID r id in if trust then RealIP r else r.
Definition capped (r : Request) : Request := with_Body r (MaxBytesReader maxBodyBytes (r_Body r)).

Lemma seen_route trust r id :
  r_Method (seen trust r id) = r_Method r ∧ r_Path (seen trust r id) = r_Path r ∧
  r_Body (seen trust r id) = r_Body r ∧ r_ID (seen trust r id) = id.
Proof. unfold seen. destruct trust; [|done]. by rewrite RealIP_addr. Qed.

(** How an admitted request ends, by what its handler did. *)
Definition ending (r : Request) (started : Z) (q p : option panic) (after : list (event Server)) : Prop :=
  match q with
  | None => p = None ∧ ∃ ws wb ended, after = line_events r started ws wb ended
  | Some ErrAbortHandler => p = Some ErrAbortHandler ∧ after = []
  | Some (PanicValue v) =>
      p = None ∧ ∃ out, after =
        Ev (S := Server) (Log LevelError "panic recovered"
          [("panic", v); ("path", AStr (r_Path r)); ("request_id", AStr (r_ID r))]%string) tt :: out ∧
        response out (wire_json 500 (errorBody "internal server error")).1
                     (wire_json 500 (errorBody "internal server error")).2
  end.

Lemma recoverPanic_runs next r tr p :
  runs (recoverPanic next r) tr p →
  ∃ tr1 tr2 q, tr = tr1 ++ tr2 ∧ runs (next r) tr1 q ∧
    match q with
    | None => p = None ∧ tr2 = []
    | Some ErrAbortHandler => p = Some ErrAbortHandler ∧ tr2 = []
    | Some (PanicValue v) => ending r 0 q p tr2
    end.
Proof.
  unfold recoverPanic. rewrite runs_bind. intros (tr1 & tr2 & q & -> & Hq & H).
  exists tr1, tr2, q. split; [done|]. split; [done|]. destruct q as [[|v]|]; [naive_solver| |naive_solver].
  destruct H as ([] & tr3 & -> & H). cbn -[runs] in H.
  apply (runs_bind _ (writeError _ _)) in H as (tr4 & tr5 & [] & -> & H & -> & ->).
  rewrite app_nil_r. split; [done|]. exists tr4. split; [done|]. by apply writeJSON_response in H.
Qed.

Lemma requestLogger_runs next r tr p :
  runs (requestLogger next r) tr p →
  ∃ started tr1 tr2, tr = Ev (S := Server) TimeNow started :: tr1 ++ tr2 ∧ runs (next r) tr1 p ∧
    match p with
    | None => ∃ ws wb ended, tr2 = line_events r started ws wb ended
    | Some _ => tr2 = []
    end.
Proof.
  intros (started & tr0 & -> & H). cbn -[runs] in H.
  apply (runs_bind _ (next r)) in H as (tr1 & tr2 & q & -> & Hq & H).
  exists started, tr1, tr2. split; [done|]. destruct q as [q|].
  - by destruct H as [-> ->].
  - destruct H as (ws & ? & -> & wb & ? & -> & ended & ? & -> & [] & ? & -> & -> & ->).
    split; [done|]. by exists ws, wb, ended.
Qed.

Lemma limit_runs next r tr p :
  runs (limit next r) tr p →
  ∃ now ok tr1, tr = Ev (S := Server) TimeNow now :: Ev (S := Server) (Allow (clientIP r) now) ok :: tr1 ∧
    if ok then runs (next r) tr1 p
    else p = None ∧ response tr1 (wire_json 429 (errorBody "too many requests")).1
                                 (wire_json 429 (errorBody "too many requests")).2.
Proof.
  intros (now & tr0 & -> & ok & tr1 & -> & H). cbn -[runs] in H. exists now, ok, tr1. split; [done|].
  destruct ok; simpl in H; [done|].
  apply (runs_bind _ (writeError _ _)) in H as (tr4 & tr5 & [] & -> & H & -> & ->).
  rewrite app_nil_r. split; [done|]. by apply writeJSON_response in H.
Qed.

Lemma limitBody_limit_runs next r tr p :
  runs (limitBody (limit next) r) tr p ↔ runs (limit next (capped r)) tr p.
Proof. done. Qed.

(** A request through the whole chain. *)
Definition through (trust : bool) (next : Handler) (r : Request) (tr : list (event Server))
    (p : option panic) : Prop :=
  ∃ id started now ok handled after,
    tr = [Ev (S := Server) NewRequestID id; Ev (S := Server) TimeNow started;
          Ev (S := Server) TimeNow now;
          Ev (S := Server) (Allow (clientIP (seen trust r id)) now) ok] ++ handled ++ after ∧
    if ok : bool then
      ∃ q, runs (next (capped (seen trust r id))) handled q ∧ ending (seen trust r id) started q p after
    else
      response handled (wire_json 429 (errorBody "too many requests")).1
                       (wire_json 429 (errorBody "too many requests")).2 ∧
      ending (seen trust r id) started None p after.

Lemma chain_runs trust next r tr p :
  runs (foldr (λ mw h, mw h) next (chain trust) r) tr p → through trust next r tr p.
Proof.
  intros H.
  assert (H' : ∃ id tr1, tr = Ev (S := Server) NewRequestID id :: tr1 ∧
    runs (recoverPanic (requestLogger (limitBody (limit next))) (seen trust r id)) tr1 p).
  { destruct trust; destruct H as (id & tr1 & -> & H); by exists id, tr1. }
  destruct H' as (id & tr1 & -> & H1). exists id.
  apply recoverPanic_runs in H1 as (tr2 & tr3 & q & -> & H2 & Hq).
  apply requestLogger_runs in H2 as (started & tr4 & tr5 & -> & H4 & H5).
  apply limitBody_limit_runs, limit_runs in H4 as (now & ok & tr6 & -> & H6).
  exists started, now, ok, tr6, (tr5 ++ tr3). split; [by simpl; rewrite <-!app_assoc|].
  destruct ok.
  - exists q. split; [done|]. destruct q as [[|v]|].
    + destruct Hq as [-> ->]. by subst.
    + subst tr5. exact Hq.
    + destruct Hq as [-> ->]. rewrite app_nil_r. by split.
  - destruct H6 as [-> H6]. destruct Hq as [-> ->]. rewrite app_nil_r. split; [exact H6|]. by split.
Qed.
End lemmas.

(** ** Properties *)

Section properties.
Context {Sd : SDK} {J : Token.JWT} {WL : WebLib} {C : Chi}.

(** What is served at /.well-known/stellar.toml: the file, cut at the
    occurrences of the placeholder, with the signing key in the place of each
    and nothing else changed; a file that cannot be read, or that names its key
    literally and so has no placeholder, is refused. (claim C40) *)
Theorem loadTOML_substitutes ReadFile path key :
  match ReadFile path with
  | Err err => loadTOML ReadFile path key =
      Err (Errorf "reading the SEP-1 file at %s: %w" [Str path] [err])
  | Ok raw =>
      ∃ pieces, text raw = join_with (text signingKeyPlaceholder) pieces ∧
        Forall (λ piece, contains_bytes piece (text signingKeyPlaceholder) = false) pieces ∧
        if (2 <=? length pieces)%nat
        then ∃ body, loadTOML ReadFile path key = Ok body ∧ text body = join_with (text key) pieces
        else is_ok (loadTOML ReadFile path key) = false
  end.
Proof.
  unfold loadTOML. destruct (ReadFile path) as [raw|err]; [|done].
  destruct (ReplaceAll_pieces raw signingKeyPlaceholder key ltac:(done)) as (pieces & H1 & H2 & H3 & H4).
  exists pieces. split; [done|]. split; [done|].
  destruct (Nat.leb_spec 2 (length pieces)) as [Hl|Hl].
  - apply H3 in Hl as ->. by eexists.
  - destruct (Contains raw signingKeyPlaceholder) eqn:Hc; [|done]. apply proj1 in H3. specialize (H3 eq_refl). lia.
Qed.

(** The handlers a router was built from. *)
Definition wired (rd : RouterDeps) (d : Deps) : Prop :=
  rd_Issuer rd = Some (d_Issuer d) ∧ rd_Tokens rd = Some (d_Tokens d) ∧
  rd_Accounts rd = Some (d_Accounts d) ∧ rd_Challenges rd = Some (d_Challenges d) ∧
  rd_Health rd = Some (d_Health d) ∧
  rd_NetworkPassphrase rd = d_NetworkPassphrase d ∧ rd_WebAuthDomain rd = d_WebAuthDomain d ∧
  rd_HomeDomains rd = d_HomeDomains d.

Lemma NewRouter_ok {FL : Float64} keys ReadFile rd mux lim :
  NewRouter keys ReadFile rd = Ok (mux, lim) ↔
  is_Some (rd_Logger rd) ∧ ∃ d tomlBody,
    wired rd d ∧ loadTOML ReadFile (rd_TOMLPath rd) (rd_SigningPublicKey rd) = Ok tomlBody ∧
    rd_WebAuthDomain rd ≠ ""%string ∧ rd_HomeDomains rd ≠ [] ∧ rd_NetworkPassphrase rd ≠ ""%string ∧
    rd_TOMLPath rd ≠ ""%string ∧ rd_SigningPublicKey rd ≠ ""%string ∧
    mux = MkMux (chain (rd_TrustProxyHeaders rd)) (routes keys d tomlBody) ∧
    lim = newRateLimiter requestsPerMinute.
Proof.
  unfold NewRouter. split.
  - intros H. body_ok H. injection H as <- <-.
    repeat match goal with H : or_err _ _ = Ok _ |- _ => apply or_err_ok in H end.
    reflect_guards. split; [by eexists|]. by repeat eexists.
  - intros ([? ->] & [] & toml & (-> & -> & -> & -> & -> & Hn & Hw & Hh) & Ht & H1 & H2 & H3 & H4 & H5 & -> & ->).
    simpl in *. repeat step_guard. by rewrite Hn, Hw, Hh.
Qed.

(** A request through the chain to a handler that does not panic. *)
Definition served (trust : bool) (h : Request → prog Server unit) (r : Request)
    (tr : list (event Server)) : Prop :=
  ∃ id started now ok handled ws wb ended,
    tr = [Ev (S := Server) NewRequestID id; Ev (S := Server) TimeNow started;
          Ev (S := Server) TimeNow now;
          Ev (S := Server) (Allow (clientIP (seen trust r id)) now) ok] ++ handled ++
         line_events (seen trust r id) started ws wb ended ∧
    if ok then runs (h (capped (seen trust r id))) handled tt
    else response handled (wire_json 429 (errorBody "too many requests")).1
                          (wire_json 429 (errorBody "too many requests")).2.

Context {CL : ChiLaws C} {FL : Float64}.

Lemma routes_static keys d toml : Forall (static ∘ snd) (routes keys d toml).*1.
Proof. repeat constructor. Qed.

Lemma routes_nodup keys d toml : NoDup (routes keys d toml).*1.
Proof. apply (bool_decide_eq_true_1 _). reflexivity. Qed.

Lemma served_route trust keys d toml r h tr p :
  ((r_Method r, r_Path r), HandlerFunc h) ∈ routes keys d toml →
  runs (ServeHTTP (MkMux (chain trust) (routes keys d toml)) r) tr p →
  p = None ∧ served trust h r tr.
Proof.
  intros Hin H. apply chain_runs in H as (id & started & now & ok & handled & after & -> & H).
  destruct ok.
  - destruct H as (q & Hq & He).
    assert (Hd : dispatch (routes keys d toml) (capped (seen trust r id)) =
                 HandlerFunc h (capped (seen trust r id))).
    { apply dispatch_routed; [apply routes_static|apply routes_nodup|].
      destruct (seen_route trust r id) as (Hm & Hp & _). simpl. by rewrite Hm, Hp. }
    cbn [route_table] in Hq. rewrite Hd in Hq. apply runs_HandlerFunc in Hq as [-> Hq].
    destruct He as (-> & ws & wb & ended & ->). split; [done|].
    by exists id, started, now, true, handled, ws, wb, ended.
  - destruct H as (Hq & -> & ws & wb & ended & ->). split; [done|].
    by exists id, started, now, false, handled, ws, wb, ended.
Qed.

(** What a router serves: if [NewRouter] returned it, its dependencies were all
    given, and every request to one of its four routes first spends a token of
    the client's address, is answered 429 and reaches no handler when there is
    none, and otherwise runs the handler of the route, built from exactly those
    dependencies, on a body capped at 64 KiB; the one line it logs of the
    request itself names the method, the path, the status, the size, the
    duration and the request id, never the query.  The address is that of the
    TCP peer unless proxy headers are trusted. (claim C17) *)
Theorem NewRouter_serves keys ReadFile rd mux lim r tr p :
  NewRouter keys ReadFile rd = Ok (mux, lim) →
  runs (ServeHTTP mux r) tr p →
  ∃ d toml, wired rd d ∧
    loadTOML ReadFile (rd_TOMLPath rd) (rd_SigningPublicKey rd) = Ok toml ∧
    ∀ h, ((r_Method r, r_Path r), HandlerFunc h) ∈ routes keys d toml →
      p = None ∧ served (rd_TrustProxyHeaders rd) h r tr.
Proof.
  intros (_ & d & toml & Hw & Ht & _ & _ & _ & _ & _ & -> & ->)%NewRouter_ok H.
  exists d, toml. split; [done|]. split; [done|]. intros h Hin. by eapply served_route.
Qed.

(** A panic stops at the chain: whatever routes are mounted and however their
    handlers behave, a request first spends a token of its client's address;
    one that is refused never reaches a handler; a handler that panics is
    followed by a log line that carries the value for the operator and by a 500
    with a fixed text, and the server goes on; only [http.ErrAbortHandler]
    passes through, with nothing added; a request that does not panic is
    logged. (claim C18) *)
Theorem chain_contains_panics trust table r tr p :
  runs (ServeHTTP (MkMux (chain trust) table) r) tr p →
  through trust (dispatch table) r tr p ∧ ∀ v, p ≠ Some (PanicValue v).
Proof.
  intros H. apply chain_runs in H. split; [exact H|].
  intros v ->. destruct H as (id & started & now & ok & handled & after & _ & H). destruct ok.
  - destruct H as ([[|w]|] & _ & He); by destruct He.
  - by destruct H as (_ & ? & _).
Qed.
End properties.
