(* ===== verification/Budget.v ===== *)
(** * Budgets

    Some operations have to be earned: a row is inserted for a nonce that was
    drawn, an account is looked up for a challenge that was consumed.  A
    program [pays] when, whatever it is answered, it never spends more than it
    has earned; then neither do any number of such programs that run at once. *)

From S2P Require Import Prelude Effects Interleaving.

Lemma count_never {A} (l : list A) : count (λ _, false) l = 0%nat.
Proof. induction l as [|a l IH]; [done|]. by rewrite count_cons, IH. Qed.

Section budget.
Context {S : sig} (earn : event S → bool) (spend : op S → bool).

Definition credit (o : op S) (x : res S o) (n : nat) : nat :=
  if earn (Ev o x) then Datatypes.S n else n.

(** [n] is what the program may still spend. *)
Fixpoint pays {A} (n : nat) (p : prog S A) : Prop :=
  match p with
  | Ret _ => True
  | Vis o k =>
      if spend o then
        match n with
        | O => False
        | Datatypes.S n => ∀ x, pays (credit o x n) (k x)
        end
      else ∀ x, pays (credit o x n) (k x)
  end.

Abbreviation spent tr := (count (λ ev : event S, spend (ev_op ev)) tr).
Abbreviation earned tr := (count earn tr).

Lemma pays_mono {A} n m (p : prog S A) : (n ≤ m)%nat → pays n p → pays m p.
Proof.
  revert n m. induction p as [a|o k IH]; intros n m Hnm; simpl; [done|].
  assert (Hc : ∀ n m x, (n ≤ m)%nat → pays (credit o x n) (k x) → pays (credit o x m) (k x)).
  { intros n' m' x H. apply IH. unfold credit. destruct (earn _); lia. }
  destruct (spend o).
  - destruct n as [|n]; [done|]. destruct m as [|m]; [lia|]. intros H x. eapply Hc; [|apply H]. lia.
  - intros H x. eapply Hc; [|apply H]. done.
Qed.

(** What is earned in the first part can be spent in the second. *)
Lemma pays_bind_runs {A B} n (f : A → prog S B) p :
  pays n p →
  (∀ tr a m, runs p tr a → (m + spent tr = n + earned tr)%nat → pays m (f a)) →
  pays n (pbind f p).
Proof.
  revert n. induction p as [a|o k IH]; intros n Hp Hf; cbn [pbind pays] in *.
  { eapply (Hf [] a); [done|]. unfold count. simpl. lia. }

  destruct (spend o) eqn:Ho.
  - destruct n as [|n]; [done|]. intros x. apply IH; [apply Hp|].
    intros tr a m Hr Hm. apply (Hf (Ev o x :: tr) a m); [by exists x, tr|].
    rewrite !count_cons. simpl. rewrite Ho. unfold credit in Hm. destruct (earn _); lia.
  - intros x. apply IH; [apply Hp|]. intros tr a m Hr Hm.
    apply (Hf (Ev o x :: tr) a m); [by exists x, tr|].
    rewrite !count_cons. simpl. rewrite Ho. unfold credit in Hm. destruct (earn _); lia.
Qed.

Lemma pays_bind {A B} n (f : A → prog S B) p :
  pays n p → (∀ a, pays 0 (f a)) → pays n (pbind f p).
Proof.
  intros Hp Hf. apply pays_bind_runs; [done|]. intros tr a m _ _.
  eapply pays_mono; [|apply Hf]. lia.
Qed.

(** A program that spends nothing. *)
Lemma pays_free {A} n (p : prog S A) : all_ops (λ o, spend o = false) p → pays n p.
Proof.
  revert n. induction p as [a|o k IH]; intros n; simpl; [done|]. intros [-> Hk] x. by apply IH.
Qed.

(** The first part spends nothing, the second part has what it earned. *)
Lemma pays_bind_free {A B} n (f : A → prog S B) p :
  all_ops (λ o, spend o = false) p →
  (∀ tr a, runs p tr a → pays (n + earned tr) (f a)) → pays n (pbind f p).
Proof.
  intros Hp Hf. apply pays_bind_runs; [by apply pays_free|]. intros tr a m Hr Hm.
  eapply pays_mono; [|by eapply Hf].
  assert (spent tr = 0%nat) as Hs; [|lia].
  pose proof (runs_all_ops _ _ _ _ Hr Hp) as Hall. clear Hr Hm.
  induction Hall as [|ev tr Hev _ IH]; [done|]. rewrite count_cons, Hev. lia.
Qed.

Lemma pays_max_ops {A} n (p : prog S A) : max_ops spend n p → pays n p.
Proof.
  revert n. induction p as [a|o k IH]; intros n; simpl; [done|]. intros Hp.
  assert (Hc : ∀ n x, max_ops spend n (k x) → pays (credit o x n) (k x)).
  { intros n' x H. unfold credit. destruct (earn _); [|by apply IH].
    apply (pays_mono n'); [lia|by apply IH]. }
  destruct (spend o); [destruct n as [|n]; [done|]|]; intros x; apply Hc, Hp.
Qed.

(** One step of a program keeps its account. *)
Lemma pays_step {A} n o (k : res S o → prog S A) x :
  pays n (Vis o k) →
  ∃ m, pays m (k x) ∧
    (m + (if spend o then 1 else 0) = n + (if earn (Ev o x) then 1 else 0))%nat.
Proof.
  cbn [pays]. intros H. destruct (spend o).
  - destruct n as [|n]; [done|]. exists (credit o x n). split; [apply H|]. unfold credit.
    destruct (earn _); lia.
  - exists (credit o x n). split; [apply H|]. unfold credit. destruct (earn _); lia.
Qed.

Lemma sum_list_insert (l : list nat) i n m :
  l !! i = Some n → (sum_list (<[i := m]> l) + n = sum_list l + m)%nat.
Proof.
  revert i. induction l as [|a l IH]; intros [|i] H; simpl in *; try done.
  - injection H as ->. lia.
  - apply IH in H. lia.
Qed.

(** Programs that pay, pay together. *)
Lemma pool_pays {A} (ps qs : list (prog S A)) tr :
  interleave ps tr qs → Forall (pays 0) ps → (spent tr.*2 ≤ earned tr.*2)%nat.
Proof.
  intros H Hps.
  assert (∃ bs, Forall2 pays bs qs ∧ (sum_list bs + spent tr.*2 = earned tr.*2)%nat)
    as (bs & _ & ?); [|lia].
  induction H as [ps|ps tr qs i o k x H IH Hi].
  { exists (replicate (length ps) 0%nat). split.
    - induction Hps; simpl; by constructor.
    - simpl. induction (length ps); simpl; done. }
  destruct (IH Hps) as (bs & HF & Hsum).
  destruct (Forall2_lookup_r _ _ _ _ _ HF Hi) as (n & Hn & Hp).
  destruct (pays_step _ _ _ x Hp) as (m & Hm & Heq).
  exists (<[i := m]> bs). split; [by apply Forall2_insert|].
  pose proof (sum_list_insert _ _ _ m Hn). rewrite fmap_app. csimpl. unfold count in *.
  rewrite !filter_app, !length_app, !filter_cons. simpl.
  destruct (spend o); simpl; destruct (earn (Ev o x)); simpl; lia.
Qed.

(** One program of a pool pays for itself. *)
Lemma steps_pays {A} n (p q : prog S A) tr :
  steps p tr q → pays n p → (spent tr ≤ n + earned tr)%nat.
Proof.
  intros H Hp. assert (∃ m, pays m q ∧ (m + spent tr = n + earned tr)%nat) as (m & _ & ?); [|lia].
  induction H as [p|p tr o k x H IH]; [exists n; by unfold count; simpl; split; [|lia]|].
  destruct (IH Hp) as (m & Hm & Hsum). destruct (pays_step _ _ _ x Hm) as (m' & Hm' & Heq).
  exists m'. split; [done|]. unfold count in *. rewrite !filter_app, !length_app, !filter_cons. simpl.
  destruct (spend o); simpl; destruct (earn (Ev o x)); simpl; lia.
Qed.
End budget.
