(* ===== verification/Authd.v ===== *)
(** * The command (cmd/authd/main.go)

    [run]: the configuration, the database, the dependencies of the router, the
    server and its shutdown.  The packages are wired here as [run] wires them,
    their programs embedded in the operations of the server. *)

From S2P Require Import Prelude GoStd GoText Errors Effects Stellar Verify Interleaving Schema Store.
From S2P Require Import StoreAdmin Http Account ClientDomain World HttpApi RateLimit Config Router.
From S2P Require Token Challenge.
Open Scope Z_scope.

Definition cleanupInterval : Z := 5 * Minute.
Definition shutdownTimeout : Z := 15 * Second.
Definition readHeaderTimeout : Z := 10 * Second.

(** ** The packages over the operations of the server *)

Section wiring.
Context {Sd : SDK} {HL : HorizonLib} {TL : TomlLib} {J : Token.JWT} {Px : Pgx}.

Definition store_api : ChallengeStore := {|
  st_RecordChallenge rec := embed (RecordChallenge rec);
  st_ConsumeChallenge nonce now := embed (ConsumeChallenge nonce now);
  st_RecordSession rec := embed (RecordSession rec);
|}.

Definition resolver_api (r : ClientDomain.Resolver) : Challenge.ClientDomainResolver (S := Server) :=
  λ domain, embed (Resolve r domain).

Definition accounts_api (f : Fetcher) : string → prog Server (result error Account) :=
  λ accountID, embed (FetchAccount f accountID).

Definition health_api : prog Server (result error unit) :=
  Ping_with (perform (S := Server) PoolPing).

(** What [run] gives the constructors. *)
Definition resolver_config (c : Config) : ResolverConfig :=
  MkResolverConfig (cfg_ClientDomainAllowlist c) (cfg_ClientDomainCacheTTL c) None.

Definition issuer_config (c : Config) : Challenge.IssuerConfig (S := Server) :=
  Challenge.MkIssuerConfig (cfg_SigningSecret c) (cfg_NetworkPassphrase c) (cfg_WebAuthDomain c)
    (cfg_HomeDomains c) (cfg_ChallengeTimeout c) (cfg_ClientDomainRequired c)
    (Some (resolver_api (NewResolver (resolver_config c)))).

Definition token_config (c : Config) : Token.IssuerConfig :=
  Token.MkIssuerConfig (cfg_JWTSecret c) (cfg_JWTIssuer c) (cfg_JWTLifetime c).

(** The constructors between [Migrate] and [NewRouter]. *)
Definition assemble (c : Config) : result error RouterDeps :=
  let? accounts := NewFetcher (cfg_HorizonURL c) None in
  let? issuer := Challenge.NewIssuer (issuer_config c) in
  let? tokens := Token.NewIssuer (token_config c) in
  Ok (MkRouterDeps (Some tt) (Some issuer) (Some tokens) (Some (accounts_api accounts))
        (Some store_api) (Some health_api) (cfg_NetworkPassphrase c) (cfg_WebAuthDomain c)
        (cfg_HomeDomains c) (cfg_TOMLPath c) (cfg_SigningPublicKey c) (cfg_TrustProxyHeaders c)).
End wiring.

(** The handlers' dependencies, as [NewRouter] keeps them. *)
Section site.
Context {Sd : SDK} {HL : HorizonLib} {TL : TomlLib} {J : Token.JWT} {Px : Pgx}.
Context {WL : WebLib} {C : Chi}.

Definition site_deps (c : Config) (issuer : Challenge.Issuer (S := Server)) (fetcher : Fetcher) : Deps :=
  MkDeps issuer (Token.MkIssuer (token_config c)) (accounts_api fetcher) store_api health_api
    (cfg_NetworkPassphrase c) (cfg_WebAuthDomain c) (cfg_HomeDomains c).

(** The router of a configuration. *)
Definition site (keys : gmap string Z → list string) (c : Config)
    (issuer : Challenge.Issuer (S := Server)) (fetcher : Fetcher) (toml : bytes) : Mux :=
  MkMux (chain (cfg_TrustProxyHeaders c)) (routes keys (site_deps c issuer fetcher) toml).
End site.

(** ** The operations of the process *)

(** What [ListenAndServe] returned, by [errors.Is(err, http.ErrServerClosed)]. *)
Inductive serve_error : Type :=
| ErrServerClosed
| ServeFailed (e : error).

(** What the select waits for: the listener stopped, or the context is done. *)
Inductive wakeup : Type :=
| ServerErr (err : option serve_error)
| CtxDone.

Section process.
Context {Sd : SDK} {HL : HorizonLib} {TL : TomlLib} {J : Token.JWT} {Px : Pgx}.
Context {WL : WebLib} {C : Chi} {FL : Float64} {U : URLs}.

Inductive main_op : Type :=
| NotifyContext                          (* signal.NotifyContext, for SIGINT and SIGTERM *)
| StopNotify                             (* stop() *)
| Administer (o : admin_op)
| GoCleanup (interval : Z)               (* go db.CleanupExpiredChallenges(...) *)
| GoServe (addr : string) (readHeader : Z) (handler : Mux) (limiter : rateLimiter)
| Select
| ShutDown (timeout : Z)                 (* server.Shutdown, under a timeout *)
| LogShutDown
| Stderr (err : error)
| Exit (code : Z).

Definition main_res (o : main_op) : Type :=
  match o with
  | Administer o => admin_res o
  | Select => wakeup
  | ShutDown _ => result error unit
  | _ => unit
  end.

Definition Main : sig := Sig main_op main_res.

#[global] Instance embed_admin : Embed Admin Main :=
  { embed_op := Administer; embed_res := λ _ x, x }.

Variable keys : gmap string Z → list string.
Variable ReadFile : string → result error bytes.

(** From [go db.CleanupExpiredChallenges] on. *)
Definition serve_until_done (c : Config) (handler : Mux) (limiter : rateLimiter) :
  prog Main (result error unit) :=
  do _ <- perform (S := Main) (GoCleanup cleanupInterval) ;;
  do _ <- perform (S := Main) (GoServe (cfg_ListenAddr c) readHeaderTimeout handler limiter) ;;
  do w <- perform (S := Main) Select ;;
  match w with
  | ServerErr err =>
      Ret match err with
          | Some (ServeFailed err) => Err (Errorf "http server: %w" [] [err])
          | Some ErrServerClosed | None => Ok tt
          end
  | CtxDone =>
      do _ <- perform (S := Main) LogShutDown ;;
      do r <- perform (S := Main) (ShutDown shutdownTimeout) ;;
      Ret (map_err (λ err, Errorf "shutting down: %w" [] [err]) r)
  end.

(** After [store.Open], before [db.Close]. *)
Definition run_with_db (c : Config) (db : Postgres) : prog Main (result error unit) :=
  do? _ <- embed (Migrate db) ;;
  match (let? deps := assemble c in NewRouter keys ReadFile deps) with
  | Err err => Ret (Err err)
  | Ok (handler, limiter) => serve_until_done c handler limiter
  end.

(** The deferred calls run when the function returns, the last one first. *)
Definition run (getenv : string → string) : prog Main (result error unit) :=
  match Load getenv with
  | Err err => Ret (Err err)
  | Ok c =>
      do _ <- perform (S := Main) NotifyContext ;;
      do opened <- embed (Open (cfg_DatabaseURL c)) ;;
      match opened with
      | Err err => do _ <- perform (S := Main) StopNotify ;; Ret (Err err)
      | Ok db =>
          do r <- run_with_db c db ;;
          do _ <- embed Close ;;
          do _ <- perform (S := Main) StopNotify ;;
          Ret r
      end
  end.

Definition main (getenv : string → string) : prog Main unit :=
  do r <- run getenv ;;
  match r with
  | Err err =>
      do _ <- perform (S := Main) (Stderr err) ;;
      perform (S := Main) (Exit 1)
  | Ok _ => Ret tt
  end.
End process.

(** ** Lemmas *)

Section lemmas.
Context {Sd : SDK} {HL : HorizonLib} {TL : TomlLib} {J : Token.JWT} {Px : Pgx}.

(** Whatever [Load] lets through, the constructors accept. *)
Lemma assemble_valid c :
  Valid c →
  ∃ rd issuer, assemble c = Ok rd ∧
    rd_Logger rd = Some tt ∧ rd_Issuer rd = Some issuer ∧
    Challenge.NewIssuer (issuer_config c) = Ok issuer ∧
    Challenge.ServerAccountID issuer = cfg_SigningPublicKey c ∧
    rd_Tokens rd = Some (Token.MkIssuer (token_config c)) ∧
    (∃ f, NewFetcher (cfg_HorizonURL c) None = Ok f ∧ rd_Accounts rd = Some (accounts_api f)) ∧
    rd_Challenges rd = Some store_api ∧ rd_Health rd = Some health_api ∧
    rd_NetworkPassphrase rd = cfg_NetworkPassphrase c ∧ rd_WebAuthDomain rd = cfg_WebAuthDomain c ∧
    rd_HomeDomains rd = cfg_HomeDomains c ∧ rd_TOMLPath rd = cfg_TOMLPath c ∧
    rd_SigningPublicKey rd = cfg_SigningPublicKey c ∧ rd_TrustProxyHeaders rd = cfg_TrustProxyHeaders c.
Proof.
  intros V. destruct (v_key _ V) as (kp & Hkp & Hpub). destruct (v_horizon _ V) as (scheme & host & Hu & Hs & Hh).
  assert (HF : ∃ f, NewFetcher (cfg_HorizonURL c) None = Ok f).
  { unfold NewFetcher. rewrite Hu, (bool_decide_eq_false_2 _ Hs), (bool_decide_eq_false_2 _ Hh). by eexists. }
  destruct HF as [f HF].
  assert (HI : ∃ i, Challenge.NewIssuer (issuer_config c) = Ok i ∧
                    Challenge.ServerAccountID i = cfg_SigningPublicKey c).
  { destruct (v_homes _ V) as [Hne _]. destruct (cfg_HomeDomains c) as [|d ds] eqn:Hd; [done|].
    exists (Challenge.MkIssuer (issuer_config c) kp (list_to_set (d :: ds)) d
              (resolver_api (NewResolver (resolver_config c)))).
    split; [|by rewrite Hpub]. apply Challenge.challenge_NewIssuer_ok. simpl. rewrite Hd.
    split_and!; try done. apply (v_timeout _ V). }
  destruct HI as (i & HI & Hid).
  assert (HT : Token.NewIssuer (token_config c) = Ok (Token.MkIssuer (token_config c))).
  { apply Token.token_NewIssuer_ok. simpl. split; [done|]. pose proof (v_secret _ V).
    pose proof (v_issuer _ V). pose proof (v_lifetime _ V). unfold Token.minSecretLen. done. }
  unfold assemble. rewrite HF, HI, HT. simpl. eexists _, i. split; [reflexivity|]. simpl.
  split_and!; try done. by exists f.
Qed.
End lemmas.

(** *** What a run leaves behind *)

Section runs.
Context {Sd : SDK} {HL : HorizonLib} {TL : TomlLib} {J : Token.JWT} {Px : Pgx}.
Context {WL : WebLib} {C : Chi} {FL : Float64} {U : URLs}.

Definition pool_opened (ev : event Main) : bool :=
  match ev with
  | Ev o x =>
      match o return main_res o → bool with
      | Administer (NewPool _) => λ x, is_ok x
      | _ => λ _, false
      end x
  end.
Definition pool_closed (ev : event Main) : bool :=
  match ev_op ev with Administer ClosePool => true | _ => false end.
Definition notified (ev : event Main) : bool :=
  match ev_op ev with NotifyContext => true | _ => false end.
Definition stopped (ev : event Main) : bool :=
  match ev_op ev with StopNotify => true | _ => false end.

(** The operations that acquire or give back nothing. *)
Definition neutral (o : main_op) : Prop :=
  match o with
  | Administer (NewPool _) | Administer ClosePool | NotifyContext | StopNotify => False
  | _ => True
  end.

Lemma neutral_count (P : event Main → bool) tr :
  P = pool_opened ∨ P = pool_closed ∨ P = notified ∨ P = stopped →
  Forall (λ ev : event Main, neutral (ev_op ev)) tr → count P tr = 0%nat.
Proof.
  intros HP. induction 1 as [|[o x] tr Ho _ IH]; [done|]. rewrite count_cons, IH.
  assert (P (Ev o x) = false) as ->; [|done].
  destruct HP as [->|[->|[->| ->]]]; destruct o as [| |[]| | | | | | |]; done.
Qed.

Lemma Migrate_neutral db tr r :
  runs (embed (T := Main) (Migrate db)) tr r → Forall (λ ev : event Main, neutral (ev_op ev)) tr.
Proof.
  intros H. eapply (runs_all_ops (S := Main) neutral); [exact H|]. clear H. unfold Migrate. simpl. split; [done|]. intros [[]|]; [|done]. simpl.
  destruct (migrationURL _); [|done]. simpl. split; [done|]. by intros [[]|].
Qed.

Lemma serve_until_done_neutral c handler limiter tr r :
  runs (serve_until_done c handler limiter) tr r → Forall (λ ev : event Main, neutral (ev_op ev)) tr.
Proof.
  intros H. eapply (runs_all_ops (S := Main) neutral); [exact H|]. clear H. simpl. split; [done|]. intros _. split; [done|]. intros _. split; [done|].
  by intros [|].
Qed.

(** What [run] did between the two deferred calls of a database that opened. *)
Lemma run_with_db_runs keys ReadFile c db tr r :
  runs (run_with_db keys ReadFile c db) tr r →
  Forall (λ ev : event Main, neutral (ev_op ev)) tr ∧
  ∀ addr rh handler limiter u, Ev (S := Main) (GoServe addr rh handler limiter) u ∈ tr →
    (∃ deps, assemble c = Ok deps ∧ NewRouter keys ReadFile deps = Ok (handler, limiter)) ∧
    addr = cfg_ListenAddr c ∧
    ∃ x, Ev (S := Main) (Administer MigrateUp) x ∈ tr ∧ (x = Ok tt ∨ x = Err ErrNoChange).
Proof.
  unfold run_with_db. rewrite runs_bind_result.
  assert (Hno : ∀ tr x, runs (embed (T := Main) (Migrate db)) tr x →
    ∀ addr rh handler limiter u, Ev (S := Main) (GoServe addr rh handler limiter) u ∉ tr).
  { intros tr1 x (tr' & _ & HF)%runs_embed addr rh h l u Hin.
    apply list_elem_of_lookup in Hin as [k Hk].
    destruct (Forall2_lookup_l _ _ _ _ _ HF Hk) as (ev & _ & y & Hy & _). discriminate. }
  intros [(e & H & ->)|(tr1 & tr2 & [] & -> & H1 & H2)].
  { split; [by eapply Migrate_neutral|]. intros addr rh h l u Hin. by eapply Hno in Hin. }
  pose proof (Migrate_neutral _ _ _ H1) as Hn1.
  destruct (let? deps := assemble c in NewRouter keys ReadFile deps) as [[handler limiter]|e] eqn:HR.
  2: { destruct H2 as [-> ->]. rewrite app_nil_r. split; [done|].
       intros addr rh h l u Hin. by eapply Hno in Hin. }
  pose proof (serve_until_done_neutral _ _ _ _ _ H2) as Hn2. split; [by apply Forall_app|].
  intros addr rh h l u [Hin|Hin]%elem_of_app; [by eapply Hno in Hin|].
  assert (Hh : h = handler ∧ l = limiter ∧ addr = cfg_ListenAddr c).
  { destruct H2 as ([] & tr3 & -> & [] & tr4 & -> & H2).
    rewrite !elem_of_cons in Hin. destruct Hin as [?|[Hin|Hin]]; [done|by injection Hin|]. exfalso.
    destruct H2 as (w & tr5 & -> & H2). apply elem_of_cons in Hin as [?|Hin]; [done|].
    destruct w as [err|]; simpl in H2; [destruct H2 as [-> _]; by apply elem_of_nil in Hin|].
    destruct H2 as ([] & tr6 & -> & x & tr7 & -> & -> & _).
    rewrite !elem_of_cons in Hin. destruct Hin as [?|[?|Hin]]; [done|done|by apply elem_of_nil in Hin]. }
  destruct Hh as (-> & -> & ->). apply bind_ok in HR as (deps & Ha & HR).
  split; [by exists deps|]. split; [done|].
  apply runs_embed in H1 as (tr' & H1 & HF). apply Migrate_ok in H1 as (dsn & x & _ & Hx & ->).
  destruct (Forall2_lookup_r _ _ _ 2%nat _ HF eq_refl) as (ev & Hev & y & Hy & Hxy). simpl in *. subst.
  exists y. split; [|done]. apply elem_of_app. left. by eapply list_elem_of_lookup_2.
Qed.
End runs.

(** ** Properties *)

Section properties.
Context {Sd : SDK} {SL : SDKLaws Sd} {HL : HorizonLib} {TL : TomlLib} {J : Token.JWT} {Px : Pgx}.
Context {WL : WebLib} {C : Chi} {FL : Float64} {U : URLs}.

(** A configuration that loads, starts: every constructor of [run] accepts what
    [Load] has validated, so between the migrations and the server only the
    SEP-1 file can fail; and the router it starts is wired to the store, the
    resolver, the fetcher and the token issuer of that configuration, its
    challenges are signed by the key the configuration publishes, and its
    limiter allows sixty requests a minute. (claim C19) *)
Theorem loaded_configuration_starts getenv ReadFile keys c :
  Load getenv = Ok c →
  match loadTOML ReadFile (cfg_TOMLPath c) (cfg_SigningPublicKey c) with
  | Err e => (let? deps := assemble c in NewRouter keys ReadFile deps) = Err e
  | Ok toml =>
      ∃ issuer fetcher,
        Challenge.NewIssuer (issuer_config c) = Ok issuer ∧
        NewFetcher (cfg_HorizonURL c) None = Ok fetcher ∧
        Challenge.ServerAccountID issuer = cfg_SigningPublicKey c ∧
        (let? deps := assemble c in NewRouter keys ReadFile deps) =
          Ok (site keys c issuer fetcher toml, newRateLimiter 60)
  end.
Proof.
  intros V%Load_ok.
  destruct (assemble_valid c V) as (rd & issuer & Ha & Hl & Hi & HI & Hid & Ht & (f & HF & Hf) & Hc & Hh &
    Hn & Hw & Hd & Hp & Hk & Hx).
  rewrite Ha. cbn [result_bind]. unfold NewRouter. rewrite Hl, Hh, Hi, Hc, Ht, Hf, Hw, Hd, Hn, Hp, Hk, Hx.
  assert (Hkey : cfg_SigningPublicKey c ≠ ""%string).
  { intros He. pose proof (full_Address_valid (Challenge.signer issuer)) as Hv.
    unfold Challenge.ServerAccountID in Hid. rewrite Hid, He, ed25519_not_empty in Hv. done. }
  destruct (v_homes _ V) as [Hhomes _]. pose proof (v_web _ V). pose proof (v_network _ V).
  pose proof (v_toml _ V). cbn [or_err result_bind]. repeat step_guard.
  destruct (loadTOML _ _ _) as [toml|e]; [|done]. by exists issuer, f.
Qed.

(** Whatever happens, [run] gives back what it took, and serves only what it
    prepared: the pool is closed exactly when it was opened, signals are
    released exactly when they were captured; and if the server was started, it
    was with the router of a configuration that loaded, after the pool answered
    and the migrations were applied. (claim C20) *)
Theorem run_safe keys ReadFile getenv tr r :
  runs (run keys ReadFile getenv) tr r →
  count pool_opened tr = count pool_closed tr ∧
  count notified tr = count stopped tr ∧
  ∀ addr rh handler limiter u, Ev (S := Main) (GoServe addr rh handler limiter) u ∈ tr →
    ∃ c deps, Load getenv = Ok c ∧ addr = cfg_ListenAddr c ∧
      assemble c = Ok deps ∧ NewRouter keys ReadFile deps = Ok (handler, limiter) ∧
      (∃ v, Ev (S := Main) (Administer PingPool) (Ok v) ∈ tr) ∧
      ∃ x, Ev (S := Main) (Administer MigrateUp) x ∈ tr ∧ (x = Ok tt ∨ x = Err ErrNoChange).
Proof.
  unfold run. destruct (Load getenv) as [c|e] eqn:Hload.
  2: { intros [-> ->]. split_and!; try done. intros ????? Hin. by apply elem_of_nil in Hin. }
  intros ([] & tr0 & -> & H). rewrite !count_cons.
  apply (runs_bind _ (embed (T := Main) (Open (cfg_DatabaseURL c)))) in H as (tr1 & tr2 & opened & -> & HO & H).
  apply runs_embed in HO as (tro & HO & HF).
  apply Open_outcomes in HO as [(e & -> & ->)|[(u & e & -> & ->)|(u & v & -> & ->)]].
  - destruct H as ([] & tr3 & -> & -> & ->).
    apply Forall2_cons_inv_r in HF as (ev & ? & (x & -> & Hx) & ->%Forall2_nil_inv_r & ->). simpl in *. subst x.
    split_and!; [done|done|]. intros addr rh h l u Hin. set_solver.
  - destruct H as ([] & tr3 & -> & -> & ->).
    apply Forall2_cons_inv_r in HF as (ev & ? & (x & -> & Hx) & HF & ->).
    apply Forall2_cons_inv_r in HF as (ev & ? & (y & -> & Hy) & HF & ->).
    apply Forall2_cons_inv_r in HF as (ev & ? & (z & -> & Hz) & ->%Forall2_nil_inv_r & ->). simpl in *. subst x y.
    split_and!; [done|done|]. intros addr rh h l w Hin. set_solver.
  - apply Forall2_cons_inv_r in HF as (ev & ? & (x & -> & Hx) & HF & ->).
    apply Forall2_cons_inv_r in HF as (ev & ? & (y & -> & Hy) & ->%Forall2_nil_inv_r & ->). simpl in *. subst x y.
    apply (runs_bind _ (run_with_db keys ReadFile c (MkPostgres (cfg_DatabaseURL c)))) in H
      as (tr3 & tr4 & r' & -> & Hdb & H).
    destruct H as ([] & tr5 & -> & [] & tr6 & -> & -> & ->).
    apply run_with_db_runs in Hdb as [Hn Hserve].
    assert (Hz : ∀ P, P = pool_opened ∨ P = pool_closed ∨ P = notified ∨ P = stopped → count P tr3 = 0%nat)
      by (intros P HP; by apply neutral_count).
    rewrite !count_cons, !count_app, !Hz by tauto. split_and!; [done|done|].
    intros addr rh h l w Hin.
    assert (Hin3 : Ev (S := Main) (GoServe addr rh h l) w ∈ tr3) by set_solver.
    destruct (Hserve _ _ _ _ _ Hin3) as ((deps & Ha & HR) & Haddr & x & Hx & Hok).
    exists c, deps. split_and!; try done; [exists v; set_solver|exists x; split; [set_solver|done]].
Qed.
End properties.
