(* ===== verification/System.v ===== *)
(** * The server under concurrent requests

    The router of a configuration answers any number of requests at once, the
    cleanup sweeps between them, and they share the database, the resolver's
    cache and the rate limiter.  The theorems here compose those of the parts:
    what a token costs, whom it is for, and how often an address is served. *)

From Stdlib Require Import QArith Lqa.
From S2P Require Import Prelude GoStd GoText Errors Effects Interleaving Budget Stellar ReadChallenge.
From S2P Require Import Verify Schema Store Http Account ClientDomain World HttpApi RateLimit Config.
From S2P Require Import Router Authd.
From S2P Require Token Challenge.
Open Scope Z_scope.

Lemma all_ops_embed {S T A} `{!Embed S T} (P : op T → Prop) (p : prog S A) :
  all_ops (λ o, P (embed_op o)) p → all_ops P (embed p).
Proof. induction p; simpl; naive_solver. Qed.

Lemma all_ops_any {S A} (P : op S → Prop) (p : prog S A) : (∀ o, P o) → all_ops P p.
Proof. intros HP. induction p; simpl; [done|]. by split. Qed.

(** One operation, then the rest. *)
Lemma all_ops_perform {S A} (P : op S → Prop) (o : op S) (f : res S o → prog S A) :
  P o → (∀ x, all_ops P (f x)) → all_ops P (pbind f (perform o)).
Proof. by split. Qed.

Section system.
Context {Sd : SDK} {HL : HorizonLib} {TL : TomlLib} {J : Token.JWT} {Px : Pgx}.
Context {WL : WebLib} {C : Chi} {FL : Float64}.

(** ** The shared world *)

Record world : Type := World { w_db : db; w_cache : cache; w_limiter : rateLimiter }.

(** Operations whose answers the shared state does not determine. *)
Definition external (o : server_op) : Prop :=
  match o with Sql _ | Wallet _ | Allow _ _ => False | _ => True end.

Inductive wstep (res : Resolver) : world → event Server → world → Prop :=
| wstep_sql d d' c l s x :
    serve d (Ev (S := SQL) s x) d' →
    wstep res (World d c l) (Ev (S := Server) (Sql s) x) (World d' c l)
| wstep_wallet d c c' l o x :
    rstep res c (Ev (S := RSig) o x) c' →
    wstep res (World d c l) (Ev (S := Server) (Wallet o) x) (World d c' l)
| wstep_allow d c l key now :
    wstep res (World d c l) (Ev (S := Server) (Allow key now) (allow l key now).1)
      (World d c (allow l key now).2)
| wstep_other w o x :
    external o → wstep res w (Ev (S := Server) o x) w.

(** ** What runs: requests, and the statements of the cleanup loop *)

Inductive job : Type :=
| Serve (r : Request)
| Sweep (before : Z).

Definition run_job (m : Mux) (j : job) : prog Server (option panic) :=
  match j with
  | Serve r => ServeHTTP m r
  | Sweep before => do _ <- embed (DeleteExpiredChallenges before) ;; Ret None
  end.

(** ** What events tell *)

Definition sql_event (ev : event Server) : option (event SQL) :=
  match ev with
  | Ev o x =>
      match o return server_res o → option (event SQL) with
      | Sql s => λ x, Some (Ev (S := SQL) s x)
      | _ => λ _, None
      end x
  end.

Definition on_sql (f : event SQL → bool) (ev : event Server) : bool :=
  match sql_event ev with Some e => f e | None => false end.

Definition inserts_op (n : string) (o : server_op) : bool :=
  match o with Sql s => inserts n s | _ => false end.

(** The transaction of a builder is a challenge around [n]; one without
    operations, which the SDK does not build, is taken for one. *)
Definition around (n : string) (tx : Transaction) : bool :=
  match tx_Operations tx with
  | OpManageData op :: _ => bool_decide (Value op = n)
  | OpOther _ :: _ => false
  | [] => true
  end.

(** The SDK drew [n] as the nonce of a challenge. *)
Definition draws (n : string) (ev : event Server) : bool :=
  match ev with
  | Ev o x =>
      match o return server_res o → bool with
      | BuildTx _ => λ x, match x with Ok tx => around n tx | Err _ => false end
      | _ => λ _, false
      end x
  end.

(** A request to Horizon for an account. *)
Definition looks_up (o : server_op) : bool :=
  match o with Horizon (Do _ _) => true | _ => false end.

(** A consumption the database reported, of any nonce. *)
Definition any_consumed (ev : event SQL) : bool :=
  match ev with
  | Ev o x =>
      match o return result error (answer o) → bool with
      | UPDATE_consume _ _ => λ x, match x with Ok (Some _) => true | _ => false end
      | _ => λ _, false
      end x
  end.

(** The statuses a request was answered with. *)
Definition statuses (tr : list (event Server)) : list Z :=
  omap (λ ev : event Server, match ev_op ev with WriteHeader s => Some s | _ => None end) tr.

(** The clients let through by the limiter, and those refused. *)
Definition allow_event (ev : event Server) : option (string * Z * bool) :=
  match ev with
  | Ev o x =>
      match o return server_res o → option (string * Z * bool) with
      | Allow key now => λ ok, Some (key, now, ok)
      | _ => λ _, None
      end x
  end.

(** ** Lemmas: projections of the world *)

Lemma wstep_db res w ev w' :
  wstep res w ev w' →
  match sql_event ev with Some e => serve (w_db w) e (w_db w') | None => w_db w' = w_db w end.
Proof. intros [d d' c l s x Hs| | |w0 o x Ho]; try done. by destruct o. Qed.

Lemma consistent_sql res w tr w' :
  consistent (wstep res) w tr w' → consistent serve (w_db w) (omap sql_event tr) (w_db w').
Proof.
  induction 1 as [w|w ev w1 tr w2 Hs _ IH]; [constructor|].
  destruct Hs as [d d' c l s x Hs|d c c' l o x Hs|d c l key now|w o x Ho]; csimpl; try done.
  - by econstructor.
  - by destruct o.
Qed.

Lemma consistent_limiter res w tr w' :
  consistent (wstep res) w tr w' →
  allow_all (w_limiter w) (omap allow_event tr).*1 = ((omap allow_event tr).*2, w_limiter w').
Proof.
  induction 1 as [w|w ev w1 tr w2 Hs _ IH]; [done|].
  destruct Hs as [d d' c l s x Hs|d c c' l o x Hs|d c l key now|w o x Ho]; csimpl; try done.
  - destruct (allow l key now) as [ok l'] eqn:Ha. simpl in *. by rewrite IH.
  - by destruct o.
Qed.

Lemma count_on_sql f tr : count (on_sql f) tr = count f (omap sql_event tr).
Proof.
  induction tr as [|ev tr IH]; [done|]. rewrite count_cons, IH. csimpl. unfold on_sql.
  destruct (sql_event ev); [by rewrite count_cons|done].
Qed.

(** ** Lemmas: writing a response costs and earns nothing *)

Definition quiet_op (o : server_op) : Prop :=
  match o with SetHeader _ _ | WriteHeader _ | Write _ | Log _ _ _ => True | _ => False end.

Lemma writeJSON_quiet status body : all_ops (S := Server) quiet_op (writeJSON status body).
Proof.
  unfold writeJSON. destruct (Marshal body); simpl; [|done].
  split; [done|]. intros _. split; [done|]. intros _. split; [done|]. by intros [].
Qed.

Lemma respondError_quiet err : all_ops (S := Server) quiet_op (respondError err).
Proof.
  unfold respondError. destruct (classify err) as [[s st]|]; [apply writeJSON_quiet|].
  split; [done|]. intros ?. apply writeJSON_quiet.
Qed.

Lemma respondStoreError_quiet err : all_ops (S := Server) quiet_op (respondStoreError err).
Proof.
  unfold respondStoreError. destruct (classify err) as [[s st]|]; [apply writeJSON_quiet|].
  split; [done|]. intros ?. apply writeJSON_quiet.
Qed.

(** ** Lemmas: payments through the chain *)

Section payments.
Context {CL : ChiLaws C}.
Variables (earn : event Server → bool) (spend : server_op → bool).
Hypothesis writes_free : ∀ o, quiet_op o → spend o = false.
Hypothesis chain_free : ∀ o,
  match o with TimeNow | NewRequestID | Allow _ _ | WrappedStatus | WrappedBytes | PoolPing => True
  | _ => False end → spend o = false.

Lemma pays_quiet {A} n (p : prog Server A) :
  all_ops (S := Server) quiet_op p → pays (S := Server) earn spend n p.
Proof. intros Hp. eapply pays_free, all_ops_impl; [|exact Hp]. exact writes_free. Qed.

Lemma pays_free_op {A} n o (k : server_res o → prog Server A) :
  spend o = false → (∀ x, pays (S := Server) earn spend n (k x)) →
  pays (S := Server) earn spend n (Vis (S := Server) o k).
Proof.
  intros Ho Hk. simpl. rewrite Ho. intros x. eapply pays_mono; [|apply Hk].
  unfold Budget.credit. case_match; lia.
Qed.

Lemma pays_limit next r :
  pays (S := Server) earn spend 0 (next r) → pays (S := Server) earn spend 0 (limit next r).
Proof.
  intros Hnext. apply pays_free_op; [by apply chain_free|]. intros now. cbn [pbind perform].
  apply pays_free_op; [by apply chain_free|]. intros ok. destruct ok; cbn [negb]; [apply Hnext|].
  apply pays_bind; [apply pays_quiet, writeJSON_quiet|done].
Qed.

Lemma pays_requestLogger next r :
  pays (S := Server) earn spend 0 (next r) → pays (S := Server) earn spend 0 (requestLogger next r).
Proof.
  intros Hnext. apply pays_free_op; [by apply chain_free|]. intros started. cbn [pbind perform].
  apply pays_bind; [apply Hnext|]. intros [q|]; [done|].
  apply pays_free_op; [by apply chain_free|]. intros ws. cbn [pbind perform].
  apply pays_free_op; [by apply chain_free|]. intros wb. cbn [pbind perform].
  apply pays_free_op; [by apply chain_free|]. intros ended. cbn [pbind perform].
  by apply pays_free_op; [by apply writes_free|].
Qed.

Lemma pays_recoverPanic next r :
  pays (S := Server) earn spend 0 (next r) → pays (S := Server) earn spend 0 (recoverPanic next r).
Proof.
  intros Hnext. unfold recoverPanic. apply pays_bind; [apply Hnext|]. intros [[|v]|]; [done| |done].
  apply pays_free_op; [by apply writes_free|]. intros ?. cbn [pbind perform].
  apply pays_bind; [apply pays_quiet, writeJSON_quiet|done].
Qed.

(** The chain pays if what it leads to pays on the request as it passes it on. *)
Lemma pays_chain trust (next : Handler) r :
  (∀ id, pays (S := Server) earn spend 0 (next (capped (seen trust r id)))) →
  pays (S := Server) earn spend 0 (foldr (λ mw h, mw h) next (chain trust) r).
Proof.
  intros Hnext. assert (Hin : ∀ id, pays (S := Server) earn spend 0
    (recoverPanic (requestLogger (limitBody (limit next))) (seen trust r id))).
  { intros id. apply pays_recoverPanic, pays_requestLogger. exact (pays_limit next _ (Hnext id)). }
  destruct trust; (apply pays_free_op; [by apply chain_free|]); intros id; apply Hin.
Qed.

Lemma pays_dispatch table r :
  Forall (static ∘ snd) table.*1 →
  (∀ h, ((r_Method r, r_Path r), h) ∈ table → pays (S := Server) earn spend 0 (h r)) →
  pays (S := Server) earn spend 0 (dispatch table r).
Proof.
  intros Hs Ht. assert (Hno : pays (S := Server) earn spend 0 (Unrouted r)).
  { apply pays_quiet. eapply all_ops_impl; [|apply Unrouted_writes]. by intros []. }
  unfold dispatch. destruct (Match _ _ _) as [i|] eqn:Hi; [|done].
  apply Match_sound in Hi; [|done]. rewrite list_lookup_fmap in Hi.
  destruct (table !! i) as [[k h]|] eqn:Hk; [|done]. injection Hi as ->.
  apply Ht. by eapply list_elem_of_lookup_2.
Qed.

(** A router pays for a job if its two /auth handlers pay for it. *)
Lemma pays_site keys c issuer fetcher toml j :
  let d := site_deps c issuer fetcher in
  let trust := cfg_TrustProxyHeaders c in
  match j with
  | Serve r =>
      r_Path r = "/auth"%string → ∀ id,
        (r_Method r = "GET"%string → pays (S := Server) earn spend 0 (getAuthHandler d (capped (seen trust r id)))) ∧
        (r_Method r = "POST"%string →
           pays (S := Server) earn spend 0 (postAuthHandler keys d (capped (seen trust r id))))
  | Sweep before => spend (Sql (DELETE_expired before)) = false
  end →
  pays (S := Server) earn spend 0 (run_job (site keys c issuer fetcher toml) j).
Proof.
  cbv zeta. intros Hj. destruct j as [r|before]; cbn [run_job].
  2: { unfold DeleteExpiredChallenges. cbn [embed pbind perform]. by apply pays_free_op. }
  apply pays_chain. intros id. destruct (seen_route (cfg_TrustProxyHeaders c) r id) as (Hm & Hp & _).
  apply pays_dispatch; [apply routes_static|]. intros h Hin.
  cbn [r_Method r_Path capped with_Body] in Hin. rewrite Hm, Hp in Hin. unfold site, routes in Hin. cbn [route_table] in Hin. rewrite !elem_of_cons, elem_of_nil in Hin.
  destruct Hin as [[= _ _ ->]|[[= Hg Hpath ->]|[[= Hg Hpath ->]|[[= _ _ ->]|[]]]]];
    unfold HandlerFunc; apply pays_bind; try done.
  - apply pays_bind; [by apply pays_free_op; [by apply chain_free|]|].
    intros [u|e]; [apply pays_quiet, writeJSON_quiet|].
    apply pays_free_op; [by apply writes_free|]. intros ?. cbn [pbind perform]. apply pays_quiet, writeJSON_quiet.
  - by apply Hj.
  - by apply Hj.
  - apply pays_quiet. simpl. do 3 (split; [done|]; intros ?). split; [done|]. by intros [].
Qed.
End payments.

(** ** Lemmas: what the handlers do *)

Section handlers.
Context {SL : SDKLaws Sd}.
Variables (c : Config) (issuer : Challenge.Issuer (S := Server)) (fetcher : Fetcher).
Hypothesis issuer_ok : Challenge.NewIssuer (issuer_config c) = Ok issuer.

Let d := site_deps c issuer fetcher.

(** GET asks wallets and the SDK, records a challenge for the account and the
    client domain of its query, and answers. *)
Definition get_op (r : Request) (o : server_op) : Prop :=
  match o with
  | TimeNow | Wallet _ | BuildTx _ => True
  | Sql (INSERT_challenges _ account _ client_domain _ _) =>
      account = Get "account" (ParseQuery (r_RawQuery r)) ∧
      client_domain = Get "client_domain" (ParseQuery (r_RawQuery r))
  | _ => quiet_op o
  end.

(** POST reads and spends challenges, looks up accounts, records sessions, and
    answers. *)
Definition post_op (o : server_op) : Prop :=
  match o with
  | TimeNow | Horizon _ => True
  | Sql (UPDATE_consume _ _) | Sql (SELECT_inspect _) | Sql (INSERT_sessions _ _ _ _ _ _ _) => True
  | _ => quiet_op o
  end.

Lemma quiet_get {A} r (p : prog Server A) : all_ops (S := Server) quiet_op p → all_ops (S := Server) (get_op r) p.
Proof. apply all_ops_impl. by intros []. Qed.

Lemma quiet_post {A} (p : prog Server A) : all_ops (S := Server) quiet_op p → all_ops (S := Server) post_op p.
Proof. apply all_ops_impl. by intros []. Qed.

#[local] Hint Resolve writeJSON_quiet respondError_quiet respondStoreError_quiet : core.

Lemma issuer_resolver : Challenge.resolver issuer = resolver_api (NewResolver (resolver_config c)).
Proof.
  apply Challenge.challenge_NewIssuer_ok in issuer_ok as (_ & _ & _ & _ & Hr & _). simpl in Hr. congruence.
Qed.

Lemma Issue_ops req r :
  all_ops (S := Server) (get_op r) (Challenge.Issue BuildChallengeTx issuer req).
Proof.
  unfold Challenge.Issue. destruct (Challenge.check_request issuer req); [|done].
  apply all_ops_bind_result.
  - unfold Challenge.resolve_client_domain. destruct (_ <>s _); [|by destruct (Challenge.ClientDomainRequired _)].
    apply all_ops_bind; [|done]. rewrite issuer_resolver. apply all_ops_embed.
    apply all_ops_any. done.
  - intros key. simpl. done.
Qed.

Lemma Issue_account req tr ic :
  runs (Challenge.Issue BuildChallengeTx issuer req) tr (Ok ic) →
  Challenge.ic_Account ic = Challenge.ir_Account req ∧
  Challenge.ic_ClientDomain ic = Challenge.ir_ClientDomain req ∧
  ∃ ev, ev ∈ tr ∧ draws (Challenge.ic_Nonce ic) ev = true.
Proof.
  intros (hd & key & tx & tr1 & tr2 & -> & _ & _ & Hb & Hf)%Challenge.Issue_ok.
  destruct Hb as (x & tr3 & -> & -> & <-).
  apply Challenge.finish_issue_fields in Hf as (-> & -> & Hn).
  split; [done|]. split; [done|]. eexists. split; [apply elem_of_app; right; by apply list_elem_of_singleton|].
  simpl. unfold around. destruct (tx_Operations tx) as [|[op|] ops]; [done| |done]. by apply bool_decide_eq_true_2.
Qed.

Lemma getAuthHandler_ops r : all_ops (S := Server) (get_op r) (getAuthHandler d r).
Proof.
  unfold getAuthHandler. destruct (_ =s ""); [by apply quiet_get, writeJSON_quiet|].
  destruct (parseMemo _) as [memo|]; [|by apply quiet_get, writeJSON_quiet].
  apply all_ops_bind_runs; [apply Issue_ops|]. intros tr0 [ic|e] H; [|by apply quiet_get].
  apply all_ops_perform; [done|]. intros now. apply Issue_account in H as (Ha & Hcd & _).
  apply (all_ops_bind (S := Server)); [simpl; by rewrite Ha, Hcd|]. intros [[]|e]; by apply quiet_get.
Qed.

Variable keys : gmap string Z → list string.

Lemma consume_ops n now : all_ops (S := Server) post_op (st_ConsumeChallenge store_api n now).
Proof.
  simpl. split; [done|]. intros r. destruct (query_row _ _) as [|[]]; simpl; done.
Qed.

Lemma verify_client_ops ch net :
  all_ops (S := Server) post_op (VerifyClient keys ch net (accounts_api fetcher)).
Proof.
  unfold VerifyClient. destruct (baseAccountID _); [|done]. apply all_ops_bind; [|done].
  apply all_ops_embed, all_ops_any. done.
Qed.

Lemma issue_session_ops ch consumed now :
  all_ops (S := Server) post_op (issue_session d ch consumed now).
Proof.
  unfold issue_session. destruct (tx_HashHex _ _); [destruct (Token.Issue _ _)|].
  - apply (all_ops_bind (S := Server)); [done|]. intros [[]|e]; by apply quiet_post.
  - apply all_ops_perform; [done|]. intros ?. by apply quiet_post, writeJSON_quiet.
  - apply all_ops_perform; [done|]. intros ?. by apply quiet_post, writeJSON_quiet.
Qed.

Lemma verify_consumed_ops ch consumed now :
  all_ops (S := Server) post_op (verify_consumed keys d ch consumed now).
Proof.
  unfold verify_consumed. destruct (_ || _).
  { apply all_ops_perform; [done|]. intros ?. by apply quiet_post. }
  apply all_ops_bind; [apply verify_client_ops|]. intros [found|]; [|by apply quiet_post].
  apply issue_session_ops.
Qed.

Lemma postAuthHandler_ops r : all_ops (S := Server) post_op (postAuthHandler keys d r).
Proof.
  unfold postAuthHandler. destruct (readTransactionField r); [|by apply quiet_post, writeJSON_quiet].
  apply all_ops_perform; [done|]. intros reading.
  destruct (ReadChallenge _ _ _ _ _ _); [|by apply quiet_post]. apply all_ops_perform; [done|]. intros now.
  apply (all_ops_bind (S := Server)); [apply consume_ops|]. intros [consumed|]; [|by apply quiet_post].
  apply verify_consumed_ops.
Qed.

(** The dependencies the server is built with write no response. *)
Lemma site_silent : silent_deps d.
Proof.
  split.
  - intros domain. cbn [d_Issuer d site_deps]. rewrite issuer_resolver. by apply all_ops_embed, all_ops_any.
  - intros a. by apply (all_ops_embed (S := Fetch)), all_ops_any.
  - done.
  - intros n now. by apply (all_ops_embed (S := SQL)), all_ops_any.
  - done.
Qed.

(** *** An insert is paid for with a drawn nonce *)

Lemma Issue_inserts_none n req :
  all_ops (S := Server) (λ o, inserts_op n o = false) (Challenge.Issue BuildChallengeTx issuer req).
Proof.
  unfold Challenge.Issue. destruct (Challenge.check_request issuer req); [|done].
  apply all_ops_bind_result; [|by intros key; simpl].
  unfold Challenge.resolve_client_domain.
  destruct (_ <>s _); [|by destruct (Challenge.ClientDomainRequired _)].
  apply all_ops_bind; [|done]. rewrite issuer_resolver. by apply all_ops_embed, all_ops_any.
Qed.

Lemma get_pays_inserts n r : pays (S := Server) (draws n) (inserts_op n) 0 (getAuthHandler d r).
Proof.
  assert (Hquiet : ∀ k (p : prog Server unit), all_ops (S := Server) quiet_op p →
    pays (S := Server) (draws n) (inserts_op n) k p) by (intros k p; apply pays_quiet; by intros []).
  unfold getAuthHandler. destruct (_ =s ""); [by apply Hquiet, writeJSON_quiet|].
  destruct (parseMemo _) as [memo|]; [|by apply Hquiet, writeJSON_quiet].
  apply pays_bind_free; [apply Issue_inserts_none|]. intros tr [ic|e] Hr; [|by apply Hquiet].
  apply pays_free_op; [done|]. intros now. cbn [pbind perform].
  simpl. case_bool_decide as Hn.
  - apply Issue_account in Hr as (_ & _ & ev & Hin & Hd). rewrite Hn in Hd.
    assert (0 < count (draws n) tr)%nat by (apply (length_pos_elem ev), list_elem_of_filter; by split).
    destruct (count (draws n) tr); [lia|].
    intros [[]|e]; apply Hquiet; [apply writeJSON_quiet|apply respondStoreError_quiet].
  - intros [[]|e]; apply Hquiet; [apply writeJSON_quiet|apply respondStoreError_quiet].
Qed.

Lemma post_inserts_none n r : pays (S := Server) (draws n) (inserts_op n) 0 (postAuthHandler keys d r).
Proof.
  apply pays_free. eapply all_ops_impl; [|apply postAuthHandler_ops]. by intros [|[]| | | | | | | | | | | |].
Qed.

(** *** A lookup is paid for with a consumed challenge *)

Lemma get_lookups_none r :
  pays (S := Server) (on_sql any_consumed) looks_up 0 (getAuthHandler d r).
Proof.
  apply pays_free. eapply all_ops_impl; [|apply (getAuthHandler_ops r)].
  by intros [|[]| | | | | | | | | | | |].
Qed.

Lemma verify_client_lookups ch net :
  max_ops (S := Server) looks_up 1 (VerifyClient keys ch net (accounts_api fetcher)).
Proof.
  unfold VerifyClient. destruct (baseAccountID _) as [base|]; [|done].
  apply (max_ops_bind (S := Server) looks_up 1 0); [|done].
  unfold accounts_api, FetchAccount. case_match; [|done]. case_match; [|done].
  cbn. intros [resp|]; done.
Qed.

Lemma quiet_lookups {A} n (p : prog Server A) :
  all_ops (S := Server) quiet_op p → max_ops (S := Server) looks_up n p.
Proof.
  induction p as [a|o k IH]; [done|]. intros [Ho Hk]. simpl. destruct o; try done; intros x; by apply IH.
Qed.

Lemma verify_consumed_lookups ch consumed now :
  max_ops (S := Server) looks_up 1 (verify_consumed keys d ch consumed now).
Proof.
  unfold verify_consumed. destruct (_ || _).
  { apply quiet_lookups, all_ops_perform; [done|]. intros ?. apply respondError_quiet. }
  apply (max_ops_bind (S := Server) looks_up 1 0); [apply verify_client_lookups|].
  intros [found|]; [|by apply quiet_lookups]. unfold issue_session.
  destruct (tx_HashHex _ _); [destruct (Token.Issue _ _)|].
  - simpl. intros [[]|e]; apply quiet_lookups; [apply writeJSON_quiet|apply respondStoreError_quiet].
  - simpl. intros _. by apply quiet_lookups, writeJSON_quiet.
  - simpl. intros _. by apply quiet_lookups, writeJSON_quiet.
Qed.

Lemma post_pays_lookups r :
  pays (S := Server) (on_sql any_consumed) looks_up 0 (postAuthHandler keys d r).
Proof.
  assert (Hquiet : ∀ k (p : prog Server unit), all_ops (S := Server) quiet_op p →
    pays (S := Server) (on_sql any_consumed) looks_up k p) by (intros k p; apply pays_quiet; by intros []).
  unfold postAuthHandler. destruct (readTransactionField r); [|by apply Hquiet, writeJSON_quiet].
  apply pays_free_op; [done|]. intros reading. cbn [pbind perform].
  destruct (ReadChallenge _ _ _ _ _ _) as [ch|]; [|by apply Hquiet].
  apply pays_free_op; [done|]. intros now. cbn [pbind perform].
  apply (pays_bind_free (S := Server) _ _ _ _ (embed (ConsumeChallenge (Nonce ch) now))).
  { by apply all_ops_embed, all_ops_any. }
  intros tr [consumed|e] Hr; [|by apply Hquiet].
  apply runs_embed in Hr as (tr' & Hr & HF). apply ConsumeChallenge_ok in Hr as (row & -> & _).
  apply Forall2_cons_inv_r in HF as (ev & ? & (x & -> & Hx) & ->%Forall2_nil_inv_r & ->).
  simpl in *. subst x. apply pays_max_ops, verify_consumed_lookups.
Qed.

(** *** What a POST that was answered 200 did *)

Lemma statuses_app tr1 tr2 : statuses (tr1 ++ tr2) = statuses tr1 ++ statuses tr2.
Proof. apply omap_app. Qed.

Lemma statuses_none (P : server_op → Prop) tr :
  (∀ s, ¬ P (WriteHeader s)) → Forall (λ ev : event Server, P (ev_op ev)) tr → statuses tr = [].
Proof.
  intros HP. induction 1 as [|[o x] tr Ho _ IH]; [done|]. unfold statuses. csimpl. fold (statuses tr).
  simpl in Ho. destruct o; try done. by apply HP in Ho.
Qed.

Lemma response_statuses tr status body : response tr status body → statuses tr = [status].
Proof.
  intros (pre & post & kind & x & H1 & H2 & ->).
  assert (Hl : ∀ tr, Forall logs tr → statuses tr = []).
  { intros tr0 H. induction H as [|[o y] tr0 Ho _ IH]; [done|]. unfold statuses. csimpl. fold (statuses tr0).
    unfold logs in Ho. simpl in Ho. by destruct o. }
  rewrite !statuses_app, (Hl pre), (Hl post) by done. done.
Qed.

Lemma error_wire_status sb : error_wire sb → sb.1 ≠ 200.
Proof.
  intros [->|(status & t & _ & Hs & _ & ->)]; [done|]. unfold error_statuses in Hs. intros ->.
  rewrite !elem_of_cons, elem_of_nil in Hs. lia.
Qed.

(** The envelope a request posts is a challenge of this server around [n]. *)
Definition presents (r : Request) (ch : ReadChallenge.Challenge) : Prop :=
  ∃ envelope reading, readTransactionField (capped r) = Ok envelope ∧
    ReadChallenge envelope (Challenge.ServerAccountID issuer) (cfg_NetworkPassphrase c)
      (cfg_WebAuthDomain c) (cfg_HomeDomains c) reading = Ok ch.

Context {CL : ChiLaws C}.

Lemma capped_seen trust r id :
  readTransactionField (capped (seen trust r id)) = readTransactionField (capped r).
Proof. unfold seen. destruct trust; [|done]. by rewrite RealIP_addr. Qed.

(** What a POST answered with a token did. *)
Definition logged_in (r : Request) (tr : list (event Server)) (ch : ReadChallenge.Challenge)
    (consumed : ConsumedChallenge) (now : Z) (signed : string) : Prop :=
  ∃ r' pre work post, tr = pre ++ work ++ post ∧ authenticated keys d r' work ch consumed now signed.

Lemma post_answered toml r tr p :
  runs (ServeHTTP (site keys c issuer fetcher toml) r) tr p →
  r_Method r = "POST"%string → r_Path r = "/auth"%string → 200 ∈ statuses tr →
  ∃ ch consumed now signed, presents r ch ∧ logged_in r tr ch consumed now signed.
Proof.
  intros H Hm Hp H200.
  apply (served_route _ _ _ _ _ (postAuthHandler keys d)) in H as (-> & id & started & now & ok & handled & ws & wb &
    ended & -> & H).
  2: { rewrite Hm, Hp. unfold routes. do 2 apply list_elem_of_further. apply list_elem_of_here. }
  rewrite !statuses_app in H200. simpl in H200. rewrite app_nil_r in H200.
  destruct ok.
  - apply postAuthHandler_runs in H as (work & out & sb & -> & Hr & HQ).
    assert (Hw : statuses work = []).
    { apply (statuses_none (λ o, writes o = false)); [done|].
      destruct HQ as [HQ|(ch & consumed & t & signed & HQ & _)];
        [by eapply (post_failed_silent _ site_silent)|by eapply (authenticated_silent _ site_silent)]. }
    rewrite statuses_app, Hw, (response_statuses _ _ _ Hr) in H200. apply list_elem_of_singleton in H200.
    destruct HQ as [HQ|(ch & consumed & t & signed & Ha & _)].
    { apply post_failed_error, error_wire_status in HQ. by rewrite <-H200 in HQ. }
    exists ch, consumed, t, signed. split.
    + destruct Ha as (envelope & reading & found & jti & tr1 & tr2 & tr3 & Hf & Hread & _).
      rewrite capped_seen in Hf. by exists envelope, reading.
    + eexists _, _, work, (out ++ _). split; [|exact Ha]. rewrite <-(app_assoc work). reflexivity.
  - apply response_statuses in H. rewrite H in H200. apply list_elem_of_singleton in H200.
    pose proof (error_wire_status _ (wire_json_error 429 "too many requests" ltac:(by apply (list_elem_of_lookup_2 _ 22)) ltac:(by apply (list_elem_of_lookup_2 _ 2)))) as He.
    by rewrite <-H200 in He.
Qed.

Lemma job_pays_inserts toml n j :
  pays (S := Server) (draws n) (inserts_op n) 0 (run_job (site keys c issuer fetcher toml) j).
Proof.
  apply pays_site; [by intros []|by intros []|]. destruct j; [|done].
  split; [intros _; apply get_pays_inserts|intros _; apply post_inserts_none].
Qed.

Lemma job_pays_lookups toml j :
  pays (S := Server) (on_sql any_consumed) looks_up 0 (run_job (site keys c issuer fetcher toml) j).
Proof.
  apply pays_site; [by intros []|by intros []|]. destruct j; [|done].
  split; [intros _; apply get_lookups_none|intros _; apply post_pays_lookups].
Qed.

(** An insert that is not a GET's, for the account and the domain it asked for. *)
Definition stray (j : job) (o : server_op) : bool :=
  match j, o with
  | Serve r, Sql (INSERT_challenges _ account _ client_domain _ _) =>
      negb (bool_decide (r_Method r = "GET"%string ∧ r_Path r = "/auth"%string ∧
        account = Get "account" (ParseQuery (r_RawQuery r)) ∧
        client_domain = Get "client_domain" (ParseQuery (r_RawQuery r))))
  | Sweep _, Sql (INSERT_challenges _ _ _ _ _ _) => true
  | _, _ => false
  end.

Lemma job_never_strays toml j :
  pays (S := Server) (λ _, false) (stray j) 0 (run_job (site keys c issuer fetcher toml) j).
Proof.
  apply pays_site; [by intros []; destruct j|by intros []; destruct j|]. destruct j as [r|]; [|done].
  intros Hp id. split; intros Hm; apply pays_free.
  - eapply all_ops_impl; [|apply getAuthHandler_ops].
    assert (Hq : r_RawQuery (seen (cfg_TrustProxyHeaders c) r id) = r_RawQuery r)
      by (unfold seen; destruct (cfg_TrustProxyHeaders c); [by rewrite RealIP_addr|done]).
    intros [|[]| | | | | | | | | | | |]; simpl; rewrite ?Hq; try done.
    intros [-> ->]. by rewrite bool_decide_eq_true_2.
  - eapply all_ops_impl; [|apply postAuthHandler_ops]. by intros [|[]| | | | | | | | | | | |].
Qed.

(** A consumption the handler saw is in its trace. *)
Lemma logged_in_consumed r tr ch consumed now signed :
  logged_in r tr ch consumed now signed →
  ∃ row, scan_consumed row = Ok consumed ∧
    Ev (S := Server) (Sql (UPDATE_consume (Nonce ch) now)) (Ok (Some row)) ∈ tr.
Proof.
  intros (r' & pre & work & post & -> & envelope & reading & found & jti & tr1 & tr2 & tr3 & _ & _ & Hc & _ &
    _ & _ & _ & _ & _ & ->).
  apply runs_embed in Hc as (tr' & Hc & HF). apply ConsumeChallenge_ok in Hc as (row & -> & Hs).
  apply Forall2_cons_inv_r in HF as (ev & ? & (x & -> & Hx) & ->%Forall2_nil_inv_r & ->).
  simpl in *. subst x. exists row. split; [done|]. clear. set_solver.
Qed.
End handlers.
End system.

(** ** Properties *)

Section properties.
Context {Sd : SDK} {SL : SDKLaws Sd} {HL : HorizonLib} {TL : TomlLib} {J : Token.JWT} {Px : Pgx}.
Context {WL : WebLib} {C : Chi} {CL : ChiLaws C} {FL : Float64}.

Implicit Types (c : Config) (issuer : Challenge.Issuer (S := Server)) (jobs : list job).

(** A thread of a pool that answered a POST to /auth with 200. *)
Definition token_sent jobs tr (qs : list (prog Server (option panic))) (i : nat) (r : Request) : Prop :=
  jobs !! i = Some (Serve r) ∧ r_Method r = "POST"%string ∧ r_Path r = "/auth"%string ∧
  (∃ p, qs !! i = Some (Ret p)) ∧ 200 ∈ statuses (thread_events i tr).

Lemma token_sent_logged_in c issuer fetcher keys toml jobs tr qs i r :
  Challenge.NewIssuer (issuer_config c) = Ok issuer →
  interleave (run_job (site keys c issuer fetcher toml) <$> jobs) tr qs →
  token_sent jobs tr qs i r →
  ∃ ch consumed now signed, presents c issuer r ch ∧
    logged_in c issuer fetcher keys r (thread_events i tr) ch consumed now signed.
Proof.
  intros Hi Hil (Hj & Hm & Hp & (p & Hq) & H200).
  assert (Hrun : runs (ServeHTTP (site keys c issuer fetcher toml) r) (thread_events i tr) p).
  { eapply (interleave_thread_ret _ _ _ _ (run_job _ (Serve r))); [exact Hil| |exact Hq].
    by rewrite list_lookup_fmap, Hj. }
  by eapply post_answered.
Qed.

(** A token costs a nonce: with any number of requests and sweeps running at
    once, in any interleaving, on a database any of whose statements may fail
    before or after it took effect, the requests that presented challenges
    around one nonce and were answered with a token are no more than the times
    the SDK drew that nonce for a challenge, plus one if the database held it,
    unspent, from before.  A nonce that is drawn once buys one token at most. (claim C1) *)
Theorem tokens_cost_a_nonce res c issuer fetcher keys toml jobs tr qs w w' n (L : list nat) :
  Challenge.NewIssuer (issuer_config c) = Ok issuer →
  interleave (run_job (site keys c issuer fetcher toml) <$> jobs) tr qs →
  consistent (wstep res) w tr.*2 w' →
  NoDup L →
  (∀ i, i ∈ L → ∃ r ch, token_sent jobs tr qs i r ∧ presents c issuer r ch ∧ Nonce ch = n) →
  (length L ≤ (if live n (w_db w) then 1 else 0) + count (draws n) tr.*2)%nat.
Proof.
  intros Hi Hil Hc Hnd Hsent.
  assert (H1 : (length L ≤ count (on_sql (consumed_event n)) tr.*2)%nat).
  { apply threads_le_events; [done|]. intros k Hin. destruct (Hsent k Hin) as (r & ch & Hs & Hpr & Hn).
    destruct (token_sent_logged_in _ _ _ _ _ _ _ _ _ _ Hi Hil Hs) as (ch' & consumed & now & signed & Hpr' & Hlog).
    destruct Hpr as (env & t1 & He & Hr). destruct Hpr' as (env' & t2 & He' & Hr').
    assert (env' = env) as -> by congruence. pose proof (ReadChallenge_det _ _ _ _ _ _ _ _ _ Hr Hr') as <-.
    apply logged_in_consumed in Hlog as (row & _ & Hev).
    eexists. split; [exact Hev|]. unfold on_sql. simpl. by apply bool_decide_eq_true_2. }
  rewrite count_on_sql in H1. pose proof (consumptions_le_inserts _ _ _ n (consistent_sql _ _ _ _ Hc)) as H2.
  assert (H3 : count (λ ev : event SQL, inserts n (ev_op ev)) (omap sql_event tr.*2) =
               count (λ ev : event Server, inserts_op n (ev_op ev)) tr.*2).
  { rewrite <-count_on_sql. clear. induction tr.*2 as [|[o x] evs IH]; [done|]. rewrite !count_cons, IH. by destruct o. }
  assert (H4 : (count (λ ev : event Server, inserts_op n (ev_op ev)) tr.*2 ≤ count (draws n) tr.*2)%nat).
  { apply (pool_pays (S := Server) _ _ _ _ _ Hil). apply Forall_fmap, Forall_forall. intros j _.
    by apply job_pays_inserts. }
  destruct (live n (w_db w')); lia.
Qed.

(** One challenge, one attempt: in the same setting, the accounts the server
    looks up, in Horizon and so before it counts any signature, are no more than
    the challenges it consumed; a client cannot make it look up or verify
    anything without spending a challenge of its own. (claim C3) *)
Theorem lookups_cost_a_challenge c issuer fetcher keys toml jobs tr qs :
  Challenge.NewIssuer (issuer_config c) = Ok issuer →
  interleave (run_job (site keys c issuer fetcher toml) <$> jobs) tr qs →
  (count (λ ev : event Server, looks_up (ev_op ev)) tr.*2 ≤ count (on_sql any_consumed) tr.*2)%nat ∧
  ∀ i, (count (λ ev : event Server, looks_up (ev_op ev)) (thread_events i tr) ≤
        count (on_sql any_consumed) (thread_events i tr))%nat.
Proof.
  intros Hi Hil. split.
  - apply (pool_pays (S := Server) _ _ _ _ _ Hil). apply Forall_fmap, Forall_forall. intros j _.
    by apply job_pays_lookups.
  - intros i. destruct ((run_job (site keys c issuer fetcher toml) <$> jobs) !! i) as [p|] eqn:Hp.
    + destruct (interleave_thread _ _ _ _ _ Hil Hp) as (q & _ & Hs).
      rewrite list_lookup_fmap in Hp. apply fmap_Some in Hp as (j & _ & ->).
      exact (steps_pays (S := Server) _ _ 0 _ _ _ Hs (job_pays_lookups _ _ _ Hi _ _ j)).
    + replace (thread_events i tr) with (@nil (event Server)); [done|].
      destruct (thread_events i tr) as [|ev evs] eqn:Hev; [done|].
      assert (Hin : ev ∈ thread_events i tr) by (rewrite Hev; apply list_elem_of_here).
      apply elem_of_thread_events in Hin. destruct (interleave_tags _ _ _ _ _ Hil Hin) as [p Hp'].
      congruence.
Qed.

(** Whom a token is for: on a database that did not know the nonce, a token is
    sent only for a challenge that a GET of the same execution was issued, for
    the account and the client domain that GET asked for, before that challenge
    expired; and the handler consumed it, verified the client's signatures
    against the account, minted the token for that account and recorded the
    session, before it answered. (claim C2) *)
Theorem login_sound res c issuer fetcher keys toml jobs tr qs w w' i r ch :
  Challenge.NewIssuer (issuer_config c) = Ok issuer →
  interleave (run_job (site keys c issuer fetcher toml) <$> jobs) tr qs →
  consistent (wstep res) w tr.*2 w' →
  token_sent jobs tr qs i r → presents c issuer r ch →
  challenges (w_db w) !! Nonce ch = None →
  ∃ consumed now signed (j : nat) g expires home,
    logged_in c issuer fetcher keys r (thread_events i tr) ch consumed now signed ∧
    jobs !! j = Some (Serve g) ∧ r_Method g = "GET"%string ∧ r_Path g = "/auth"%string ∧
    Get "account" (ParseQuery (r_RawQuery g)) = ClientAccountID ch ∧
    Get "client_domain" (ParseQuery (r_RawQuery g)) = ReadChallenge.ClientDomain ch ∧
    (∃ issued x, Ev (S := Server) (Sql (INSERT_challenges (Nonce ch) (ClientAccountID ch) home
        (ReadChallenge.ClientDomain ch) issued expires)) x ∈ thread_events j tr) ∧
    timestamptz now ≤ timestamptz expires.
Proof.
  intros Hi Hil Hc Hs Hpr Hnone.
  destruct (token_sent_logged_in _ _ _ _ _ _ _ _ _ _ Hi Hil Hs) as (ch' & consumed & now & signed & Hpr' & Hlog).
  assert (ch' = ch) as ->.
  { destruct Hpr as (env & t1 & He & Hr), Hpr' as (env' & t2 & He' & Hr').
    assert (env' = env) as -> by congruence. by eapply ReadChallenge_det. }
  pose proof Hlog as (row & Hscan & Hev)%logged_in_consumed.
  pose proof Hlog as (r' & pre & work & post & _ & _ & _ & _ & _ & _ & _ & _ & _ & _ & _ & Hacct & Hdom & _).
  apply elem_of_thread_events, (list_elem_of_fmap_2 snd) in Hev. simpl in Hev.
  apply list_elem_of_split in Hev as (evs1 & evs2 & Hsplit). rewrite Hsplit in Hc.
  apply consistent_app in Hc as (w1 & Hc1 & Hc2). inversion Hc2 as [|? ? w2 ? ? Hstep _]; subst.
  pose proof (wstep_db _ _ _ _ Hstep) as Hserve. simpl in Hserve.
  destruct (consume_reply _ _ _ _ _ Hserve) as (row' & Hrow & -> & _ & Hexp).
  destruct (consistent_origin _ _ _ _ _ (consistent_sql _ _ _ _ Hc1) Hnone Hrow) as (ev & Hin & Hiss).
  apply list_elem_of_omap in Hin as (sev & Hin & Hsev).
  assert (Hin' : sev ∈ tr.*2) by (rewrite Hsplit; apply elem_of_app; by left).
  apply list_elem_of_fmap in Hin' as ([j sev'] & -> & Hj). simpl in *.
  destruct sev' as [[] y]; try done. simpl in Hsev. injection Hsev as <-. simpl in Hiss.
  destruct s as [nonce account home cd iss expires| | | |]; try done.
  destruct Hiss as (-> & Ha & _ & Hcd & Hx). simpl in Hscan. rewrite Hcd in Hscan. injection Hscan as <-.
  simpl in Hacct, Hdom. rewrite Ha in Hacct. subst account cd.
  destruct (interleave_tags _ _ _ _ _ Hil Hj) as [p Hp].
  destruct (interleave_thread _ _ _ _ _ Hil Hp) as (q & _ & Hsteps).
  rewrite list_lookup_fmap in Hp. apply fmap_Some in Hp as (job & Hjob & ->).
  pose proof (steps_pays (S := Server) _ _ 0 _ _ _ Hsteps (job_never_strays _ _ _ Hi _ _ job)) as Hstray.
  rewrite count_never in Hstray.
  apply elem_of_thread_events in Hj.
  assert (Hns : stray job (Sql (INSERT_challenges (Nonce ch) (ClientAccountID ch) home
      (ReadChallenge.ClientDomain ch) iss expires)) = false).
  { apply not_true_iff_false. intros Ht.
    assert (0 < count (λ ev : event Server, stray job (ev_op ev)) (thread_events j tr))%nat; [|lia].
    eapply length_pos_elem, list_elem_of_filter. split; [|exact Hj]. exact Ht. }
  destruct job as [g|before]; [|done]. simpl in Hns. apply negb_false_iff, bool_decide_eq_true in Hns.
  destruct Hns as (Hgm & Hgp & Hga & Hgd).
  exists (MkConsumedChallenge (c_account row') (c_home_domain row') (ReadChallenge.ClientDomain ch)), now, signed,
    j, g, expires, home.
  split_and!; try done; [by exists iss, y|by rewrite <-Hx].
Qed.

(** *** The limiter *)

(** The limiter let a request of [key] through. *)
Definition admits (key : string) (ev : event Server) : bool :=
  match allow_event ev with Some (k, _, ok) => bool_decide (k = key) && ok | None => false end.

Lemma allowed_count key tr :
  allowed key (omap allow_event tr).*1 (omap allow_event tr).*2 = Z.of_nat (count (admits key) tr).
Proof.
  induction tr as [|ev tr IH]; [done|]. rewrite count_cons. unfold admits at 1. csimpl.
  destruct (allow_event ev) as [[[k now] ok]|]; [|done]. csimpl. rewrite IH.
  destruct (bool_decide (k = key) && ok); lia.
Qed.

(** The limiter said yes, to whichever key it was asked about. *)
Definition said_yes (ev : event Server) : bool :=
  match allow_event ev with Some (_, _, ok) => ok | None => false end.

(** A request of the TCP peer [key] that the limiter let through, whether it has
    been answered, and how, or is still being served. *)
Definition let_through jobs tr (key : string) (i : nat) : Prop :=
  ∃ r ev, jobs !! i = Some (Serve r) ∧ clientIP r = key ∧
    ev ∈ thread_events i tr ∧ said_yes ev = true.

(** What is done for a request of [key] that is not let through: ask the limiter
    about [key], answer 429, and log; no statement, no lookup, no other answer. *)
Definition refusal (key : string) (o : server_op) : Prop :=
  match o with
  | NewRequestID | TimeNow | Log _ _ _ | WrappedStatus | WrappedBytes | SetHeader _ _ => True
  | Allow k _ => k = key
  | WriteHeader status => status = (wire_json 429 (errorBody "too many requests")).1
  | Write body => body = (wire_json 429 (errorBody "too many requests")).2
  | Sql _ | Horizon _ | Wallet _ | BuildTx _ | PoolPing => False
  end.

Abbreviation refuses key := (guarded said_yes (refusal key)).

Lemma refuses_429 key :
  refuses key (λ _, True) (writeError StatusTooManyRequests "too many requests").
Proof.
  unfold writeError, writeJSON.
  assert (Hw : wire_json 429 (errorBody "too many requests") =
    match Marshal (errorBody "too many requests") with
    | Ok encoded => (429, encoded) | Err _ => (StatusInternalServerError, internal_body) end) by done.
  destruct (Marshal _) as [encoded|e]; simpl; rewrite Hw; simpl; repeat (split; [done|]; intros ?); [|done].
  by case_match.
Qed.

Lemma refuses_limit next r : refuses (clientIP r) (λ q, q = None) (limit next r).
Proof.
  apply (guarded_perform (S := Server)); [done|]. intros now. right.
  apply (guarded_perform (S := Server)); [done|]. intros [|]; [by left|right].
  eapply (guarded_bind (S := Server)); [apply refuses_429|done].
Qed.

Lemma refuses_chain next r key :
  clientIP r = key → refuses key (λ _, True) (foldr (λ mw h, mw h) next (chain false) r).
Proof.
  intros <-. apply (guarded_perform (S := Server)); [done|]. intros id. right.
  eapply (guarded_bind (S := Server) _ _ (λ q, q = None)); [|by intros ? ->].
  apply (guarded_perform (S := Server)); [done|]. intros started. right.
  eapply (guarded_bind (S := Server) _ _ (λ q, q = None)); [exact (refuses_limit next (capped (with_ID r id)))|].
  intros ? ->. simpl. by repeat (split; [done|]; intros ?).
Qed.

(** A request is let through under the key of its peer, or only refused. *)
Lemma refused_or_admitted c issuer fetcher keys toml jobs tr qs i r key :
  cfg_TrustProxyHeaders c = false →
  interleave (run_job (site keys c issuer fetcher toml) <$> jobs) tr qs →
  jobs !! i = Some (Serve r) → clientIP r = key →
  (∃ ev, ev ∈ thread_events i tr ∧ admits key ev = true) ∨
  Forall (λ ev : event Server, refusal key (ev_op ev)) (thread_events i tr).
Proof.
  intros Htrust Hil Hj Hkey. assert (Hp : (run_job (site keys c issuer fetcher toml) <$> jobs) !! i =
    Some (ServeHTTP (site keys c issuer fetcher toml) r)) by (by rewrite list_lookup_fmap, Hj).
  destruct (interleave_thread _ _ _ _ _ Hil Hp) as (q & _ & Hs).
  assert (Hr : refuses key (λ _, True) (ServeHTTP (site keys c issuer fetcher toml) r)).
  { unfold site, ServeHTTP. cbn [middlewares route_table]. rewrite Htrust. by apply refuses_chain. }
  destruct (steps_guarded _ _ _ _ _ _ Hs Hr) as [(ev & Hin & Hyes & Hop)|[Hf _]]; [left|by right].
  exists ev. split; [done|]. destruct ev as [[] x]; try done. simpl in *. subst. unfold said_yes in Hyes.
  simpl in Hyes. unfold admits. simpl. by rewrite Hyes, bool_decide_eq_true_2.
Qed.

(** How often an address is served: with any number of requests running at once,
    in any interleaving, on a limiter that has served any requests before, the
    requests of one TCP peer that are let through, answered or not, are at most
    sixty and one more for every second between a time no reading of the clock is
    before and the latest reading, up to the rounding of the arithmetic, which
    for doubles is less than 10^-13 a request.  The headers make no difference,
    as proxies are not trusted.  Requests may take the limiter's lock in another
    order than they read the clock, as they do when they overtake each other
    between the two; a reading is no more than nine minutes older than one the
    limiter has already seen.  For a request that is not let through the server
    does nothing but ask the limiter, answer 429 and log. (claim C8) *)
Theorem admitted_requests_bounded {FLL : FloatLaws FL} res c issuer fetcher keys toml jobs tr qs w w' key t before :
  cfg_TrustProxyHeaders c = false →
  interleave (run_job (site keys c issuer fetcher toml) <$> jobs) tr qs →
  consistent (wstep res) w tr.*2 w' →
  w_limiter w = (allow_all (newRateLimiter requestsPerMinute) before).2 →
  let readings := (omap allow_event tr.*2).*1 in
  clock_near t t readings →
  (∀ L, NoDup L → (∀ i, i ∈ L → let_through jobs tr key i) →
    (inject_Z (Z.of_nat (length L)) <=
     60 + sec (latest t readings - t) + 5 * eps * inject_Z (Z.of_nat (length (of_key key readings))))%Q) ∧
  ∀ i r, jobs !! i = Some (Serve r) → clientIP r = key → ¬ let_through jobs tr key i →
    Forall (λ ev : event Server, refusal key (ev_op ev)) (thread_events i tr).
Proof.
  intros Htrust Hil Hc Hw readings Hclock. split.
  - intros L Hnd Hlet.
    assert (Hle : (length L ≤ count (admits key) tr.*2)%nat).
    { apply threads_le_events; [done|]. intros i Hi. destruct (Hlet i Hi) as (r & ev & Hj & Hkey & Hin & Hyes).
      destruct (refused_or_admitted _ _ _ _ _ _ _ _ _ _ _ Htrust Hil Hj Hkey) as [(ev' & ? & ?)|Hf];
        [by exists ev'|]. exists ev. split; [done|]. rewrite Forall_forall in Hf. specialize (Hf ev Hin).
      destruct ev as [[] x]; try done. simpl in Hf. subst. unfold said_yes in Hyes. simpl in Hyes.
      unfold admits. simpl. by rewrite Hyes, bool_decide_eq_true_2. }
    pose proof (consistent_limiter _ _ _ _ Hc) as Hall. rewrite Hw in Hall.
    pose proof (allow_all_bound _ key t _ (sound_allow_all _ before newRateLimiter_sound) Hclock) as Hb.
    unfold readings in *. rewrite Hall in Hb. cbn [fst] in Hb. rewrite allowed_count in Hb.
    eapply Qle_trans; [|exact Hb]. rewrite <-Zle_Qle. lia.
  - intros i r Hj Hkey Hno.
    destruct (refused_or_admitted _ _ _ _ _ _ _ _ _ _ _ Htrust Hil Hj Hkey) as [(ev & Hin & Ha)|Hf]; [|done].
    destruct Hno. exists r, ev. split_and!; try done. unfold admits in Ha. unfold said_yes.
    destruct (allow_event ev) as [[[k now] ok]|]; [|done]. by apply andb_true_iff in Ha as [_ Ha].
Qed.
End properties.
