(* ===== verification/Termination.v ===== *)
(** * Every request ends

    Whatever the clock, the database, Horizon, the wallets' hosts and the SDK
    answer, a request to one of the routes performs no more operations than its
    route's bound, which is the number of its longest run. *)

From S2P Require Import Prelude GoStd Errors Effects Stellar ReadChallenge Verify Schema Store StoreAdmin.
From S2P Require Import Http Account ClientDomain World HttpApi RateLimit Config Router Authd System.
From S2P Require Token Challenge.
Open Scope Z_scope.

(** Of [n] operations, [k a] are left when the program returns [a], whatever the
    answers. *)
Fixpoint within {S A} (n : nat) (k : A → nat) (p : prog S A) {struct p} : Prop :=
  match p with
  | Ret a => (k a ≤ n)%nat
  | Vis o f => match n with O => False | Datatypes.S n => ∀ x, within n k (f x) end
  end.

Lemma within_mono {S A} n m (k : A → nat) (p : prog S A) : (n ≤ m)%nat → within n k p → within m k p.
Proof.
  revert n m. induction p as [a|o f IH]; intros n m Hle Hp; simpl in *; [lia|].
  destruct n as [|n]; [done|]. destruct m as [|m]; [lia|]. intros x. eapply IH; [|apply Hp]. lia.
Qed.

Lemma within_bind {S A B} n (k : A → nat) (k' : B → nat) (f : A → prog S B) p :
  within n k p → (∀ a, within (k a) k' (f a)) → within n k' (pbind f p).
Proof.
  revert n. induction p as [a|o g IH]; intros n Hp Hf; simpl in *; [by eapply within_mono|].
  destruct n as [|n]; [done|]. intros x. by apply IH.
Qed.

(** One operation, then the rest. *)
Lemma within_perform {S A} n (k : A → nat) (o : op S) (f : res S o → prog S A) :
  (∀ x, within n k (f x)) → within (Datatypes.S n) k (pbind f (perform o)).
Proof. done. Qed.

Lemma within_embed {S T A} `{!Embed S T} n (k : A → nat) (p : prog S A) :
  within n k p → within n k (embed (T := T) p).
Proof.
  revert n. induction p as [a|o f IH]; intros n; simpl; [done|].
  destruct n; [done|]. intros H x. apply IH, H.
Qed.

Lemma steps_within {S A} n (k : A → nat) (p q : prog S A) tr :
  steps p tr q → within n k p → (length tr ≤ n)%nat ∧ within (n - length tr) k q.
Proof.
  induction 1 as [p|p tr o f x H IH]; intros Hp; [simpl; rewrite Nat.sub_0_r; split; [lia|done]|].
  destruct (IH Hp) as [Hle Hq]. rewrite length_app. simpl in *.
  destruct (n - length tr)%nat as [|m] eqn:Hm; [done|]. split; [lia|].
  by replace (n - (length tr + 1))%nat with m by lia.
Qed.

(** ** The parts *)

Section parts.
Context {Sd : SDK} {HL : HorizonLib} {TL : TomlLib} {J : Token.JWT} {Px : Pgx}.
Context {WL : WebLib} {C : Chi}.

Abbreviation spends n := (within n (λ _, O)).

Lemma writeJSON_spends status body : spends 4 (writeJSON status body).
Proof.
  unfold writeJSON. destruct (Marshal body); [|by simpl; intros; lia].
  simpl. intros _ _ [u|e]; simpl; [lia|]. intros _. lia.
Qed.

Lemma respondError_spends err : spends 5 (respondError err).
Proof.
  unfold respondError. destruct (classify err) as [[s st]|].
  - apply (within_mono 4); [lia|apply writeJSON_spends].
  - apply within_perform. intros ?. apply writeJSON_spends.
Qed.

Lemma respondStoreError_spends err : spends 5 (respondStoreError err).
Proof.
  unfold respondStoreError. destruct (classify err) as [[s st]|].
  - apply (within_mono 4); [lia|apply writeJSON_spends].
  - apply within_perform. intros ?. apply writeJSON_spends.
Qed.

(** A redirect the policy refuses costs two operations, a final answer one. *)
Lemma client_Do_spends fuel t req via n :
  (via < 3)%nat →
  within (n + 2 * (3 - via)) (λ r, match r with Ok _ => S n | Err _ => n end)
    (client_Do fuel (policed t) req via).
Proof.
  revert req via. induction fuel as [|fuel IH]; intros req via Hvia; [simpl; lia|].
  replace (n + 2 * (3 - via))%nat with (2 + (n + 2 * (2 - via)))%nat by lia. cbn [client_Do].
  apply (within_perform (S := RSig)). intros [resp|]; [|simpl; lia].
  destruct (is_redirect _); [|simpl; lia]. destruct (Location resp) as [next|]; [|simpl; lia].
  apply (within_perform (S := RSig)). intros ?. cbn [CheckRedirect policed].
  destruct (checkRedirect next (S via)) eqn:Hc; [simpl; lia|].
  apply checkRedirect_none in Hc as [Hc _].
  replace (2 - via)%nat with (3 - S via)%nat by lia. apply IH. lia.
Qed.

Lemma Resolve_spends cfg d n : within (8 + n) (λ _, n) (Resolve (NewResolver cfg) d).
Proof.
  unfold Resolve. destruct (_ =s ""); [simpl; lia|]. destruct (_ && _); [simpl; lia|].
  apply (within_perform (S := RSig) (7 + n)). intros [key|]; [simpl; lia|].
  apply (within_bind _ (λ _, 1 + n)%nat); [|by intros [key|]; simpl; intros; lia].
  unfold fetch. destruct (ClientDomain.NewRequest _) as [req|]; [|simpl; lia].
  pose proof (client_Do_spends default_requests (c_Timeout (r_client (NewResolver cfg))) req 0 (1 + n) ltac:(lia)) as H1.
  replace (1 + n + 2 * (3 - 0))%nat with (7 + n)%nat in H1 by lia.
  refine (within_bind (S := RSig) _ _ _ _ _ H1 _). intros [resp|]; simpl; intros; lia.
Qed.

(** ** The handlers *)

Variables (c : Config) (issuer : Challenge.Issuer (S := Server)) (fetcher : Fetcher).
Variable keys : gmap string Z → list string.
Hypothesis issuer_ok : Challenge.NewIssuer (issuer_config c) = Ok issuer.

Abbreviation d := (site_deps c issuer fetcher).

Lemma Issue_spends req n : within (9 + n) (λ _, n) (Challenge.Issue BuildChallengeTx issuer req).
Proof.
  unfold Challenge.Issue. destruct (Challenge.check_request issuer req); [|simpl; lia].
  apply (within_bind _ (λ _, 1 + n)%nat); [|by intros [key|]; simpl; intros; lia].
  unfold Challenge.resolve_client_domain.
  destruct (_ <>s _); [|by destruct (Challenge.ClientDomainRequired _); simpl; lia].
  apply (within_bind _ (λ _, 1 + n)%nat); [|by simpl].
  rewrite (issuer_resolver _ _ issuer_ok). apply within_embed, (Resolve_spends _ _ (1 + n)).
Qed.

Lemma getAuthHandler_spends r : spends 16 (getAuthHandler d r).
Proof.
  unfold getAuthHandler. destruct (_ =s ""); [apply (within_mono 4), writeJSON_spends; lia|].
  destruct (parseMemo _) as [memo|]; [|apply (within_mono 4), writeJSON_spends; lia].
  apply (within_bind _ (λ _, 7%nat)); [apply (Issue_spends _ 7)|].
  intros [issued|]; [|apply (within_mono 5), respondError_spends; lia].
  apply (within_perform 6). intros now. apply (within_perform (S := Server) 5).
  intros [u|e]; [apply (within_mono 4), writeJSON_spends; lia|apply respondStoreError_spends].
Qed.

Lemma issue_session_spends ch consumed now : spends 6 (issue_session d ch consumed now).
Proof.
  unfold issue_session. destruct (tx_HashHex _ _); [destruct (Token.Issue _ _)|].
  - apply (within_perform (S := Server) 5).
    intros [u|e]; [apply (within_mono 4), writeJSON_spends; lia|apply respondStoreError_spends].
  - apply (within_perform 5). intros ?. apply (within_mono 4), writeJSON_spends. lia.
  - apply (within_perform 5). intros ?. apply (within_mono 4), writeJSON_spends. lia.
Qed.

Lemma verify_consumed_spends ch consumed now : spends 8 (verify_consumed keys d ch consumed now).
Proof.
  unfold verify_consumed. destruct (_ || _).
  { apply (within_perform 7). intros ?. apply (within_mono 5), respondError_spends. lia. }
  apply (within_bind _ (λ _, 6%nat)).
  - unfold VerifyClient. destruct (baseAccountID _); [|simpl; lia].
    apply (within_bind _ (λ _, 6%nat)); [|by simpl]. apply within_embed. unfold FetchAccount.
    case_match; [|simpl; lia]. case_match; [|simpl; lia].
    apply (within_perform (S := Fetch) 7). intros [resp|]; simpl; intros; lia.
  - intros [found|]; [apply issue_session_spends|]. apply (within_mono 5), respondError_spends. lia.
Qed.

Lemma postAuthHandler_spends r : spends 11 (postAuthHandler keys d r).
Proof.
  unfold postAuthHandler. destruct (readTransactionField r); [|apply (within_mono 4), writeJSON_spends; lia].
  apply (within_perform 10). intros reading.
  destruct (ReadChallenge _ _ _ _ _ _); [|apply (within_mono 5), respondError_spends; lia].
  apply (within_perform 9). intros now.
  apply (within_bind _ (λ r, match r with Ok _ => 8 | Err _ => 7 end)%nat).
  - apply within_embed. unfold ConsumeChallenge. apply (within_perform (S := SQL) 8). intros x.
    destruct (query_row _ _) as [|[]]; simpl; intros; lia.
  - intros [consumed|]; [apply verify_consumed_spends|]. apply (within_mono 5), respondStoreError_spends. lia.
Qed.

(** The most operations a request takes: eight in the chain, and those of its handler. *)
Definition most : list ((string * string) * nat) :=
  [(("GET", "/health"), 8 + 6); (("GET", "/auth"), 8 + 16); (("POST", "/auth"), 8 + 11);
   (("GET", "/.well-known/stellar.toml"), 8 + 5)]%string%nat.

(** A handler leaves four operations for the line of the log, or five for a panic. *)
Abbreviation handler_spends n h := (within n (λ q, match q with None => 4 | Some _ => 5 end)%nat h).

Lemma HandlerFunc_spends n h r : spends n (h r) → handler_spends (4 + n) (HandlerFunc h r).
Proof.
  intros Hh. unfold HandlerFunc. apply (within_bind _ (λ _, 4%nat)); [|by simpl].
  revert Hh. generalize (h r). intros p. revert n. induction p as [a|o f IH]; intros n; simpl; [lia|].
  destruct n; [done|]. intros H x. apply IH, H.
Qed.

Lemma handler_bound toml key bound :
  (key, bound) ∈ most → ∃ h n, (key, h) ∈ routes keys d toml ∧ (bound = 4 + n)%nat ∧ (8 ≤ n)%nat ∧
    ∀ r, handler_spends n (h r).
Proof.
  unfold most, routes. rewrite !elem_of_cons, elem_of_nil.
  intros [[= -> ->]|[[= -> ->]|[[= -> ->]|[[= -> ->]|[]]]]]; eexists; [exists 10%nat|exists 20%nat|exists 15%nat|exists 9%nat].
  - split; [apply list_elem_of_here|]. split; [done|]. split; [lia|]. intros r. apply HandlerFunc_spends.
    apply (within_perform 5). intros [u|e]; [apply (within_mono 4), writeJSON_spends; lia|].
    apply (within_perform 4). intros ?. apply writeJSON_spends.
  - split; [apply list_elem_of_further, list_elem_of_here|]. split; [done|]. split; [lia|]. intros r.
    apply HandlerFunc_spends, getAuthHandler_spends.
  - split; [do 2 apply list_elem_of_further; apply list_elem_of_here|]. split; [done|]. split; [lia|].
    intros r. apply HandlerFunc_spends, postAuthHandler_spends.
  - split; [do 3 apply list_elem_of_further; apply list_elem_of_here|]. split; [done|]. split; [lia|].
    intros r. apply HandlerFunc_spends. simpl. intros _ _ _ [u|e]; simpl; intros; lia.
Qed.

(** The chain adds four operations before the handler. *)
Lemma chain_spends n trust (next : Handler) r :
  (8 ≤ n)%nat → (∀ id, handler_spends n (next (capped (seen trust r id)))) →
  spends (4 + n) (foldr (λ mw h, mw h) next (chain trust) r).
Proof.
  intros Hn Hnext.
  assert (Hlimit : ∀ r, handler_spends n (next r) → handler_spends (2 + n) (limit next r)).
  { intros r0 He. apply (within_perform (1 + n)). intros now. apply (within_perform n). intros [|]; [exact He|].
    apply (within_bind _ (λ _, n - 4)%nat); [|by simpl; lia].
    assert (Hw : ∀ m, within (4 + m) (λ _, m) (writeError StatusTooManyRequests "too many requests")).
    { intros m. unfold writeError, writeJSON. destruct (Marshal _); simpl; [|by intros].
      intros _ _ [u|e]; simpl; intros; lia. }
    specialize (Hw (n - 4)%nat). by replace (4 + (n - 4))%nat with n in Hw by lia. }
  assert (Hrec : ∀ r, handler_spends n (next (capped r)) →
    spends (3 + n) (recoverPanic (requestLogger (limitBody (limit next))) r)).
  { intros r0 He. unfold recoverPanic.
    apply (within_bind _ (λ q, match q with None => 0 | Some _ => 5 end)%nat).
    - apply (within_perform (2 + n)). intros started.
      apply (within_bind _ (λ q, match q with None => 4 | Some _ => 5 end)%nat); [by apply (Hlimit (capped r0))|].
      intros [q|]; [simpl; lia|]. simpl. intros. lia.
    - intros [[|v]|]; [simpl; lia| |simpl; lia]. apply (within_perform 4). intros ?.
      apply (within_bind _ (λ _, O)); [apply writeJSON_spends|by simpl]. }
  destruct trust; apply (within_perform (3 + n)); intros id; apply Hrec, Hnext.
Qed.
End parts.

(** ** Property *)

Section property.
Context {Sd : SDK} {HL : HorizonLib} {TL : TomlLib} {J : Token.JWT} {Px : Pgx}.
Context {WL : WebLib} {C : Chi} {CL : ChiLaws C}.

(** Every request to a route ends: whatever the clock, the database, Horizon, a
    wallet's host that redirects for ever and the SDK answer, no run, finished or
    not, of GET /health has more than 14 operations, of GET /auth more than 24, of
    POST /auth more than 19 and of the SEP-1 file more than 13, the response and
    the line of the log included.  The redirect loop, the only loop on the way,
    ends by the resolver's own policy: a client that would follow any number of
    redirects does exactly what one that makes three requests does. (claim C9) *)
Theorem requests_terminate keys c issuer fetcher toml r bound :
  Challenge.NewIssuer (issuer_config c) = Ok issuer →
  ((r_Method r, r_Path r), bound) ∈
    [(("GET", "/health"), 14); (("GET", "/auth"), 24); (("POST", "/auth"), 19);
     (("GET", "/.well-known/stellar.toml"), 13)]%string%nat →
  (∀ tr q, steps (ServeHTTP (site keys c issuer fetcher toml) r) tr q → (length tr ≤ bound)%nat) ∧
  ∀ fuel req, (3 ≤ fuel)%nat →
    client_Do fuel (r_client (NewResolver (resolver_config c))) req 0 ≡
    client_Do 3 (r_client (NewResolver (resolver_config c))) req 0.
Proof.
  intros Hi Hroute. split.
  - intros tr q Hs. destruct (handler_bound c issuer fetcher keys Hi toml _ _ Hroute) as (h & n & Hh & -> & Hn & Hspend).
    apply (steps_within _ (λ _, O) _ _ _ Hs).
    apply (chain_spends n); [done|]. intros id. destruct (seen_route (cfg_TrustProxyHeaders c) r id) as (Hm & Hp & _).
    cbn [site route_table].
    rewrite (dispatch_routed _ _ h (routes_static _ _ _) (routes_nodup _ _ _)); [apply Hspend|].
    cbn [r_Method r_Path capped with_Body]. by rewrite Hm, Hp.
  - intros fuel req Hf. exact (client_Do_fuel fuel _ req 0 ltac:(lia) ltac:(lia)).
Qed.
End property.
