(* ===== verification/Scenario.v ===== *)
(** * A login, run

    Concrete instances of every library the server calls, a configuration, and
    an execution of the whole server: Alice asks for a challenge through her
    wallet, posts it signed, and a copy of her post arrives as well.  The
    theorems on handlers, router and server are applied to it. *)

From Stdlib Require Import QArith.
From S2P Require Import Prelude GoStd GoText Errors Effects Interleaving Budget Stellar SdkDemo.
From S2P Require Import Signatures ReadChallenge Verify Schema Store StoreAdmin Http Account.
From S2P Require Import ClientDomain World HttpApi RateLimit Config Router Authd System Termination.
From S2P Require Token Challenge.
Open Scope Z_scope.

(** ** Instances *)

Definition posted : string := "signed challenge".

(** Bodies are told apart by a word; a query is the account's name. *)
#[global] Instance demo_web : WebLib := {|
  Marshal b := Ok match b with
               | errorBody t => "error: " +:+ t
               | challengeResponse _ _ => "challenge"
               | tokenResponse _ => "token"
               | healthResponse s _ => "health: " +:+ s
               end;
  ParseMediaType t := if t =s "" then Err (New "mime: no media type") else Ok t;
  DecodeTransaction b :=
    if body_content b =s posted then Ok (Demo.tx_text Sample.with_domain)
    else Err (New "invalid character");
  ParseQuery q :=
    if q =s "alice" then [("account", Sample.client); ("client_domain", Sample.domain)]%string else [];
  ParseForm _ _ _ b := Ok [("transaction"%string, body_content b)];
|}.

(** The first pattern that is the path asked for. *)
Fixpoint match_exactly (ps : list (string * string)) (m p : string) : option nat :=
  match ps with
  | [] => None
  | k :: ps => if bool_decide (k = (m, p)) then Some O else Datatypes.S <$> match_exactly ps m p
  end.

#[global] Instance demo_chi : Chi := {|
  RealIP r := r;
  Match := match_exactly;
  Unrouted r := Vis (S := Server) (WriteHeader 404) (λ _, Ret None);
|}.

#[global] Instance demo_chi_laws : ChiLaws demo_chi.
Proof.
  split; simpl.
  - intros ps m p i _. revert i. induction ps as [|k ps IH]; intros i; simpl; [done|].
    case_bool_decide as Hk; [by intros [= <-]; subst|].
    destruct (match_exactly ps m p) as [j|]; simpl; [|done]. intros [= <-]. by apply IH.
  - intros ps m p _. induction ps as [|k ps IH]; [by intros ?%elem_of_nil|]. simpl.
    intros [->|H]%elem_of_cons; [by rewrite bool_decide_eq_true_2|].
    case_bool_decide; [by eexists|]. destruct (IH H) as [j ->]. by eexists.
  - by intros [].
  - done.
Qed.

Definition demo_file (path : string) : result error bytes :=
  if path =s "/etc/stellar.toml" then Ok "SIGNING_KEY=${SIGNING_KEY}"
  else Err (New "no such file or directory").

(** ** The server *)

Definition conf : Config :=
  MkConfig "Sserver" Sample.server Sample.net "https://horizon.example" Sample.web
    ["example.com"; "other.example"]%string (300 * Second) "0123456789abcdef0123456789abcdef"
    "https://auth.example" (Hour + 30 * Minute) false [] (5 * Minute) "postgres://db/anchorage" ":8080"
    "/etc/stellar.toml" false.

Lemma conf_loads : Load demo_env = Ok conf.
Proof. vm_compute. reflexivity. Qed.

Definition conf_resolver : ClientDomain.Resolver := NewResolver (resolver_config conf).
Definition conf_issuer : Challenge.Issuer (S := Server) :=
  Challenge.MkIssuer (issuer_config conf) "server" (list_to_set (cfg_HomeDomains conf)) "example.com"
    (resolver_api conf_resolver).
Definition conf_fetcher : Fetcher := MkFetcher "https://horizon.example" (MkHTTPClient defaultTimeout).

Lemma conf_issuer_ok : Challenge.NewIssuer (issuer_config conf) = Ok conf_issuer.
Proof. reflexivity. Qed.

Definition conf_toml : bytes := "SIGNING_KEY=Gserver".
Definition conf_site : Mux := site demo_keys conf conf_issuer conf_fetcher conf_toml.

(** ** The requests *)

Definition from_alice (id method ct body query : string) : Request :=
  MkRequest id method "/auth" "192.0.2.1:4242" query ct (MkBody body None).

Definition ask : Request := from_alice "" "GET" "" "" "alice".
Definition answer_challenge : Request := from_alice "" "POST" "application/json" posted "".
Definition garbled : Request := from_alice "" "POST" "text/plain" posted "".

(** ** The world around the server *)

(** The clock stands still, every statement is served, Horizon knows Alice, her
    wallet publishes its key, and the SDK draws one nonce. *)
Definition wallet_answers (c : cache) (o : resolver_op) : resolver_res o * cache :=
  match o with
  | Cached d => (cached_at (fromUnix 1010) d c, c)
  | ClientDomain.Store d key => (tt, store_at (ttl conf_resolver) (fromUnix 1010) d key c)
  | RoundTrip _ => (Ok (MkResponse 200 (MkBody Sample.wallet None) None), c)
  | CloseBody => (tt, c)
  end.

Definition built (args : ChallengeArgs) : result string Transaction :=
  match Challenge.demo_build args with
  | Ret r => r
  | Vis o _ => match o : Empty_set with end
  end.

Definition answers (w : world) (o : server_op) : server_res o * world :=
  match o with
  | TimeNow => (fromUnix 1010, w)
  | Sql s =>
      let '(r, d) := serve_all demo_driver (w_db w) s in (r, World d (w_cache w) (w_limiter w))
  | Horizon (Do _ _) => (Ok (demo_response 200 "alice"), w)
  | Horizon Account.CloseBody => (tt, w)
  | Wallet o =>
      let '(r, c) := wallet_answers (w_cache w) o in (r, World (w_db w) c (w_limiter w))
  | BuildTx args => (built args, w)
  | PoolPing => (Ok tt, w)
  | SetHeader _ _ | WriteHeader _ | Log _ _ _ => (tt, w)
  | Write _ => (Ok tt, w)
  | NewRequestID => ("req-1"%string, w)
  | Allow key now =>
      let '(ok, l) := allow (w_limiter w) key now in (ok, World (w_db w) (w_cache w) l)
  | WrappedStatus | WrappedBytes => (0, w)
  end.

Lemma wstep_allow_eq d c l key now ok l' :
  allow l key now = (ok, l') →
  wstep conf_resolver (World d c l) (Ev (S := Server) (Allow key now) ok) (World d c l').
Proof.
  intros E. pose proof (wstep_allow conf_resolver d c l key now) as H. rewrite E in H. exact H.
Qed.

Lemma answers_step w o :
  wstep conf_resolver w (Ev (S := Server) o (answers w o).1) (answers w o).2.
Proof.
  destruct w as [d c l]. destruct o as [|s|[|]|o| | | | | | | |key now| |]; try (by apply wstep_other).
  - cbn [answers w_db w_cache w_limiter].
    pose proof (serve_all_serve demo_driver d s demo_driver_foreign) as Hs.
    destruct (serve_all demo_driver d s) as [r d']. by constructor.
  - cbn [answers w_db w_cache w_limiter]. destruct (wallet_answers c o) as [r c'] eqn:Ho. constructor.
    destruct o; simpl in Ho; injection Ho as <- <-; constructor.
  - cbn [answers w_db w_cache w_limiter]. destruct (allow l key now) as [ok l'] eqn:E.
    by apply wstep_allow_eq.
Qed.

(** Alice's request, her answer, a copy of it, and a sweep. *)
Definition jobs : list job := [Serve ask; Serve answer_challenge; Serve answer_challenge; Sweep 0].

Definition start : world := World migrated ∅ (newRateLimiter requestsPerMinute).

Definition execution : list (nat * event Server) * list (prog Server (option panic)) * world :=
  run_pool (S := Server) answers
    (replicate 30 0 ++ [1; 2] ++ replicate 40 1 ++ [3] ++ replicate 40 2)%nat
    (run_job conf_site <$> jobs) start.

Definition returned (q : option (prog Server (option panic))) : bool :=
  match q with Some (Ret None) => true | _ => false end.

Lemma execution_spec :
  ∃ tr qs w', execution = (tr, qs, w') ∧
    interleave (run_job conf_site <$> jobs) tr qs ∧
    consistent (wstep conf_resolver) start tr.*2 w'.
Proof.
  pose proof (run_pool_spec (S := Server) (wstep conf_resolver) answers
    (replicate 30 0 ++ [1; 2] ++ replicate 40 1 ++ [3] ++ replicate 40 2)%nat
    (run_job conf_site <$> jobs) start answers_step) as H.
  unfold execution. destruct (run_pool _ _ _ _) as [[tr qs] w']. destruct H as [H1 H2].
  by exists tr, qs, w'.
Qed.

(** What came of it: the challenge went out, the first answer bought a token,
    its copy did not, one nonce was drawn and one account looked up. *)
Lemma execution_outcome :
  let '(tr, qs, w') := execution in
  returned (qs !! 0%nat) && returned (qs !! 1%nat) && returned (qs !! 2%nat) && returned (qs !! 3%nat) = true ∧
  statuses (thread_events 0 tr) = [200] ∧ statuses (thread_events 1 tr) = [200] ∧
  statuses (thread_events 2 tr) = [401] ∧
  count (draws Sample.nonce) tr.*2 = 1%nat ∧
  count (λ ev : event Server, looks_up (ev_op ev)) tr.*2 = 1%nat.
Proof. vm_compute. repeat split; reflexivity. Qed.

(** ** Witnesses: the server under concurrent requests *)

Definition from_execution (P : list (nat * event Server) → list (prog Server (option panic)) → world → bool) : bool :=
  let '(tr, qs, w') := execution in P tr qs w'.

Lemma from_execution_spec tr qs w' P :
  execution = (tr, qs, w') → from_execution P = true → P tr qs w' = true.
Proof. unfold from_execution. by intros ->. Qed.

Lemma returned_ret q : returned q = true → ∃ p, q = Some (Ret p).
Proof. destruct q as [[[p|]|]|]; try done. by exists None. Qed.

Lemma answered_200 tr qs w' i r :
  execution = (tr, qs, w') →
  from_execution (λ tr qs _, returned (qs !! i) && bool_decide (200 ∈ statuses (thread_events i tr))) = true →
  jobs !! i = Some (Serve r) → r_Method r = "POST"%string → r_Path r = "/auth"%string →
  token_sent jobs tr qs i r.
Proof.
  unfold from_execution. intros -> H Hj Hm Hp. apply andb_true_iff in H as [Hr Hs].
  apply bool_decide_eq_true in Hs. by apply returned_ret in Hr.
Qed.

Lemma challenge_presented : presents conf conf_issuer answer_challenge demo_challenge.
Proof.
  exists (Demo.tx_text Sample.with_domain), (fromUnix 1010). split; [reflexivity|].
  vm_compute. reflexivity.
Qed.

Lemma tokens_cost_a_nonce_witness :
  ∃ tr qs w', interleave (run_job conf_site <$> jobs) tr qs ∧
    consistent (wstep conf_resolver) start tr.*2 w' ∧ token_sent jobs tr qs 1 answer_challenge ∧
    (length [1%nat] ≤ (if live Sample.nonce (w_db start) then 1 else 0) +
                      count (draws Sample.nonce) tr.*2)%nat.
Proof.
  destruct execution_spec as (tr & qs & w' & He & Hil & Hc).
  assert (Hs : token_sent jobs tr qs 1 answer_challenge)
    by (apply (answered_200 tr qs w' 1 _ He); [vm_compute|..]; reflexivity).
  exists tr, qs, w'. split; [exact Hil|]. split; [exact Hc|]. split; [exact Hs|].
  apply (tokens_cost_a_nonce conf_resolver conf conf_issuer conf_fetcher demo_keys conf_toml jobs tr qs
    start w' Sample.nonce [1%nat] conf_issuer_ok Hil Hc (NoDup_singleton _)).
  intros i ->%list_elem_of_singleton. exists answer_challenge, demo_challenge.
  exact (conj Hs (conj challenge_presented eq_refl)).
Defined.

Lemma lookups_cost_a_challenge_witness :
  ∃ tr qs, interleave (run_job conf_site <$> jobs) tr qs ∧
    (count (λ ev : event Server, looks_up (ev_op ev)) (thread_events 1 tr) ≤
     count (on_sql any_consumed) (thread_events 1 tr))%nat.
Proof.
  destruct execution_spec as (tr & qs & w' & _ & Hil & _). exists tr, qs. split; [exact Hil|].
  exact (proj2 (lookups_cost_a_challenge conf conf_issuer conf_fetcher demo_keys conf_toml jobs tr qs
    conf_issuer_ok Hil) 1%nat).
Defined.

(** The token is for the account the GET asked for: Alice's. *)
Lemma login_sound_witness :
  ∃ tr qs j g consumed now signed,
    token_sent jobs tr qs 1 answer_challenge ∧
    logged_in conf conf_issuer conf_fetcher demo_keys answer_challenge (thread_events 1 tr)
      demo_challenge consumed now signed ∧
    jobs !! j = Some (Serve g) ∧ Get "account" (ParseQuery (r_RawQuery g)) = Sample.client.
Proof.
  destruct execution_spec as (tr & qs & w' & He & Hil & Hc).
  assert (Hs : token_sent jobs tr qs 1 answer_challenge)
    by (apply (answered_200 tr qs w' 1 _ He); [vm_compute|..]; reflexivity).
  destruct (login_sound conf_resolver conf conf_issuer conf_fetcher demo_keys conf_toml jobs tr qs start w'
    1 answer_challenge demo_challenge conf_issuer_ok Hil Hc Hs challenge_presented (lookup_empty _))
    as (consumed & now & signed & j & g & expires & home & Hlog & Hg & _ & _ & Ha & _).
  exists tr, qs, j, g, consumed, now, signed. exact (conj Hs (conj Hlog (conj Hg Ha))).
Defined.

(** Three requests from one address, let through by a fresh limiter. *)
Lemma admitted_requests_bounded_witness :
  ∃ tr qs w' before, interleave (run_job conf_site <$> jobs) tr qs ∧
    consistent (wstep conf_resolver) start tr.*2 w' ∧
    w_limiter start = (allow_all (newRateLimiter requestsPerMinute) before).2 ∧
    (∀ i, i ∈ [0%nat; 1%nat; 2%nat] → let_through jobs tr "192.0.2.1" i) ∧
    (inject_Z (Z.of_nat (length [0%nat; 1%nat; 2%nat])) <=
     60 + sec (latest (fromUnix 1010) (omap allow_event tr.*2).*1 - fromUnix 1010) +
     5 * eps * inject_Z (Z.of_nat (length (of_key "192.0.2.1" (omap allow_event tr.*2).*1))))%Q.
Proof.
  destruct execution_spec as (tr & qs & w' & He & Hil & Hc).
  assert (Hgot : ∀ i, i ∈ [0%nat; 1%nat; 2%nat] → let_through jobs tr "192.0.2.1" i).
  { assert (Hall : from_execution (λ tr _ _,
      existsb said_yes (thread_events 0 tr) && existsb said_yes (thread_events 1 tr) &&
      existsb said_yes (thread_events 2 tr)) = true) by (vm_compute; reflexivity).
    apply (from_execution_spec _ _ _ _ He) in Hall.
    apply andb_true_iff in Hall as [Hall H2]. apply andb_true_iff in Hall as [H0 H1].
    apply existsb_exists in H0 as (e0 & Hin0%list_elem_of_In & H0), H1 as (e1 & Hin1%list_elem_of_In & H1),
      H2 as (e2 & Hin2%list_elem_of_In & H2).
    intros i [->|[->| ->%list_elem_of_singleton]%elem_of_cons]%elem_of_cons;
      [exists ask, e0|exists answer_challenge, e1|exists answer_challenge, e2]; by split_and!. }
  exists tr, qs, w', []. split; [exact Hil|]. split; [exact Hc|]. split; [reflexivity|]. split; [exact Hgot|].
  assert (Hclock : clock_near (fromUnix 1010) (fromUnix 1010) (omap allow_event tr.*2).*1).
  { assert (Hw : from_execution (λ tr _ _, forallb (λ e, e.2 =? fromUnix 1010) (omap allow_event tr.*2).*1) = true)
      by (vm_compute; reflexivity).
    apply (from_execution_spec _ _ _ _ He) in Hw. cbv beta in Hw. revert Hw. generalize (omap allow_event tr.*2).*1.
    intros l. induction l as [|[k t] l IH]; [done|]. simpl. intros [Ht Hl]%andb_true_iff.
    apply Z.eqb_eq in Ht as ->. rewrite Z.max_id. split; [done|]. split; [by vm_compute|by apply IH]. }
  apply (proj1 (admitted_requests_bounded conf_resolver conf conf_issuer conf_fetcher demo_keys conf_toml jobs tr qs
    start w' "192.0.2.1" (fromUnix 1010) [] eq_refl Hil Hc eq_refl Hclock)); [|exact Hgot].
  apply (bool_decide_eq_true_1 _). reflexivity.
Defined.

(** ** Witnesses: the handlers and the router *)

Abbreviation conf_deps := (site_deps conf conf_issuer conf_fetcher).

(** A program run in the world of the scenario. *)
Lemma runs_here {A} (p : prog Server A) (w : world) :
  ∃ tr a, runs p tr a.
Proof. eexists _, _. apply (run_trace_runs (S := Server) answers p w). Qed.

Lemma conf_silent : silent_deps conf_deps.
Proof. exact (site_silent conf conf_issuer conf_fetcher conf_issuer_ok). Qed.

(** A fresh database knows no challenge: the answer fails at the store. *)
Lemma postAuthHandler_outcome_witness :
  ∃ tr work out status body, runs (postAuthHandler demo_keys conf_deps answer_challenge) tr tt ∧
    tr = work ++ out ∧ Forall (λ ev : event Server, writes (ev_op ev) = false) work ∧
    response out status body ∧
    (post_failed demo_keys conf_deps answer_challenge work (status, body) ∧ error_wire (status, body) ∨
     ∃ c consumed now signed,
       authenticated demo_keys conf_deps answer_challenge work c consumed now signed ∧
       (status, body) = wire_json 200 (tokenResponse signed)).
Proof.
  destruct (runs_here (postAuthHandler demo_keys conf_deps answer_challenge) start) as (tr & [] & H).
  destruct (postAuthHandler_outcome demo_keys conf_deps answer_challenge tr conf_silent H)
    as (work & out & status & body & ?).
  exists tr, work, out, status, body. split; [exact H|assumption].
Defined.

Lemma getAuthHandler_outcome_witness :
  ∃ tr work out status body, runs (getAuthHandler conf_deps ask) tr tt ∧
    tr = work ++ out ∧ Forall (λ ev : event Server, writes (ev_op ev) = false) work ∧
    response out status body.
Proof.
  destruct (runs_here (getAuthHandler conf_deps ask) start) as (tr & [] & H).
  destruct (getAuthHandler_outcome conf_deps ask tr conf_silent H) as (work & out & status & body & H1 & H2 & H3 & _).
  exists tr, work, out, status, body. exact (conj H (conj H1 (conj H2 H3))).
Defined.

Definition conf_router_deps : RouterDeps :=
  MkRouterDeps (Some tt) (Some conf_issuer) (Some (Token.MkIssuer (token_config conf)))
    (Some (accounts_api conf_fetcher)) (Some store_api) (Some health_api) Sample.net Sample.web
    (cfg_HomeDomains conf) "/etc/stellar.toml" Sample.server false.

Lemma NewRouter_serves_witness :
  ∃ tr p d toml, runs (ServeHTTP conf_site answer_challenge) tr p ∧ wired conf_router_deps d ∧
    loadTOML demo_file "/etc/stellar.toml" Sample.server = Ok toml ∧
    (((r_Method answer_challenge, r_Path answer_challenge), HandlerFunc (postAuthHandler demo_keys d))
       ∈ routes demo_keys d toml → p = None).
Proof.
  destruct (runs_here (ServeHTTP conf_site answer_challenge) start) as (tr & p & H).
  assert (HR : NewRouter demo_keys demo_file conf_router_deps =
    Ok (conf_site, newRateLimiter requestsPerMinute)) by reflexivity.
  destruct (NewRouter_serves demo_keys demo_file conf_router_deps _ _ _ tr p HR H)
    as (d & toml & Hw & Ht & Hs).
  exists tr, p, d, toml. split; [exact H|]. split; [exact Hw|]. split; [exact Ht|].
  intros Hin. exact (proj1 (Hs _ Hin)).
Defined.

(** The longest GET: the wallet's host redirects twice before it answers, the
    database refuses the insert, and the client is gone when the 503 is written. *)
Definition slow_answers (redirects : nat) (o : server_op) : server_res o * nat :=
  match o with
  | TimeNow => (fromUnix 1010, redirects)
  | Sql s => (Err (New "connection refused"), redirects)
  | Horizon (Do _ _) => (Err (New "connection refused"), redirects)
  | Horizon Account.CloseBody => (tt, redirects)
  | Wallet (Cached _) => (None, redirects)
  | Wallet (ClientDomain.Store _ _) => (tt, redirects)
  | Wallet (RoundTrip _) =>
      match redirects with
      | O => (Ok (MkResponse 200 (MkBody Sample.wallet None) None), O)
      | Datatypes.S n => (Ok (MkResponse 302 (MkBody "" None) (Some ("https", "wallet.example")%string)), n)
      end
  | Wallet CloseBody => (tt, redirects)
  | BuildTx args => (built args, redirects)
  | PoolPing => (Ok tt, redirects)
  | SetHeader _ _ | WriteHeader _ | Log _ _ _ => (tt, redirects)
  | Write _ => (Err (New "broken pipe"), redirects)
  | NewRequestID => ("req-1"%string, redirects)
  | Allow _ _ => (true, redirects)
  | WrappedStatus | WrappedBytes => (0, redirects)
  end.

Lemma requests_terminate_witness :
  ∃ tr p, steps (ServeHTTP conf_site ask) tr (Ret p) ∧ length tr = 24%nat ∧ (length tr ≤ 24)%nat.
Proof.
  pose proof (run_trace_runs (S := Server) slow_answers (ServeHTTP conf_site ask) 2%nat) as H.
  assert (Hlen : length (run_trace (S := Server) slow_answers (ServeHTTP conf_site ask) 2%nat).1 = 24%nat)
    by (vm_compute; reflexivity).
  destruct (run_trace _ _ _) as [tr p]. exists tr, p. apply runs_steps in H.
  split; [exact H|]. split; [exact Hlen|].
  refine (proj1 (requests_terminate demo_keys conf conf_issuer conf_fetcher conf_toml ask 24%nat conf_issuer_ok _)
    tr _ H).
  apply list_elem_of_further, list_elem_of_here.
Defined.

(** A table whose one handler panics with a message. *)
Definition panicking : list ((string * string) * Handler) :=
  [(("POST", "/auth"), λ _, Ret (Some (PanicValue (AStr "nil map"))))]%string.

Lemma chain_contains_panics_witness :
  ∃ tr p, runs (ServeHTTP (MkMux (chain false) panicking) answer_challenge) tr p ∧
    through false (dispatch panicking) answer_challenge tr p ∧ ∀ v, p ≠ Some (PanicValue v).
Proof.
  destruct (runs_here (ServeHTTP (MkMux (chain false) panicking) answer_challenge) start) as (tr & p & H).
  exists tr, p. split; [exact H|]. exact (chain_contains_panics false panicking answer_challenge tr p H).
Defined.

(** ** Witnesses: the process *)

Lemma loaded_configuration_starts_witness :
  Load demo_env = Ok conf ∧ loadTOML demo_file (cfg_TOMLPath conf) (cfg_SigningPublicKey conf) = Ok conf_toml ∧
  ∃ issuer fetcher, Challenge.NewIssuer (issuer_config conf) = Ok issuer ∧
    (let? deps := assemble conf in NewRouter demo_keys demo_file deps) =
      Ok (site demo_keys conf issuer fetcher conf_toml, newRateLimiter 60).
Proof.
  assert (Ht : loadTOML demo_file (cfg_TOMLPath conf) (cfg_SigningPublicKey conf) = Ok conf_toml)
    by (vm_compute; reflexivity).
  pose proof (loaded_configuration_starts demo_env demo_file demo_keys conf conf_loads) as H.
  rewrite Ht in H. destruct H as (issuer & fetcher & Hi & _ & _ & HR).
  split; [exact conf_loads|]. split; [exact Ht|]. exists issuer, fetcher. exact (conj Hi HR).
Defined.

(** The database answers, a signal arrives, the server drains. *)
Definition process_answers (w : unit) (o : main_op) : main_res o * unit :=
  (match o return main_res o with
   | Administer o =>
       match o return admin_res o with
       | NewPool _ | PingPool | NewIofs | NewMigrate _ => Ok tt
       | MigrateUp => Err ErrNoChange
       | AwaitTick | CtxErr => false
       | NowUTC => 0
       | Statement s => Err (New "not connected")
       | _ => tt
       end
   | Select => CtxDone
   | ShutDown _ => Ok tt
   | _ => tt
   end, tt).

Lemma run_safe_witness :
  ∃ tr r, runs (run demo_keys demo_file demo_env) tr r ∧
    count pool_opened tr = 1%nat ∧ count pool_opened tr = count pool_closed tr ∧
    count notified tr = count stopped tr.
Proof.
  pose proof (run_trace_runs (S := Main) process_answers (run demo_keys demo_file demo_env) tt) as H.
  assert (H1 : count pool_opened (run_trace (S := Main) process_answers (run demo_keys demo_file demo_env) tt).1 = 1%nat)
    by (vm_compute; reflexivity).
  destruct (run_trace _ _ _) as [tr r]. exists tr, r. split; [exact H|]. split; [exact H1|].
  destruct (run_safe demo_keys demo_file demo_env tr r H) as (H2 & H3 & _). exact (conj H2 H3).
Defined.
